(* ===== verification/_CoqProject ===== *)
-Q . S2P
Prelude.v
CMem.v
Traces.v
DnsName.v
DnsServer.v
DnsResources.v
DnsTypes.v
DnsRelay.v
DnsSafety.v
DnsTermination.v
DnsMain.v
Checksum.v
Ping.v
Ping6.v
Heap.v
LinkedList.v
MyList.v
ListSort.v
AddList.v
Tree.v
Bst.v
LevelOrder.v
BstSearch.v
Mirror.v
MaxPath.v
Threads.v
AlternatePrint.v
MutexPrint.v
Turns.v
ProdConsumer.v
Barrier.v
SemUsage.v
Strings.v
Small.v
