(* ===== verification/Prelude.v ===== *)
(** * Padhai: a verification of the programs of the repository

    The repository is a collection of C programs that share no code: a DNS
    forwarder on libevent ([src/sample_dns_server]), three pings ([src/ICMP_ping]),
    programs on linked lists and binary trees, threads with mutexes, condition
    variables and semaphores, two programs on strings and three demonstrations.
    This library models each of them function by function and proves what it
    does, including where it has no defined behaviour.

    ** How C is modelled

    This file: [res], the outcome of a computation (a value, undefined behaviour
    of a stated kind, or fuel exhausted), [prog], computations over a state, and
    their monads.  A loop or recursion takes fuel; [returns] says that from some
    fuel on there is a result, and the theorems either give the fuel that is
    enough or state [returns].  Integers are Z with the wrap-around ([u8],
    [u16], [u32]) and the overflow of [int] ([add_int]) written out.
    - CMem.v: blocks of bytes with checked reads and writes, the string
      functions, byte order, and the contract of [malloc] ([Allocator]).
    - Heap.v: linked nodes; freed locations are kept as such, so that a use
      after [free] is a fault; uninitialised pointers; arrays of pointers.
    - Traces.v: rules for what a program over a trace appends to it.
    - Threads.v: step relations, invariants of every interleaving, ends of runs,
      and the [main] that creates and joins two threads.

    ** The DNS forwarder

    - DnsName.v: the routines of [utils.c] on names: [verify_and_copy_qname],
      the conversion of labels to dots, [ChangetoDnsNameFormat] and
      [uncompress_name], with their round trip, the refinement of name
      decompression, and the inputs they do not survive.
    - DnsServer.v: [verify_dns_buffer], [read_and_print_dns_header],
      [send_data_to_dns] of [utils.c] and [on_recv] of [server.c] as programs
      over the trace of what they print, send, allocate and release.  The
      answers of the operating system are a parameter.
    - DnsResources.v: what is allocated and opened is released, and the one
      path on which it is not.
    - DnsTypes.v: the integers of the model stay in the range of their C types.
    - DnsRelay.v: whatever arrives and is answered, to whom [on_recv] sends, in
      which order, and which bytes of the datagrams it has received.
    - DnsSafety.v: the trace of a request that is served; the bound checks;
      the requests and replies that lead out of an array.
    - DnsTermination.v: when the loop of [uncompress_name] ends: [name_fuel] is
      enough for every name that reaches no cycle of compression pointers before
      its array is full, and for the others no fuel is ([trapped]).  With
      [server_fuel], which is enough for the names of a message in the server's
      buffer, [on_recv] ends exactly unless the reply has such a name where an
      answer begins ([trap], [hangs]).
    - DnsMain.v: [main] of [server.c], from the addresses it tries to the event
      it registers, and the release of socket and event base.  The event loop
      of libevent is a parameter ([EventLoop]), with what its documentation says
      as laws ([EventLoopLaws]); [fifo_loop] is a loop that has them.  What the
      clients are sent in a session in which each query is answered, refused or
      dropped ([handled]), and what a query that is never finished with does.

    ** The pings

    - Checksum.v: [checksum] of the three programs against RFC 1071.
    - Ping.v: [myping.c] and [myping_synchronous.c]: packets, sender, listener.
    - Ping6.v: [ping6_ll.c]: the ICMPv6 checksum over the pseudo-header, the
      frame, the loops that send and receive, [main].

    ** Lists and trees

    - LinkedList.v, MyList.v: [data_struct/linked_list]; ListSort.v: the bubble
      sort of [PS_3.c]; AddList.v: [leetcode/addList.c].  The theorems describe
      the list in memory before and after by its values.
    - Tree.v: trees in memory; Bst.v: [data_struct/bst/bst.c]; LevelOrder.v:
      what a level-order traversal expects of its queue ([PtrQueue],
      [QueueLaws]) and what it prints; BstSearch.v ([bst_insert_search.c]),
      Mirror.v ([bst_mirror.c]) and MaxPath.v ([PS_4.c]) implement that queue in
      three ways and prove how many nodes each one can hold.

    ** Threads

    A step is one library call or one access to shared data.
    - AlternatePrint.v ([alternate_print.c]): with [main], every run ends with
      the mutex and the condition variable free to be destroyed; what it prints.
    - MutexPrint.v ([mutex_alt_print.c]): order of the values, unlocks without
      the lock, and what has been printed when [main] is past its joins; for
      both readings of such an unlock ([lax]), undefined and tolerated.
    - Turns.v: the specification the two share, two threads that take turns, as
      an interface ([TurnTaking]), and its refinement by both.
    - ProdConsumer.v ([prod_consumer.c]): with [main], every run ends in a store
      past the buffer, or with [main] unable to create a thread.
    - Barrier.v ([sem_problem.c]): [main] and the threads it has created so far;
      the six producers meet, and what is printed, but not if
      [pthread_cond_wait] returns spuriously ([hazards]); they stop for good if
      [sem_post] or [sem_wait] fails.  [main] leaves its array of five: with five
      [slots] no meeting is ever held, with six the meetings are those of a
      compiled program in which the store past the array meets nothing.
    - SemUsage.v ([sem_usage.c]): the counts are printed without gap; the program
      never ends but by the overflow of its counter, if its threads can be created.
    The locks succeed, as those of initialised default mutexes do.  So does
    [pthread_join]; [main] of Barrier.v is modelled for every answer of the
    library.

    ** Strings

    Strings.v: the reversal of [reverse_string.c] and the walk of
    [last_ten_lines.c].

    ** Demonstrations

    Small.v: [helloworld.c], [endianchk.c] for both byte orders, and
    [void_ptr_usage.c].

    ** Limits

    Not modelled: exhaustion of memory; the text of debug output and of
    addresses and times; the failures of the thread library that are excluded
    above; accesses of threads are sequentially consistent.
    The resolver and the socket calls are known by what they return, which is an
    argument; so is, in Ping.v, what libevent calls the listener with; a [sendto] that is told to send more than the block holds is
    recorded with that length and the bytes there are.  The byte order is that of x86 except in Small.v, and
    the sizes of structures those of gcc there. *)
From stdpp Require Export base tactics list list_numbers numbers gmap.

(** ** Outcomes of C code *)

(** The ways in which a C expression or statement has no defined behaviour. *)
Inductive fault :=
  | NullDeref
  | OutOfBounds
  | UseAfterFree
  | Uninit
  | SignedOverflow.

#[export] Instance fault_eq_dec : EqDecision fault.
Proof. solve_decision. Defined.

(** A computation ends with a value, reaches undefined behaviour, or has not
    finished within the fuel it was given. *)
Inductive res (A : Type) :=
  | Ok (a : A)
  | UB (f : fault)
  | NoFuel.
Arguments Ok {A} a.
Arguments UB {A} f.
Arguments NoFuel {A}.

#[export] Instance res_ret : MRet res := @Ok.
#[export] Instance res_bind : MBind res := λ A B f m,
  match m with Ok a => f a | UB e => UB e | NoFuel => NoFuel end.

#[export] Instance res_eq_dec {A} `{EqDecision A} : EqDecision (res A).
Proof. solve_decision. Defined.

(** Computations over a state [S]: the whole state is lost on a fault. *)
Definition prog (S A : Type) : Type := S → res (A * S).

#[export] Instance prog_ret {S} : MRet (prog S) := λ A a s, Ok (a, s).
#[export] Instance prog_bind {S} : MBind (prog S) := λ A B f m s,
  match m s with
  | Ok (a, s') => f a s'
  | UB e => UB e
  | NoFuel => NoFuel
  end.

(** A computation that neither reads nor writes the state. *)
Definition lift {S A} (m : res A) : prog S A := λ s,
  match m with Ok a => Ok (a, s) | UB e => UB e | NoFuel => NoFuel end.

Definition fail {S A} (e : fault) : prog S A := λ _, UB e.
Definition get {S} : prog S S := λ s, Ok (s, s).
Definition put {S} (s : S) : prog S unit := λ _, Ok (tt, s).

Section monad_laws.
Context {S A B : Type}.

Lemma bind_ok (m : res A) (f : A → res B) a : m = Ok a → (m ≫= f) = f a.
Proof. by intros ->. Qed.

Lemma bind_inv (m : res A) (f : A → res B) b :
  (m ≫= f) = Ok b → ∃ a, m = Ok a ∧ f a = Ok b.
Proof. destruct m; [by eauto|done|done]. Qed.

Lemma run_bind (m : prog S A) (f : A → prog S B) s a s' :
  m s = Ok (a, s') → (m ≫= f) s = f a s'.
Proof. intros H. unfold mbind, prog_bind. by rewrite H. Qed.

Lemma run_bind_inv (m : prog S A) (f : A → prog S B) s r :
  (m ≫= f) s = Ok r → ∃ a s', m s = Ok (a, s') ∧ f a s' = Ok r.
Proof. unfold mbind, prog_bind. destruct (m s) as [[a s']| |]; [by eauto|done|done]. Qed.

Lemma run_lift (m : res A) (s : S) a : m = Ok a → lift m s = Ok (a, s).
Proof. by intros ->. Qed.
End monad_laws.

(** One step of a monadic program whose first action is known to return. *)
Ltac step H := first
  [ rewrite (bind_ok _ _ _ H)
  | erewrite (run_bind _ _ _ _ _ H)
  | erewrite (run_bind _ _ _ _ _ (run_lift _ _ _ H)) ].

(** ** Traces: programs whose state is the list of what they have done *)

Definition emit {E} (e : E) : prog (list E) unit := λ t, Ok (tt, t ++ [e]).

Lemma emit_bind {E A} (e : E) (k : unit → prog (list E) A) t :
  (emit e ≫= k) t = k tt (t ++ [e]).
Proof. done. Qed.

Lemma lift_bind {S A B} (m : res A) (k : A → prog S B) s a :
  m = Ok a → (lift m ≫= k) s = k a s.
Proof. by intros ->. Qed.

(** One action of a program that does not touch the state. *)
Ltac lstep H := rewrite (lift_bind _ _ _ _ H).

(** ** Fuelled loops *)

(** [returns f a]: from some amount of fuel on, [f] gives the result [a]. *)
Definition returns {A} (f : nat → res A) (a : A) : Prop :=
  ∃ n, ∀ m, n ≤ m → f m = Ok a.

(** [diverges f]: no amount of fuel lets [f] finish. *)
Definition diverges {A} (f : nat → res A) : Prop := ∀ n, f n = NoFuel.

Lemma returns_det {A} (f : nat → res A) a b : returns f a → returns f b → a = b.
Proof.
  intros [n Hn] [m Hm]. specialize (Hn (n + m)). specialize (Hm (n + m)).
  rewrite Hn in Hm by lia. specialize (Hm ltac:(lia)). congruence.
Qed.

Lemma returns_not_diverges {A} (f : nat → res A) a : returns f a → ¬ diverges f.
Proof. intros [n Hn] Hd. specialize (Hn n ltac:(done)). by rewrite Hd in Hn. Qed.

(** A loop unrolled once: [f (S m) = g m] from some point on. *)
Lemma returns_unroll {A} (f g : nat → res A) a :
  (∀ m, f (S m) = g m) → returns g a → returns f a.
Proof.
  intros Heq [n Hn]. exists (S n). intros [|m] Hm; [lia|].
  rewrite Heq. apply Hn. lia.
Qed.

(** [finishes m]: [m] did not run out of fuel (it may have faulted). *)
Definition finishes {A} (m : res A) : Prop := m ≠ NoFuel.

Lemma finishes_bind {A B} (m : res A) (f : A → res B) :
  finishes m → (∀ a, m = Ok a → finishes (f a)) → finishes (m ≫= f).
Proof. unfold finishes. destruct m; simpl; auto. Qed.

Lemma finishes_ret {A} (a : A) : finishes (mret a).
Proof. done. Qed.

Lemma finishes_ok {A} (a : A) : finishes (Ok a).
Proof. done. Qed.

Create HintDb cfin.
#[export] Hint Resolve finishes_bind finishes_ret finishes_ok : cfin.

(** ** Machine integers *)

Local Open Scope Z_scope.

Definition u8 (z : Z) : Z := z mod 2 ^ 8.
Definition u16 (z : Z) : Z := z mod 2 ^ 16.
Definition u32 (z : Z) : Z := z mod 2 ^ 32.

(** A byte read through a (signed) [char]. *)
Definition s8 (z : Z) : Z := if z <? 128 then z else z - 256.

Definition INT_MIN : Z := - 2 ^ 31.
Definition INT_MAX : Z := 2 ^ 31 - 1.

(** Signed [int] arithmetic: defined only when the result fits. *)
Definition int_ok (z : Z) : bool := (INT_MIN <=? z) && (z <=? INT_MAX).
Definition add_int (a b : Z) : res Z :=
  if int_ok (a + b) then Ok (a + b) else UB SignedOverflow.

Definition byte_ok (z : Z) : Prop := 0 <= z < 256.
#[export] Instance byte_ok_dec z : Decision (byte_ok z).
Proof. unfold byte_ok. apply _. Defined.

Lemma u8_byte z : byte_ok (u8 z).
Proof. unfold byte_ok, u8. apply Z.mod_pos_bound. lia. Qed.

Lemma u8_id z : byte_ok z → u8 z = z.
Proof. unfold byte_ok, u8. intros. apply Z.mod_small. lia. Qed.

Lemma u16_id z : 0 <= z < 65536 → u16 z = z.
Proof. unfold u16. intros. apply Z.mod_small. lia. Qed.

Lemma u32_id z : 0 <= z < 4294967296 → u32 z = z.
Proof. unfold u32. intros. apply Z.mod_small. lia. Qed.

Lemma add_int_ok a b : INT_MIN <= a + b <= INT_MAX → add_int a b = Ok (a + b).
Proof.
  intros [H1 H2]. unfold add_int, int_ok.
  by rewrite (proj2 (Z.leb_le _ _) H1), (proj2 (Z.leb_le _ _) H2).
Qed.

(** ** Automation shared by the components *)

(** Takes a computation that has returned apart. *)
Ltac ok_inv :=
  repeat match goal with
  | H : (_ ≫= _) = Ok _ |- _ => apply bind_inv in H as (? & ? & H)
  | H : mret _ = Ok _ |- _ => injection H as H
  | H : Ok _ = Ok _ |- _ => injection H as H
  | H : UB _ = Ok _ |- _ => discriminate H
  | H : NoFuel = Ok _ |- _ => discriminate H
  | H : (_, _) = (_, _) |- _ => injection H as
  | x : (_ * _)%type |- _ => destruct x
  | H : context [match ?x with _ => _ end] |- _ =>
      lazymatch type of H with _ = Ok _ => destruct x eqn:? end
  end; subst.

(** Rewriting of lengths and of list structure. *)
Lemma app_cons_assoc {A} (l : list A) x k : l ++ x :: k = (l ++ [x]) ++ k.
Proof. by rewrite <- app_assoc. Qed.

Lemma app_length_split {A} (l : list A) n :
  (n <= length l)%nat → ∃ l1 l2, l = l1 ++ l2 ∧ length l1 = n.
Proof.
  intros H. exists (take n l), (drop n l). rewrite take_drop, length_take. split; [done|lia].
Qed.

(** Concatenations associated to the right, with the elements in front. *)
Ltac lnorm := repeat (progress (rewrite <- ?app_assoc; cbn [app])).

Create Rewrite HintDb clen.
#[export] Hint Rewrite @length_app @length_cons @length_nil @length_insert
  @length_take @length_drop @length_replicate @length_map @length_fmap : clen.

(** Arithmetic side conditions on lengths and offsets. *)
Ltac len := autorewrite with clen in *; simpl length in *; try lia.

(** Facts on names and buffers used by [auto with cname]. *)
Create HintDb cname.

(** Linear arithmetic with division and remainder by constants. *)
Ltac dm_lia := Z.div_mod_to_equations; lia.

(** Case analysis of the boolean comparisons of the modelled guards. *)
Ltac bdestr :=
  repeat match goal with
  | |- context [?x =? ?y] => destruct (Z.eqb_spec x y); try lia
  | |- context [?x <? ?y] => destruct (Z.ltb_spec x y); try lia
  | |- context [?x <=? ?y] => destruct (Z.leb_spec x y); try lia
  | |- context [?x >? ?y] => rewrite (Z.gtb_ltb x y)
  | |- context [?x >=? ?y] => rewrite (Z.geb_leb x y)
  end.

(** Only the guards whose outcome the context decides. *)
Ltac guards :=
  repeat match goal with
  | |- context [?x =? ?y] =>
      first [ rewrite (proj2 (Z.eqb_eq x y)) by lia
            | rewrite (proj2 (Z.eqb_neq x y)) by lia ]
  | |- context [?x <? ?y] =>
      first [ rewrite (proj2 (Z.ltb_lt x y)) by lia
            | rewrite (proj2 (Z.ltb_ge x y)) by lia ]
  | |- context [?x <=? ?y] =>
      first [ rewrite (proj2 (Z.leb_le x y)) by lia
            | rewrite (proj2 (Z.leb_gt x y)) by lia ]
  | |- context [?x >? ?y] => rewrite (Z.gtb_ltb x y)
  | |- context [?x >=? ?y] => rewrite (Z.geb_leb x y)
  end; cbn [andb orb negb]; cbv iota beta.

(** Boolean comparisons in the hypotheses, as propositions. *)
Ltac bhyps :=
  repeat match goal with
  | H : _ && _ = true |- _ => apply andb_true_iff in H as [? ?]
  | H : (_ <=? _) = true |- _ => apply Z.leb_le in H
  | H : (_ <? _) = true |- _ => apply Z.ltb_lt in H
  | H : (_ =? _) = true |- _ => apply Z.eqb_eq in H
  end.
