(* ===== verification/CMem.v ===== *)
(** * Byte blocks

    An object of C memory (an array, a [malloc]ed buffer) seen as the list of
    its bytes, each kept as its value 0..255.  Reads and writes outside the
    block are faults.  The functions of [<string.h>] the programs call are
    given on these blocks, together with the laws that describe them on a
    block split around the bytes they touch.  The machine is little-endian,
    as the gcc/x86 targets of the repository. *)
From S2P Require Import Prelude.

Local Open Scope Z_scope.

Abbreviation bytes := (list Z).

(** ** Single bytes *)

Definition rd (b : bytes) (i : Z) : res Z :=
  if i <? 0 then UB OutOfBounds
  else match b !! Z.to_nat i with Some v => Ok v | None => UB OutOfBounds end.

Definition wr (b : bytes) (i v : Z) : res bytes :=
  if (i <? 0) || (Z.of_nat (length b) <=? i) then UB OutOfBounds
  else Ok (<[Z.to_nat i := v]> b).

(** ** Multi-byte values *)

Definition rd16 (b : bytes) (i : Z) : res Z :=
  lo ← rd b i; hi ← rd b (i + 1); mret (lo + 256 * hi).

Definition wr16 (b : bytes) (i v : Z) : res bytes :=
  b ← wr b i (u8 v); wr b (i + 1) (u8 (v / 256)).

(** [ntohs] and [htons]: the two bytes exchanged. *)
Definition ntohs (v : Z) : Z := (v mod 256) * 256 + (v / 256) mod 256.
Definition htons : Z → Z := ntohs.

(** ** Runs of bytes: [memcpy], [memset], the copy done by [recvfrom] *)

Fixpoint wr_bytes (b : bytes) (i : Z) (s : bytes) : res bytes :=
  match s with
  | [] => Ok b
  | c :: s' => b ← wr b i c; wr_bytes b (i + 1) s'
  end.

Fixpoint rd_bytes (b : bytes) (i : Z) (n : nat) : res bytes :=
  match n with
  | O => Ok []
  | S n' => c ← rd b i; s ← rd_bytes b (i + 1) n'; mret (c :: s)
  end.

Definition memset (b : bytes) (v : Z) (n : nat) : res bytes :=
  wr_bytes b 0 (replicate n v).

(** ** C strings *)

Fixpoint cstrlen (l : bytes) : res Z :=
  match l with
  | [] => UB OutOfBounds
  | c :: l' => if c =? 0 then Ok 0 else n ← cstrlen l'; mret (n + 1)
  end.

Definition strlen (b : bytes) (i : Z) : res Z :=
  if i <? 0 then UB OutOfBounds else cstrlen (drop (Z.to_nat i) b).

Definition strcat (b s : bytes) : res bytes :=
  n ← strlen b 0; wr_bytes b n (s ++ [0]).

(** The [n] bytes [strncpy] stores: the string, then zeroes. *)
Fixpoint strn (l : bytes) (n : nat) : res bytes :=
  match n with
  | O => Ok []
  | S n' =>
      match l with
      | [] => UB OutOfBounds
      | c :: l' => if c =? 0 then Ok (replicate n 0) else s ← strn l' n'; mret (c :: s)
      end
  end.

Definition strncpy (dst : bytes) (i : Z) (src : bytes) (n : Z) : res bytes :=
  s ← strn src (Z.to_nat n); wr_bytes dst i s.

(** The string at [i], as [printf("%s")] reads it. *)
Definition cstring (b : bytes) (i : Z) : res bytes :=
  n ← strlen b i; rd_bytes b i (Z.to_nat n).

(** ** Integers in memory *)

Fixpoint le_val (s : bytes) : Z :=
  match s with
  | [] => 0
  | c :: s' => c + 256 * le_val s'
  end.

Fixpoint le_bytes (n : nat) (v : Z) : bytes :=
  match n with
  | O => []
  | S n' => u8 v :: le_bytes n' (v / 256)
  end.

(** [ntohl] and [htonl]: the four bytes in the opposite order. *)
Definition ntohl (v : Z) : Z := le_val (rev (le_bytes 4 v)).

(** ** [malloc] *)

(** The contract of [malloc]: the [k]-th request, for [n] bytes, is given a
    block of at least [n] bytes, of whatever contents.  Exhaustion of memory
    (a null result) is left out. *)
Class Allocator := {
  malloc : nat → Z → bytes;
  malloc_size : ∀ k n, n <= Z.of_nat (length (malloc k n));
}.

(** An allocator that hands out exactly what is asked for. *)
#[local] Instance exact_allocator : Allocator.
Proof.
  refine {| malloc := λ _ n, replicate (Z.to_nat n) 0 |}.
  intros. rewrite length_replicate. lia.
Defined.

(** The sizes glibc hands out on x86-64: 24, 40, 56, ... usable bytes. *)
#[local] Instance glibc_allocator : Allocator.
Proof.
  refine {| malloc := λ _ n, replicate (Z.to_nat (Z.max 24 ((n + 23) / 16 * 16 - 8))) 0 |}.
  intros. rewrite length_replicate. dm_lia.
Defined.

(** A string as the C functions see it: no byte of it is the terminator. *)
Abbreviation nonzero := (Forall (λ c : Z, c ≠ 0)).

(** ** Laws *)

Lemma rd_app l c r i : i = Z.of_nat (length l) → rd (l ++ c :: r) i = Ok c.
Proof.
  intros ->. unfold rd. bdestr.
  by rewrite Nat2Z.id, lookup_app_r, Nat.sub_diag by done.
Qed.

Lemma rd_lookup b (i : nat) v : b !! i = Some v → rd b (Z.of_nat i) = Ok v.
Proof. intros H. unfold rd. bdestr. by rewrite Nat2Z.id, H. Qed.

Lemma rd_oob b i : i < 0 ∨ Z.of_nat (length b) <= i → rd b i = UB OutOfBounds.
Proof.
  intros H. unfold rd. bdestr; [done|].
  by rewrite lookup_ge_None_2 by lia.
Qed.

Lemma rd_inv b i v : rd b i = Ok v → 0 <= i ∧ b !! Z.to_nat i = Some v.
Proof.
  unfold rd. bdestr; [done|]. destruct (b !! _) eqn:E; [|done].
  intros [= ->]. auto with lia.
Qed.

Lemma rd_bound b i v : rd b i = Ok v → 0 <= i < Z.of_nat (length b).
Proof. intros [? H%lookup_lt_Some]%rd_inv. lia. Qed.

Lemma rd_ex b i : 0 <= i < Z.of_nat (length b) → ∃ v, rd b i = Ok v.
Proof.
  intros H. destruct (lookup_lt_is_Some_2 b (Z.to_nat i)) as [v Hv]; [lia|].
  exists v. unfold rd. bdestr. by rewrite Hv.
Qed.

Lemma wr_app l c r i v :
  i = Z.of_nat (length l) → wr (l ++ c :: r) i v = Ok (l ++ v :: r).
Proof.
  intros ->. unfold wr. len. bdestr. simpl.
  by rewrite Nat2Z.id, insert_app_r_alt, Nat.sub_diag by done.
Qed.

Lemma wr_ok b i v :
  0 <= i < Z.of_nat (length b) → wr b i v = Ok (<[Z.to_nat i := v]> b).
Proof. intros H. unfold wr. by bdestr. Qed.

Lemma wr_oob b i v : i < 0 ∨ Z.of_nat (length b) <= i → wr b i v = UB OutOfBounds.
Proof. intros H. unfold wr. by bdestr. Qed.

Lemma wr_inv b i v b' :
  wr b i v = Ok b' →
  0 <= i < Z.of_nat (length b) ∧ b' = <[Z.to_nat i := v]> b.
Proof. unfold wr. bdestr; simpl; intros [=]; auto with lia. Qed.

Lemma wr_length b i v b' : wr b i v = Ok b' → length b' = length b.
Proof. intros [_ ->]%wr_inv. apply length_insert. Qed.

Lemma rd16_app l c0 c1 r i :
  i = Z.of_nat (length l) → rd16 (l ++ c0 :: c1 :: r) i = Ok (c0 + 256 * c1).
Proof.
  intros ->. unfold rd16. step (rd_app l c0 (c1 :: r) (Z.of_nat (length l)) eq_refl).
  assert (H : rd (l ++ c0 :: c1 :: r) (Z.of_nat (length l) + 1) = Ok c1).
  { rewrite app_cons_assoc. apply rd_app. len. }
  by step H.
Qed.

Lemma wr16_app l c0 c1 r i v :
  i = Z.of_nat (length l) →
  wr16 (l ++ c0 :: c1 :: r) i v = Ok (l ++ u8 v :: u8 (v / 256) :: r).
Proof.
  intros ->. unfold wr16. step (wr_app l c0 (c1 :: r) _ (u8 v) eq_refl).
  rewrite app_cons_assoc.
  rewrite (wr_app (l ++ [u8 v]) c1 r) by len. by rewrite <- app_assoc.
Qed.

Lemma ntohs_be hi lo : byte_ok hi → byte_ok lo → ntohs (hi + 256 * lo) = 256 * hi + lo.
Proof. unfold byte_ok, ntohs. intros. dm_lia. Qed.

Lemma wr_bytes_app l old r s i :
  i = Z.of_nat (length l) → length old = length s →
  wr_bytes (l ++ old ++ r) i s = Ok (l ++ s ++ r).
Proof.
  revert l old i. induction s as [|c s IH]; intros l [|o old] i -> Hlen; try discriminate.
  - done.
  - simpl. step (wr_app l o (old ++ r) _ c eq_refl).
    rewrite app_cons_assoc.
    rewrite (IH (l ++ [c]) old) by (simpl in Hlen; len). by rewrite <- !app_assoc.
Qed.

Lemma wr_bytes_head s b : (length s ≤ length b)%nat →
  wr_bytes b 0 s = Ok (s ++ drop (length s) b).
Proof.
  intros H. rewrite <- (take_drop (length s) b) at 1.
  apply (wr_bytes_app [] (take (length s) b)); len.
Qed.

Lemma wr_bytes_length b i s b' : wr_bytes b i s = Ok b' → length b' = length b.
Proof.
  revert b i. induction s as [|c s IH]; intros b i; simpl; [by intros [= ->]|].
  intros (b1 & H1 & H2)%bind_inv. rewrite (IH _ _ H2). by eapply wr_length.
Qed.

Lemma wr_bytes_oob b s : ∀ i,
  0 <= i → Z.of_nat (length b) < i + Z.of_nat (length s) → i <= Z.of_nat (length b) →
  wr_bytes b i s = UB OutOfBounds.
Proof.
  revert b. induction s as [|c s IH]; intros b i Hi Hl Hb; [simpl in Hl; lia|].
  cbn [wr_bytes length] in *. destruct (decide (i = Z.of_nat (length b))) as [->|].
  - by rewrite wr_oob by lia.
  - rewrite wr_ok by lia. cbn [mbind res_bind]. apply IH; rewrite ?length_insert; lia.
Qed.

Lemma wr_bytes_at d r s :
  (length s <= length r)%nat →
  wr_bytes (d ++ r) (Z.of_nat (length d)) s = Ok ((d ++ s) ++ drop (length s) r).
Proof.
  intros Hl.
  pose proof (wr_bytes_app d (take (length s) r) (drop (length s) r) s _ eq_refl) as Hw.
  rewrite take_drop, app_assoc in Hw. apply Hw. len.
Qed.

Lemma wr_at d r c :
  (1 <= length r)%nat → wr (d ++ r) (Z.of_nat (length d)) c = Ok ((d ++ [c]) ++ drop 1 r).
Proof.
  intros Hl. destruct r as [|x r]; [simpl in Hl; lia|].
  by rewrite wr_app, <- app_assoc.
Qed.

Lemma rd_bytes_app l s r i n :
  i = Z.of_nat (length l) → n = length s → rd_bytes (l ++ s ++ r) i n = Ok s.
Proof.
  intros -> ->. revert l. induction s as [|c s IH]; intros l; [done|].
  simpl. step (rd_app l c (s ++ r) _ eq_refl).
  assert (H : rd_bytes (l ++ c :: s ++ r) (Z.of_nat (length l) + 1) (length s) = Ok s).
  { rewrite app_cons_assoc.
    replace (Z.of_nat (length l) + 1) with (Z.of_nat (length (l ++ [c]))) by len.
    apply IH. }
  by step H.
Qed.

Lemma cstrlen_app s r : nonzero s → cstrlen (s ++ 0 :: r) = Ok (Z.of_nat (length s)).
Proof.
  induction 1 as [|c s Hc Hs IH]; [done|]. simpl. bdestr.
  step IH. unfold mret, res_ret. f_equal. lia.
Qed.

Lemma strlen_app l s r i :
  i = Z.of_nat (length l) → nonzero s →
  strlen (l ++ s ++ 0 :: r) i = Ok (Z.of_nat (length s)).
Proof.
  intros -> Hs. unfold strlen. bdestr.
  rewrite Nat2Z.id, drop_app_length. by apply cstrlen_app.
Qed.

Lemma strlen_head s r : nonzero s → strlen (s ++ 0 :: r) 0 = Ok (Z.of_nat (length s)).
Proof. by apply (strlen_app []). Qed.

Lemma cstrlen_inv b n :
  cstrlen b = Ok n → ∃ s r, b = s ++ 0 :: r ∧ nonzero s ∧ n = Z.of_nat (length s).
Proof.
  revert n. induction b as [|c b IH]; intros n; simpl; [done|].
  destruct (Z.eqb_spec c 0) as [->|Hc].
  - intros [= <-]. by exists [], b.
  - intros (m & Hm & [= <-])%bind_inv. destruct (IH _ Hm) as (s & r & -> & ? & ->).
    exists (c :: s), r. split_and!; [done|by constructor|]. len.
Qed.

Lemma strlen_bound b i n : strlen b i = Ok n → 0 <= n /\ i + n < Z.of_nat (length b).
Proof.
  unfold strlen. bdestr; [done|]. intros (s & r & E & _ & ->)%cstrlen_inv.
  apply (f_equal length) in E. len.
Qed.

Lemma strcat_app s t old r :
  nonzero s → length old = length t →
  strcat (s ++ 0 :: old ++ r) t = Ok (s ++ t ++ 0 :: r).
Proof.
  intros Hs Hl. unfold strcat. step (strlen_head s (old ++ r) Hs).
  change (s ++ 0 :: old ++ r) with (s ++ (0 :: old) ++ r).
  rewrite (wr_bytes_app s (0 :: old) r (t ++ [0])) by len.
  by rewrite <- app_assoc.
Qed.

Lemma strn_app s r : nonzero s → strn (s ++ r) (length s) = Ok s.
Proof.
  induction 1 as [|c s Hc Hs IH]; [by destruct r|]. simpl. bdestr. by step IH.
Qed.

Lemma strncpy_app l old r s q i n :
  i = Z.of_nat (length l) → n = Z.of_nat (length s) → length old = length s →
  nonzero s →
  strncpy (l ++ old ++ r) i (s ++ q) n = Ok (l ++ s ++ r).
Proof.
  intros Hi -> Hl Hs. unfold strncpy. rewrite Nat2Z.id.
  step (strn_app s q Hs). by apply wr_bytes_app.
Qed.

Lemma cstring_app l s r i :
  i = Z.of_nat (length l) → nonzero s → cstring (l ++ s ++ 0 :: r) i = Ok s.
Proof.
  intros -> Hs. unfold cstring. step (strlen_app l s r _ eq_refl Hs).
  apply rd_bytes_app; lia.
Qed.

Lemma cstring_head s r : nonzero s → cstring (s ++ 0 :: r) 0 = Ok s.
Proof. by apply (cstring_app []). Qed.

Lemma memset_all v n r l :
  length l = n → memset (l ++ r) v n = Ok (replicate n v ++ r).
Proof. intros H. apply (wr_bytes_app [] l); len. Qed.

(** *** Reads inside a block, as total functions *)

(** The byte and the 16-bit value at an offset of a buffer. *)
Definition at8 (b : bytes) (z : Z) : Z := b !!! Z.to_nat z.
Definition at16 (b : bytes) (z : Z) : Z := at8 b z + 256 * at8 b (z + 1).

Lemma rd_at8 b z : 0 <= z < Z.of_nat (length b) → rd b z = Ok (at8 b z).
Proof.
  intros Hz. unfold rd, at8. bdestr.
  destruct (b !! Z.to_nat z) as [v|] eqn:E; [by rewrite (list_lookup_total_correct _ _ _ E)|].
  apply lookup_ge_None in E. lia.
Qed.

Lemma rd16_at16 b z : 0 <= z → z + 1 < Z.of_nat (length b) → rd16 b z = Ok (at16 b z).
Proof.
  intros. unfold rd16, at16. step (rd_at8 b z ltac:(lia)). by step (rd_at8 b (z + 1) ltac:(lia)).
Qed.

Lemma rd_bytes_at8 b z :
  0 <= z → z + 4 <= Z.of_nat (length b) →
  rd_bytes b z 4 = Ok [at8 b z; at8 b (z + 1); at8 b (z + 2); at8 b (z + 3)].
Proof.
  intros. cbn [rd_bytes]. step (rd_at8 b z ltac:(lia)). step (rd_at8 b (z + 1) ltac:(lia)).
  replace (z + 1 + 1) with (z + 2) by lia. step (rd_at8 b (z + 2) ltac:(lia)).
  replace (z + 2 + 1) with (z + 3) by lia. by step (rd_at8 b (z + 3) ltac:(lia)).
Qed.

Lemma at8_byte b z : Forall byte_ok b → 0 <= z < Z.of_nat (length b) → byte_ok (at8 b z).
Proof. intros Hb Hz. unfold at8. apply Forall_lookup_total; [done|lia]. Qed.

(** Reading a 32-bit integer, exchanging its bytes and storing it again
    reverses the four bytes. *)
Lemma le_bytes_val s : Forall byte_ok s → le_bytes (length s) (le_val s) = s.
Proof.
  induction 1 as [|c s Hc Hs IH]; [done|]. cbn [length le_bytes le_val].
  unfold byte_ok, u8 in *. f_equal; [dm_lia|].
  replace ((c + 256 * le_val s) / 256) with (le_val s) by dm_lia. done.
Qed.

Lemma le_val_bytes n v : le_val (le_bytes n v) = v mod 256 ^ Z.of_nat n.
Proof.
  revert v. induction n as [|n IH]; intros v; [by rewrite Z.mod_1_r|].
  cbn [le_bytes le_val]. rewrite IH, Nat2Z.inj_succ, Z.pow_succ_r by lia.
  unfold u8. rewrite Z.rem_mul_r by lia. done.
Qed.

Lemma le_bytes_mod n v m : (n <= m)%nat → le_bytes n (v mod 256 ^ Z.of_nat m) = le_bytes n v.
Proof.
  revert v m. induction n as [|n IH]; intros v [|m] H; [done|done|lia|].
  rewrite Nat2Z.inj_succ, Z.pow_succ_r, Z.rem_mul_r by lia. cbn [le_bytes].
  unfold u8. f_equal; [dm_lia|].
  replace ((v mod 256 + 256 * (v / 256 mod 256 ^ Z.of_nat m)) / 256)
    with (v / 256 mod 256 ^ Z.of_nat m) by dm_lia.
  apply IH. lia.
Qed.

Lemma le_val_app s t : le_val (s ++ t) = le_val s + 256 ^ Z.of_nat (length s) * le_val t.
Proof.
  induction s as [|c s IH]; [simpl; lia|]. cbn [app le_val length].
  rewrite IH, Nat2Z.inj_succ, Z.pow_succ_r by lia. lia.
Qed.

Lemma le_bytes_app s t : Forall byte_ok s → le_bytes (length s) (le_val (s ++ t)) = s.
Proof.
  intros Hs. rewrite le_val_app. rewrite <- (le_bytes_mod _ _ (length s)) by done.
  rewrite (Z.mul_comm (256 ^ _)), Z.mod_add by lia.
  rewrite le_bytes_mod by done. by apply le_bytes_val.
Qed.

(** ** The operations on blocks always finish *)

Lemma rd_finishes b i : finishes (rd b i).
Proof. unfold finishes, rd. bdestr; [done|]. by destruct (b !! _). Qed.

Lemma wr_finishes b i v : finishes (wr b i v).
Proof. unfold finishes, wr. by bdestr. Qed.

Lemma cstrlen_finishes b : finishes (cstrlen b).
Proof.
  induction b; simpl; [done|]. bdestr; [done|]. apply finishes_bind; auto with cfin.
Qed.

Lemma strlen_finishes b i : finishes (strlen b i).
Proof. unfold strlen. bdestr; [done|]. apply cstrlen_finishes. Qed.

#[export] Hint Resolve rd_finishes wr_finishes cstrlen_finishes strlen_finishes : cfin.

Lemma rd16_finishes b i : finishes (rd16 b i).
Proof. unfold rd16. eauto with cfin. Qed.

Lemma wr16_finishes b i v : finishes (wr16 b i v).
Proof. unfold wr16. eauto with cfin. Qed.

Lemma rd_bytes_finishes n : ∀ b i, finishes (rd_bytes b i n).
Proof. induction n as [|n IH]; intros b i; cbn [rd_bytes]; [done|]. eauto with cfin. Qed.

Lemma wr_bytes_finishes l : ∀ b i, finishes (wr_bytes b i l).
Proof. induction l as [|c l IH]; intros b i; cbn [wr_bytes]; [done|]. eauto with cfin. Qed.

Lemma strn_finishes n : ∀ l, finishes (strn l n).
Proof.
  induction n as [|n IH]; intros [|c l]; cbn [strn]; try done. bdestr; [done|]. eauto with cfin.
Qed.

#[export] Hint Resolve rd16_finishes wr16_finishes rd_bytes_finishes wr_bytes_finishes
  strn_finishes : cfin.

Lemma memset_finishes b v n : finishes (memset b v n).
Proof. unfold memset. auto with cfin. Qed.

Lemma strcat_finishes b s : finishes (strcat b s).
Proof. unfold strcat. auto with cfin. Qed.

Lemma strncpy_finishes d i s n : finishes (strncpy d i s n).
Proof. unfold strncpy. auto with cfin. Qed.

Lemma cstring_finishes b i : finishes (cstring b i).
Proof. unfold cstring. auto with cfin. Qed.

#[export] Hint Resolve memset_finishes strcat_finishes strncpy_finishes cstring_finishes : cfin.
