(* ===== verification/Traces.v ===== *)
(** * Programs over a trace

    Postconditions of programs whose state is the list of the events so far:
    [appends m Q] says that whatever [m] is started after, the events it adds
    when it returns, and its result, satisfy [Q]; [framed m] that what it does
    does not depend on what it is started after.  The rules go through a program
    one action at a time. *)
From S2P Require Import Prelude.

Section traces.
Context {Ev : Type}.

Definition appends {A} (m : prog (list Ev) A) (Q : A → list Ev → Prop) : Prop :=
  ∀ t a t', m t = Ok (a, t') → ∃ evs, t' = t ++ evs ∧ Q a evs.

Lemma appends_ret {A} (a : A) (Q : A → list Ev → Prop) : Q a [] → appends (mret a) Q.
Proof. intros HQ t a' t' [= <- <-]. exists []. by rewrite app_nil_r. Qed.

Lemma appends_fail {A} e (Q : A → list Ev → Prop) : appends (fail e) Q.
Proof. by intros t a t'. Qed.

Lemma appends_lift {A} (m : res A) (Q : A → list Ev → Prop) :
  (∀ a, m = Ok a → Q a []) → appends (lift m) Q.
Proof.
  intros HQ t a t'. unfold lift. destruct m eqn:E; [|done|done].
  intros [= <- <-]. exists []. rewrite app_nil_r. auto.
Qed.

Lemma appends_emit e (Q : unit → list Ev → Prop) : Q tt [e] → appends (emit e) Q.
Proof. intros HQ t a t' [= <- <-]. by exists [e]. Qed.

Lemma appends_bind {A B} (m : prog (list Ev) A) (f : A → prog (list Ev) B) Q :
  appends m (λ a evs, appends (f a) (λ b evs', Q b (evs ++ evs'))) → appends (m ≫= f) Q.
Proof.
  intros Hm t b t' (a & t1 & H1 & H2)%run_bind_inv.
  destruct (Hm _ _ _ H1) as (e1 & -> & Hf).
  destruct (Hf _ _ _ H2) as (e2 & -> & HQ).
  exists (e1 ++ e2). by rewrite <- app_assoc.
Qed.

Lemma appends_mono {A} (m : prog (list Ev) A) (Q Q' : A → list Ev → Prop) :
  appends m Q → (∀ a evs, Q a evs → Q' a evs) → appends m Q'.
Proof. intros Hm HQ t a t' H. destruct (Hm _ _ _ H) as (e & -> & ?). eauto. Qed.

(** One condition on every event, and one on the result. *)
Definition yields {A} (P : Ev → Prop) (R : A → Prop) (m : prog (list Ev) A) : Prop :=
  appends m (λ a evs, R a ∧ Forall P evs).

Lemma yields_bind {A B} P (Q : A → Prop) (R : B → Prop) (m : prog (list Ev) A) f :
  yields P Q m → (∀ a, Q a → yields P R (f a)) → yields P R (m ≫= f).
Proof.
  intros Hm Hf. apply appends_bind. eapply appends_mono; [exact Hm|].
  intros a evs [Ha Hevs]. eapply appends_mono; [by apply Hf|]. intros b evs' [Hb Hevs'].
  split; [done|]. by apply Forall_app.
Qed.

Lemma yields_lift {A B} P (R : B → Prop) (m : res A) (f : A → prog (list Ev) B) :
  (∀ a, m = Ok a → yields P R (f a)) → yields P R (lift m ≫= f).
Proof. intros Hf. apply appends_bind, appends_lift. intros a Ha. by apply Hf. Qed.

Lemma yields_emit {B} (P : Ev → Prop) (R : B → Prop) e (f : unit → prog (list Ev) B) :
  P e → yields P R (f tt) → yields P R (emit e ≫= f).
Proof.
  intros He Hf. apply appends_bind, appends_emit. eapply appends_mono; [exact Hf|].
  intros b evs [Hb Hevs]. split; [done|by constructor].
Qed.

Lemma yields_one (P : Ev → Prop) e : P e → yields P (λ _, True) (emit e).
Proof. intros He. apply appends_emit. split; [done|by constructor]. Qed.

Lemma yields_ret {A} P (R : A → Prop) (a : A) : R a → yields P R (mret a).
Proof. intros Ha. by apply appends_ret. Qed.

Lemma yields_fail {A} P (R : A → Prop) e : yields P R (fail e).
Proof. apply appends_fail. Qed.

Lemma yields_mono {A} P (Q R : A → Prop) m : yields P Q m → (∀ a, Q a → R a) → yields P R m.
Proof. intros Hm HQ. eapply appends_mono; [exact Hm|]. intros a evs [Ha He]. auto. Qed.

(** The run after [t], from the run after nothing. *)
Definition after {A} (t : list Ev) (r : res (A * list Ev)) : res (A * list Ev) :=
  match r with Ok (a, evs) => Ok (a, t ++ evs) | UB e => UB e | NoFuel => NoFuel end.

Definition framed {A} (m : prog (list Ev) A) : Prop := ∀ t, m t = after t (m []).

Lemma framed_bind {A B} (m : prog (list Ev) A) (f : A → prog (list Ev) B) :
  framed m → (∀ a, framed (f a)) → framed (m ≫= f).
Proof.
  intros Hm Hf t. unfold mbind, prog_bind. rewrite (Hm t).
  destruct (m []) as [[a evs]|e|]; [|done..]. cbn. rewrite (Hf a (t ++ evs)), (Hf a evs).
  destruct (f a []) as [[b evs']|e|]; [|done..]. cbn. by rewrite <- app_assoc.
Qed.

Lemma framed_lift {A} (m : res A) : framed (lift m).
Proof. intros t. unfold lift. destruct m; [cbn|done..]. by rewrite app_nil_r. Qed.

Lemma framed_ret {A} (a : A) : framed (mret a).
Proof. exact (framed_lift (Ok a)). Qed.

Lemma framed_fail {A} e : framed (A := A) (fail e).
Proof. done. Qed.

Lemma framed_emit e : framed (emit e).
Proof. done. Qed.

Lemma framed_nofuel {A} (m : prog (list Ev) A) t t' : framed m → m t = NoFuel → m t' = NoFuel.
Proof. intros Hm. rewrite (Hm t), (Hm t'). by destruct (m []) as [[]| |]. Qed.

Lemma framed_ok {A} (m : prog (list Ev) A) t t' a u :
  framed m → m t = Ok (a, u) → ∃ u', m t' = Ok (a, u').
Proof.
  intros Hm. rewrite (Hm t), (Hm t'). destruct (m []) as [[b e]| |]; [|done..].
  intros [= <- _]. by eexists.
Qed.
End traces.

(** Goes through a program, one action at a time. *)
Ltac framed_step :=
  match goal with
  | |- framed (_ ≫= _) => apply framed_bind
  | |- framed (lift _) => apply framed_lift
  | |- framed (mret _) => apply framed_ret
  | |- framed (fail _) => apply framed_fail
  | |- framed (emit _) => apply framed_emit
  | |- framed (if ?b then _ else _) => destruct b
  | |- framed (match ?x with _ => _ end) => destruct x
  | |- ∀ _, _ => intros ?
  end; cbv beta iota zeta.
