(* ===== verification/DnsName.v ===== *)
(** * Domain names of the sample DNS server

    The four routines of [src/sample_dns_server/src/dns_utils/utils.c] that
    move a name between its wire form (length-prefixed labels, possibly
    compressed) and its dotted form, and the reference definitions of both
    forms they are verified against. *)
From S2P Require Import Prelude CMem.

Local Open Scope Z_scope.

(** ** Constants of [utils.h] *)

Definition T_A : Z := 1.
Definition MAX_NAME_LEN : nat := 256.
Definition MAX_BUF_LEN : nat := 512.
Definition RECORD_LEN : Z := 20.
Definition TID_SIZE : Z := 16.

(** ** [verify_and_copy_qname] *)

(** The copying loop: [l] is the memory from [qname_cpy] to the end of the
    block it points into; the name is stored before [i] is tested. *)
Fixpoint copy_loop (l dn : bytes) (i buflen : Z) : res (Z * bytes) :=
  match l with
  | [] => UB OutOfBounds
  | c :: l' =>
      if c =? 0 then dn ← wr dn i 0; mret (0, dn)
      else
        dn ← wr dn i c;
        if i >? buflen then mret (-1, dn) else copy_loop l' dn (i + 1) buflen
  end.

Definition verify_and_copy_qname (qname_cpy : option (bytes * Z))
    (domain_name : option bytes) (buflen : Z) : res (Z * bytes) :=
  match qname_cpy, domain_name with
  | Some (b, q), Some dn =>
      if q <? 0 then UB OutOfBounds else copy_loop (drop (Z.to_nat q) b) dn 0 buflen
  | _, _ => mret (-1, default [] domain_name)
  end.

(** ** From labels to dots, in place *)

(** [for(j=0;j<p;j++) { a[i]=a[i+1]; i=i+1; }], [n] being [p] or 0. *)
Fixpoint shift_label (n : nat) (a : bytes) (i : Z) : res (bytes * Z) :=
  match n with
  | O => Ok (a, i)
  | S n' => c ← rd a (i + 1); a ← wr a i c; shift_label n' a (i + 1)
  end.

(** The loop that turns every length byte into a dot; [tc] is the conversion
    of a byte of the array to [int]. *)
Fixpoint unlabel_loop (fuel : nat) (tc : Z → Z) (a : bytes) (i : Z) : res (bytes * Z) :=
  match fuel with
  | O => NoFuel
  | S f =>
      n ← strlen a 0;
      if i <? n then
        c ← rd a i;
        '(a, i) ← shift_label (Z.to_nat (tc c)) a i;
        a ← wr a i 46;
        unlabel_loop f tc a (i + 1)
      else mret (a, i)
  end.

(** The loop and the removal of the last dot. *)
Definition unlabel (tc : Z → Z) (a : bytes) : res bytes :=
  '(a, i) ← unlabel_loop (S (length a)) tc a 0; wr a (i - 1) 0.

(** In [read_and_print_dns_header] the array is of (signed) [char]. *)
Definition unlabel_domain_name : bytes → res bytes := unlabel s8.

(** In [uncompress_name] it is of [unsigned char]. *)
Definition unlabel_name : bytes → res bytes := unlabel id.

(** ** [ChangetoDnsNameFormat] *)

(** [for(;lock<i;lock++) *dns++=host[lock];] with [n = i - lock]. *)
Fixpoint copy_span (n : nat) (host b : bytes) (lock d : Z) : res (bytes * Z * Z) :=
  match n with
  | O => Ok (b, lock, d)
  | S n' => c ← rd host lock; b ← wr b d c; copy_span n' host b (lock + 1) (d + 1)
  end.

Fixpoint relabel_loop (fuel : nat) (host b : bytes) (i lock d : Z) : res (bytes * Z) :=
  match fuel with
  | O => NoFuel
  | S f =>
      n ← strlen host 0;
      if i <? n then
        c ← rd host i;
        if c =? 46 then
          b ← wr b d (u8 (i - lock));
          '(b, lock, d) ← copy_span (Z.to_nat (i - lock)) host b lock (d + 1);
          relabel_loop f host b (i + 1) (lock + 1) d
        else relabel_loop f host b (i + 1) lock d
      else mret (b, d)
  end.

(** [dns] points at offset [d] of the block [b].  The result is the return
    value and the two arrays, [host] having been extended by the [strcat]. *)
Definition ChangetoDnsNameFormat (dns : option (bytes * Z)) (host : option bytes)
    : res (Z * bytes * bytes) :=
  match dns, host with
  | Some (b, d), Some host =>
      host ← strcat host [46];
      '(b, d) ← relabel_loop (S (length host)) host b 0 0 d;
      b ← wr b d 0;
      mret (0, b, host)
  | _, _ => mret (-1, default [] (fst <$> dns), default [] host)
  end.

(** ** [uncompress_name] *)

(** The reading loop.  [p], [jumped] and [count] are the C variables. *)
Fixpoint uncompress_loop (fuel : nat) (buffer name : bytes) (reader p jumped count : Z)
    : res (bytes * Z * Z * Z) :=
  match fuel with
  | O => NoFuel
  | S f =>
      c ← rd buffer reader;
      if c =? 0 then mret (name, p, jumped, count)
      else if 192 <=? c then
        c1 ← rd buffer (reader + 1);
        let offset := u32 (c * 256 + c1 - 49152) in
        let reader := offset - 1 in
        uncompress_loop f buffer name (reader + 1) p 1 count
      else
        name ← wr name p c;
        uncompress_loop f buffer name (reader + 1) (p + 1) jumped
          (if jumped =? 0 then count + 1 else count)
  end.

(** [name] is the fresh block of [MAX_NAME_LEN] bytes; the result is the name
    and the value stored through [count]. *)
Definition uncompress_name (fuel : nat) (name : bytes) (reader : Z) (buffer : bytes)
    : res (bytes * Z) :=
  let count := 1 in
  name ← wr name 0 0;
  '(name, p, jumped, count) ← uncompress_loop fuel buffer name reader 0 0 count;
  name ← wr name p 0;
  let count := if jumped =? 1 then count + 1 else count in
  name ← unlabel_name name;
  mret (name, count).

(** ** Reference forms of a name *)

(** Wire form: every label after its length (the final zero excluded). *)
Fixpoint wire (ls : list bytes) : bytes :=
  match ls with
  | [] => []
  | l :: ls' => Z.of_nat (length l) :: l ++ wire ls'
  end.

(** Every label followed by a dot. *)
Fixpoint dots (ls : list bytes) : bytes :=
  match ls with
  | [] => []
  | l :: ls' => l ++ 46 :: dots ls'
  end.

(** Labels separated by dots. *)
Fixpoint dotted (ls : list bytes) : bytes :=
  match ls with
  | [] => []
  | [l] => l
  | l :: ls' => l ++ 46 :: dotted ls'
  end.

(** The labels of a dotted name. *)
Fixpoint split_dots (s : bytes) : list bytes :=
  match s with
  | [] => [[]]
  | c :: s' =>
      if c =? 46 then [] :: split_dots s'
      else match split_dots s' with l :: ls => (c :: l) :: ls | [] => [[c]] end
  end.

(** A label the wire format allows: 1 to 63 bytes, none of them zero. *)
Definition wf_label (l : bytes) : Prop :=
  (1 ≤ length l ≤ 63)%nat ∧ nonzero l.

(** A label without a dot of its own. *)
Definition dotless : bytes → Prop := Forall (λ c, c ≠ 46).

(** Compressed names: [name_at b off ls n] when the [n] bytes of [b] from
    [off] on encode the labels [ls], the last two possibly a pointer. *)
Inductive name_at (b : bytes) : Z → list bytes → Z → Prop :=
  | name_end off :
      rd b off = Ok 0 → name_at b off [] 1
  | name_ptr off c c1 ls n :
      rd b off = Ok c → 192 <= c < 256 → rd b (off + 1) = Ok c1 → 0 <= c1 < 256 →
      name_at b ((c - 192) * 256 + c1) ls n →
      name_at b off ls 2
  | name_label off l ls n :
      rd b off = Ok (Z.of_nat (length l)) → wf_label l → Forall (λ c, 0 < c < 192) l →
      rd_bytes b (off + 1) (length l) = Ok l →
      name_at b (off + 1 + Z.of_nat (length l)) ls n →
      name_at b off (l :: ls) (1 + Z.of_nat (length l) + n).

(** ** The two dotted forms and the wire form *)

Lemma dots_dotted ls : ls ≠ [] → dots ls = dotted ls ++ [46].
Proof.
  induction ls as [|l [|l' ls] IH]; [done|done|]. intros _.
  change (dots (l :: l' :: ls)) with (l ++ 46 :: dots (l' :: ls)).
  change (dotted (l :: l' :: ls)) with (l ++ 46 :: dotted (l' :: ls)).
  rewrite IH by done. by rewrite <- app_assoc.
Qed.

Lemma length_dots ls : length (dots ls) = length (wire ls).
Proof. induction ls as [|l ls IH]; [done|]. cbn [dots wire]. len. Qed.

Lemma length_dotted ls : ls ≠ [] → length (wire ls) = S (length (dotted ls)).
Proof. intros H. rewrite <- length_dots, dots_dotted by done. len. Qed.

Lemma wire_app ls ls' : wire (ls ++ ls') = wire ls ++ wire ls'.
Proof. induction ls as [|l ls IH]; [done|]. simpl. by rewrite IH, <- app_assoc. Qed.

Lemma dots_split s : dots (split_dots s) = s ++ [46].
Proof.
  induction s as [|c s IH]; [done|]. simpl. destruct (Z.eqb_spec c 46) as [->|H].
  - cbn [dots app]. by rewrite IH.
  - destruct (split_dots s) as [|l ls]; [by destruct s|].
    cbn [dots app] in *. by rewrite IH.
Qed.

Lemma dotless_split s : Forall dotless (split_dots s).
Proof.
  induction s as [|c s IH]; simpl; [by repeat constructor|].
  destruct (Z.eqb_spec c 46) as [->|H]; [by repeat constructor|].
  destruct IH; repeat constructor; auto.
Qed.

Lemma dots_nonzero ls : Forall nonzero ls → nonzero (dots ls).
Proof.
  induction 1; simpl; [done|]. apply Forall_app. split; [done|]. by constructor.
Qed.

Lemma dotted_nonzero ls : Forall nonzero ls → nonzero (dotted ls).
Proof.
  intros H. destruct (decide (ls = [])) as [->|Hn]; [constructor|].
  pose proof (dots_nonzero _ H) as Hd. rewrite dots_dotted in Hd by done.
  by apply Forall_app in Hd as [? _].
Qed.

Lemma wf_label_nonzero ls : Forall wf_label ls → Forall nonzero ls.
Proof. intros H. eapply Forall_impl; [exact H|]. by intros l [_ ?]. Qed.

Lemma wire_nonzero ls : Forall wf_label ls → nonzero (wire ls).
Proof.
  induction 1 as [|l ls [Hl Hn] _ IH]; simpl; [done|].
  constructor; [lia|]. by apply Forall_app.
Qed.

#[export] Hint Resolve dots_nonzero dotted_nonzero wf_label_nonzero wire_nonzero : cname.

(** ** [verify_and_copy_qname] *)

Lemma copy_loop_app s r pre old post i buflen :
  nonzero s → i = Z.of_nat (length pre) → length old = length s →
  i + Z.of_nat (length s) <= buflen + 1 →
  copy_loop (s ++ 0 :: r) (pre ++ old ++ 0 :: post) i buflen
  = Ok (0, pre ++ s ++ 0 :: post).
Proof.
  intros Hs. revert pre old i.
  induction Hs as [|c s Hc Hs IH]; intros pre [|o old] i -> Hl Hb; try discriminate.
  - simpl. by step (wr_app pre 0 post _ 0 eq_refl).
  - simpl in *. bdestr. step (wr_app pre o (old ++ 0 :: post) _ c eq_refl).
    bdestr. rewrite (app_cons_assoc pre).
    rewrite (IH (pre ++ [c]) old) by len. by rewrite <- !app_assoc.
Qed.

(** A terminated name shorter than the array is copied whole. *)
Lemma verify_and_copy_qname_ok pre s r buflen :
  nonzero s → (length s < MAX_NAME_LEN)%nat → Z.of_nat (length s) <= buflen + 1 →
  verify_and_copy_qname (Some (pre ++ s ++ 0 :: r, Z.of_nat (length pre)))
    (Some (replicate MAX_NAME_LEN 0)) buflen
  = Ok (0, s ++ replicate (MAX_NAME_LEN - length s) 0).
Proof.
  intros Hs Hl Hb. unfold verify_and_copy_qname. bdestr.
  rewrite Nat2Z.id, drop_app_length.
  assert (Hsplit : replicate MAX_NAME_LEN 0 =
    [] ++ replicate (length s) 0 ++ 0 :: replicate (MAX_NAME_LEN - length s - 1) 0).
  { rewrite app_nil_l, <- replicate_S, <- replicate_add. f_equal. lia. }
  rewrite Hsplit at 1. rewrite copy_loop_app by (done || len).
  rewrite app_nil_l, <- replicate_S. do 4 f_equal. lia.
Qed.

(** ** [unlabel] *)

Lemma shift_label_app pre c l r :
  ∃ x, shift_label (length l) (pre ++ c :: l ++ r) (Z.of_nat (length pre))
       = Ok (pre ++ l ++ x :: r, Z.of_nat (length pre + length l)).
Proof.
  revert pre c. induction l as [|d l IH]; intros pre c.
  - exists c. simpl. do 3 f_equal. lia.
  - destruct (IH (pre ++ [d]) d) as [x Hx]. exists x. cbn [shift_label length].
    assert (H1 : rd (pre ++ c :: d :: l ++ r) (Z.of_nat (length pre) + 1) = Ok d).
    { rewrite app_cons_assoc. apply rd_app. len. }
    simpl app. step H1. step (wr_app pre c (d :: l ++ r) _ d eq_refl).
    rewrite (app_cons_assoc pre d).
    replace (Z.of_nat (length pre) + 1) with (Z.of_nat (length (pre ++ [d]))) by len.
    rewrite Hx, <- !app_assoc. do 3 f_equal. len.
Qed.

(** The conversion [tc] reads the length bytes 1..63 as they are. *)
Definition small_conv (tc : Z → Z) : Prop := ∀ n, 0 <= n < 64 → tc n = n.

Lemma small_conv_s8 : small_conv s8.
Proof. intros n H. unfold s8. by bdestr. Qed.

Lemma small_conv_id : small_conv id.
Proof. done. Qed.

#[export] Hint Resolve small_conv_s8 small_conv_id : cname.

Lemma unlabel_loop_app tc ls pre r fuel :
  small_conv tc → Forall wf_label ls → nonzero pre → (length ls < fuel)%nat →
  unlabel_loop fuel tc (pre ++ wire ls ++ 0 :: r) (Z.of_nat (length pre))
  = Ok (pre ++ dots ls ++ 0 :: r, Z.of_nat (length pre + length (dots ls))).
Proof.
  intros Htc Hls. revert pre fuel.
  induction Hls as [|l ls [Hl Hn] Hls IH]; intros pre [|f] Hpre Hf; try (simpl in Hf; lia);
    cbn [unlabel_loop].
  - simpl. step (strlen_head pre r Hpre). bdestr. simpl. do 3 f_equal. lia.
  - assert (Hall : nonzero (pre ++ wire (l :: ls))).
    { apply Forall_app. split; [done|]. apply wire_nonzero. constructor; [by split|done]. }
    rewrite (app_assoc pre). step (strlen_head _ r Hall). rewrite <- (app_assoc pre).
    len. bdestr. cbn [wire]. rewrite <- app_comm_cons.
    step (rd_app pre (Z.of_nat (length l)) ((l ++ wire ls) ++ 0 :: r) _ eq_refl).
    rewrite Htc, Nat2Z.id, <- app_assoc by lia.
    destruct (shift_label_app pre (Z.of_nat (length l)) l (wire ls ++ 0 :: r)) as [x Hx].
    step Hx. rewrite (app_assoc pre l). step (wr_app (pre ++ l) x (wire ls ++ 0 :: r)
      (Z.of_nat (length pre + length l)) 46 ltac:(len)).
    rewrite (app_cons_assoc (pre ++ l)).
    replace (Z.of_nat (length pre + length l) + 1)
      with (Z.of_nat (length ((pre ++ l) ++ [46]))) by len.
    rewrite IH; [|by repeat (apply Forall_app; split); repeat constructor|len].
    cbn [dots]. rewrite <- !app_assoc. do 3 f_equal. len.
Qed.

(** A well-formed wire name is turned into its dotted form. *)
Lemma unlabel_ok tc ls r :
  small_conv tc → Forall wf_label ls → ls ≠ [] →
  unlabel tc (wire ls ++ 0 :: r) = Ok (dotted ls ++ 0 :: 0 :: r).
Proof.
  intros Htc Hls Hne. unfold unlabel.
  assert (Hw : (length ls ≤ length (wire ls))%nat).
  { clear. induction ls; cbn [wire]; len. }
  pose proof (unlabel_loop_app tc ls [] r (S (length (wire ls ++ 0 :: r))) Htc Hls
    ltac:(constructor) ltac:(len)) as H. simpl app in H. simpl length in H at 2.
  step H. rewrite dots_dotted, <- app_assoc by done.
  apply wr_app. len.
Qed.

(** ** [ChangetoDnsNameFormat] *)

Lemma copy_span_app l hp hr bp old br :
  length old = length l →
  copy_span (length l) (hp ++ l ++ hr) (bp ++ old ++ br)
    (Z.of_nat (length hp)) (Z.of_nat (length bp))
  = Ok (bp ++ l ++ br, Z.of_nat (length hp + length l), Z.of_nat (length bp + length l)).
Proof.
  revert hp bp old. induction l as [|c l IH]; intros hp bp [|o old] Hl; try discriminate.
  - simpl. do 3 f_equal; [f_equal|]; lia.
  - cbn [copy_span length app]. step (rd_app hp c (l ++ hr) _ eq_refl).
    step (wr_app bp o (old ++ br) _ c eq_refl).
    rewrite (app_cons_assoc hp), (app_cons_assoc bp).
    replace (Z.of_nat (length hp) + 1) with (Z.of_nat (length (hp ++ [c]))) by len.
    replace (Z.of_nat (length bp) + 1) with (Z.of_nat (length (bp ++ [c]))) by len.
    rewrite IH by (simpl in Hl; lia). rewrite <- !app_assoc.
    do 3 f_equal; [f_equal|]; len.
Qed.

(** The loop passes over the bytes of a label without doing anything. *)
Lemma relabel_scan l hp hr b lock d n f :
  dotless l → strlen (hp ++ l ++ hr) 0 = Ok n → Z.of_nat (length hp + length l) <= n →
  relabel_loop (length l + f) (hp ++ l ++ hr) b (Z.of_nat (length hp)) lock d
  = relabel_loop f (hp ++ l ++ hr) b (Z.of_nat (length hp + length l)) lock d.
Proof.
  intros Hd. revert hp. induction Hd as [|c l Hc Hd IH]; intros hp Hn Hlt.
  - cbn [length]. by rewrite Nat.add_0_r.
  - cbn [length Nat.add relabel_loop]. step Hn. cbn [length] in Hlt. bdestr.
    cbn [app]. step (rd_app hp c (l ++ hr) _ eq_refl). bdestr.
    cbn [app] in Hn. rewrite (app_cons_assoc hp) in Hn |- *.
    replace (Z.of_nat (length hp) + 1) with (Z.of_nat (length (hp ++ [c]))) by len.
    rewrite IH by (done || len). f_equal. len.
Qed.

(** Labels that [ChangetoDnsNameFormat] can be handed: no dot, no zero, and a
    length that fits the length byte. *)
Definition host_label (l : bytes) : Prop :=
  dotless l ∧ nonzero l ∧ (length l < 256)%nat.

Lemma host_label_nonzero ls : Forall host_label ls → Forall nonzero ls.
Proof. intros H. eapply Forall_impl; [exact H|]. by intros l (_ & ? & _). Qed.

#[export] Hint Resolve host_label_nonzero : cname.

Lemma relabel_loop_app ls hp hr bp old br fuel :
  Forall host_label ls → nonzero hp → length old = length (wire ls) →
  (length (dots ls) < fuel)%nat →
  relabel_loop fuel (hp ++ dots ls ++ 0 :: hr) (bp ++ old ++ br)
    (Z.of_nat (length hp)) (Z.of_nat (length hp)) (Z.of_nat (length bp))
  = Ok (bp ++ wire ls ++ br, Z.of_nat (length bp + length (wire ls))).
Proof.
  intros Hls. revert hp bp old fuel.
  induction Hls as [|l ls (Hd & Hn & Hl) Hls IH]; intros hp bp old fuel Hhp Hold Hf.
  - destruct fuel as [|f]; [simpl in Hf; lia|]. destruct old; [|discriminate].
    cbn [relabel_loop dots app]. step (strlen_head hp hr Hhp). bdestr. simpl. do 3 f_equal. lia.
  - assert (Hall : nonzero (hp ++ dots (l :: ls))).
    { apply Forall_app. split; [done|]. apply dots_nonzero. constructor; auto with cname. }
    pose proof (strlen_head _ hr Hall) as Hlen. rewrite <- (app_assoc hp) in Hlen.
    cbn [dots wire] in *. rewrite <- !app_assoc in Hlen |- *.
    destruct old as [|o old]; [discriminate|].
    destruct (Nat.le_exists_sub (length l) fuel ltac:(len)) as (f & -> & _).
    rewrite Nat.add_comm, (relabel_scan l hp _ _ _ _ _ _ Hd Hlen) by len.
    destruct f as [|f]; [len|].
    cbn [relabel_loop]. step Hlen. len. bdestr.
    rewrite (app_assoc hp). cbn [app].
    step (rd_app (hp ++ l) 46 (dots ls ++ 0 :: hr) (Z.of_nat (length hp + length l))
      ltac:(len)). change (46 =? 46) with true. cbv iota.
    cbn [app]. step (wr_app bp o (old ++ br) _ (u8 (Z.of_nat (length hp + length l)
      - Z.of_nat (length hp))) eq_refl).
    replace (Z.of_nat (length hp + length l) - Z.of_nat (length hp))
      with (Z.of_nat (length l)) by lia.
    rewrite Nat2Z.id, u8_id by (unfold byte_ok; lia).
    rewrite <- (app_assoc hp), (app_cons_assoc bp).
    destruct (app_length_split old (length l) ltac:(len)) as (o1 & o2 & -> & Ho1).
    rewrite <- (app_assoc o1).
    replace (Z.of_nat (length bp) + 1)
      with (Z.of_nat (length (bp ++ [Z.of_nat (length l)]))) by len.
    pose proof (copy_span_app l hp (46 :: dots ls ++ 0 :: hr)
      (bp ++ [Z.of_nat (length l)]) o1 (o2 ++ br) Ho1) as Hspan.
    step Hspan. clear Hspan. rewrite !(app_assoc hp l), (app_cons_assoc (hp ++ l)).
    replace (Z.of_nat (length hp + length l) + 1)
      with (Z.of_nat (length ((hp ++ l) ++ [46]))) by len.
    rewrite (app_assoc _ l (o2 ++ br)).
    replace (Z.of_nat (length (bp ++ [Z.of_nat (length l)]) + length l))
      with (Z.of_nat (length ((bp ++ [Z.of_nat (length l)]) ++ l))) by len.
    rewrite IH; [| |len|len].
    + rewrite <- !app_assoc. do 3 f_equal. len.
    + repeat (apply Forall_app; split); auto.
Qed.

Lemma length_wire_split s : length (wire (split_dots s)) = S (length s).
Proof. rewrite <- length_dots, dots_split. len. Qed.

Lemma split_nonzero s : nonzero s → Forall nonzero (split_dots s).
Proof.
  induction 1 as [|c s Hc Hs IH]; simpl; [by repeat constructor|].
  destruct (Z.eqb_spec c 46); [by constructor|].
  destruct IH; repeat constructor; auto.
Qed.

Lemma split_not_nil s : split_dots s ≠ [].
Proof.
  destruct s as [|c s]; [done|]. cbn [split_dots].
  by destruct (c =? 46), (split_dots s).
Qed.

Lemma split_app l s :
  dotless l → split_dots (l ++ s) =
    match split_dots s with l' :: ls => (l ++ l') :: ls | [] => [l] end.
Proof.
  induction 1 as [|c l Hc Hl IH]; cbn [app split_dots].
  - pose proof (split_not_nil s). by destruct (split_dots s).
  - bdestr. rewrite IH. by destruct (split_dots s).
Qed.

Lemma split_dotted ls : ls ≠ [] → Forall dotless ls → split_dots (dotted ls) = ls.
Proof.
  intros Hne H. induction H as [|l [|l' ls] Hl Hls IH]; [done| |].
  - simpl. rewrite <- (app_nil_r l) at 1. rewrite split_app by done. simpl. by rewrite app_nil_r.
  - change (dotted (l :: l' :: ls)) with (l ++ 46 :: dotted (l' :: ls)).
    rewrite split_app by done. cbn [split_dots]. change (46 =? 46) with true. cbv iota.
    by rewrite IH, app_nil_r.
Qed.

Lemma split_dots_dots ls : Forall dotless ls → split_dots (dots ls) = ls ++ [[]].
Proof.
  induction 1 as [|l ls Hl Hls IH]; [done|]. cbn [dots]. rewrite split_app by done.
  cbn [split_dots]. change (46 =? 46) with true. cbv iota. by rewrite IH, app_nil_r.
Qed.

(** The routine writes the wire form of the dotted string, and leaves a dot at
    the end of [host]. *)
Lemma ChangetoDnsNameFormat_ok s x hr bp old br :
  nonzero s → Forall (λ l, (length l < 256)%nat) (split_dots s) →
  length old = S (S (length s)) →
  ChangetoDnsNameFormat (Some (bp ++ old ++ br, Z.of_nat (length bp)))
    (Some (s ++ 0 :: x :: hr))
  = Ok (0, bp ++ wire (split_dots s) ++ 0 :: br, s ++ 46 :: 0 :: hr).
Proof.
  intros Hs Hl Hold. unfold ChangetoDnsNameFormat.
  pose proof (strcat_app s [46] [x] hr Hs eq_refl) as Hcat. cbn [app] in Hcat. step Hcat.
  destruct (app_length_split old (S (length s)) ltac:(lia)) as (o1 & o2 & -> & Ho1).
  destruct o2 as [|o [|]]; [len| |len]. rewrite <- (app_assoc o1).
  assert (Hlab : Forall host_label (split_dots s)).
  { pose proof (split_nonzero s Hs). pose proof (dotless_split s).
    rewrite !Forall_forall in *. intros l Hin. split_and!; auto. }
  pose proof (relabel_loop_app (split_dots s) [] hr bp o1 ([o] ++ br)
    (S (length (s ++ 46 :: 0 :: hr))) Hlab ltac:(constructor)
    ltac:(rewrite length_wire_split; lia) ltac:(rewrite dots_split; len)) as Hloop.
  rewrite dots_split, <- (app_assoc s) in Hloop. cbn [app length Z.of_nat] in Hloop. step Hloop.
  rewrite (app_assoc bp).
  by step (wr_app (bp ++ wire (split_dots s)) o br
    (Z.of_nat (length bp + length (wire (split_dots s)))) 0 ltac:(len));
    rewrite <- app_assoc.
Qed.

(** ** [uncompress_name] *)

(** Ordinary bytes are copied one by one. *)
Lemma uncompress_scan s b pre old post off j cnt f :
  Forall (λ c, 0 < c < 192) s → rd_bytes b off (length s) = Ok s →
  length old = length s →
  uncompress_loop (length s + f) b (pre ++ old ++ post) off (Z.of_nat (length pre)) j cnt
  = uncompress_loop f b (pre ++ s ++ post) (off + Z.of_nat (length s))
      (Z.of_nat (length pre + length s)) j
      (if j =? 0 then cnt + Z.of_nat (length s) else cnt).
Proof.
  intros Hs. revert off pre old cnt.
  induction Hs as [|c s Hc Hs IH]; intros off pre old cnt Hrd Hold.
  - destruct old; [|discriminate]. cbn [length Nat.add app Z.of_nat].
    rewrite !Z.add_0_r, Nat.add_0_r. by destruct (j =? 0).
  - destruct old as [|o old]; [discriminate|]. cbn [length rd_bytes] in Hrd.
    apply bind_inv in Hrd as (c' & Hc' & Hrd).
    apply bind_inv in Hrd as (s' & Hs' & [= -> ->]).
    cbn [length Nat.add uncompress_loop]. step Hc'. guards.
    cbn [app]. step (wr_app pre o (old ++ post) _ c eq_refl).
    rewrite (app_cons_assoc pre).
    replace (Z.of_nat (length pre) + 1) with (Z.of_nat (length (pre ++ [c]))) by len.
    rewrite (IH (off + 1)) by (done || (simpl in Hold; lia)).
    rewrite <- !app_assoc. f_equal; [len..|]. destruct (j =? 0); len.
Qed.

(** How [jumped] and [count] leave the loop for a name of [n] bytes. *)
Definition counted (j cnt n j' cnt' : Z) : Prop :=
  if j =? 0
  then (j' = 0 ∧ cnt' = cnt + n - 1) ∨ (j' = 1 ∧ cnt' + 1 = cnt + n - 1)
  else j' = 1 ∧ cnt' = cnt.

Lemma uncompress_loop_name b off ls n :
  name_at b off ls n → ∀ pre old post j cnt,
  length old = length (wire ls) → j = 0 ∨ j = 1 →
  ∃ j' cnt', counted j cnt n j' cnt' ∧
    returns (λ f, uncompress_loop f b (pre ++ old ++ post) off (Z.of_nat (length pre)) j cnt)
      (pre ++ wire ls ++ post, Z.of_nat (length pre + length (wire ls)), j', cnt').
Proof.
  induction 1 as [off Hz|off c c1 ls n Hc Hcr Hc1 Hc1r Hat IH
                 |off l ls n Hlen [Hl Hnz] Hr Hrd Hat IH]; intros pre old post j cnt Hold Hj.
  - destruct old; [|discriminate]. exists j, cnt. split.
    { unfold counted. bdestr. }
    exists 1%nat. intros [|m] Hm; [lia|]. cbn [uncompress_loop]. step Hz. simpl.
    do 4 f_equal. lia.
  - destruct (IH pre old post 1 cnt Hold (or_intror eq_refl)) as (j' & cnt' & Hcnt & Hret).
    exists j', cnt'. split.
    { unfold counted in *. simpl in Hcnt. by bdestr. }
    eapply returns_unroll; [|exact Hret]. intros m. cbn [uncompress_loop].
    step Hc. guards. step Hc1. cbv zeta.
    rewrite u32_id by lia. f_equal. lia.
  - destruct (app_length_split old (S (length l)) ltac:(cbn [wire] in *; len))
      as (o1 & o2 & -> & Ho1).
    destruct (IH (pre ++ Z.of_nat (length l) :: l) o2 post j
      (if j =? 0 then cnt + Z.of_nat (S (length l)) else cnt)
      ltac:(cbn [wire] in *; len) Hj) as (j' & cnt' & Hcnt & Hret).
    exists j', cnt'. split.
    { unfold counted in *. destruct (j =? 0); lia. }
    destruct Hret as [k Hk]. exists (S (length l) + k)%nat. intros m Hm.
    destruct (Nat.le_exists_sub (S (length l)) m ltac:(lia)) as (f & -> & _).
    rewrite Nat.add_comm, <- (app_assoc o1).
    pose proof (uncompress_scan (Z.of_nat (length l) :: l) b pre o1 (o2 ++ post) off j cnt f)
      as Hscan.
    cbn [length] in Hscan. rewrite Hscan; [|constructor; [lia|done]| |done].
    2: { cbn [rd_bytes]. step Hlen. by step Hrd. }
    specialize (Hk f ltac:(lia)). rewrite <- (app_assoc pre) in Hk.
    cbn [wire]. rewrite <- !app_assoc in Hk. cbn [app] in Hk |- *.
    rewrite <- app_assoc. cbn [length] in Hk.
    rewrite length_app in Hk. cbn [length] in Hk.
    replace (off + Z.of_nat (S (length l))) with (off + 1 + Z.of_nat (length l)) by lia.
    rewrite Hk. do 4 f_equal. cbn [length]. len.
Qed.

(** What [uncompress_name] returns for a name of [name_at]. *)
Lemma uncompress_name_returns b off ls n name :
  name_at b off ls n → ls ≠ [] → Forall wf_label ls →
  (length (wire ls) < length name)%nat →
  ∃ rest, (length (dotted ls ++ 0 :: rest) = length name) ∧
    returns (λ f, uncompress_name f name off b) (dotted ls ++ 0 :: rest, n).
Proof.
  intros Hat Hne Hls Hlen. destruct name as [|x name]; [len|].
  destruct (app_length_split (0 :: name) (length (wire ls)) ltac:(len))
    as (old & post & Hname & Hold).
  pose proof (f_equal length Hname) as Hlen'.
  destruct post as [|y post]; [len|]. exists (0 :: post).
  split. { pose proof (length_dotted ls Hne). len. }
  destruct (uncompress_loop_name b off ls n Hat [] old (y :: post) 0 1 Hold (or_introl eq_refl))
    as (j' & cnt' & Hcnt & k & Hk). exists k. intros m Hm. specialize (Hk m Hm).
  unfold uncompress_name. step (wr_app [] x name 0 0 eq_refl).
  simpl app in Hk |- *. rewrite Hname. change (Z.of_nat (length (@nil Z))) with 0 in Hk.
  step Hk. step (wr_app (wire ls) y post (Z.of_nat (length (@nil Z) + length (wire ls))) 0
    ltac:(len)).
  unfold unlabel_name. step (unlabel_ok id ls post small_conv_id Hls Hne).
  unfold counted in Hcnt. cbn in Hcnt. unfold mret, res_ret. do 2 f_equal.
  bdestr.
Qed.

(** A pointer of the compression scheme: from offset [o] to offset [o']. *)
Definition points (b : bytes) (o o' : Z) : Prop :=
  ∃ c c1, rd b o = Ok c ∧ 192 <= c < 256 ∧ rd b (o + 1) = Ok c1 ∧ 0 <= c1 < 256 ∧
          o' = (c - 192) * 256 + c1.

Lemma uncompress_loop_points b o o' f name p j cnt :
  points b o o' →
  uncompress_loop (S f) b name o p j cnt = uncompress_loop f b name o' p 1 cnt.
Proof.
  intros (c & c1 & Hc & Hr & Hc1 & Hr1 & ->). cbn [uncompress_loop]. step Hc. guards.
  step Hc1. cbv zeta. rewrite u32_id by lia. f_equal. lia.
Qed.

Lemma tc_step_cycle {A} (R : relation A) x :
  tc R x x → ∃ y, R x y ∧ tc R y y.
Proof.
  inversion 1 as [? ? Hxy|? y ? Hxy Hyx]; subst.
  - exists x. by split.
  - exists y. split; [done|]. by eapply tc_r.
Qed.

Lemma uncompress_loop_cycle b f : ∀ o name p j cnt,
  tc (points b) o o → uncompress_loop f b name o p j cnt = NoFuel.
Proof.
  induction f as [|f IH]; intros o name p j cnt H; [done|].
  apply tc_step_cycle in H as (o' & Hp & Hc).
  rewrite (uncompress_loop_points _ _ _ _ _ _ _ _ Hp). by apply IH.
Qed.

(** ** Termination of the in-place conversion *)

Lemma shift_label_inv n a i a' i' :
  shift_label n a i = Ok (a', i') → length a' = length a ∧ i' = i + Z.of_nat n.
Proof.
  revert a i. induction n as [|n IH]; intros a i; cbn [shift_label].
  - intros [= <- <-]. split; [done|lia].
  - intros (c & _ & (b & Hb%wr_length & H)%bind_inv)%bind_inv.
    apply IH in H as [-> ->]. split; [done|lia].
Qed.

Lemma shift_label_finishes n a i : finishes (shift_label n a i).
Proof.
  revert a i. induction n as [|n IH]; intros a i; cbn [shift_label]; [done|].
  eauto with cfin.
Qed.

Lemma unlabel_loop_finishes fuel tc a i :
  0 <= i → (0 < fuel)%nat → Z.of_nat (length a) < Z.of_nat fuel + i →
  finishes (unlabel_loop fuel tc a i).
Proof.
  revert a i. induction fuel as [|f IH]; intros a i Hi Hf0 Hf; cbn [unlabel_loop].
  - lia.
  - apply finishes_bind; [auto with cfin|]. intros n Hn. pose proof (strlen_bound _ _ _ Hn).
    bdestr; [|done]. apply finishes_bind; [auto with cfin|]. intros c _.
    apply finishes_bind; [apply shift_label_finishes|].
    intros [a1 i1] [Hl ->]%shift_label_inv.
    apply finishes_bind; [auto with cfin|]. intros a2 Ha2%wr_length.
    apply IH; lia.
Qed.

(** ** Properties *)

(** C6 (round trip): the two name forms are turned into each other without
    loss, both ways round: a dotted name put in wire form by
    [ChangetoDnsNameFormat], copied out of the message by
    [verify_and_copy_qname] and converted in place as in
    [read_and_print_dns_header] is the name again; and a wire name in a message
    that is copied out, converted to dots and put in wire form again is stored
    as the same wire name, with nothing around it touched. *)
Theorem name_roundtrip ls bp old br buflen :
  ls ≠ [] → Forall wf_label ls → Forall dotless ls →
  (S (length (wire ls)) < MAX_NAME_LEN)%nat →
  Z.of_nat (length (wire ls)) <= buflen →
  length old = S (length (wire ls)) →
  (∃ b' host' dn rest,
    ChangetoDnsNameFormat (Some (bp ++ old ++ br, Z.of_nat (length bp)))
      (Some (dotted ls ++ replicate (MAX_NAME_LEN - length (dotted ls)) 0))
    = Ok (0, b', host') ∧
    verify_and_copy_qname (Some (b', Z.of_nat (length bp)))
      (Some (replicate MAX_NAME_LEN 0)) buflen = Ok (0, dn) ∧
    unlabel_domain_name dn = Ok (dotted ls ++ 0 :: rest)) ∧
  ∀ hdr r, ∃ dn host host',
    verify_and_copy_qname (Some (hdr ++ wire ls ++ 0 :: r, Z.of_nat (length hdr)))
      (Some (replicate MAX_NAME_LEN 0)) buflen = Ok (0, dn) ∧
    unlabel_domain_name dn = Ok host ∧
    ChangetoDnsNameFormat (Some (bp ++ old ++ br, Z.of_nat (length bp))) (Some host)
    = Ok (0, bp ++ wire ls ++ 0 :: br, host').
Proof.
  intros Hne Hls Hdl Hlen Hb Hold. pose proof (length_dotted ls Hne) as Hd.
  assert (Hshort : Forall (λ l, (length l < 256)%nat) (split_dots (dotted ls))).
  { rewrite split_dotted by done. eapply Forall_impl; [exact Hls|].
    intros l [? _]; simpl; lia. }
  assert (Hc : ∀ k, ChangetoDnsNameFormat (Some (bp ++ old ++ br, Z.of_nat (length bp)))
    (Some (dotted ls ++ 0 :: 0 :: replicate k 0))
    = Ok (0, bp ++ wire ls ++ 0 :: br, dotted ls ++ 46 :: 0 :: replicate k 0)).
  { intros k. pose proof (ChangetoDnsNameFormat_ok (dotted ls) 0 (replicate k 0) bp old br
      ltac:(auto with cname) Hshort ltac:(lia)) as H.
    by rewrite split_dotted in H. }
  assert (Hv : ∀ hdr r, verify_and_copy_qname (Some (hdr ++ wire ls ++ 0 :: r, Z.of_nat (length hdr)))
    (Some (replicate MAX_NAME_LEN 0)) buflen
    = Ok (0, wire ls ++ 0 :: replicate (MAX_NAME_LEN - length (wire ls) - 1) 0)).
  { intros hdr r. rewrite verify_and_copy_qname_ok by (auto with cname || lia).
    destruct (MAX_NAME_LEN - length (wire ls))%nat as [|k] eqn:Hk; [lia|].
    cbn [replicate]. by rewrite Nat.sub_1_r. }
  assert (Hu := λ k, unlabel_ok s8 ls (replicate k 0) ltac:(auto with cname) Hls Hne).
  split.
  - destruct (MAX_NAME_LEN - length (dotted ls))%nat as [|[|k]] eqn:Hk; [lia..|].
    do 4 eexists. split; [apply Hc|]. split; [apply Hv|]. apply Hu.
  - intros hdr r. do 3 eexists. split; [apply Hv|]. split; [apply Hu|]. apply Hc.
Qed.

Lemma name_roundtrip_witness :
  let ls := [[119; 119; 119]; [97; 98]; [99; 111; 109]] in
  (∃ b' host' dn rest,
    ChangetoDnsNameFormat (Some (replicate 12 7 ++ replicate 12 9 ++ [1; 2], 12))
      (Some (dotted ls ++ replicate (MAX_NAME_LEN - length (dotted ls)) 0))
    = Ok (0, b', host') ∧
    verify_and_copy_qname (Some (b', 12)) (Some (replicate MAX_NAME_LEN 0)) 100 = Ok (0, dn) ∧
    unlabel_domain_name dn = Ok ([119; 119; 119; 46; 97; 98; 46; 99; 111; 109] ++ 0 :: rest)) ∧
  ∀ hdr r, ∃ dn host host',
    verify_and_copy_qname
      (Some (hdr ++ [3; 119; 119; 119; 2; 97; 98; 3; 99; 111; 109] ++ 0 :: r, Z.of_nat (length hdr)))
      (Some (replicate MAX_NAME_LEN 0)) 100 = Ok (0, dn) ∧
    unlabel_domain_name dn = Ok host ∧
    ChangetoDnsNameFormat (Some (replicate 12 7 ++ replicate 12 9 ++ [1; 2], 12)) (Some host)
    = Ok (0, replicate 12 7 ++ [3; 119; 119; 119; 2; 97; 98; 3; 99; 111; 109] ++ 0 :: [1; 2], host').
Proof.
  refine (name_roundtrip [[119; 119; 119]; [97; 98]; [99; 111; 109]]
    (replicate 12 7) (replicate 12 9) [1; 2] 100 _ _ _ _ _ _);
    first [done | vm_compute; lia | repeat constructor; vm_compute; lia].
Defined.

(** C7 (refinement): for a name laid out, compressed or not, as [name_at]
    describes, [uncompress_name] returns its dotted form and, through [count],
    the number of bytes the name takes where it was found. *)
Theorem uncompress_name_refines b off ls n name :
  name_at b off ls n → ls ≠ [] → Forall wf_label ls →
  length name = MAX_NAME_LEN → (length (wire ls) < MAX_NAME_LEN)%nat →
  ∃ rest, returns (λ f, uncompress_name f name off b) (dotted ls ++ 0 :: rest, n).
Proof.
  intros Hat Hne Hls Hn Hlen.
  destruct (uncompress_name_returns b off ls n name Hat Hne Hls) as (rest & _ & H); [lia|].
  by exists rest.
Qed.

(** [ns.<pointer to "com">], as the comment of the routine describes. *)
Definition ns_packet : bytes := [3; 99; 111; 109; 0; 2; 110; 115; 192; 0].

Lemma uncompress_name_refines_witness :
  ∃ rest, returns (λ f, uncompress_name f (replicate 256 170) 5 ns_packet)
    ([110; 115; 46; 99; 111; 109] ++ 0 :: rest, 5).
Proof.
  refine (uncompress_name_refines ns_packet 5 [[110; 115]; [99; 111; 109]] 5
    (replicate 256 170) _ _ _ eq_refl _).
  - refine (name_label ns_packet 5 [110; 115] [[99; 111; 109]] 2 eq_refl _ _ eq_refl _);
      [by repeat constructor|by repeat constructor|].
    refine (name_ptr ns_packet 8 192 0 [[99; 111; 109]] 5 eq_refl _ eq_refl _ _); [lia|lia|].
    refine (name_label ns_packet 0 [99; 111; 109] [] 1 eq_refl _ _ eq_refl _);
      [by repeat constructor; vm_compute; lia|by repeat constructor|].
    by apply name_end.
  - done.
  - repeat constructor; vm_compute; lia.
  - vm_compute. lia.
Defined.

(** A chain of compression pointers that returns to its start
    makes [uncompress_name] run for ever. *)
Theorem uncompress_pointer_cycle_diverges b off name :
  tc (points b) off off → name ≠ [] →
  diverges (λ f, uncompress_name f name off b).
Proof.
  intros Hc Hn f. destruct name as [|x name]; [done|]. unfold uncompress_name.
  step (wr_app [] x name 0 0 eq_refl). by rewrite uncompress_loop_cycle.
Qed.

Lemma uncompress_pointer_cycle_diverges_witness :
  diverges (λ f, uncompress_name f (replicate 256 0) 12 (replicate 12 0 ++ [192; 14; 192; 12])).
Proof.
  apply uncompress_pointer_cycle_diverges; [|done].
  apply (tc_l _ _ 14); [|apply tc_once]; eexists _, _; split_and!; vm_compute; done.
Defined.

(** The root name, which has no label, makes the in-place
    conversions of both routines store at index -1 of their array. *)
Theorem root_name_stores_before_array b off n name dn :
  name_at b off [] n → length name = MAX_NAME_LEN →
  unlabel_domain_name (0 :: dn) = UB OutOfBounds ∧
  ∃ k, ∀ f, (k ≤ f)%nat → uncompress_name f name off b = UB OutOfBounds.
Proof.
  intros Hat Hl. split; [done|].
  destruct name as [|x name]; [discriminate|].
  destruct (uncompress_loop_name b off [] n Hat [] [] (0 :: name) 0 1 eq_refl
    (or_introl eq_refl)) as (j' & cnt' & _ & k & Hk).
  exists k. intros f Hf. specialize (Hk f Hf). unfold uncompress_name.
  step (wr_app [] x name 0 0 eq_refl). simpl app in Hk |- *.
  change (Z.of_nat (length (@nil Z))) with 0 in Hk. step Hk.
  by step (wr_app [] 0 name (Z.of_nat (length (@nil Z) + length (wire []))) 0 eq_refl).
Qed.

Lemma root_name_stores_before_array_witness :
  unlabel_domain_name (0 :: replicate 255 0) = UB OutOfBounds ∧
  ∃ k, ∀ f, (k ≤ f)%nat → uncompress_name f (replicate 256 1) 0 [0] = UB OutOfBounds.
Proof.
  apply (root_name_stores_before_array [0] 0 1); [by apply name_end|done].
Defined.

(** The in-place conversion finishes on every array, however
    the length bytes in it lie (it may fault, it never loops). *)
Theorem unlabel_terminates tc a : unlabel tc a ≠ NoFuel.
Proof.
  apply finishes_bind.
  - apply unlabel_loop_finishes; lia.
  - intros [a' i] _. auto with cfin.
Qed.
