(* ===== verification/DnsServer.v ===== *)
(** * The request path of the sample DNS server

    [read_and_print_dns_header], [verify_dns_buffer] and [send_data_to_dns] of
    [src/sample_dns_server/src/dns_utils/utils.c] and [on_recv] of
    [src/sample_dns_server/src/dns_server/server.c], as programs over the
    trace of what the process prints, sends, allocates and opens.  The kernel
    is an argument: the datagrams the two [recvfrom] calls deliver and whether
    the other socket calls succeed.  [debug_print] (standard error) is left
    out. *)
From S2P Require Import Prelude CMem DnsName.

Local Open Scope Z_scope.

(** ** Data *)

(** [struct sockaddr_in]: the address and the port, both in network order. *)
Record sockaddr_in := SockAddrIn { sin_addr : bytes; sin_port : Z }.

#[export] Instance sockaddr_in_eq_dec : EqDecision sockaddr_in.
Proof. solve_decision. Defined.

(** What the server does that can be seen from outside it. *)
Inductive event :=
  | EvClientAddr (addr : Z)
  | EvTid (tid : Z)
  | EvDomain (name : bytes)
  | EvQueryType (is_request : bool)
  | EvUnsupported
  | EvRequestData
  | EvInvalidUpstream
  | EvCounts (q an ns ar : Z)
  | EvAnswerRecords (an : Z)
  | EvAnswer (name : bytes) (addr : option bytes)
  | EvSendUpstream (dest : sockaddr_in) (payload : bytes)
  | EvSendClient (dest : Z) (payload : bytes) (len : Z)
  | EvMalloc (block : nat)
  | EvFree (block : nat)
  | EvSocket
  | EvReceiveTimeout (tv_sec : Z)
  | EvClose.

#[export] Instance event_eq_dec : EqDecision event.
Proof. solve_decision. Defined.

Abbreviation trace := (list event).

(** [struct DNS_HEADER]: byte offsets of its fields, and its size. *)
Definition H_ID : Z := 0.
Definition H_FLAGS : Z := 2.
Definition H_QCOUNT : Z := 4.
Definition H_ANCOUNT : Z := 6.
Definition H_AUTHCOUNT : Z := 8.
Definition H_ADDCOUNT : Z := 10.
Definition SIZEOF_DNS_HEADER : Z := 12.

(** [struct QUESTION] and [struct R_DATA] (packed). *)
Definition SIZEOF_QUESTION : Z := 4.
Definition R_TYPE : Z := 0.
Definition R_DATA_LEN : Z := 8.
Definition SIZEOF_R_DATA : Z := 10.

(** [query_type_t] and [qr_data_t]. *)
Definition REQUEST : Z := 0.
Definition RESPONSE : Z := 1.

Record qr_data := QrData { tid : Z; domain_name : bytes; q_type : Z }.

(** [struct RES_RECORD]; [resource] points into the message. *)
Record res_record := ResRecord { rr_name : bytes; resource : Z; rdata : bytes }.

(** The upstream server; [UPSTREAM_DNS_SERVER] as [inet_addr] reads it. *)
Definition UPSTREAM_DNS_SERVER : bytes := [8; 8; 8; 8].
Definition UPSTREAM_DNS_PORT : Z := 53.
Definition UPSTREAM_DNS_SOCKET_TIMEOUT : Z := 5.

Definition g_dest : sockaddr_in := SockAddrIn UPSTREAM_DNS_SERVER (htons UPSTREAM_DNS_PORT).

(** The kernel's answers during one [send_data_to_dns]. *)
Record upstream := Upstream {
  reuse_ok : bool;            (* setsockopt(SO_REUSEADDR) returned 0 *)
  timeo_ok : bool;            (* setsockopt(SO_RCVTIMEO) returned 0 *)
  send_ok : bool;             (* sendto did not return -1 *)
  reply : option bytes        (* the datagram recvfrom delivers, or -1 *)
}.

(** The blocks one call of [on_recv] allocates. *)
Definition BUFFER : nat := 0.
Definition CLIENT_DNS_REQ : nat := 1.
Definition name_block (i : Z) : nat := Z.to_nat (2 * i + 2).
Definition rdata_block (i : Z) : nat := Z.to_nat (2 * i + 3).

(** [n = recvfrom(s, buffer, max, ...)] with [n] an [unsigned int]: a longer
    datagram is cut, and -1 becomes [2^32-1]. *)
Definition recvfrom (buffer : bytes) (max : nat) (d : option bytes) : res (bytes * Z) :=
  match d with
  | None => mret (buffer, u32 (-1))
  | Some d => b ← wr_bytes buffer 0 (take max d); mret (b, Z.of_nat (length (take max d)))
  end.

(** The [unsigned int] results are compared with [< 0]. *)
Definition failed (nBytes : Z) : bool := nBytes <? 0.

(** The bytes of the block that a [sendto] of [n] bytes of it covers. *)
Definition covered (buffer : bytes) (n : Z) : bytes :=
  take (Z.to_nat (Z.min n (Z.of_nat (length buffer)))) buffer.

(** ** [verify_dns_buffer] *)

Definition verify_dns_buffer (buffer : bytes) (buflen : Z) : res Z :=
  if 2 * 2 >? TID_SIZE then mret (-1)
  else
    '(rc, dn) ← copy_loop (drop (Z.to_nat SIZEOF_DNS_HEADER) buffer)
                  (replicate MAX_NAME_LEN 0) 0 buflen;
    if rc =? -1 then mret (-1)
    else
      n ← strlen dn 0;
      qtype ← rd16 buffer (SIZEOF_DNS_HEADER + (n + 1));
      if negb (ntohs qtype =? T_A) then mret (-1) else mret 0.

(** ** [read_and_print_dns_header] *)

Definition read_and_print_dns_header (buffer : option bytes) (buflen : Z)
    (client_data : option qr_data) (clientAddr : option Z) : prog trace (Z * option qr_data) :=
  match buffer, clientAddr, client_data with
  | Some buffer, Some addr, Some _ =>
      id ← lift (rd16 buffer H_ID);
      let cd := QrData (ntohs id) (replicate MAX_NAME_LEN 0) 0 in
      _ ← emit (EvClientAddr addr);
      _ ← emit (EvTid (tid cd));
      '(rc, dn) ← lift (verify_and_copy_qname (Some (buffer, SIZEOF_DNS_HEADER))
                          (Some (replicate MAX_NAME_LEN 0)) buflen);
      if rc =? -1 then mret (-1, Some cd)
      else
        dn ← lift (unlabel_domain_name dn);
        n ← lift (strlen dn 0);
        name ← lift (strncpy (domain_name cd) 0 dn n);
        let cd := QrData (tid cd) name (q_type cd) in
        s ← lift (cstring (domain_name cd) 0);
        _ ← emit (EvDomain s);
        flags ← lift (rd buffer H_FLAGS);
        let q_type := ntohs (flags / 128 mod 2) in
        _ ← emit (EvQueryType (q_type =? REQUEST));
        mret (0, Some cd)
  | _, _, _ => mret (-1, client_data)
  end.

(** ** The answer section *)

(** [for(j=0; j<data_len; j++) rdata[j]=reader[j];] from index [j] on. *)
Fixpoint copy_rdata (n : nat) (buffer : bytes) (reader : Z) (rdata : bytes) (j : Z) : res bytes :=
  match n with
  | O => Ok rdata
  | S n' =>
      c ← rd buffer (reader + j);
      rdata ← wr rdata j c;
      copy_rdata n' buffer reader rdata (j + 1)
  end.

Section answers.
Context `{Allocator} (fuel : nat).

(** One turn of the reading loop: the record and the moved [reader]. *)
Definition parse_answer (i : Z) (buffer : bytes) (reader : Z)
    : prog trace (res_record * Z) :=
  _ ← emit (EvMalloc (name_block i));
  '(name, stop) ← lift (uncompress_name fuel (malloc (name_block i) (Z.of_nat MAX_NAME_LEN))
                          reader buffer);
  if RECORD_LEN <=? i then fail OutOfBounds
  else
    let reader := reader + stop in
    let resource := reader in
    let reader := reader + SIZEOF_R_DATA in
    type ← lift (rd16 buffer (resource + R_TYPE));
    if ntohs type =? 1 then
      dl ← lift (rd16 buffer (resource + R_DATA_LEN));
      let data_len := ntohs dl in
      _ ← emit (EvMalloc (rdata_block i));
      rdata ← lift (copy_rdata (Z.to_nat data_len) buffer reader
                      (malloc (rdata_block i) data_len) 0);
      rdata ← lift (wr rdata data_len 0);
      mret (ResRecord name resource rdata, reader + data_len)
    else
      _ ← emit (EvMalloc (rdata_block i));
      '(rdata, stop) ← lift (uncompress_name fuel
                               (malloc (rdata_block i) (Z.of_nat MAX_NAME_LEN)) reader buffer);
      mret (ResRecord name resource rdata, reader + stop).

(** [for(i=...; i<ans_count; i++)] with [n = ans_count - i]. *)
Fixpoint parse_answers (n : nat) (i : Z) (buffer : bytes) (reader : Z)
    : prog trace (list res_record) :=
  match n with
  | O => mret []
  | S n' =>
      '(r, reader) ← parse_answer i buffer reader;
      answers ← parse_answers n' (i + 1) buffer reader;
      mret (r :: answers)
  end.
End answers.

(** The printing loop.  [p] reads [rdata] as a [long], [s_addr] is [ntohl] of
    it, and [inet_ntoa] prints the bytes of [s_addr] in memory order. *)
Fixpoint print_answers (buffer : bytes) (answers : list res_record) : prog trace unit :=
  match answers with
  | [] => mret tt
  | r :: answers' =>
      name ← lift (cstring (rr_name r) 0);
      type ← lift (rd16 buffer (resource r + R_TYPE));
      addr ← (if ntohs type =? T_A then
                p ← lift (rd_bytes (rdata r) 0 8);
                let s_addr := ntohl (u32 (le_val p)) in
                mret (Some (le_bytes 4 s_addr))
              else mret None);
      _ ← emit (EvAnswer name addr);
      print_answers buffer answers'
  end.

(** The loop that frees the names and the data. *)
Fixpoint free_answers (n : nat) (i : Z) : prog trace unit :=
  match n with
  | O => mret tt
  | S n' =>
      _ ← emit (EvFree (name_block i));
      _ ← emit (EvFree (rdata_block i));
      free_answers n' (i + 1)
  end.

(** ** [send_data_to_dns] *)

Section server.
Context `{Allocator} (fuel : nat).

(** From the reception of the reply on. *)
Definition handle_reply (buffer : bytes) (nBytes : Z) : prog trace (Z * bytes * Z) :=
  if failed nBytes then _ ← emit EvClose; mret (-1, buffer, nBytes)
  else
    buffer ← lift (wr buffer (u32 (nBytes + 1)) 0);
    rc ← lift (verify_dns_buffer buffer nBytes);
    if rc =? -1 then
      _ ← emit EvInvalidUpstream;
      _ ← emit EvClose;
      mret (-1, buffer, nBytes)
    else
      _ ← emit EvClose;
      g ← lift (strlen buffer SIZEOF_DNS_HEADER);
      let reader := SIZEOF_DNS_HEADER + g + 1 + SIZEOF_QUESTION in
      q ← lift (rd16 buffer H_QCOUNT);
      an ← lift (rd16 buffer H_ANCOUNT);
      ns ← lift (rd16 buffer H_AUTHCOUNT);
      ar ← lift (rd16 buffer H_ADDCOUNT);
      _ ← emit (EvCounts (ntohs q) (ntohs an) (ntohs ns) (ntohs ar));
      answers ← parse_answers fuel (Z.to_nat (ntohs an)) 0 buffer reader;
      _ ← emit (EvAnswerRecords (ntohs an));
      _ ← print_answers buffer answers;
      _ ← free_answers (length answers) 0;
      mret (0, buffer, nBytes).

(** [qinfo], [n] bytes behind the header, and the bytes to send. *)
Definition write_question (buffer : bytes) (n : Z) : res (bytes * bytes) :=
  let qinfo := SIZEOF_DNS_HEADER + n in
  buffer ← wr16 buffer qinfo (htons T_A);
  buffer ← wr16 buffer (qinfo + 2) (htons 1);
  g ← strlen buffer SIZEOF_DNS_HEADER;
  payload ← rd_bytes buffer 0 (Z.to_nat (SIZEOF_DNS_HEADER + (g + 1) + SIZEOF_QUESTION));
  mret (buffer, payload).

(** The name and the question of the query, behind the header; [dn] is
    [domain_name].  The result is the return value of
    [ChangetoDnsNameFormat], the buffer and the datagram to send. *)
Definition build_query (buffer dn : bytes) : res (Z * bytes * bytes) :=
  '(rc, buffer, dn) ← ChangetoDnsNameFormat (Some (buffer, SIZEOF_DNS_HEADER)) (Some dn);
  if rc =? -1 then mret (-1, buffer, [])
  else
    n ← strlen dn 0;
    '(buffer, payload) ← write_question buffer n;
    mret (0, buffer, payload).

Definition send_data_to_dns (env : upstream) (buffer : bytes) (nBytes : Z)
    : prog trace (Z * bytes * Z) :=
  '(rc, dn) ← lift (verify_and_copy_qname (Some (buffer, SIZEOF_DNS_HEADER))
                      (Some (replicate MAX_NAME_LEN 0)) nBytes);
  if rc =? -1 then mret (-1, buffer, nBytes)
  else
    '(rc, buffer, dn) ← lift (ChangetoDnsNameFormat (Some (buffer, SIZEOF_DNS_HEADER)) (Some dn));
    if rc =? -1 then mret (-1, buffer, nBytes)
    else
      _ ← emit (EvMalloc CLIENT_DNS_REQ);
      h ← lift (rd_bytes buffer 0 (Z.to_nat SIZEOF_DNS_HEADER));
      req ← lift (wr_bytes (malloc CLIENT_DNS_REQ SIZEOF_DNS_HEADER) 0 h);
      _ ← emit EvSocket;
      if negb (reuse_ok env) then _ ← emit EvClose; mret (-1, buffer, nBytes)
      else if negb (timeo_ok env) then _ ← emit EvClose; mret (-1, buffer, nBytes)
      else
        _ ← emit (EvReceiveTimeout UPSTREAM_DNS_SOCKET_TIMEOUT);
        buffer ← lift (memset buffer 0 MAX_BUF_LEN);
        let sizeof_dns := 8%nat in               (* [dns] is a pointer *)
        h ← lift (rd_bytes req 0 sizeof_dns);
        buffer ← lift (wr_bytes buffer 0 h);
        _ ← emit (EvFree CLIENT_DNS_REQ);
        '(rc, buffer, payload) ← lift (build_query buffer dn);
        if rc =? -1 then _ ← emit EvClose; mret (-1, buffer, nBytes)
        else
          _ ← emit (EvSendUpstream g_dest payload);
          if negb (send_ok env) then _ ← emit EvClose; mret (-1, buffer, nBytes)
          else
            '(buffer, nBytes) ← lift (recvfrom buffer MAX_BUF_LEN (reply env));
            handle_reply buffer nBytes.

(** ** [on_recv] *)

(** Step 3: from the return of [send_data_to_dns] on. *)
Definition forward_reply (addr : Z) (cd : option qr_data) (rc : Z) (buffer : bytes)
    (nBytes : Z) : prog trace unit :=
  if negb (rc =? 0) then emit (EvFree BUFFER)
  else
    '(rc, cd) ← read_and_print_dns_header (Some buffer) nBytes cd (Some addr);
    if negb (rc =? 0) then emit (EvFree BUFFER)
    else
      _ ← emit (EvSendClient addr (covered buffer nBytes) nBytes);
      emit (EvFree BUFFER).

(** [dgram] is what the first [recvfrom] delivers, [addr] the sender. *)
Definition on_recv (dgram : option bytes) (addr : Z) (env : upstream) : prog trace unit :=
  _ ← emit (EvMalloc BUFFER);
  let sizeof_buffer := 8%nat in                  (* [buffer] is a pointer *)
  buffer ← lift (memset (malloc BUFFER (Z.of_nat MAX_BUF_LEN)) 0 sizeof_buffer);
  '(buffer, nBytes) ← lift (recvfrom buffer MAX_BUF_LEN dgram);
  if failed nBytes then emit (EvFree BUFFER)
  else
    buffer ← lift (wr buffer (u32 (nBytes + 1)) 0);
    rc ← lift (verify_dns_buffer buffer nBytes);
    if negb (rc =? 0) then _ ← emit EvUnsupported; emit (EvFree BUFFER)
    else
      _ ← emit EvRequestData;
      '(rc, cd) ← read_and_print_dns_header (Some buffer) nBytes
                    (Some (QrData 0 [] 0)) (Some addr);
      if negb (rc =? 0) then emit (EvFree BUFFER)
      else
        let client_name := from_option domain_name [] cd in
        n ← lift (strlen client_name 0);
        let qname := SIZEOF_DNS_HEADER in
        buffer ← lift (strncpy buffer qname client_name n);
        buffer ← lift (wr buffer (qname + n) 0);
        '(rc, buffer, nBytes) ← send_data_to_dns env buffer nBytes;
        forward_reply addr cd rc buffer nBytes.
End server.

(** ** Running the programs *)

Lemma verify_dns_buffer_name hdr s q0 q1 r buflen :
  length hdr = 12%nat → nonzero s → (length s < MAX_NAME_LEN)%nat →
  Z.of_nat (length s) <= buflen + 1 →
  verify_dns_buffer (hdr ++ s ++ 0 :: q0 :: q1 :: r) buflen
  = Ok (if ntohs (q0 + 256 * q1) =? T_A then 0 else -1).
Proof.
  intros Hh Hs Hl Hb. unfold verify_dns_buffer.
  pose proof (verify_and_copy_qname_ok hdr s (q0 :: q1 :: r) buflen Hs Hl Hb) as Hv.
  unfold verify_and_copy_qname in Hv. rewrite Hh in Hv. change (Z.of_nat 12 <? 0) with false in Hv.
  cbv iota in Hv. rewrite Nat2Z.id in Hv. change (Z.to_nat SIZEOF_DNS_HEADER) with 12%nat.
  change (2 * 2 >? TID_SIZE) with false. cbv iota. step Hv. change (0 =? -1) with false. cbv iota.
  destruct (MAX_NAME_LEN - length s)%nat as [|k] eqn:Hk; [lia|].
  step (strlen_head s (replicate k 0) Hs).
  rewrite (app_assoc hdr), (app_cons_assoc (hdr ++ s)).
  step (rd16_app ((hdr ++ s) ++ [0]) q0 q1 r (SIZEOF_DNS_HEADER + (Z.of_nat (length s) + 1))
    ltac:(unfold SIZEOF_DNS_HEADER; len)).
  by destruct (_ =? T_A).
Qed.

Lemma ntohs_qr fl : (ntohs (fl / 128 mod 2) =? REQUEST) = (fl / 128 mod 2 =? 0).
Proof.
  unfold ntohs, REQUEST. assert (fl / 128 mod 2 = 0 ∨ fl / 128 mod 2 = 1) as [-> | ->] by dm_lia;
    reflexivity.
Qed.

(** A 16-bit field of a header, in network order. *)
Definition field (h : bytes) (i : nat) : Z := ntohs (h !!! i + 256 * h !!! S i).

Lemma rd16_field h r i :
  (S i < length h)%nat → rd16 (h ++ r) (Z.of_nat i) = Ok (h !!! i + 256 * h !!! S i).
Proof.
  intros Hi. unfold rd16.
  assert (Hlk : ∀ j, (j < length h)%nat → rd (h ++ r) (Z.of_nat j) = Ok (h !!! j)).
  { intros j Hj. apply rd_lookup. rewrite lookup_app_l by done.
    by apply list_lookup_lookup_total_lt. }
  step (Hlk i ltac:(lia)). replace (Z.of_nat i + 1) with (Z.of_nat (S i)) by lia.
  by step (Hlk (S i) ltac:(lia)).
Qed.

(** What is printed for a message with header [h], request or response. *)
Definition header_events (addr : Z) (h : bytes) (ls : list bytes) : trace :=
  [EvClientAddr addr; EvTid (field h 0); EvDomain (dotted ls);
   EvQueryType (h !!! 2%nat / 128 mod 2 =? 0)].

Lemma read_header_ok h ls r buflen addr cd t :
  length h = 12%nat → Forall wf_label ls → ls ≠ [] →
  (length (wire ls) < MAX_NAME_LEN)%nat → Z.of_nat (length (wire ls)) <= buflen + 1 →
  read_and_print_dns_header (Some (h ++ wire ls ++ 0 :: r)) buflen (Some cd) (Some addr) t
  = Ok ((0, Some (QrData (field h 0)
                   (dotted ls ++ replicate (MAX_NAME_LEN - length (dotted ls)) 0) 0)),
        t ++ header_events addr h ls).
Proof.
  intros Hh Hls Hne Hl Hb. unfold read_and_print_dns_header, header_events, field.
  destruct h as [|i0 [|i1 [|fl hr]]]; [discriminate..|].
  pose proof (verify_and_copy_qname_ok (i0 :: i1 :: fl :: hr) (wire ls) r buflen
    ltac:(auto with cname) Hl Hb) as Hv.
  rewrite Hh in Hv. change (Z.of_nat 12) with SIZEOF_DNS_HEADER in Hv.
  pose proof (length_dotted ls Hne) as Hd.
  assert (Hnz : nonzero (dotted ls)) by auto with cname.
  lstep (rd16_app [] i0 i1 ((fl :: hr) ++ wire ls ++ 0 :: r) H_ID eq_refl).
  rewrite !emit_bind. lstep Hv. change (0 =? -1) with false. cbv iota.
  destruct (MAX_NAME_LEN - length (wire ls))%nat as [|k] eqn:Hk; [lia|]. cbn [replicate].
  lstep (unlabel_ok s8 ls (replicate k 0) small_conv_s8 Hls Hne).
  lstep (strlen_head (dotted ls) (0 :: replicate k 0) Hnz).
  replace (MAX_NAME_LEN - length (dotted ls))%nat with (S (S k)) by lia.
  replace MAX_NAME_LEN with (length (dotted ls) + S (S k))%nat by lia.
  rewrite replicate_add.
  lstep (strncpy_app [] (replicate (length (dotted ls)) 0) (replicate (S (S k)) 0) (dotted ls)
    (0 :: 0 :: replicate k 0) 0 _ eq_refl eq_refl ltac:(len) Hnz).
  cbn [domain_name replicate app tid].
  lstep (cstring_head (dotted ls) (0 :: replicate k 0) Hnz). rewrite emit_bind.
  lstep (rd_app [i0; i1] fl (hr ++ wire ls ++ 0 :: r) H_FLAGS eq_refl).
  rewrite emit_bind, ntohs_qr. unfold mret, prog_ret.
  by rewrite <- !app_assoc.
Qed.

(** ** The query that is sent upstream *)

Section wire_query.
Context (ls : list bytes) (Hls : Forall wf_label ls) (Hdl : Forall dotless ls)
  (Hne : ls ≠ []) (Hlen : (length (wire ls) <= 254)%nat).

Local Lemma dotted_len : length (wire ls) = S (length (dotted ls)).
Proof. by apply length_dotted. Qed.

Local Lemma dotted_nz : nonzero (dotted ls).
Proof. auto with cname. Qed.

Lemma split_short : Forall (λ l, (length l < 256)%nat) (split_dots (dotted ls)).
Proof.
  rewrite split_dotted by done. eapply Forall_impl; [exact Hls|].
  intros l [? _]; simpl; lia.
Qed.

(** A second dot at the end of the string gives an empty last label. *)
Lemma split_dotted_dot : split_dots (dotted ls ++ [46]) = ls ++ [[]].
Proof.
  rewrite <- dots_dotted by done. by apply split_dots_dots.
Qed.

(** The first conversion, in the client's message. *)
Lemma first_conversion hdr x1 x2 r k :
  length hdr = 12%nat → (MAX_NAME_LEN - length (dotted ls))%nat = S (S k) →
  ChangetoDnsNameFormat (Some (hdr ++ dotted ls ++ x1 :: x2 :: r, SIZEOF_DNS_HEADER))
    (Some (dotted ls ++ 0 :: 0 :: replicate k 0))
  = Ok (0, hdr ++ wire ls ++ 0 :: r, (dotted ls ++ [46]) ++ 0 :: replicate k 0).
Proof.
  intros Hh Hk.
  pose proof (ChangetoDnsNameFormat_ok (dotted ls) 0 (replicate k 0) hdr
    (dotted ls ++ [x1; x2]) r dotted_nz split_short ltac:(len)) as H.
  rewrite split_dotted in H by done. rewrite Hh in H.
  rewrite <- (app_assoc (dotted ls)) in H |- *. exact H.
Qed.

Lemma write_question_ok h x0 x1 x2 x3 tl :
  length h = 12%nat →
  write_question (h ++ wire ls ++ 0 :: x0 :: x1 :: x2 :: x3 :: tl)
    (Z.of_nat (S (length (wire ls))))
  = Ok (h ++ wire ls ++ 0 :: 0 :: 1 :: 0 :: 1 :: tl, h ++ wire ls ++ [0; 0; 1; 0; 1]).
Proof.
  intros Hh. unfold write_question.
  rewrite (app_assoc h), (app_cons_assoc (h ++ wire ls)).
  step (wr16_app ((h ++ wire ls) ++ [0]) x0 x1 (x2 :: x3 :: tl)
    (SIZEOF_DNS_HEADER + Z.of_nat (S (length (wire ls)))) (htons T_A)
    ltac:(unfold SIZEOF_DNS_HEADER; len)).
  change (u8 (htons T_A)) with 0. change (u8 (htons T_A / 256)) with 1.
  rewrite (app_cons_assoc _ 0), (app_cons_assoc _ 1).
  step (wr16_app ((((h ++ wire ls) ++ [0]) ++ [0]) ++ [1]) x2 x3 tl
    (SIZEOF_DNS_HEADER + Z.of_nat (S (length (wire ls))) + 2) (htons 1)
    ltac:(unfold SIZEOF_DNS_HEADER; len)).
  change (u8 (htons 1)) with 0. change (u8 (htons 1 / 256)) with 1.
  rewrite <- !app_assoc. cbn [app].
  step (strlen_app h (wire ls) (0 :: 1 :: 0 :: 1 :: tl) SIZEOF_DNS_HEADER
    ltac:(by rewrite Hh) (wire_nonzero ls Hls)).
  pose proof (rd_bytes_app [] (h ++ wire ls ++ [0; 0; 1; 0; 1]) tl 0
    (Z.to_nat (SIZEOF_DNS_HEADER + (Z.of_nat (length (wire ls)) + 1) + SIZEOF_QUESTION))
    eq_refl ltac:(unfold SIZEOF_DNS_HEADER, SIZEOF_QUESTION; len)) as Hr.
  rewrite <- !app_assoc in Hr. cbn [app] in Hr. by step Hr.
Qed.

(** The construction of the query behind the header [h]. *)
Lemma build_query_ok h n rest k :
  length h = 12%nat → (MAX_NAME_LEN - length (dotted ls))%nat = S (S k) →
  (length (wire ls) + 6 <= n)%nat →
  ∃ tl, head tl = Some 0%Z ∧
    length (h ++ wire ls ++ 0%Z :: 0%Z :: 1%Z :: 0%Z :: 1%Z :: tl)
      = length (h ++ replicate n 0%Z ++ rest) ∧ (Forall byte_ok rest → Forall byte_ok tl) ∧
    build_query (h ++ replicate n 0 ++ rest) ((dotted ls ++ [46]) ++ 0 :: replicate k 0)
    = Ok (0, h ++ wire ls ++ 0 :: 0 :: 1 :: 0 :: 1 :: tl, h ++ wire ls ++ [0; 0; 1; 0; 1]).
Proof.
  intros Hh Hk Hn. pose proof dotted_len as Hd.
  destruct (Nat.le_exists_sub (length (wire ls) + 6) n Hn) as (m & -> & _).
  rewrite (Nat.add_comm m), replicate_add, <- (app_assoc (replicate _ 0)).
  rewrite replicate_add, <- (app_assoc (replicate _ 0)).
  set (tl := replicate m 0 ++ rest).
  destruct k as [|k]; [unfold MAX_NAME_LEN in *; lia|].
  assert (Hnz : nonzero (dotted ls ++ [46])).
  { apply Forall_app. split; [apply dotted_nz|by repeat constructor]. }
  assert (Hshort : Forall (λ l, (length l < 256)%nat) (split_dots (dotted ls ++ [46]))).
  { rewrite split_dotted_dot. apply Forall_app. pose proof split_short as Hs.
    rewrite split_dotted in Hs by done. split; [done|]. by repeat constructor; simpl; lia. }
  pose proof (ChangetoDnsNameFormat_ok (dotted ls ++ [46]) 0 (replicate k 0) h
    (replicate (length (wire ls)) 0 ++ [0; 0]) (0 :: 0 :: 0 :: 0 :: tl) Hnz Hshort
    ltac:(len)) as Hc.
  rewrite split_dotted_dot, wire_app, Hh, <- (app_assoc (replicate _ 0)) in Hc.
  exists (0 :: tl). split; [done|]. split; [len|]. split.
  { intros Hr. constructor; [done|]. apply Forall_app. split; [by apply Forall_replicate|done]. }
  unfold build_query. cbn [replicate app] in Hc |- *.
  change (Z.of_nat 12) with SIZEOF_DNS_HEADER in Hc. step Hc.
  change (0 =? -1) with false. cbv iota. rewrite (app_cons_assoc (dotted ls ++ [46]) 46).
  assert (Hnz2 : nonzero ((dotted ls ++ [46]) ++ [46])).
  { apply Forall_app. split; [done|by repeat constructor]. }
  step (strlen_head _ (replicate k 0) Hnz2).
  cbn [wire app length]. rewrite <- (app_assoc (wire ls)). cbn [app].
  replace (length ((dotted ls ++ [46]) ++ [46])) with (S (length (wire ls))) by len.
  change (Z.of_nat 0) with 0. by step (write_question_ok h 0 0 0 0 (0 :: tl) Hh).
Qed.

(** The datagram sent for a client header that starts with [h8]. *)
Definition upstream_query (h8 : bytes) : bytes :=
  h8 ++ [0; 0; 0; 0] ++ wire ls ++ [0; 0; 1; 0; 1].

(** What [send_data_to_dns] does before the reply: all of it, or up to the call
    of the kernel that fails. *)
Definition upstream_events (h8 : bytes) : trace :=
  [EvMalloc CLIENT_DNS_REQ; EvSocket; EvReceiveTimeout UPSTREAM_DNS_SOCKET_TIMEOUT;
   EvFree CLIENT_DNS_REQ; EvSendUpstream g_dest (upstream_query h8)].

Lemma send_query_any `{Allocator} env (h8 h4 : bytes) x (r : bytes) nBytes :
  length h8 = 8%nat → length h4 = 4%nat →
  (MAX_BUF_LEN <= length ((h8 ++ h4) ++ dotted ls ++ 0%Z :: x :: r))%nat →
  Z.of_nat (length (wire ls)) <= nBytes →
  ∃ tl, head tl = Some 0 ∧ let b' := (h8 ++ [0; 0; 0; 0]) ++ wire ls ++ 0 :: 0 :: 1 :: 0 :: 1 :: tl in
    length b' = length ((h8 ++ h4) ++ dotted ls ++ 0 :: x :: r) ∧
    (Forall byte_ok r → Forall byte_ok tl) ∧ ∀ fuel t,
    send_data_to_dns fuel env ((h8 ++ h4) ++ dotted ls ++ 0 :: x :: r) nBytes t
    = if reuse_ok env && timeo_ok env then
        if send_ok env then
          ('(b, n) ← lift (recvfrom b' MAX_BUF_LEN (reply env)); handle_reply fuel b n)
            (t ++ upstream_events h8)
        else Ok ((-1, b', nBytes), t ++ upstream_events h8 ++ [EvClose])
      else Ok ((-1, (h8 ++ h4) ++ wire ls ++ 0 :: r, nBytes),
               t ++ [EvMalloc CLIENT_DNS_REQ; EvSocket; EvClose]).
Proof.
  intros H8 H4 Hbuf Hn. pose proof dotted_len as Hd.
  assert (Hh : length (h8 ++ h4) = 12%nat) by len.
  destruct (MAX_NAME_LEN - length (dotted ls))%nat as [|[|k]] eqn:Hk;
    [unfold MAX_NAME_LEN in *; lia..|].
  pose proof (verify_and_copy_qname_ok (h8 ++ h4) (dotted ls) (x :: r) nBytes dotted_nz
    ltac:(unfold MAX_NAME_LEN; lia) ltac:(lia)) as Hv.
  rewrite Hk, Hh in Hv. change (Z.of_nat 12) with SIZEOF_DNS_HEADER in Hv.
  pose proof (first_conversion (h8 ++ h4) 0 x r k Hh Hk) as Hc. cbn [replicate] in Hv.
  set (buf := (h8 ++ h4) ++ wire ls ++ 0 :: r) in *.
  assert (Hlb : length buf = length ((h8 ++ h4) ++ dotted ls ++ 0 :: x :: r)) by
    (subst buf; len).
  destruct (app_length_split buf MAX_BUF_LEN ltac:(lia)) as (b1 & b2 & Hb & Hb1).
  destruct (build_query_ok (h8 ++ [0; 0; 0; 0]) 500 b2 k ltac:(len) Hk ltac:(lia))
    as (tl & Hhd & Hlb' & Hty & Hq).
  exists tl. split; [done|]. intros b'. split.
  { subst b'. rewrite <- Hlb, Hb, Hlb'. unfold MAX_BUF_LEN in Hb1. len. }
  split.
  { intros Hr. apply Hty. apply (f_equal (drop MAX_BUF_LEN)) in Hb.
    rewrite drop_app_length' in Hb by done. rewrite <- Hb. subst buf. clear -Hr Hh Hlen Hd.
    rewrite app_assoc, drop_app. apply Forall_app. split; [|by apply Forall_drop; constructor].
    rewrite drop_ge; [constructor|]. unfold MAX_BUF_LEN. len. }
  intros fuel t. unfold send_data_to_dns. lstep Hv. change (0 =? -1) with false. cbv iota.
  lstep Hc. change (0 =? -1) with false. cbv iota. rewrite emit_bind.
  lstep (rd_bytes_app [] (h8 ++ h4) (wire ls ++ 0 :: r) 0 (Z.to_nat SIZEOF_DNS_HEADER)
    eq_refl ltac:(by rewrite Hh)).
  pose proof (malloc_size CLIENT_DNS_REQ SIZEOF_DNS_HEADER) as Hm.
  unfold SIZEOF_DNS_HEADER in Hm.
  lstep (wr_bytes_head (h8 ++ h4) (malloc CLIENT_DNS_REQ SIZEOF_DNS_HEADER)
    ltac:(unfold SIZEOF_DNS_HEADER; lia)).
  rewrite emit_bind. destruct (reuse_ok env); cbn [negb andb]; [|rewrite emit_bind; by lnorm].
  destruct (timeo_ok env); cbn [negb]; [|rewrite emit_bind; by lnorm].
  rewrite emit_bind, Hb.
  lstep (memset_all 0 MAX_BUF_LEN b2 b1 Hb1). rewrite <- (app_assoc h8).
  lstep (rd_bytes_app [] h8 (h4 ++ drop (length (h8 ++ h4))
    (malloc CLIENT_DNS_REQ SIZEOF_DNS_HEADER)) 0 8 eq_refl (eq_sym H8)).
  change (replicate MAX_BUF_LEN 0) with (replicate 8 0 ++ [0; 0; 0; 0] ++ replicate 500 0).
  rewrite <- (app_assoc (replicate 8 0)).
  lstep (wr_bytes_app [] (replicate 8 0) (([0; 0; 0; 0] ++ replicate 500 0) ++ b2) h8 0
    eq_refl ltac:(by rewrite H8)).
  rewrite emit_bind. rewrite <- (app_assoc [0; 0; 0; 0]), (app_assoc h8) .
  cbn [app] in Hq |- *. lstep Hq. change (0 =? -1) with false. cbv iota.
  rewrite emit_bind. unfold upstream_events, upstream_query. subst b'.
  destruct (send_ok env); cbn [negb]; [|rewrite emit_bind]; by rewrite <- !app_assoc.
Qed.

Lemma send_query `{Allocator} env (h8 h4 : bytes) x (r : bytes) nBytes :
  length h8 = 8%nat → length h4 = 4%nat →
  (MAX_BUF_LEN <= length ((h8 ++ h4) ++ dotted ls ++ 0%Z :: x :: r))%nat →
  Z.of_nat (length (wire ls)) <= nBytes →
  reuse_ok env = true → timeo_ok env = true → send_ok env = true →
  ∃ tl, head tl = Some 0 ∧ let b' := (h8 ++ [0; 0; 0; 0]) ++ wire ls ++ 0 :: 0 :: 1 :: 0 :: 1 :: tl in
    length b' = length ((h8 ++ h4) ++ dotted ls ++ 0 :: x :: r) ∧
    (Forall byte_ok r → Forall byte_ok tl) ∧ ∀ fuel t,
    send_data_to_dns fuel env ((h8 ++ h4) ++ dotted ls ++ 0 :: x :: r) nBytes t
    = ('(b, n) ← lift (recvfrom b' MAX_BUF_LEN (reply env)); handle_reply fuel b n)
        (t ++ upstream_events h8).
Proof.
  intros H8 H4 Hbuf Hn Hre Hti Hse.
  destruct (send_query_any env h8 h4 x r nBytes H8 H4 Hbuf Hn) as (tl & Hhd & Hl & Hty & Hrun).
  exists tl. split; [done|]. split; [done|]. split; [done|]. intros fuel t.
  by rewrite Hrun, Hre, Hti, Hse.
Qed.
End wire_query.

(** ** The answer section *)

(** Records of an answer section as the server understands them: addresses
    (type A, four bytes) and records whose data is a name. *)
Inductive rr :=
  | RrA (owner : list bytes) (ip : bytes)
  | RrName (owner target : list bytes).

(** [good_name b off ls n]: a non-empty name that fits [MAX_NAME_LEN]. *)
Definition good_name (b : bytes) (off : Z) (ls : list bytes) (n : Z) : Prop :=
  name_at b off ls n ∧ ls ≠ [] ∧ Forall wf_label ls ∧ (length (wire ls) < MAX_NAME_LEN)%nat.

(** [answers_at b off rrs]: the records [rrs] lie one after the other in [b]
    from [off] on. *)
Inductive answers_at (b : bytes) : Z → list rr → Prop :=
  | answers_nil off : answers_at b off []
  | answers_a off ls n type dl ip rrs :
      good_name b off ls n →
      rd16 b (off + n) = Ok type → ntohs type = T_A →
      rd16 b (off + n + 8) = Ok dl → ntohs dl = 4 →
      rd_bytes b (off + n + 10) 4 = Ok ip → Forall byte_ok ip →
      answers_at b (off + n + 14) rrs →
      answers_at b off (RrA ls ip :: rrs)
  | answers_name off ls n type ls' n' rrs :
      good_name b off ls n →
      rd16 b (off + n) = Ok type → ntohs type ≠ T_A →
      good_name b (off + n + 10) ls' n' →
      answers_at b (off + n + 10 + n') rrs →
      answers_at b off (RrName ls ls' :: rrs).

(** Everything read in a message is read in a buffer that starts with it. *)
Lemma rd_grow b r i v : rd b i = Ok v → rd (b ++ r) i = Ok v.
Proof.
  intros [Hi Hv]%rd_inv. replace i with (Z.of_nat (Z.to_nat i)) by lia.
  apply rd_lookup. by apply lookup_app_l_Some.
Qed.

Lemma rd16_grow b r i v : rd16 b i = Ok v → rd16 (b ++ r) i = Ok v.
Proof.
  unfold rd16. intros (lo & Hlo & (hi & Hhi & H)%bind_inv)%bind_inv.
  step (rd_grow _ r _ _ Hlo). by step (rd_grow _ r _ _ Hhi).
Qed.

Lemma rd_bytes_grow b r n : ∀ i s, rd_bytes b i n = Ok s → rd_bytes (b ++ r) i n = Ok s.
Proof.
  induction n as [|n IH]; intros i s; [done|]. cbn [rd_bytes].
  intros (c & Hc & (s' & Hs & H)%bind_inv)%bind_inv.
  step (rd_grow _ r _ _ Hc). by step (IH _ _ Hs).
Qed.

Create HintDb cgrow.
#[export] Hint Resolve rd_grow rd16_grow rd_bytes_grow : cgrow.

Lemma name_at_grow b r off ls n : name_at b off ls n → name_at (b ++ r) off ls n.
Proof. induction 1; [eapply name_end|eapply name_ptr|eapply name_label]; eauto with cgrow. Qed.

Lemma good_name_grow b r off ls n : good_name b off ls n → good_name (b ++ r) off ls n.
Proof. intros (? & ? & ? & ?). split_and!; auto using name_at_grow. Qed.

#[export] Hint Resolve name_at_grow good_name_grow : cgrow.

Lemma answers_at_grow b r off rrs : answers_at b off rrs → answers_at (b ++ r) off rrs.
Proof. induction 1; [eapply answers_nil|eapply answers_a|eapply answers_name]; eauto with cgrow. Qed.

(** What the loops leave in the array for a record, and print for it. *)
Definition parsed (b : bytes) (x : rr) (r : res_record) : Prop :=
  match x with
  | RrA ls ip =>
      (∃ rest, rr_name r = dotted ls ++ 0 :: rest) ∧
      (∃ type, rd16 b (resource r + R_TYPE) = Ok type ∧ ntohs type = T_A) ∧
      (∃ p1 p2 p3 rest, rdata r = ip ++ 0 :: p1 :: p2 :: p3 :: rest) ∧
      Forall byte_ok ip ∧ length ip = 4%nat ∧ Forall wf_label ls
  | RrName ls _ =>
      (∃ rest, rr_name r = dotted ls ++ 0 :: rest) ∧
      (∃ type, rd16 b (resource r + R_TYPE) = Ok type ∧ ntohs type ≠ T_A) ∧
      Forall wf_label ls
  end.

Definition answer_event (x : rr) : event :=
  match x with
  | RrA ls ip => EvAnswer (dotted ls) (Some (rev ip))
  | RrName ls _ => EvAnswer (dotted ls) None
  end.

Fixpoint alloc_events (n : nat) (i : Z) : trace :=
  match n with
  | O => []
  | S n' => EvMalloc (name_block i) :: EvMalloc (rdata_block i) :: alloc_events n' (i + 1)
  end.

Fixpoint free_events (n : nat) (i : Z) : trace :=
  match n with
  | O => []
  | S n' => EvFree (name_block i) :: EvFree (rdata_block i) :: free_events n' (i + 1)
  end.

Lemma free_answers_run n i t : free_answers n i t = Ok (tt, t ++ free_events n i).
Proof.
  revert i t. induction n as [|n IH]; intros i t; cbn [free_answers free_events].
  - by rewrite app_nil_r.
  - rewrite !emit_bind, IH. by rewrite <- !app_assoc.
Qed.

Lemma rd_bytes_length b n : ∀ i s, rd_bytes b i n = Ok s → length s = n.
Proof.
  induction n as [|n IH]; intros i s; cbn [rd_bytes]; [by intros [= <-]|].
  intros (c & _ & (s' & Hs & [= <-])%bind_inv)%bind_inv. simpl. f_equal. eauto.
Qed.

Lemma copy_rdata_app b reader s : ∀ pre old post,
  rd_bytes b (reader + Z.of_nat (length pre)) (length s) = Ok s → length old = length s →
  copy_rdata (length s) b reader (pre ++ old ++ post) (Z.of_nat (length pre))
  = Ok (pre ++ s ++ post).
Proof.
  induction s as [|c s IH]; intros pre [|o old] post Hrd Hl; try discriminate; [done|].
  cbn [length rd_bytes copy_rdata] in *.
  apply bind_inv in Hrd as (c' & Hc & (s' & Hs & [= -> ->])%bind_inv).
  step Hc. cbn [app]. step (wr_app pre o (old ++ post) _ c eq_refl).
  rewrite (app_cons_assoc pre c (old ++ post)), (app_cons_assoc pre c (s ++ post)).
  replace (Z.of_nat (length pre) + 1) with (Z.of_nat (length (pre ++ [c]))) by len.
  apply IH; [|lia]. rewrite <- Hs. f_equal. len.
Qed.

(** [ntohl] of the [long] found at the data, printed byte by byte. *)
Lemma printed_address ip rest :
  Forall byte_ok ip → length ip = 4%nat →
  le_bytes 4 (ntohl (u32 (le_val (ip ++ rest)))) = rev ip.
Proof.
  intros Hip Hl. unfold u32, ntohl. change (2 ^ 32) with (256 ^ Z.of_nat 4).
  rewrite le_bytes_mod by done. rewrite <- Hl at 2. rewrite le_bytes_app by done.
  rewrite <- Hl, <- length_rev. apply le_bytes_val. by apply Forall_rev.
Qed.

Section replies.
Context `{Allocator}.
(** A block for four bytes of data has room for the terminator and for the
    eight bytes of a [long], as glibc's blocks do. *)
Context (Hroom : ∀ k, 8 <= Z.of_nat (length (malloc k 4))).

Lemma parse_answer_run b off x rrs i :
  answers_at b off (x :: rrs) → 0 <= i < RECORD_LEN →
  ∃ r off', parsed b x r ∧ answers_at b off' rrs ∧
    ∃ N, ∀ fuel, (N <= fuel)%nat → ∀ t,
      parse_answer fuel i b off t
      = Ok ((r, off'), t ++ [EvMalloc (name_block i); EvMalloc (rdata_block i)]).
Proof.
  intros Hat Hi.
  pose proof (λ k, malloc_size k (Z.of_nat MAX_NAME_LEN)) as Hms.
  inversion Hat as [|? ls n type dl ip ? Hn Ht HtA Hdl Hdl4 Hip Hok Hrest
                   |? ls n type ls' n' ? Hn Ht HtA Hn' Hrest]; subst;
    destruct Hn as (Hname & Hne & Hwf & Hlen);
    destruct (uncompress_name_returns b off ls n
      (malloc (name_block i) (Z.of_nat MAX_NAME_LEN)) Hname Hne Hwf) as (rest & _ & N & HN);
    try (specialize (Hms (name_block i)); lia).
  - pose proof (rd_bytes_length _ _ _ _ Hip) as Hl4.
    destruct (app_length_split (malloc (rdata_block i) 4) 4)
      as (old & post & Hblk & Hold); [specialize (Hroom (rdata_block i)); lia|].
    specialize (Hroom (rdata_block i)). rewrite Hblk in Hroom.
    destruct post as [|p0 [|p1 [|p2 [|p3 post]]]]; [len..|].
    exists (ResRecord (dotted ls ++ 0 :: rest) (off + n) (ip ++ 0 :: p1 :: p2 :: p3 :: post)),
      (off + n + 14). split; [|split; [done|]].
    { split_and!; eauto. exists type. cbn. by rewrite Z.add_0_r. }
    exists N. intros fuel Hfuel t. unfold parse_answer. rewrite emit_bind.
    lstep (HN fuel Hfuel). guards. unfold R_TYPE, R_DATA_LEN, SIZEOF_R_DATA.
    rewrite Z.add_0_r. lstep Ht. rewrite HtA. change (T_A =? 1) with true. cbv iota.
    lstep Hdl. rewrite Hdl4, emit_bind, Hblk. change (Z.to_nat 4) with 4%nat.
    pose proof (copy_rdata_app b (off + n + 10) ip [] old (p0 :: p1 :: p2 :: p3 :: post))
      as Hcp. rewrite Hl4, Z.add_0_r in Hcp. lstep (Hcp Hip Hold).
    lstep (wr_app ip p0 (p1 :: p2 :: p3 :: post) 4 0 ltac:(lia)).
    unfold mret, prog_ret. rewrite <- app_assoc. do 3 f_equal. lia.
  - destruct Hn' as (Hname' & Hne' & Hwf' & Hlen').
    destruct (uncompress_name_returns b (off + n + 10) ls' n'
      (malloc (rdata_block i) (Z.of_nat MAX_NAME_LEN)) Hname' Hne' Hwf')
      as (rest' & _ & N' & HN'); [specialize (Hms (rdata_block i)); lia|].
    exists (ResRecord (dotted ls ++ 0 :: rest) (off + n) (dotted ls' ++ 0 :: rest')),
      (off + n + 10 + n'). split; [|split; [done|]].
    { split_and!; eauto. exists type. cbn. by rewrite Z.add_0_r. }
    exists (N + N')%nat. intros fuel Hfuel t. unfold parse_answer. rewrite emit_bind.
    lstep (HN fuel ltac:(lia)). guards. unfold R_TYPE, R_DATA_LEN, SIZEOF_R_DATA.
    rewrite Z.add_0_r. lstep Ht. destruct (Z.eqb_spec (ntohs type) 1); [done|].
    rewrite emit_bind.
    lstep (HN' fuel ltac:(lia)). by rewrite <- app_assoc.
Qed.

(** The name of a record is read whatever its index. *)
Lemma parse_answer_name b off x rrs i :
  answers_at b off (x :: rrs) →
  ∃ name stop N, ∀ fuel, (N <= fuel)%nat →
    uncompress_name fuel (malloc (name_block i) (Z.of_nat MAX_NAME_LEN)) off b
    = Ok (name, stop).
Proof using.
  intros Hat. pose proof (malloc_size (name_block i) (Z.of_nat MAX_NAME_LEN)) as Hms.
  inversion Hat as [|? ls n type dl ip ? Hn|? ls n type ls' n' ? Hn]; subst;
    destruct Hn as (Hname & Hne & Hwf & Hlen);
    destruct (uncompress_name_returns b off ls n
      (malloc (name_block i) (Z.of_nat MAX_NAME_LEN)) Hname Hne Hwf) as (rest & _ & N & HN);
    (lia || eauto).
Qed.

Lemma parse_answers_run b rrs : ∀ off i,
  answers_at b off rrs → 0 <= i → i + Z.of_nat (length rrs) <= RECORD_LEN →
  ∃ rs, Forall2 (parsed b) rrs rs ∧
    ∃ N, ∀ fuel, (N <= fuel)%nat → ∀ t,
      parse_answers fuel (length rrs) i b off t = Ok (rs, t ++ alloc_events (length rrs) i).
Proof.
  induction rrs as [|x rrs IH]; intros off i Hat Hi Hlen.
  - exists []. split; [done|]. exists O. intros. by rewrite app_nil_r.
  - cbn [length] in Hlen.
    destruct (parse_answer_run b off x rrs i Hat ltac:(lia)) as (r & off' & Hp & Hat' & N & HN).
    destruct (IH off' (i + 1) Hat' ltac:(lia) ltac:(lia)) as (rs & Hrs & N' & HN').
    exists (r :: rs). split; [by constructor|]. exists (N + N')%nat. intros fuel Hf t.
    cbn [length parse_answers alloc_events].
    step (HN fuel ltac:(lia) t). step (HN' fuel ltac:(lia)
      (t ++ [EvMalloc (name_block i); EvMalloc (rdata_block i)])).
    by rewrite <- app_assoc.
Qed.

Lemma print_answers_run b rrs rs t :
  Forall2 (parsed b) rrs rs →
  print_answers b rs t = Ok (tt, t ++ map answer_event rrs).
Proof.
  intros Hp. revert t. induction Hp as [|x r rrs rs Hx Hp IH]; intros t.
  - by rewrite app_nil_r.
  - cbn [print_answers map]. destruct x as [ls ip|ls ls'].
    + destruct Hx as ((rest & ->) & (type & Ht & HtA) & (p1 & p2 & p3 & tl & ->) & Hok & Hl & Hwf).
      lstep (cstring_head (dotted ls) rest ltac:(auto with cname)). lstep Ht. rewrite HtA.
      change (T_A =? T_A) with true. cbv iota.
      assert (Hrd : rd_bytes (ip ++ 0 :: p1 :: p2 :: p3 :: tl) 0 8
        = Ok (ip ++ [0; p1; p2; p3])).
      { pose proof (rd_bytes_app [] (ip ++ [0; p1; p2; p3]) tl 0 8 eq_refl) as Hr.
        rewrite <- (app_assoc ip) in Hr. apply Hr. len. }
      unfold mbind at 1, prog_bind at 1. lstep Hrd. unfold mret, prog_ret.
      rewrite printed_address by done. cbv iota. rewrite emit_bind, IH.
      by rewrite <- app_assoc.
    + destruct Hx as ((rest & ->) & (type & Ht & HtA) & Hwf).
      lstep (cstring_head (dotted ls) rest ltac:(auto with cname)). lstep Ht.
      rewrite (proj2 (Z.eqb_neq _ _) HtA). unfold mbind at 1, prog_bind at 1, mret, prog_ret.
      rewrite emit_bind, IH. by rewrite <- app_assoc.
Qed.

(** Receiving a datagram that leaves two bytes of the buffer free. *)
Lemma receive_ok b dg :
  (length dg + 2 <= MAX_BUF_LEN)%nat → (MAX_BUF_LEN <= length b)%nat →
  ∃ y rest b2,
    recvfrom b MAX_BUF_LEN (Some dg) = Ok (b2, Z.of_nat (length dg)) ∧
    wr b2 (u32 (Z.of_nat (length dg) + 1)) 0 = Ok (dg ++ y :: 0 :: rest) ∧
    length (dg ++ y :: 0 :: rest) = length b ∧
    (Forall byte_ok b → Forall byte_ok (y :: rest)).
Proof.
  intros Hl Hb.
  destruct (app_length_split b (length dg) ltac:(lia)) as (b1 & tl & -> & Hb1).
  destruct tl as [|y [|z rest]]; [unfold MAX_BUF_LEN in *; len..|].
  exists y, rest, (dg ++ y :: z :: rest). unfold recvfrom. rewrite take_ge by lia. split_and!.
  - by step (wr_bytes_app [] b1 (y :: z :: rest) dg 0 eq_refl Hb1).
  - rewrite u32_id by (unfold MAX_BUF_LEN in *; lia).
    rewrite (app_cons_assoc dg), (app_cons_assoc dg y (0 :: rest)). apply wr_app. len.
  - len.
  - rewrite Forall_app, !Forall_cons. tauto.
Qed.

Lemma not_failed (n : nat) : failed (Z.of_nat n) = false.
Proof. unfold failed. by guards. Qed.

(** A query for a name of at most 254 wire bytes that the server supports. *)
Definition wf_query (dg h : bytes) (ls : list bytes) : Prop :=
  ∃ tl, dg = h ++ wire ls ++ 0 :: 0 :: 1 :: tl ∧ length h = 12%nat ∧
    ls ≠ [] ∧ Forall wf_label ls ∧ Forall dotless ls ∧
    (length (wire ls) <= 254)%nat ∧ (length dg + 2 <= MAX_BUF_LEN)%nat.

(** A type A reply with at most 20 answers. *)
Definition wf_reply (dg h : bytes) (ls : list bytes) (rrs : list rr) : Prop :=
  ∃ c0 c1 body, dg = h ++ wire ls ++ 0 :: 0 :: 1 :: c0 :: c1 :: body ∧ length h = 12%nat ∧
    ls ≠ [] ∧ Forall wf_label ls ∧ (length (wire ls) < MAX_NAME_LEN)%nat ∧
    (length dg + 2 <= MAX_BUF_LEN)%nat ∧
    answers_at dg (Z.of_nat (length h + length (wire ls) + 5)) rrs ∧
    field h 6 = Z.of_nat (length rrs) ∧ Z.of_nat (length rrs) <= RECORD_LEN.

Definition reply_events (h : bytes) (rrs : list rr) : trace :=
  [EvClose; EvCounts (field h 4) (field h 6) (field h 8) (field h 10)] ++
  alloc_events (length rrs) 0 ++ [EvAnswerRecords (field h 6)] ++
  map answer_event rrs ++ free_events (length rrs) 0.

(** [handle_reply] on a buffer that holds a type A message, whatever length
    [n] the kernel reported. *)
Lemma handle_reply_gen h ls tl rrs n b2 :
  length h = 12%nat → Forall wf_label ls → (length (wire ls) < MAX_NAME_LEN)%nat →
  0 <= n → Z.of_nat (length (wire ls)) <= n + 1 →
  wr b2 (u32 (n + 1)) 0 = Ok (h ++ wire ls ++ 0 :: 0 :: 1 :: tl) →
  answers_at (h ++ wire ls ++ 0 :: 0 :: 1 :: tl)
    (Z.of_nat (length h + length (wire ls) + 5)) rrs →
  field h 6 = Z.of_nat (length rrs) → Z.of_nat (length rrs) <= RECORD_LEN →
  ∃ N, ∀ fuel, (N <= fuel)%nat → ∀ t,
    handle_reply fuel b2 n t
    = Ok ((0, h ++ wire ls ++ 0 :: 0 :: 1 :: tl, n), t ++ reply_events h rrs).
Proof.
  intros Hh Hwf Hlen Hn0 Hn Hwr Hat Han H20.
  destruct (parse_answers_run _ rrs _ 0 Hat ltac:(lia) ltac:(lia)) as (rs & Hrs & N & HN).
  exists N. intros fuel Hf t. unfold handle_reply, failed.
  rewrite (proj2 (Z.ltb_ge n 0)) by lia. lstep Hwr.
  lstep (verify_dns_buffer_name h (wire ls) 0 1 tl n Hh ltac:(auto with cname) Hlen Hn).
  change (ntohs (0 + 256 * 1) =? T_A) with true. cbv iota.
  change (0 =? -1) with false. cbv iota. rewrite emit_bind.
  lstep (strlen_app h (wire ls) (0 :: 1 :: tl) SIZEOF_DNS_HEADER ltac:(by rewrite Hh)
    (wire_nonzero ls Hwf)).
  lstep (rd16_field h (wire ls ++ 0 :: 0 :: 1 :: tl) 4 ltac:(lia)).
  lstep (rd16_field h (wire ls ++ 0 :: 0 :: 1 :: tl) 6 ltac:(lia)).
  lstep (rd16_field h (wire ls ++ 0 :: 0 :: 1 :: tl) 8 ltac:(lia)).
  lstep (rd16_field h (wire ls ++ 0 :: 0 :: 1 :: tl) 10 ltac:(lia)).
  rewrite emit_bind. fold (field h 4) (field h 6) (field h 8) (field h 10).
  replace (SIZEOF_DNS_HEADER + Z.of_nat (length (wire ls)) + 1 + SIZEOF_QUESTION)
    with (Z.of_nat (length h + length (wire ls) + 5))
    by (unfold SIZEOF_DNS_HEADER, SIZEOF_QUESTION; lia).
  replace (Z.to_nat (field h 6)) with (length rrs) by (rewrite Han; lia).
  step (HN fuel Hf ((t ++ [EvClose]) ++ [EvCounts (field h 4) (field h 6) (field h 8)
    (field h 10)])).
  rewrite emit_bind. rewrite <- (Forall2_length _ _ _ Hrs).
  erewrite run_bind by (apply print_answers_run, Hrs).
  erewrite run_bind by apply free_answers_run.
  unfold mret, prog_ret, reply_events. by rewrite <- !app_assoc.
Qed.

Lemma handle_reply_run dg h ls rrs y rest b2 :
  wf_reply dg h ls rrs →
  wr b2 (u32 (Z.of_nat (length dg) + 1)) 0 = Ok (dg ++ y :: 0 :: rest) →
  ∃ N, ∀ fuel, (N <= fuel)%nat → ∀ t,
    handle_reply fuel b2 (Z.of_nat (length dg)) t
    = Ok ((0, dg ++ y :: 0 :: rest, Z.of_nat (length dg)), t ++ reply_events h rrs).
Proof.
  intros (c0 & c1 & body & Hdg & Hh & Hne & Hwf & Hlen & Hmax & Hat & Han & H20) Hwr.
  apply (answers_at_grow _ (y :: 0 :: rest)) in Hat.
  pose proof (f_equal length Hdg) as Hdl.
  assert (Hb : dg ++ y :: 0 :: rest
    = h ++ wire ls ++ 0 :: 0 :: 1 :: c0 :: c1 :: body ++ y :: 0 :: rest).
  { rewrite Hdg. by rewrite <- !app_assoc. }
  rewrite Hb in *. apply handle_reply_gen; (done || len).
Qed.

(** What [on_recv] does, in order, to answer a query. *)
Definition served (addr : Z) (h : bytes) (ls : list bytes) (dg' h' : bytes)
    (ls' : list bytes) (rrs : list rr) : trace :=
  [EvMalloc BUFFER; EvRequestData] ++ header_events addr h ls ++ upstream_events ls (take 8 h) ++
  reply_events h' rrs ++ header_events addr h' ls' ++
  [EvSendClient addr dg' (Z.of_nat (length dg')); EvFree BUFFER].

(** Storing the dotted name over the wire name of the request. *)
Lemma store_name h ls q0 q1 tl k :
  length h = 12%nat → Forall wf_label ls → ls ≠ [] →
  ∃ b, strncpy (h ++ wire ls ++ 0 :: q0 :: q1 :: tl) SIZEOF_DNS_HEADER
         (dotted ls ++ replicate k 0) (Z.of_nat (length (dotted ls))) = Ok b ∧
    wr b (SIZEOF_DNS_HEADER + Z.of_nat (length (dotted ls))) 0
    = Ok (h ++ dotted ls ++ 0 :: 0 :: q0 :: q1 :: tl).
Proof.
  intros Hh Hls Hne. pose proof (length_dotted ls Hne) as Hd.
  destruct (app_length_split (wire ls) (length (dotted ls)) ltac:(lia)) as (o & x & Hw & Ho).
  rewrite Hw in *. destruct x as [|x [|]]; [len| |len].
  rewrite <- (app_assoc o). eexists. split.
  - apply strncpy_app; [by rewrite Hh|done|done|auto with cname].
  - cbn [app]. rewrite (app_assoc h). rewrite (wr_app (h ++ dotted ls) x); [by rewrite <- app_assoc|].
    unfold SIZEOF_DNS_HEADER. len.
Qed.

(** Steps 1 and 2 up to the call of [send_data_to_dns]. *)
Lemma request_run dg h ls addr :
  wf_query dg h ls →
  ∃ r, (MAX_BUF_LEN <= length ((take 8 h ++ drop 8 h) ++ dotted ls ++ 0%Z :: 0%Z :: r))%nat ∧
    ((∀ k n, Forall byte_ok (malloc k n)) → Forall byte_ok dg → Forall byte_ok r) ∧
    length ((take 8 h ++ drop 8 h) ++ dotted ls ++ 0%Z :: 0%Z :: r)
      = length (malloc BUFFER (Z.of_nat MAX_BUF_LEN)) ∧
    ∀ fuel env t,
      on_recv fuel (Some dg) addr env t
      = ('(rc, buffer, nBytes) ← send_data_to_dns fuel env
            ((take 8 h ++ drop 8 h) ++ dotted ls ++ 0 :: 0 :: r) (Z.of_nat (length dg));
         forward_reply addr (Some (QrData (field h 0)
           (dotted ls ++ replicate (MAX_NAME_LEN - length (dotted ls)) 0) 0)) rc buffer nBytes)
        (t ++ [EvMalloc BUFFER; EvRequestData] ++ header_events addr h ls).
Proof.
  intros (tl & Hdg & Hh & Hne & Hwf & Hdl & Hlen & Hmax).
  pose proof (length_dotted ls Hne) as Hd. pose proof (f_equal length Hdg) as Hdglen.
  pose proof (malloc_size BUFFER (Z.of_nat MAX_BUF_LEN)) as Hbl.
  destruct (app_length_split (malloc BUFFER (Z.of_nat MAX_BUF_LEN)) 8)
    as (m1 & m2 & Hm & Hm1); [unfold MAX_BUF_LEN in *; lia|]. rewrite Hm in Hbl.
  destruct (receive_ok (replicate 8 0 ++ m2) dg Hmax) as (y & rest & b2 & Hrc & Hwr & Hl1 & Hty);
    [len|].
  set (tl2 := tl ++ y :: 0 :: rest).
  assert (Hb : dg ++ y :: 0 :: rest = h ++ wire ls ++ 0 :: 0 :: 1 :: tl2).
  { rewrite Hdg. by rewrite <- !app_assoc. }
  rewrite Hb in *.
  destruct (store_name h ls 0 1 tl2 (MAX_NAME_LEN - length (dotted ls)) Hh Hwf Hne)
    as (b3 & Hcpy & Hnul).
  exists (0 :: 1 :: tl2). rewrite take_drop. split; [len|]. split.
  { intros Hmt Hdt. specialize (Hmt BUFFER (Z.of_nat MAX_BUF_LEN)). rewrite Hm in Hmt.
    apply Forall_app in Hmt as [_ Hm2]. rewrite Hdg in Hdt.
    do 2 (apply Forall_app in Hdt as [_ Hdt]). do 3 (apply Forall_cons in Hdt as [_ Hdt]).
    assert (Hb8 : Forall byte_ok (replicate 8 0 ++ m2)).
    { apply Forall_app. split; [apply Forall_replicate; unfold byte_ok; lia|done]. }
    specialize (Hty Hb8). apply Forall_cons in Hty as [Hy Hrest]. subst tl2.
    do 2 (constructor; [unfold byte_ok; lia|]). apply Forall_app. split; [done|].
    constructor; [done|]. constructor; [unfold byte_ok; lia|done]. }
  split; [rewrite Hm; len|]. intros fuel env t.
  unfold on_recv. rewrite emit_bind, Hm.
  lstep (memset_all 0 8 m2 m1 Hm1). lstep Hrc. rewrite not_failed. cbv iota. lstep Hwr.
  lstep (verify_dns_buffer_name h (wire ls) 0 1 tl2 (Z.of_nat (length dg)) Hh
    ltac:(auto with cname) ltac:(unfold MAX_NAME_LEN; lia) ltac:(len)).
  change (ntohs (0 + 256 * 1) =? T_A) with true. cbv iota.
  change (negb (0 =? 0)) with false. cbv iota. rewrite emit_bind.
  erewrite run_bind by (apply (read_header_ok h ls); [done..|unfold MAX_NAME_LEN; lia|len]).
  cbn [from_option domain_name]. change (negb (0 =? 0)) with false. cbv iota.
  destruct (MAX_NAME_LEN - length (dotted ls))%nat as [|k] eqn:Hk;
    [unfold MAX_NAME_LEN in Hk; lia|]. cbn [replicate] in Hcpy |- *.
  lstep (strlen_head (dotted ls) (replicate k 0) ltac:(auto with cname)).
  lstep Hcpy. lstep Hnul. by rewrite <- !app_assoc.
Qed.

Lemma forward_reply_gen addr cd h ls tl n t :
  length h = 12%nat → ls ≠ [] → Forall wf_label ls → (length (wire ls) < MAX_NAME_LEN)%nat →
  Z.of_nat (length (wire ls)) <= n + 1 →
  forward_reply addr (Some cd) 0 (h ++ wire ls ++ 0 :: tl) n t
  = Ok (tt, t ++ header_events addr h ls ++
              [EvSendClient addr (covered (h ++ wire ls ++ 0 :: tl) n) n; EvFree BUFFER]).
Proof.
  intros Hh Hne Hwf Hlen Hn. unfold forward_reply.
  change (negb (0 =? 0)) with false. cbv iota.
  erewrite run_bind by (apply (read_header_ok h ls); done). cbv iota beta.
  change (negb (0 =? 0)) with false. cbv iota. rewrite emit_bind. unfold emit.
  by rewrite <- !app_assoc.
Qed.

Lemma forward_reply_run addr cd dg h ls rrs y rest t :
  wf_reply dg h ls rrs →
  forward_reply addr (Some cd) 0 (dg ++ y :: 0 :: rest) (Z.of_nat (length dg)) t
  = Ok (tt, t ++ header_events addr h ls ++
              [EvSendClient addr dg (Z.of_nat (length dg)); EvFree BUFFER]).
Proof.
  intros (c0 & c1 & body & Hdg & Hh & Hne & Hwf & Hlen & Hmax & _).
  pose proof (f_equal length Hdg) as Hl.
  assert (Hc : covered (dg ++ y :: 0 :: rest) (Z.of_nat (length dg)) = dg).
  { unfold covered. rewrite Z.min_l by len. by rewrite Nat2Z.id, take_app_length. }
  assert (Hb : dg ++ y :: 0 :: rest
    = h ++ wire ls ++ 0 :: (0 :: 1 :: c0 :: c1 :: body) ++ y :: 0 :: rest).
  { rewrite Hdg. by rewrite <- !app_assoc. }
  rewrite Hb in *. rewrite forward_reply_gen by (done || len). by rewrite Hc.
Qed.

Lemma on_recv_run dg h ls addr env dg' h' ls' rrs :
  wf_query dg h ls → wf_reply dg' h' ls' rrs →
  reuse_ok env = true → timeo_ok env = true → send_ok env = true → reply env = Some dg' →
  returns (λ fuel, on_recv fuel (Some dg) addr env [])
    (tt, served addr h ls dg' h' ls' rrs).
Proof.
  intros Hquery Hreply Hre Hti Hse Hrep.
  destruct (request_run dg h ls addr Hquery) as (r & Hlr & _ & _ & Hreq).
  destruct Hquery as (tl & Hdg & Hh & Hne & Hwf & Hdl & Hlen & Hmax).
  pose proof (f_equal length Hdg) as Hdglen.
  destruct (send_query ls Hwf Hdl Hne Hlen env (take 8 h) (drop 8 h) 0 r
    (Z.of_nat (length dg)) ltac:(len) ltac:(len) Hlr ltac:(len) Hre Hti Hse)
    as (tl4 & _ & Hl4 & _ & Hsend). cbv zeta in Hl4, Hsend. set (b4 := (take 8 h ++ [0; 0; 0; 0]) ++ _) in *.
  destruct (receive_ok b4 dg') as (y & rest & b5 & Hrc & Hwr & Hl5 & _); [|lia|].
  { by destruct Hreply as (? & ? & ? & ? & ? & ? & ? & ? & ? & _). }
  destruct (handle_reply_run dg' h' ls' rrs y rest b5 Hreply Hwr) as (N & HN).
  exists N. intros fuel Hfuel. rewrite Hreq. cbn [app].
  erewrite run_bind.
  2: { rewrite Hsend, Hrep. lstep Hrc. by apply HN. }
  cbv iota beta. erewrite forward_reply_run by exact Hreply.
  unfold served. by rewrite <- !app_assoc.
Qed.

(** A query of another type is refused. *)
Lemma on_recv_refuses hdr s q0 q1 tl addr env fuel t :
  let dg := hdr ++ s ++ 0 :: q0 :: q1 :: tl in
  length hdr = 12%nat → nonzero s → (length s < MAX_NAME_LEN)%nat →
  (length dg + 2 <= MAX_BUF_LEN)%nat → ntohs (q0 + 256 * q1) ≠ T_A →
  on_recv fuel (Some dg) addr env t
  = Ok (tt, t ++ [EvMalloc BUFFER; EvUnsupported; EvFree BUFFER]).
Proof.
  intros dg Hh Hs Hl Hmax Ht. pose proof (malloc_size BUFFER (Z.of_nat MAX_BUF_LEN)) as Hbl.
  destruct (app_length_split (malloc BUFFER (Z.of_nat MAX_BUF_LEN)) 8)
    as (m1 & m2 & Hm & Hm1); [unfold MAX_BUF_LEN in *; lia|]. rewrite Hm in Hbl.
  destruct (receive_ok (replicate 8 0 ++ m2) dg Hmax) as (y & rest & b2 & Hrc & Hwr & _); [len|].
  unfold on_recv. rewrite emit_bind, Hm.
  lstep (memset_all 0 8 m2 m1 Hm1). lstep Hrc. rewrite not_failed. cbv iota. lstep Hwr.
  assert (Hb : dg ++ y :: 0 :: rest = hdr ++ s ++ 0 :: q0 :: q1 :: tl ++ y :: 0 :: rest).
  { subst dg. by rewrite <- !app_assoc. }
  rewrite Hb. lstep (verify_dns_buffer_name hdr s q0 q1 (tl ++ y :: 0 :: rest)
    (Z.of_nat (length dg)) Hh Hs Hl ltac:(subst dg; len)).
  rewrite (proj2 (Z.eqb_neq _ _) Ht). change (negb (-1 =? 0)) with true. cbv iota.
  rewrite emit_bind. unfold emit. by lnorm.
Qed.

(** A query that cannot be passed on is dropped. *)
Lemma on_recv_drops dg h ls addr env fuel t :
  wf_query dg h ls → reuse_ok env && timeo_ok env && send_ok env = false →
  on_recv fuel (Some dg) addr env t
  = Ok (tt, t ++ [EvMalloc BUFFER; EvRequestData] ++ header_events addr h ls ++
      (if reuse_ok env && timeo_ok env then upstream_events ls (take 8 h)
       else [EvMalloc CLIENT_DNS_REQ; EvSocket]) ++ [EvClose; EvFree BUFFER]).
Proof.
  intros Hq He. destruct (request_run dg h ls addr Hq) as (r & Hlr & _ & _ & Hreq).
  destruct Hq as (tl & Hdg & Hh & Hne & Hwf & Hdl & Hlen & Hmax).
  pose proof (f_equal length Hdg) as Hdglen.
  destruct (send_query_any ls Hwf Hdl Hne Hlen env (take 8 h) (drop 8 h) 0 r
    (Z.of_nat (length dg)) ltac:(len) ltac:(len) Hlr ltac:(len)) as (tl4 & _ & _ & _ & Hsend).
  rewrite Hreq. unfold mbind, prog_bind. rewrite Hsend.
  destruct (reuse_ok env && timeo_ok env); [cbn [andb] in He; rewrite He|];
    unfold forward_reply, emit; cbn [negb Z.eqb]; by lnorm.
Qed.
End replies.
