(* ===== verification/DnsResources.v ===== *)
(** * Resources of the DNS server

    Which blocks and sockets the request path opens and gives back, for every
    datagram, every reply and every outcome of the socket calls. *)
From S2P Require Import Prelude CMem Traces DnsName DnsServer.

Local Open Scope Z_scope.

(** ** Counting events *)

Definition occ (e : event) (t : trace) : nat := length (filter (λ x, x = e) t).

Lemma occ_app e t t' : occ e (t ++ t') = (occ e t + occ e t')%nat.
Proof. unfold occ. by rewrite filter_app, length_app. Qed.

Lemma occ_cons e x t : occ e (x :: t) = ((if decide (x = e) then 1 else 0) + occ e t)%nat.
Proof. unfold occ. rewrite filter_cons. by case_decide. Qed.

Lemma occ_nil e : occ e [] = 0%nat.
Proof. done. Qed.

(** Events that concern neither the sockets nor the two blocks of a request. *)
Definition quiet (e : event) : Prop :=
  match e with
  | EvSocket | EvClose => False
  | EvMalloc b | EvFree b => (2 <= b)%nat
  | _ => True
  end.

Lemma occ_quiet e t : Forall quiet t → ¬ quiet e → occ e t = 0%nat.
Proof.
  intros Ht He. induction Ht as [|x t Hx Ht IH]; [done|].
  rewrite occ_cons, IH. by case_decide; subst.
Qed.

(** How many sockets, request headers and receive buffers are taken and given
    back. *)
Definition tally (t : trace) : nat * nat * nat * nat * nat * nat :=
  (occ EvSocket t, occ EvClose t, occ (EvMalloc CLIENT_DNS_REQ) t,
   occ (EvFree CLIENT_DNS_REQ) t, occ (EvMalloc BUFFER) t, occ (EvFree BUFFER) t).

Lemma tally_quiet t : Forall quiet t → tally t = (0, 0, 0, 0, 0, 0)%nat.
Proof.
  intros Ht. unfold tally. rewrite !occ_quiet by (done || (simpl; unfold CLIENT_DNS_REQ, BUFFER; lia)).
  done.
Qed.

(** ** The quiet parts *)

Definition quietly {A} (m : prog trace A) : Prop := appends m (λ _ evs, Forall quiet evs).

Lemma quietly_ret {A} (a : A) : quietly (mret a).
Proof. by apply appends_ret. Qed.

Lemma quietly_fail {A} e : quietly (@fail trace A e).
Proof. apply appends_fail. Qed.

Lemma quietly_lift {A} (m : res A) : quietly (lift m).
Proof. by apply appends_lift. Qed.

Lemma quietly_emit e : quiet e → quietly (emit e).
Proof. intros. apply appends_emit. by constructor. Qed.

Lemma quietly_bind {A B} (m : prog trace A) (f : A → prog trace B) :
  quietly m → (∀ a, quietly (f a)) → quietly (m ≫= f).
Proof.
  intros Hm Hf. apply appends_bind. eapply appends_mono; [exact Hm|].
  intros a evs Hevs. eapply appends_mono; [apply Hf|]. intros b evs' Hevs'.
  by apply Forall_app.
Qed.

Create HintDb cquiet.
#[export] Hint Resolve quietly_ret quietly_fail quietly_lift : cquiet.
#[export] Hint Extern 1 (quietly (emit _)) => apply quietly_emit; simpl; trivial; lia : cquiet.

(** Goes through a program whose every action is quiet. *)
Ltac quiets :=
  repeat first
    [ progress auto with cquiet
    | apply quietly_bind; [|intros]
    | case_match ].

Lemma read_and_print_quiet b n cd a : quietly (read_and_print_dns_header b n cd a).
Proof. unfold read_and_print_dns_header. quiets. Qed.

Lemma name_block_ge i : 0 <= i → (2 <= name_block i)%nat.
Proof. unfold name_block. lia. Qed.

Lemma rdata_block_ge i : 0 <= i → (2 <= rdata_block i)%nat.
Proof. unfold rdata_block. lia. Qed.

#[export] Hint Resolve read_and_print_quiet name_block_ge rdata_block_ge : cquiet.
#[export] Hint Extern 1 (quietly (emit _)) => apply quietly_emit; simpl; auto with cquiet : cquiet.

Lemma parse_answer_quiet `{Allocator} fuel i b r : 0 <= i → quietly (parse_answer fuel i b r).
Proof. intros Hi. unfold parse_answer. quiets. Qed.

Lemma parse_answers_quiet `{Allocator} fuel n b :
  ∀ i r, 0 <= i → quietly (parse_answers fuel n i b r).
Proof.
  induction n as [|n IH]; intros i r Hi; cbn [parse_answers]; [auto with cquiet|].
  apply quietly_bind; [by apply parse_answer_quiet|]. intros [x r'].
  apply quietly_bind; [apply IH; lia|]. auto with cquiet.
Qed.

Lemma print_answers_quiet b rs : quietly (print_answers b rs).
Proof. induction rs as [|r rs IH]; cbn [print_answers]; quiets. Qed.

Lemma free_answers_quiet n : ∀ i, 0 <= i → quietly (free_answers n i).
Proof.
  induction n as [|n IH]; intros i Hi; cbn [free_answers]; [auto with cquiet|].
  quiets. apply IH. lia.
Qed.

(** ** The request path *)

(** Quiet events do not count. *)
Lemma appends_quiet {A} (m : prog trace A) (Q : A → trace → Prop) :
  quietly m → (∀ a evs, Forall quiet evs → Q a evs) → appends m Q.
Proof. intros Hm HQ. eapply appends_mono; [exact Hm|]. auto. Qed.

Definition counted_as (t : trace) (so cl mr fr mb fb : nat) : Prop :=
  tally t = (so, cl, mr, fr, mb, fb).

Lemma counted_app t t' so cl mr fr mb fb so' cl' mr' fr' mb' fb' :
  counted_as t so cl mr fr mb fb → counted_as t' so' cl' mr' fr' mb' fb' →
  counted_as (t ++ t') (so + so') (cl + cl') (mr + mr') (fr + fr') (mb + mb') (fb + fb').
Proof.
  unfold counted_as, tally. rewrite !occ_app. intros [= -> -> -> -> -> ->] [= -> -> -> -> -> ->].
  done.
Qed.

Lemma counted_quiet t : Forall quiet t → counted_as t 0 0 0 0 0 0.
Proof. apply tally_quiet. Qed.

Lemma counted_quiet_l t t' so cl mr fr mb fb :
  Forall quiet t → counted_as t' so cl mr fr mb fb → counted_as (t ++ t') so cl mr fr mb fb.
Proof. intros Hq%counted_quiet H. exact (counted_app _ _ _ _ _ _ _ _ _ _ _ _ _ _ Hq H). Qed.

Section request.
Context `{Allocator} (fuel : nat).

(** The quiet tail of [handle_reply], once the socket is closed. *)
Lemma handle_reply_tally b n :
  appends (handle_reply fuel b n) (λ _ evs, counted_as evs 0 1 0 0 0 0).
Proof.
  unfold handle_reply. destruct (failed n).
  { apply appends_bind, appends_emit, appends_ret. done. }
  apply appends_bind, appends_lift. intros buf _.
  apply appends_bind, appends_lift. intros rc _.
  destruct (rc =? -1).
  { by apply appends_bind, appends_emit, appends_bind, appends_emit, appends_ret. }
  apply appends_bind, appends_emit.
  eapply appends_quiet.
  - quiets; auto using parse_answers_quiet, print_answers_quiet, free_answers_quiet with lia.
  - intros r evs Hq. simpl app.
    refine (counted_app [EvClose] evs 0 1 0 0 0 0 0 0 0 0 0 0 eq_refl _).
    by apply counted_quiet.
Qed.

Definition timely (env : upstream) : nat := if reuse_ok env && timeo_ok env then 1 else 0.

Lemma send_data_tally env b n :
  appends (send_data_to_dns fuel env b n) (λ _ evs,
    counted_as evs 0 0 0 0 0 0 ∨ counted_as evs 1 1 1 (timely env) 0 0).
Proof.
  unfold send_data_to_dns, timely.
  apply appends_bind, appends_lift. intros [rc dn] _.
  destruct (rc =? -1). { apply appends_ret. by left. }
  apply appends_bind, appends_lift. intros [[rc' b1] dn1] _.
  destruct (rc' =? -1). { apply appends_ret. by left. }
  apply appends_bind, appends_emit, appends_bind, appends_lift. intros h _.
  apply appends_bind, appends_lift. intros req _. apply appends_bind, appends_emit.
  destruct (reuse_ok env); cbn [negb andb].
  2: { apply appends_bind, appends_emit, appends_ret. by right. }
  destruct (timeo_ok env); cbn [negb andb].
  2: { apply appends_bind, appends_emit, appends_ret. by right. }
  apply appends_bind, appends_emit, appends_bind, appends_lift. intros b2 _.
  apply appends_bind, appends_lift. intros h8 _.
  apply appends_bind, appends_lift. intros b3 _.
  apply appends_bind, appends_emit, appends_bind, appends_lift. intros [[rc2 b4] payload] _.
  destruct (rc2 =? -1). { apply appends_bind, appends_emit, appends_ret. by right. }
  apply appends_bind, appends_emit.
  destruct (send_ok env); cbn [negb].
  2: { apply appends_bind, appends_emit, appends_ret. by right. }
  apply appends_bind, appends_lift. intros [b5 n5] _.
  eapply appends_mono; [apply handle_reply_tally|]. intros r evs Hevs. right.
  cbn [app]. exact (counted_app [EvMalloc CLIENT_DNS_REQ; EvSocket;
    EvReceiveTimeout UPSTREAM_DNS_SOCKET_TIMEOUT; EvFree CLIENT_DNS_REQ; EvSendUpstream g_dest payload] evs 1 0 1 1 0 0 0 1 0 0 0 0 eq_refl Hevs).
Qed.

Lemma forward_reply_tally addr cd rc b n :
  appends (forward_reply addr cd rc b n) (λ _ evs, counted_as evs 0 0 0 0 0 1).
Proof.
  unfold forward_reply. destruct (negb (rc =? 0)); [by apply appends_emit|].
  apply appends_bind. eapply appends_quiet; [apply read_and_print_quiet|].
  intros [rc' cd'] evs Hq. destruct (negb (rc' =? 0)).
  - apply appends_emit. by apply counted_quiet_l.
  - apply appends_bind, appends_emit, appends_emit. by apply counted_quiet_l.
Qed.

Lemma on_recv_tally dgram addr env :
  appends (on_recv fuel dgram addr env) (λ _ evs,
    counted_as evs 0 0 0 0 1 1 ∨ counted_as evs 1 1 1 (timely env) 1 1).
Proof.
  unfold on_recv. apply appends_bind, appends_emit.
  apply appends_bind, appends_lift. intros b _.
  apply appends_bind, appends_lift. intros [b1 n] _.
  destruct (failed n). { apply appends_emit. by left. }
  apply appends_bind, appends_lift. intros b2 _.
  apply appends_bind, appends_lift. intros rc _.
  destruct (negb (rc =? 0)). { apply appends_bind, appends_emit, appends_emit. by left. }
  apply appends_bind, appends_emit, appends_bind.
  eapply appends_quiet; [apply read_and_print_quiet|]. intros [rc1 cd] e1 Hq.
  destruct (negb (rc1 =? 0)).
  { apply appends_emit. left. cbn [app].
    refine (counted_app [EvMalloc BUFFER; EvRequestData] _ 0 0 0 0 1 0 0 0 0 0 0 1 eq_refl _).
    by apply counted_quiet_l. }
  apply appends_bind, appends_lift. intros m _.
  apply appends_bind, appends_lift. intros b3 _.
  apply appends_bind, appends_lift. intros b4 _.
  apply appends_bind. eapply appends_mono; [apply send_data_tally|].
  intros [[rc2 b5] n5] e2 He2.
  eapply appends_mono; [apply forward_reply_tally|]. intros [] e3 He3. cbn [app].
  assert (Hpre : counted_as (EvMalloc BUFFER :: EvRequestData :: e1) 0 0 0 0 1 0).
  { refine (counted_app [EvMalloc BUFFER; EvRequestData] e1 0 0 0 0 1 0 0 0 0 0 0 0 eq_refl _).
    by apply counted_quiet. }
  destruct He2 as [He2|He2]; [left|right];
    pose proof (counted_app _ _ _ _ _ _ _ _ _ _ _ _ _ _ Hpre
      (counted_app _ _ _ _ _ _ _ _ _ _ _ _ _ _ He2 He3)) as Hc;
    cbn [app] in Hc; rewrite ?Nat.add_0_r in Hc; exact Hc.
Qed.
End request.

(** C2 (safety): whatever datagram arrives, whatever the upstream server
    replies and whichever socket calls fail, when [on_recv] returns it has
    allocated and freed its buffer exactly once, closed the upstream socket as
    often as it opened it, and freed the copy of the client's header unless
    one of the two [setsockopt] calls failed, in which case the copy is lost. *)
Theorem on_recv_resources `{Allocator} fuel dgram addr env t :
  on_recv fuel dgram addr env [] = Ok (tt, t) →
  occ (EvMalloc BUFFER) t = 1%nat ∧ occ (EvFree BUFFER) t = 1%nat ∧
  occ EvSocket t = occ EvClose t ∧
  occ (EvMalloc CLIENT_DNS_REQ) t = occ EvSocket t ∧
  occ (EvFree CLIENT_DNS_REQ) t
  = (if reuse_ok env && timeo_ok env then occ (EvMalloc CLIENT_DNS_REQ) t else 0)%nat.
Proof.
  intros Hrun. destruct (on_recv_tally fuel dgram addr env _ _ _ Hrun) as (evs & -> & Hc).
  cbn [app]. unfold counted_as, tally, timely in Hc.
  destruct Hc as [[= -> -> -> -> -> ->]|[= -> -> -> -> -> ->]];
    destruct (reuse_ok env && timeo_ok env); done.
Qed.

(** The request for [ab.c] whose upstream [setsockopt] fails. *)
Definition ab_c_query : bytes :=
  [0; 7; 1; 0; 0; 1; 0; 0; 0; 0; 0; 0; 2; 97; 98; 1; 99; 0; 0; 1; 0; 1].

Lemma on_recv_resources_witness :
  let t := [EvMalloc 0; EvRequestData; EvClientAddr 5; EvTid 7;
            EvDomain [97; 98; 46; 99]; EvQueryType true; EvMalloc 1; EvSocket; EvClose;
            EvFree 0] in
  occ (EvMalloc BUFFER) t = 1%nat ∧ occ (EvFree BUFFER) t = 1%nat ∧
  occ EvSocket t = occ EvClose t ∧
  occ (EvMalloc CLIENT_DNS_REQ) t = occ EvSocket t ∧
  occ (EvFree CLIENT_DNS_REQ) t = 0%nat.
Proof.
  exact (on_recv_resources (H := exact_allocator) 10 (Some ab_c_query) 5
    (Upstream false true true None) _ eq_refl).
Defined.
