(* ===== verification/DnsTypes.v ===== *)
(** * Typing of the DNS server

    The model keeps bytes, 16-bit and 32-bit values as integers.  This file
    shows that they stay what their C types say: every routine of the request
    path turns blocks of bytes into blocks of bytes, and everything the server
    prints or sends is in the range of its type, for every datagram and every
    reply. *)
From S2P Require Import Prelude CMem Traces DnsName DnsServer.

Local Open Scope Z_scope.

(** ** Blocks of bytes *)

Abbreviation typed := (Forall byte_ok).

(** A 16-bit and a 32-bit value. *)
Definition u16_ok (z : Z) : Prop := 0 <= z < 65536.
Definition u32_ok (z : Z) : Prop := 0 <= z < 4294967296.

Create HintDb ctype.

Lemma rd_typed b i v : typed b → rd b i = Ok v → byte_ok v.
Proof. intros Hb [_ H]%rd_inv. by eapply Forall_lookup_1. Qed.

Lemma wr_typed b i v b' : typed b → byte_ok v → wr b i v = Ok b' → typed b'.
Proof. intros Hb Hv [_ ->]%wr_inv. by apply Forall_insert. Qed.

Lemma byte_0 : byte_ok 0.
Proof. done. Qed.
Lemma byte_46 : byte_ok 46.
Proof. done. Qed.
Lemma typed_drop n b : typed b → typed (drop n b).
Proof. apply Forall_drop. Qed.
Lemma typed_take n b : typed b → typed (take n b).
Proof. apply Forall_take. Qed.
Lemma typed_app a b : typed a → typed b → typed (a ++ b).
Proof. by apply Forall_app_2. Qed.
Lemma typed_zeroes n : typed (replicate n 0).
Proof. by apply Forall_replicate. Qed.

#[export] Hint Resolve byte_0 byte_46 u8_byte Forall_nil_2 Forall_cons_2 typed_drop typed_take
  typed_app typed_zeroes : ctype.

(** Replaces the outcome of a typed routine by the type of its result; the
    premises on its arguments are found by [auto]. *)
Tactic Notation "typing" "by" uconstr(L) "in" hyp(H) :=
  apply L in H; [|solve [auto with ctype] ..].

(** Goes through the outcomes in the context; extended below by the routines. *)
Ltac typing_step := fail.
Ltac typing := repeat typing_step; auto with ctype.

Ltac typing_step ::=
  match goal with
  | H : rd _ _ = Ok _ |- _ => typing by rd_typed in H
  | H : wr _ _ _ = Ok _ |- _ => typing by wr_typed in H
  | IH : ∀ _, _, H : _ = Ok _ |- _ => typing by IH in H
  end.

Lemma wr_bytes_typed s : ∀ b i b', typed b → typed s → wr_bytes b i s = Ok b' → typed b'.
Proof.
  induction s as [|c s IH]; intros b i b' Hb Hs H; cbn in H; ok_inv; [done|].
  apply Forall_cons in Hs as [Hc Hs]. typing.
Qed.

Lemma rd_bytes_typed n : ∀ b i s, typed b → rd_bytes b i n = Ok s → typed s.
Proof. induction n as [|n IH]; intros b i s Hb H; cbn in H; ok_inv; typing. Qed.

Lemma strn_typed n : ∀ l s, typed l → strn l n = Ok s → typed s.
Proof.
  induction n as [|n IH]; intros [|c l] s Hl H; cbn [strn] in H;
    try apply Forall_cons in Hl as [Hc Hl]; ok_inv; typing.
Qed.


Ltac typing_step ::=
  match goal with
  | H : rd _ _ = Ok _ |- _ => typing by rd_typed in H
  | H : wr _ _ _ = Ok _ |- _ => typing by wr_typed in H
  | H : wr_bytes _ _ _ = Ok _ |- _ => typing by wr_bytes_typed in H
  | H : rd_bytes _ _ _ = Ok _ |- _ => typing by rd_bytes_typed in H
  | H : strn _ _ = Ok _ |- _ => typing by strn_typed in H
  | IH : ∀ _, _, H : _ = Ok _ |- _ => typing by IH in H
  end.

Lemma strncpy_typed d i s n b : typed d → typed s → strncpy d i s n = Ok b → typed b.
Proof. unfold strncpy. intros Hd Hs H. ok_inv. typing. Qed.

Lemma strcat_typed b s b' : typed b → typed s → strcat b s = Ok b' → typed b'.
Proof. unfold strcat. intros Hd Hs H. ok_inv. typing. Qed.

Lemma cstring_typed b i s : typed b → cstring b i = Ok s → typed s.
Proof. unfold cstring. intros Hb H. ok_inv. typing. Qed.

Lemma memset_typed b n b' : typed b → memset b 0 n = Ok b' → typed b'.
Proof. unfold memset. intros Hb H. typing. Qed.

Lemma wr16_typed b i v b' : typed b → wr16 b i v = Ok b' → typed b'.
Proof. unfold wr16. intros Hb H. ok_inv. typing. Qed.

Lemma ntohs_u16 v : u16_ok (ntohs v).
Proof. unfold u16_ok, ntohs. dm_lia. Qed.

Lemma le_bytes_typed n : ∀ v, typed (le_bytes n v).
Proof. induction n as [|n IH]; intros v; cbn [le_bytes]; auto with ctype. Qed.

#[export] Hint Resolve ntohs_u16 le_bytes_typed : ctype.

Ltac block_step :=
  match goal with
  | H : rd _ _ = Ok _ |- _ => typing by rd_typed in H
  | H : wr _ _ _ = Ok _ |- _ => typing by wr_typed in H
  | H : wr_bytes _ _ _ = Ok _ |- _ => typing by wr_bytes_typed in H
  | H : rd_bytes _ _ _ = Ok _ |- _ => typing by rd_bytes_typed in H
  | H : strncpy _ _ _ _ = Ok _ |- _ => typing by strncpy_typed in H
  | H : strcat _ _ = Ok _ |- _ => typing by strcat_typed in H
  | H : cstring _ _ = Ok _ |- _ => typing by cstring_typed in H
  | H : memset _ 0 _ = Ok _ |- _ => typing by memset_typed in H
  | H : wr16 _ _ _ = Ok _ |- _ => typing by wr16_typed in H
  | IH : ∀ _, _, H : _ = Ok _ |- _ => typing by IH in H
  end.
Ltac typing_step ::= block_step.

(** ** The name routines *)

Lemma copy_loop_typed l : ∀ dn i n rc dn',
  typed l → typed dn → copy_loop l dn i n = Ok (rc, dn') → typed dn'.
Proof.
  induction l as [|c l IH]; intros dn i n rc dn' Hl Hd H; cbn [copy_loop] in H; [done|].
  apply Forall_cons in Hl as [Hc Hl]. ok_inv; typing.
Qed.

Lemma verify_and_copy_typed b q dn n rc dn' :
  typed b → typed dn → verify_and_copy_qname (Some (b, q)) (Some dn) n = Ok (rc, dn') → typed dn'.
Proof.
  unfold verify_and_copy_qname. intros Hb Hd H. destruct (q <? 0); [done|].
  eapply copy_loop_typed; [|exact Hd|exact H]. auto with ctype.
Qed.

Lemma shift_label_typed n : ∀ a i a' i', typed a → shift_label n a i = Ok (a', i') → typed a'.
Proof. induction n as [|n IH]; intros a i a' i' Ha H; cbn in H; ok_inv; typing. Qed.

Ltac typing_step ::=
  first [block_step|match goal with
  | H : verify_and_copy_qname _ _ _ = Ok _ |- _ => typing by verify_and_copy_typed in H
  | H : shift_label _ _ _ = Ok _ |- _ => typing by shift_label_typed in H
  end].

Lemma unlabel_loop_typed fuel tc : ∀ a i a' i',
  typed a → unlabel_loop fuel tc a i = Ok (a', i') → typed a'.
Proof. induction fuel as [|f IH]; intros a i a' i' Ha H; cbn in H; ok_inv; typing. Qed.

Lemma unlabel_typed tc a a' : typed a → unlabel tc a = Ok a' → typed a'.
Proof. unfold unlabel. intros Ha H. ok_inv. typing by unlabel_loop_typed in H0. typing. Qed.

Lemma copy_span_typed n : ∀ host b lock d b' lock' d',
  typed host → typed b → copy_span n host b lock d = Ok (b', lock', d') → typed b'.
Proof. induction n as [|n IH]; intros host b lock d b' lock' d' Hh Hb H; cbn in H; ok_inv; typing. Qed.

Ltac label_step :=
  match goal with
  | H : verify_and_copy_qname _ _ _ = Ok _ |- _ => typing by verify_and_copy_typed in H
  | H : unlabel _ _ = Ok _ |- _ => typing by unlabel_typed in H
  | H : copy_span _ _ _ _ _ = Ok _ |- _ => typing by copy_span_typed in H
  end.
Ltac typing_step ::= first [label_step|block_step].

Lemma relabel_loop_typed fuel : ∀ host b i lock d b' d',
  typed host → typed b → relabel_loop fuel host b i lock d = Ok (b', d') → typed b'.
Proof. induction fuel as [|f IH]; intros host b i lock d b' d' Hh Hb H; cbn in H; ok_inv; typing. Qed.

Lemma ChangetoDnsNameFormat_typed b d host rc b' host' :
  typed b → typed host →
  ChangetoDnsNameFormat (Some (b, d)) (Some host) = Ok (rc, b', host') → typed b' ∧ typed host'.
Proof.
  unfold ChangetoDnsNameFormat. intros Hb Hh H. ok_inv. typing.
  match goal with
  | H : relabel_loop _ _ _ _ _ _ = Ok _ |- _ => typing by relabel_loop_typed in H
  end. split; typing.
Qed.

Lemma uncompress_loop_typed fuel : ∀ buffer name reader p j c name' p' j' c',
  typed buffer → typed name →
  uncompress_loop fuel buffer name reader p j c = Ok (name', p', j', c') → typed name'.
Proof.
  induction fuel as [|f IH]; intros buffer name reader p j c name' p' j' c' Hb Hn H;
    cbn in H; ok_inv; typing.
Qed.

Lemma uncompress_name_typed fuel name reader buffer name' n :
  typed name → typed buffer → uncompress_name fuel name reader buffer = Ok (name', n) → typed name'.
Proof.
  unfold uncompress_name, unlabel_name. intros Hn Hb H. ok_inv; typing;
  match goal with
  | H : uncompress_loop _ _ _ _ _ _ _ = Ok _ |- _ => typing by uncompress_loop_typed in H
  end; typing.
Qed.

Lemma copy_rdata_typed n : ∀ buffer reader rdata j rdata',
  typed buffer → typed rdata → copy_rdata n buffer reader rdata j = Ok rdata' → typed rdata'.
Proof. induction n as [|n IH]; intros buffer reader rdata j rdata' Hb Hr H; cbn in H; ok_inv; typing. Qed.

Ltac name_step :=
  match goal with
  | H : ChangetoDnsNameFormat _ _ = Ok _ |- _ =>
      apply ChangetoDnsNameFormat_typed in H as [? ?]; [|solve [auto with ctype] ..]
  | H : uncompress_name _ _ _ _ = Ok _ |- _ => typing by uncompress_name_typed in H
  | H : copy_rdata _ _ _ _ _ = Ok _ |- _ => typing by copy_rdata_typed in H
  | H : unlabel_domain_name _ = Ok _ |- _ => unfold unlabel_domain_name in H
  end.
Ltac typing_step ::= first [name_step|label_step|block_step].

(** ** Events *)

(** What is printed or sent has its type: names and datagrams are bytes, counts
    and identifiers 16-bit values, the length of a datagram an [unsigned int],
    and an address four bytes. *)
Definition event_ok (e : event) : Prop :=
  match e with
  | EvTid tid => u16_ok tid
  | EvDomain name => typed name
  | EvCounts q an ns ar => u16_ok q ∧ u16_ok an ∧ u16_ok ns ∧ u16_ok ar
  | EvAnswerRecords an => u16_ok an
  | EvAnswer name addr => typed name ∧ from_option (λ a, typed a ∧ length a = 4%nat) True addr
  | EvSendUpstream _ payload => typed payload
  | EvSendClient _ payload len => typed payload ∧ u32_ok len ∧ Z.of_nat (length payload) <= len
  | _ => True
  end.

Definition qr_ok (cd : qr_data) : Prop := u16_ok (tid cd) ∧ typed (domain_name cd).
Definition record_ok (r : res_record) : Prop := typed (rr_name r) ∧ typed (rdata r).

(** The buffer and the length an operation of the request path hands on. *)
Definition message_ok (b : bytes) (n : Z) : Prop := typed b ∧ u32_ok n.

Lemma recvfrom_typed b max d b' n :
  typed b → from_option typed True d → Z.of_nat max < 4294967296 →
  recvfrom b max d = Ok (b', n) → message_ok b' n.
Proof.
  unfold recvfrom, message_ok, u32_ok. intros Hb Hd Hm H. destruct d as [d|]; ok_inv.
  - cbn in Hd. typing. split; [done|]. rewrite length_take. lia.
  - split; [done|]. by unfold u32; cbn.
Qed.

Lemma read_and_print_typed b n cd addr :
  typed b → from_option qr_ok True cd →
  yields event_ok (λ r, from_option qr_ok True r.2)
    (read_and_print_dns_header (Some b) n cd addr).
Proof.
  intros Hb Hcd. unfold read_and_print_dns_header.
  destruct addr as [addr|], cd as [cd|]; try by apply yields_ret.
  apply yields_lift; intros id _. do 2 (apply yields_emit; [cbn; auto with ctype|]).
  apply yields_lift. intros [rc dn] Hdn. typing.
  destruct (rc =? -1).
  { apply yields_ret. split; [apply ntohs_u16|apply typed_zeroes]. }
  do 3 (apply yields_lift; intros). cbn [domain_name] in *. typing.
  apply yields_lift. intros s Hs. cbn [domain_name] in Hs. typing.
  apply yields_emit; [done|]. apply yields_lift. intros flags _.
  apply yields_emit; [done|]. apply yields_ret. by split; [apply ntohs_u16|].
Qed.

Section server.
Context `{Allocator} (Hmalloc : ∀ k n, typed (malloc k n)) (fuel : nat).

Lemma parse_answer_typed i b r :
  typed b → yields event_ok (λ r, record_ok r.1) (parse_answer fuel i b r).
Proof.
  intros Hb. unfold parse_answer. pose proof (Hmalloc (name_block i) (Z.of_nat MAX_NAME_LEN)).
  apply yields_emit; [done|]. apply yields_lift. intros [name stop] Hn. typing.
  destruct (RECORD_LEN <=? i); [apply yields_fail|].
  apply yields_lift. intros type _. destruct (ntohs type =? 1).
  - apply yields_lift. intros dl _. apply yields_emit; [done|].
    pose proof (Hmalloc (rdata_block i) (ntohs dl)).
    do 2 (apply yields_lift; intros). typing. apply yields_ret. done.
  - apply yields_emit; [done|]. pose proof (Hmalloc (rdata_block i) (Z.of_nat MAX_NAME_LEN)).
    apply yields_lift. intros [rdata stop'] Hr. typing. apply yields_ret. done.
Qed.

Lemma parse_answers_typed n b :
  typed b → ∀ i r, yields event_ok (Forall record_ok) (parse_answers fuel n i b r).
Proof.
  intros Hb. induction n as [|n IH]; intros i r; cbn [parse_answers]; [by apply yields_ret|].
  eapply yields_bind; [by apply parse_answer_typed|]. intros [x r'] Hx.
  eapply yields_bind; [apply IH|]. intros xs Hxs. apply yields_ret. by constructor.
Qed.

Lemma print_answers_typed b rs :
  Forall record_ok rs → yields event_ok (λ _, True) (print_answers b rs).
Proof.
  induction 1 as [|r rs [Hn Hd] _ IH]; cbn [print_answers]; [by apply yields_ret|].
  apply yields_lift. intros name Hname. typing. apply yields_lift. intros type _.
  apply yields_bind with (Q := λ addr, from_option (λ a, typed a ∧ length a = 4%nat) True addr).
  - destruct (ntohs type =? T_A); [|by apply yields_ret]. apply yields_lift. intros p _.
    apply yields_ret. split; [apply le_bytes_typed|done].
  - intros addr Ha. by apply yields_emit.
Qed.

Lemma free_answers_typed n : ∀ i, yields event_ok (λ _, True) (free_answers n i).
Proof.
  induction n as [|n IH]; intros i; cbn [free_answers]; [by apply yields_ret|].
  do 2 (apply yields_emit; [done|]). apply IH.
Qed.

Lemma handle_reply_typed b n :
  message_ok b n →
  yields event_ok (λ r, message_ok r.1.2 r.2) (handle_reply fuel b n).
Proof.
  intros [Hb Hn]. unfold handle_reply. destruct (failed n).
  { apply yields_emit; [done|]. by apply yields_ret. }
  apply yields_lift. intros b' Hb'. typing. apply yields_lift. intros rc _.
  destruct (rc =? -1).
  { do 2 (apply yields_emit; [done|]). by apply yields_ret. }
  apply yields_emit; [done|]. do 5 (apply yields_lift; intros).
  apply yields_emit; [split_and!; apply ntohs_u16|].
  eapply yields_bind; [by apply parse_answers_typed|]. intros answers Ha.
  apply yields_emit; [apply ntohs_u16|].
  eapply yields_bind; [by apply print_answers_typed|]. intros _ _.
  eapply yields_bind; [apply free_answers_typed|]. intros _ _. by apply yields_ret.
Qed.

Lemma build_query_typed b dn rc b' payload :
  typed b → typed dn → build_query b dn = Ok (rc, b', payload) → typed b' ∧ typed payload.
Proof.
  unfold build_query, write_question. intros Hb Hd E. ok_inv; typing; split; typing.
Qed.

Lemma send_data_typed env b n :
  message_ok b n → from_option typed True (reply env) →
  yields event_ok (λ r, message_ok r.1.2 r.2) (send_data_to_dns fuel env b n).
Proof.
  intros [Hb Hn] Hrep. unfold send_data_to_dns.
  apply yields_lift. intros [rc dn] Hdn. typing. destruct (rc =? -1); [by apply yields_ret|].
  apply yields_lift. intros [[rc1 b1] dn1] H1. typing. destruct (rc1 =? -1); [by apply yields_ret|].
  apply yields_emit; [done|]. do 2 (apply yields_lift; intros). typing.
  pose proof (Hmalloc CLIENT_DNS_REQ SIZEOF_DNS_HEADER). typing.
  apply yields_emit; [done|].
  destruct (reuse_ok env); [|apply yields_emit; [done|]; by apply yields_ret].
  destruct (timeo_ok env); [|apply yields_emit; [done|]; by apply yields_ret]. cbn [negb].
  apply yields_emit; [done|]. do 3 (apply yields_lift; intros). typing.
  apply yields_emit; [done|]. apply yields_lift. intros [[rc2 b2] payload] Hq.
  apply build_query_typed in Hq as [Hb2 Hpay]; [|done..].
  destruct (rc2 =? -1); [apply yields_emit; [done|]; by apply yields_ret|].
  apply yields_emit; [done|].
  destruct (send_ok env); [|apply yields_emit; [done|]; by apply yields_ret]. cbn [negb].
  apply yields_lift. intros [b3 n3] Hrecv.
  apply handle_reply_typed. by eapply recvfrom_typed; [exact Hb2|exact Hrep| |exact Hrecv].
Qed.

Lemma forward_reply_typed addr cd rc b n :
  message_ok b n → from_option qr_ok True cd →
  yields event_ok (λ _, True) (forward_reply addr cd rc b n).
Proof.
  intros [Hb Hn] Hcd. unfold forward_reply. destruct (negb (rc =? 0)); [by apply yields_one|].
  eapply yields_bind; [by apply read_and_print_typed|]. intros [rc' cd'] _.
  destruct (negb (rc' =? 0)); [by apply yields_one|].
  apply yields_emit; [|by apply yields_one].
  split_and!; [by apply typed_take|done|].
  unfold covered. rewrite length_take. destruct Hn. lia.
Qed.

Lemma on_recv_yields dgram addr env :
  from_option typed True dgram → from_option typed True (reply env) →
  yields event_ok (λ _, True) (on_recv fuel dgram addr env).
Proof.
  intros Hd Hrep. unfold on_recv. apply yields_emit; [done|].
  pose proof (Hmalloc BUFFER (Z.of_nat MAX_BUF_LEN)).
  apply yields_lift. intros b0 Hb0. typing. apply yields_lift. intros [b1 n] H1.
  apply recvfrom_typed in H1 as [Hb1 Hn]; [|done..].
  destruct (failed n); [by apply yields_one|].
  apply yields_lift. intros b2 Hb2. typing. apply yields_lift. intros rc _.
  destruct (negb (rc =? 0)); [apply yields_emit; [done|]; by apply yields_one|].
  apply yields_emit; [done|]. eapply yields_bind.
  { apply read_and_print_typed; [done|]. split; [done|constructor]. }
  intros [rc1 cd] Hcd. cbn [snd] in Hcd. destruct (negb (rc1 =? 0)); [by apply yields_one|].
  assert (Hname : typed (from_option domain_name [] cd)).
  { destruct cd as [cd|]; [apply Hcd|constructor]. }
  do 3 (apply yields_lift; intros). typing.
  eapply yields_bind; [by apply send_data_typed|]. intros [[rc2 b3] n3] Hm.
  by apply forward_reply_typed.
Qed.
End server.

(** ** The server *)

(** For every datagram, every reply and every outcome of the socket
    calls, everything the server prints and sends has the range of its C type:
    names and datagrams consist of bytes, identifiers and counts are 16-bit
    values, an address has four bytes, and a length is an [unsigned int]. *)
Lemma on_recv_typed `{Allocator} fuel dgram addr env t :
  (∀ k n, typed (malloc k n)) → from_option typed True dgram → from_option typed True (reply env) →
  on_recv fuel dgram addr env [] = Ok (tt, t) → Forall event_ok t.
Proof.
  intros Hmalloc Hd Hrep Hrun.
  by destruct (on_recv_yields Hmalloc fuel dgram addr env Hd Hrep _ _ _ Hrun) as (evs & -> & _ & He).
Qed.

(** A query for [a] that no upstream server answers. *)
Definition a_query : bytes := [0; 9; 1; 0; 0; 1; 0; 0; 0; 0; 0; 0; 1; 97; 0; 0; 1; 0; 1].

Lemma on_recv_typed_witness :
  Forall event_ok
    [EvMalloc 0; EvRequestData; EvClientAddr 5; EvTid 9; EvDomain [97]; EvQueryType true;
     EvMalloc 1; EvSocket; EvReceiveTimeout 5; EvFree 1;
     EvSendUpstream (SockAddrIn [8; 8; 8; 8] 13568) [0; 9; 1; 0; 0; 1; 0; 0; 0; 0; 0; 0; 1; 97; 0; 0; 1; 0; 1]; EvClose;
     EvFree 0].
Proof.
  apply (on_recv_typed (H := exact_allocator) 10 (Some a_query) 5 (Upstream true true false None)).
  - intros k n. apply Forall_replicate. done.
  - cbn. repeat constructor; done.
  - done.
  - vm_compute. reflexivity.
Defined.
