(* ===== verification/DnsRelay.v ===== *)
(** * What the DNS server sends

    For every datagram, every answer of the kernel and every reply: to whom
    [on_recv] sends, in which order, and which bytes.  The theorem follows the
    buffer through the request path: which of its first bytes each routine
    leaves as they are, and which the received datagrams put there. *)
From S2P Require Import Prelude CMem Traces DnsName DnsServer.

Local Open Scope Z_scope.

(** ** Bytes that stay as they are *)

Lemma wr_keeps k b i v b' : wr b i v = Ok b' → Z.of_nat k <= i → take k b' = take k b.
Proof. intros [_ ->]%wr_inv Hi. apply take_insert_ge. lia. Qed.

Lemma wr_bytes_keeps k s : ∀ b i b',
  wr_bytes b i s = Ok b' → Z.of_nat k <= i → take k b' = take k b.
Proof.
  induction s as [|c s IH]; intros b i b' H Hi; cbn in H; ok_inv; [done|].
  etrans; [eapply IH; [done|lia]|by eapply wr_keeps].
Qed.

Lemma wr16_keeps k b i v b' : wr16 b i v = Ok b' → Z.of_nat k <= i → take k b' = take k b.
Proof.
  unfold wr16. intros H Hi. ok_inv.
  etrans; [eapply wr_keeps; [done|lia]|by eapply wr_keeps].
Qed.

Lemma copy_span_keeps k n : ∀ host b lock d b' lock' d',
  copy_span n host b lock d = Ok (b', lock', d') → Z.of_nat k <= d →
  take k b' = take k b ∧ Z.of_nat k <= d'.
Proof.
  induction n as [|n IH]; intros host b lock d b' lock' d' H Hd; cbn in H; ok_inv; [done|].
  destruct (IH _ _ _ _ _ _ _ ltac:(done) ltac:(lia)) as [-> ?]. split; [by eapply wr_keeps|done].
Qed.

Lemma relabel_loop_keeps k fuel : ∀ host b i lock d b' d',
  relabel_loop fuel host b i lock d = Ok (b', d') → Z.of_nat k <= d →
  take k b' = take k b ∧ Z.of_nat k <= d'.
Proof.
  induction fuel as [|f IH]; intros host b i lock d b' d' H Hd; cbn in H; ok_inv; [|by eapply IH|done].
  match goal with H : copy_span _ _ _ _ _ = Ok _ |- _ =>
    apply (copy_span_keeps k) in H as [Hs ?]; [|lia] end.
  destruct (IH _ _ _ _ _ _ _ ltac:(done) ltac:(done)) as [-> ?].
  split; [|done]. rewrite Hs. by eapply wr_keeps.
Qed.

Lemma ChangetoDnsNameFormat_keeps k b d host rc b' host' :
  ChangetoDnsNameFormat (Some (b, d)) (Some host) = Ok (rc, b', host') → Z.of_nat k <= d →
  take k b' = take k b.
Proof.
  unfold ChangetoDnsNameFormat. intros H Hd. ok_inv.
  match goal with H : relabel_loop _ _ _ _ _ _ = Ok _ |- _ =>
    apply (relabel_loop_keeps k) in H as [Hs ?]; [|lia] end.
  rewrite <- Hs. by eapply wr_keeps.
Qed.

Lemma strncpy_keeps k b i s n b' : strncpy b i s n = Ok b' → Z.of_nat k <= i → take k b' = take k b.
Proof. unfold strncpy. intros H Hi. ok_inv. by eapply wr_bytes_keeps. Qed.

(** ** Bytes that are read and stored *)

Lemma rd_bytes_inv n : ∀ b (i : nat) s,
  rd_bytes b (Z.of_nat i) n = Ok s → s = take n (drop i b) ∧ length s = n.
Proof.
  induction n as [|n IH]; intros b i s H; cbn in H; ok_inv; [done|].
  match goal with H : rd _ _ = Ok _ |- _ => apply rd_inv in H as [_ Hl] end.
  rewrite Nat2Z.id in Hl. match goal with H : rd_bytes _ _ _ = Ok _ |- _ =>
    replace (Z.of_nat i + 1) with (Z.of_nat (S i)) in H by lia; apply IH in H as [-> Hlen] end.
  rewrite (drop_S _ _ _ Hl). cbn. by rewrite Hlen.
Qed.

Lemma wr_bytes_start s b b' : wr_bytes b 0 s = Ok b' → b' = s ++ drop (length s) b.
Proof.
  intros H. destruct (decide (length s <= length b)%nat) as [Hl|Hl].
  - rewrite wr_bytes_head in H by done. by injection H as <-.
  - rewrite wr_bytes_oob in H by lia. done.
Qed.

(** The datagram that is received, the length, and the terminator behind it. *)
Lemma received_covered b r b1 n b2 :
  recvfrom b MAX_BUF_LEN (Some r) = Ok (b1, n) → wr b1 (u32 (n + 1)) 0 = Ok b2 →
  covered b2 n = take MAX_BUF_LEN r ∧ n = Z.of_nat (length (take MAX_BUF_LEN r)).
Proof.
  unfold recvfrom. intros H Hw. ok_inv. split; [|done].
  assert (Hl : (length (take MAX_BUF_LEN r) <= 512)%nat)
    by (rewrite length_take; unfold MAX_BUF_LEN; lia).
  match goal with H : wr_bytes _ _ _ = Ok _ |- _ => apply wr_bytes_start in H as -> end.
  rewrite u32_id in Hw by lia. pose proof (wr_length _ _ _ _ Hw) as Hlen.
  apply (wr_keeps (length (take MAX_BUF_LEN r))) in Hw; [|lia].
  unfold covered. rewrite Z.min_l by (rewrite Hlen; len). by rewrite Nat2Z.id, Hw, take_app_length.
Qed.

Lemma build_query_starts b dn rc b' payload :
  build_query b dn = Ok (rc, b', payload) → rc ≠ -1 → take 12 payload = take 12 b.
Proof.
  unfold build_query, write_question. intros H Hrc. ok_inv; [done|].
  repeat match goal with
  | H : strlen _ _ = Ok _ |- _ => apply strlen_bound in H
  | H : rd_bytes _ _ _ = Ok _ |- _ => apply (rd_bytes_inv _ _ 0) in H as [-> _]
  | H : wr16 _ _ _ = Ok _ |- _ => apply (wr16_keeps 12) in H; [|unfold SIZEOF_DNS_HEADER; lia]
  | H : ChangetoDnsNameFormat _ _ = Ok _ |- _ => apply (ChangetoDnsNameFormat_keeps 12) in H; [|done]
  end.
  rewrite drop_0, take_take, Nat.min_l by (unfold SIZEOF_DNS_HEADER, SIZEOF_QUESTION; lia).
  congruence.
Qed.

(** ** What is sent *)

Inductive message :=
  | ToUpstream (dest : sockaddr_in) (payload : bytes)
  | ToClient (dest : Z) (payload : bytes) (len : Z).

Definition sent (e : event) : option message :=
  match e with
  | EvSendUpstream dest payload => Some (ToUpstream dest payload)
  | EvSendClient dest payload len => Some (ToClient dest payload len)
  | _ => None
  end.

(** Programs that send nothing. *)
Abbreviation silently m R := (yields (λ e, sent e = None) R m).

Lemma sent_nothing evs : Forall (λ e, sent e = None) evs → omap sent evs = [].
Proof. induction 1 as [|e evs He _ IH]; [done|]. cbn. by rewrite He. Qed.

(** A silent part in front of a program. *)
Lemma appends_silent {A B} (R : A → Prop) (m : prog trace A) (f : A → prog trace B)
    (Q : B → list message → Prop) :
  silently m R → (∀ a, R a → appends (f a) (λ b evs, Q b (omap sent evs))) →
  appends (m ≫= f) (λ b evs, Q b (omap sent evs)).
Proof.
  intros Hm Hf. apply appends_bind. eapply appends_mono; [exact Hm|]. intros a evs [Ha He].
  eapply appends_mono; [by apply Hf|]. intros b evs' HQ. by rewrite omap_app, sent_nothing.
Qed.

Lemma silently_done {A} (R : A → Prop) (m : prog trace A) (Q : A → list message → Prop) :
  silently m R → (∀ a, R a → Q a []) → appends m (λ b evs, Q b (omap sent evs)).
Proof.
  intros Hm HQ. eapply appends_mono; [exact Hm|]. intros a evs [Ha He].
  rewrite sent_nothing by done. auto.
Qed.

(** Goes through a program whose every action is silent. *)
Ltac silent_step :=
  match goal with
  | |- silently (lift _ ≫= _) _ => apply yields_lift; intros
  | |- silently (emit _ ≫= _) _ => apply yields_emit; [done|]
  | |- silently (mret _) _ => apply yields_ret
  | |- silently (fail _) _ => apply yields_fail
  | |- silently (emit _) (λ _, True) => apply yields_one
  | |- silently (if ?b then _ else _) _ => destruct b
  | |- silently (match ?x with _ => _ end) _ => destruct x
  end; cbv beta iota zeta.

Lemma read_and_print_silent b n cd addr : silently (read_and_print_dns_header b n cd addr) (λ _, True).
Proof. unfold read_and_print_dns_header. by repeat silent_step. Qed.

Section server.
Context `{Allocator} (fuel : nat).

Lemma parse_answer_silent i b r : silently (parse_answer fuel i b r) (λ _, True).
Proof. unfold parse_answer. by repeat silent_step. Qed.

Lemma parse_answers_silent n b : ∀ i r, silently (parse_answers fuel n i b r) (λ _, True).
Proof.
  induction n as [|n IH]; intros i r; cbn [parse_answers]; [by silent_step|].
  eapply yields_bind; [apply parse_answer_silent|]. intros [x r'] _.
  eapply yields_bind; [apply IH|]. intros xs _. by silent_step.
Qed.

Lemma print_answers_silent b rs : silently (print_answers b rs) (λ _, True).
Proof.
  induction rs as [|r rs IH]; cbn [print_answers]; [by silent_step|].
  do 2 silent_step. eapply (yields_bind _ (λ _, True)); [by repeat silent_step|].
  intros addr _. silent_step. apply IH.
Qed.

Lemma free_answers_silent n : ∀ i, silently (free_answers n i) (λ _, True).
Proof. induction n as [|n IH]; intros i; cbn [free_answers]; repeat silent_step; done || apply IH. Qed.

(** The reply is handled without sending, and stays in the buffer but for the
    terminator. *)
Lemma handle_reply_silent b n :
  failed n = false →
  silently (handle_reply fuel b n) (λ r, r.2 = n ∧ wr b (u32 (n + 1)) 0 = Ok r.1.2).
Proof.
  intros Hn. unfold handle_reply. rewrite Hn. do 3 silent_step.
  { by repeat silent_step. }
  do 7 silent_step. eapply yields_bind; [apply parse_answers_silent|]. intros answers _.
  silent_step. eapply yields_bind; [apply print_answers_silent|]. intros _ _.
  eapply yields_bind; [apply free_answers_silent|]. intros _ _. by silent_step.
Qed.

(** The buffer and the length that come back from [send_data_to_dns], when a
    reply or the failure to receive one is taken for success. *)
Definition obtained (env : upstream) (b : bytes) (n : Z) : Prop :=
  send_ok env = true ∧
  match reply env with
  | Some r => covered b n = take MAX_BUF_LEN r ∧ n = Z.of_nat (length (take MAX_BUF_LEN r))
  | None => n = u32 (-1)
  end.

Lemma handle_reply_obtained env b0 b n :
  send_ok env = true → recvfrom b0 MAX_BUF_LEN (reply env) = Ok (b, n) →
  silently (handle_reply fuel b n) (λ r, obtained env r.1.2 r.2).
Proof.
  intros Hs Hr. eapply yields_mono; [apply handle_reply_silent|].
  - unfold recvfrom in Hr. destruct (reply env); ok_inv; [|done]. apply Z.ltb_ge. lia.
  - intros [[rc b'] n'] [-> Hw]. cbn in *. split; [done|]. destruct (reply env) as [r|] eqn:E.
    + by eapply received_covered.
    + cbn in Hr. by ok_inv.
Qed.

(** The query that goes upstream: its identifier and flags. *)
Definition query_of (b payload : bytes) : Prop :=
  length (take 8 b) = 8%nat ∧ take 12 payload = take 8 b ++ [0; 0; 0; 0].

(** The first bytes of the zeroed buffer, with those of the copied header. *)
Lemma query_start req b2 h8 b3 b1 :
  wr_bytes b2 0 (replicate MAX_BUF_LEN 0) = Ok b1 → rd_bytes req 0 8 = Ok h8 →
  wr_bytes b1 0 h8 = Ok b3 → length (take 8 req) = 8%nat ∧ take 12 b3 = take 8 req ++ [0; 0; 0; 0].
Proof.
  intros ->%wr_bytes_start [-> Hl]%(rd_bytes_inv _ _ 0) ->%wr_bytes_start.
  rewrite drop_0 in *. split; [done|]. rewrite Hl, take_app, Hl, take_ge by lia. done.
Qed.

Lemma send_data_sends env b n :
  appends (send_data_to_dns fuel env b n) (λ r evs,
    (omap sent evs = [] ∧ r.1.1 = -1) ∨
    ∃ payload, omap sent evs = [ToUpstream g_dest payload] ∧ query_of b payload ∧
      reuse_ok env && timeo_ok env = true ∧ (r.1.1 = -1 ∨ obtained env r.1.2 r.2)).
Proof.
  unfold send_data_to_dns.
  apply appends_bind, appends_lift. intros [rc dn] _.
  destruct (rc =? -1). { apply appends_ret. by left. }
  apply appends_bind, appends_lift. intros [[rc' b1] dn1] H1%(ChangetoDnsNameFormat_keeps 8); [|done].
  destruct (rc' =? -1). { apply appends_ret. by left. }
  apply appends_bind, appends_emit, appends_bind, appends_lift. intros h Hh.
  apply appends_bind, appends_lift. intros req Hreq. apply appends_bind, appends_emit.
  destruct (reuse_ok env); cbn [negb andb].
  2: { apply appends_bind, appends_emit, appends_ret. by left. }
  destruct (timeo_ok env); cbn [negb andb].
  2: { apply appends_bind, appends_emit, appends_ret. by left. }
  apply appends_bind, appends_emit, appends_bind, appends_lift. intros b2 H2.
  apply appends_bind, appends_lift. intros h8 H8.
  apply appends_bind, appends_lift. intros b3 H3.
  apply appends_bind, appends_emit, appends_bind, appends_lift. intros [[rc2 b4] payload] H4.
  assert (Hq : rc2 ≠ -1 → query_of b payload).
  { intros Hrc. apply build_query_starts in H4; [|done].
    destruct (query_start req _ h8 b3 b2 H2 H8 H3) as [Hl Ht].
    change (Z.to_nat SIZEOF_DNS_HEADER) with 12%nat in Hh.
    apply (rd_bytes_inv _ _ 0) in Hh as [-> Hhl]. apply wr_bytes_start in Hreq.
    assert (He : take 8 req = take 8 b).
    { rewrite Hreq, take_app_le by lia. by rewrite drop_0, take_take. }
    unfold query_of. by rewrite <- He, <- Ht. }
  destruct (Z.eqb_spec rc2 (-1)). { apply appends_bind, appends_emit, appends_ret. by left. }
  apply appends_bind, appends_emit.
  destruct (send_ok env) eqn:Hs; cbn [negb].
  2: { apply appends_bind, appends_emit, appends_ret. right. exists payload. auto. }
  apply appends_bind, appends_lift. intros [b5 n5] Hr.
  eapply appends_mono; [by eapply handle_reply_obtained|]. intros r evs [Ho He]. right.
  exists payload. cbn [app omap list_omap sent]. rewrite (sent_nothing evs) by done. auto.
Qed.

Lemma forward_reply_sends addr cd rc b n :
  appends (forward_reply addr cd rc b n) (λ _ evs,
    omap sent evs = [] ∨ (rc = 0 ∧ omap sent evs = [ToClient addr (covered b n) n])).
Proof.
  unfold forward_reply. destruct (Z.eqb_spec rc 0); cbn [negb]; [|apply appends_emit; by left].
  eapply (appends_silent (λ _, True) _ _ (λ _ ms, ms = [] ∨ rc = 0 ∧ ms = [ToClient addr (covered b n) n]));
    [apply read_and_print_silent|].
  intros [rc' cd'] _. destruct (negb (rc' =? 0)); [apply appends_emit; by left|].
  apply appends_bind, appends_emit, appends_emit. by right.
Qed.

(** The messages of one request: nothing, a query, or a query and a reply. *)
Definition relayed (q : bytes → Prop) (addr : Z) (env : upstream) (ms : list message) : Prop :=
  ms = [] ∨
  ∃ payload, q payload ∧ reuse_ok env && timeo_ok env = true ∧
    (ms = [ToUpstream g_dest payload] ∨
     send_ok env = true ∧
     match reply env with
     | Some r => ms = [ToUpstream g_dest payload;
                       ToClient addr (take MAX_BUF_LEN r) (Z.of_nat (length (take MAX_BUF_LEN r)))]
     | None => ∃ b, ms = [ToUpstream g_dest payload; ToClient addr b (u32 (-1))]
     end).

Lemma relay_sends addr cd env b n :
  appends ('(rc, b, n) ← send_data_to_dns fuel env b n; forward_reply addr cd rc b n)
    (λ _ evs, relayed (query_of b) addr env (omap sent evs)).
Proof.
  apply appends_bind. eapply appends_mono; [apply send_data_sends|].
  intros [[rc b'] n'] e1 He1. eapply appends_mono; [apply forward_reply_sends|].
  intros [] e2 He2. rewrite omap_app. cbn [fst snd] in He1.
  destruct He1 as [[He1 Hrc]|(payload & He1 & Hq & Hok & Ho)].
  { left. destruct He2 as [He2|[? _]]; [by rewrite He1, He2|lia]. }
  right. exists payload. split; [done|]. split; [done|].
  destruct He2 as [He2|[Hrc He2]]; rewrite He2; [left; by rewrite He1|]. right.
  rewrite He1. destruct Ho as [?|[Hs Ho]]; [lia|]. split; [done|].
  destruct (reply env) as [r|]; [destruct Ho as [Hc Hn]; by rewrite Hc, Hn|].
  rewrite Ho. by eexists.
Qed.

(** The first bytes of the buffer the client's datagram was received in. *)
Lemma client_start b d b1 n b2 :
  (8 <= length d)%nat → recvfrom b MAX_BUF_LEN (Some d) = Ok (b1, n) →
  wr b1 (u32 (n + 1)) 0 = Ok b2 → take 8 b2 = take 8 d.
Proof.
  intros Hd Hr Hw. destruct (received_covered _ _ _ _ _ Hr Hw) as [Hc ->].
  assert (Ht : take 8 (take MAX_BUF_LEN d) = take 8 d) by (rewrite take_take; done).
  rewrite <- Ht, <- Hc. unfold covered. rewrite take_take. f_equal.
  pose proof (f_equal length Hc) as Hl. unfold covered in Hl. rewrite !length_take in *.
  unfold MAX_BUF_LEN in *. lia.
Qed.

Lemma on_recv_sends dgram addr env :
  appends (on_recv fuel dgram addr env) (λ _ evs,
    relayed (λ payload, ∃ q, length q = 8%nat ∧ take 12 payload = q ++ [0; 0; 0; 0] ∧
      ∀ d, dgram = Some d → (8 <= length d)%nat → q = take 8 d) addr env (omap sent evs)).
Proof.
  unfold on_recv. apply appends_bind, appends_emit, appends_bind, appends_lift. intros b0 _.
  apply appends_bind, appends_lift. intros [b1 n] H1.
  destruct (failed n); [apply appends_emit; by left|].
  apply appends_bind, appends_lift. intros b2 H2. apply appends_bind, appends_lift. intros rc _.
  destruct (negb (rc =? 0)); [apply appends_bind, appends_emit, appends_emit; by left|].
  apply appends_bind, appends_emit. cbn [app].
  eapply (appends_silent (λ _, True) _ _ (λ _, relayed _ addr env));
    [apply read_and_print_silent|].
  intros [rc1 cd] _. destruct (negb (rc1 =? 0)); [apply appends_emit; by left|].
  apply appends_bind, appends_lift. intros m Hm%strlen_bound.
  apply appends_bind, appends_lift. intros b3 H3%(strncpy_keeps 8); [|done].
  apply appends_bind, appends_lift. intros b4 H4%(wr_keeps 8); [|unfold SIZEOF_DNS_HEADER; lia].
  eapply appends_mono; [apply relay_sends|]. intros [] evs [Hr|(payload & [Hl Hq] & Hr)]; [by left|].
  right. exists payload. split; [|done]. exists (take 8 b4). split_and!; [done|done|].
  intros d -> Hd. rewrite H4, H3. by eapply client_start.
Qed.
End server.

(** ** Property *)

(** C18 (safety): whatever datagram arrives, whatever the kernel and the
    upstream server answer, when [on_recv] returns it has sent at most one
    datagram to the upstream server, and nobody else but the client another one
    after it.  The first carries the identifier, the flags and the counts of
    questions and answers of the client's datagram (the first eight bytes, if it
    has as many), and no other counts; it is only sent when both options of its socket could be set.  The second is the
    datagram the upstream server has sent, cut to 512 bytes, with its own
    length, unless none could be received: then it is sent with the length
    4294967295. *)
Theorem on_recv_relays `{Allocator} fuel dgram addr env t :
  on_recv fuel dgram addr env [] = Ok (tt, t) →
  omap sent t = [] ∨
  ∃ q payload,
    length q = 8%nat ∧ take 12 payload = q ++ [0; 0; 0; 0] ∧
    (∀ d, dgram = Some d → (8 <= length d)%nat → q = take 8 d) ∧
    reuse_ok env && timeo_ok env = true ∧
    (omap sent t = [ToUpstream g_dest payload] ∨
     send_ok env = true ∧
     match reply env with
     | Some r =>
         omap sent t = [ToUpstream g_dest payload;
                        ToClient addr (take MAX_BUF_LEN r) (Z.of_nat (length (take MAX_BUF_LEN r)))]
     | None => ∃ b, omap sent t = [ToUpstream g_dest payload; ToClient addr b 4294967295]
     end).
Proof.
  intros Hrun. destruct (on_recv_sends fuel dgram addr env _ _ _ Hrun) as (evs & -> & Hr).
  cbn [app]. destruct Hr as [Hr|(payload & (q & Hl & Ht & Hd) & Hok & Hr)]; [by left|].
  right. by exists q, payload.
Qed.

(** A query for [a], and the reply that there is no such name. *)
Definition relay_query : bytes := [0; 9; 1; 0; 0; 1; 0; 0; 0; 0; 0; 0; 1; 97; 0; 0; 1; 0; 1].
Definition relay_reply : bytes := [0; 9; 129; 131; 0; 1; 0; 0; 0; 0; 0; 0; 1; 97; 0; 0; 1; 0; 1].

Definition relay_trace : trace :=
  [EvMalloc 0; EvRequestData; EvClientAddr 5; EvTid 9; EvDomain [97]; EvQueryType true;
   EvMalloc 1; EvSocket; EvReceiveTimeout 5; EvFree 1;
   EvSendUpstream (SockAddrIn [8; 8; 8; 8] 13568) relay_query;
   EvClose; EvCounts 1 0 0 0; EvAnswerRecords 0;
   EvClientAddr 5; EvTid 9; EvDomain [97]; EvQueryType false;
   EvSendClient 5 relay_reply 19; EvFree 0].

Lemma on_recv_relays_witness :
  omap sent relay_trace = [] ∨
  ∃ q payload,
    length q = 8%nat ∧ take 12 payload = q ++ [0; 0; 0; 0] ∧
    (∀ d, Some relay_query = Some d → (8 <= length d)%nat → q = take 8 d) ∧
    true && true = true ∧
    (omap sent relay_trace = [ToUpstream g_dest payload] ∨
     true = true ∧
     omap sent relay_trace
     = [ToUpstream g_dest payload;
        ToClient 5 (take MAX_BUF_LEN relay_reply)
          (Z.of_nat (length (take MAX_BUF_LEN relay_reply)))]).
Proof.
  exact (on_recv_relays (H := glibc_allocator) 10 (Some relay_query) 5
    (Upstream true true true (Some relay_reply)) relay_trace eq_refl).
Defined.
