(* ===== verification/DnsSafety.v ===== *)
(** * What the DNS server does with good and with bad messages

    The end-to-end behaviour of [on_recv] on supported requests, the exact
    behaviour of [verify_dns_buffer], and the inputs on which the request
    path leaves its arrays. *)
From S2P Require Import Prelude CMem DnsName DnsServer.

Local Open Scope Z_scope.

(** ** A decision procedure for [name_at] *)

(** The labels and the length of the name at [off], when there is one. *)
Fixpoint name_check (fuel : nat) (b : bytes) (off : Z) : option (list bytes * Z) :=
  match fuel with
  | O => None
  | S f =>
      match rd b off with
      | Ok c =>
          if c =? 0 then Some ([], 1)
          else if (192 <=? c) && (c <? 256) then
            match rd b (off + 1) with
            | Ok c1 =>
                if (0 <=? c1) && (c1 <? 256)
                then '(ls, _) ← name_check f b ((c - 192) * 256 + c1); Some (ls, 2)
                else None
            | _ => None
            end
          else if (1 <=? c) && (c <=? 63) then
            match rd_bytes b (off + 1) (Z.to_nat c) with
            | Ok l =>
                if forallb (λ c, (0 <? c) && (c <? 192)) l
                then '(ls, n) ← name_check f b (off + 1 + c); Some (l :: ls, 1 + c + n)
                else None
            | _ => None
            end
          else None
      | _ => None
      end
  end.

Lemma name_check_sound f b : ∀ off ls n, name_check f b off = Some (ls, n) → name_at b off ls n.
Proof.
  induction f as [|f IH]; intros off ls n; [done|]. cbn [name_check].
  destruct (rd b off) as [c| |] eqn:Hc; [|done..].
  destruct (Z.eqb_spec c 0) as [->|Hnz].
  { intros [= <- <-]. by constructor. }
  destruct ((192 <=? c) && (c <? 256)) eqn:Hp; [|destruct ((1 <=? c) && (c <=? 63)) eqn:Hq; [|done]].
  - destruct (rd b (off + 1)) as [c1| |] eqn:Hc1; [|done..].
    destruct ((0 <=? c1) && (c1 <? 256)) eqn:Hr1; [|done].
    destruct (name_check f b _) as [[ls' n']|] eqn:Hr; [|done].
    intros [= <- <-]. bhyps. eapply name_ptr; eauto.
  - destruct (rd_bytes b (off + 1) (Z.to_nat c)) as [l| |] eqn:Hl; [|done..].
    pose proof (rd_bytes_length _ _ _ _ Hl) as Hlen.
    destruct (forallb _ l) eqn:Hall; [|done].
    destruct (name_check f b (off + 1 + c)) as [[ls' n']|] eqn:Hr; [|done].
    intros [= <- <-]. bhyps.
    assert (Hl192 : Forall (λ c, 0 < c < 192) l).
    { rewrite forallb_forall in Hall. apply Forall_forall.
      intros x Hx%list_elem_of_In%Hall. bhyps. lia. }
    replace c with (Z.of_nat (length l)) in * by lia. eapply name_label; eauto.
    + split; [lia|]. eapply Forall_impl; [exact Hl192|]. simpl. lia.
    + by rewrite Nat2Z.id in Hl.
Qed.

(** ** [copy_loop] at its limits *)

(** A name longer than the datagram is refused. *)
Lemma copy_loop_long s r : ∀ dn i buflen,
  nonzero s → i <= buflen + 1 → Z.of_nat (length s) = buflen + 2 - i →
  0 <= i → buflen + 1 < Z.of_nat (length dn) →
  ∃ dn', copy_loop (s ++ r) dn i buflen = Ok (-1, dn').
Proof.
  induction s as [|c s IH]; intros dn i buflen Hs Hi Hl H0 Hdn; [simpl in Hl; lia|].
  inversion Hs as [|? ? Hc Hs']; subst. cbn [length app copy_loop] in *. guards.
  rewrite (wr_ok dn i c) by lia. cbn [mbind res_bind]. rewrite ?Z.gtb_ltb.
  destruct (Z.ltb_spec buflen i); [by eexists|].
  apply IH; [done|lia..|]. rewrite length_insert. lia.
Qed.

(** A name that fills the array is stored past its end. *)
Lemma copy_loop_overflow s c r : ∀ dn i buflen,
  nonzero s → 0 <= i → i + Z.of_nat (length s) = Z.of_nat (length dn) →
  Z.of_nat (length dn) <= buflen + 1 →
  copy_loop (s ++ c :: r) dn i buflen = UB OutOfBounds.
Proof.
  induction s as [|d s IH]; intros dn i buflen Hs H0 Hl Hb; cbn [length app copy_loop] in *.
  - rewrite !wr_oob by lia. by destruct (c =? 0).
  - inversion Hs as [|? ? Hd Hs']; subst. guards.
    rewrite (wr_ok dn i d) by lia. cbn [mbind res_bind]. guards.
    apply IH; rewrite ?length_insert; (done || lia).
Qed.

Lemma verify_dns_buffer_overflow hdr s c r buflen :
  length hdr = 12%nat → nonzero s → length s = MAX_NAME_LEN → 255 <= buflen →
  verify_dns_buffer (hdr ++ s ++ c :: r) buflen = UB OutOfBounds.
Proof.
  intros Hh Hs Hl Hb. unfold verify_dns_buffer.
  change (2 * 2 >? TID_SIZE) with false. cbv iota.
  change (Z.to_nat SIZEOF_DNS_HEADER) with 12%nat. rewrite <- Hh, drop_app_length.
  rewrite copy_loop_overflow; [done|done|lia|by rewrite Hl|simpl; lia].
Qed.

(** ** Properties *)

(** C1 (functional): for a supported query and a supported reply, [on_recv]
    does exactly the following: it prints the client's header, sends upstream
    the query for the same name with the client's identifier, flags and first
    two counts (the last two are zero), prints the counts and every answer,
    prints the reply's header, and sends the reply back unchanged. *)
Theorem on_recv_serves `{Allocator} dg h ls addr env dg' h' ls' rrs :
  (∀ k, 8 <= Z.of_nat (length (malloc k 4))) →
  wf_query dg h ls → wf_reply dg' h' ls' rrs →
  reuse_ok env = true → timeo_ok env = true → send_ok env = true → reply env = Some dg' →
  returns (λ fuel, on_recv fuel (Some dg) addr env [])
    (tt,
     [EvMalloc BUFFER; EvRequestData;
      EvClientAddr addr; EvTid (field h 0); EvDomain (dotted ls);
      EvQueryType (h !!! 2%nat / 128 mod 2 =? 0);
      EvMalloc CLIENT_DNS_REQ; EvSocket; EvReceiveTimeout UPSTREAM_DNS_SOCKET_TIMEOUT;
      EvFree CLIENT_DNS_REQ;
      EvSendUpstream g_dest (take 8 h ++ [0; 0; 0; 0] ++ wire ls ++ [0; 0; 1; 0; 1]);
      EvClose; EvCounts (field h' 4) (field h' 6) (field h' 8) (field h' 10)] ++
     alloc_events (length rrs) 0 ++ [EvAnswerRecords (Z.of_nat (length rrs))] ++
     map answer_event rrs ++ free_events (length rrs) 0 ++
     [EvClientAddr addr; EvTid (field h' 0); EvDomain (dotted ls');
      EvQueryType (h' !!! 2%nat / 128 mod 2 =? 0);
      EvSendClient addr dg' (Z.of_nat (length dg')); EvFree BUFFER]).
Proof.
  intros Hroom Hq Hr Hre Hti Hse Hrep.
  pose proof (on_recv_run Hroom dg h ls addr env dg' h' ls' rrs Hq Hr Hre Hti Hse Hrep) as Hrun.
  destruct Hr as (? & ? & ? & _ & _ & _ & _ & _ & _ & _ & Han & _).
  unfold served, reply_events in Hrun. rewrite Han in Hrun |- *.
  unfold header_events in Hrun. cbn [app] in Hrun |- *.
  rewrite <- !app_assoc in Hrun. cbn [app] in Hrun. rewrite <- !app_assoc in Hrun. exact Hrun.
Qed.

(** A query for [www.ab] and a reply with an alias [x.ab] and its address. *)
Definition www_ab_query : bytes :=
  [18; 52; 1; 0; 0; 1; 0; 0; 0; 0; 0; 1; 3; 119; 119; 119; 2; 97; 98; 0; 0; 1; 0; 1; 9; 9].
Definition www_ab_reply : bytes :=
  [18; 52; 129; 128; 0; 1; 0; 2; 0; 0; 0; 0; 3; 119; 119; 119; 2; 97; 98; 0; 0; 1; 0; 1;
   192; 12; 0; 5; 0; 1; 0; 0; 0; 9; 0; 4; 1; 120; 192; 16;
   192; 36; 0; 1; 0; 1; 0; 0; 0; 9; 0; 4; 10; 20; 30; 40].

Definition www_ab : list bytes := [[119; 119; 119]; [97; 98]].

Definition www_ab_answers : list rr :=
  [RrName www_ab [[120]; [97; 98]]; RrA [[120]; [97; 98]] [10; 20; 30; 40]].

Lemma www_ab_query_ok :
  wf_query www_ab_query (take 12 www_ab_query) www_ab.
Proof.
  exists [0; 1; 9; 9]. unfold wf_label, dotless.
  split_and!; try done; try (vm_compute; lia); repeat constructor; simpl; lia.
Qed.

Lemma www_ab_reply_ok :
  wf_reply www_ab_reply (take 12 www_ab_reply) www_ab www_ab_answers.
Proof.
  assert (Hlab : Forall wf_label [[119; 119; 119]; [97; 98]] ∧ Forall wf_label [[120]; [97; 98]]).
  { unfold wf_label. split; repeat constructor; simpl; lia. }
  destruct Hlab as (Hlab & Hlab').
  do 3 eexists. split_and!; [reflexivity|done|done|done|vm_compute; lia|vm_compute; lia| |done|done].
  change (Z.of_nat _) with 24.
  refine (answers_name www_ab_reply 24 _ 2 1280 _ 4 _ _ eq_refl _ _ _).
  { split_and!; [by apply (name_check_sound 10)|done|done|vm_compute; lia]. }
  { vm_compute. discriminate. }
  { split_and!; [by apply (name_check_sound 10)|done|done|vm_compute; lia]. }
  refine (answers_a www_ab_reply 40 _ 2 256 1024 _ _ _ eq_refl eq_refl eq_refl eq_refl eq_refl _ _).
  { split_and!; [by apply (name_check_sound 10)|done|done|vm_compute; lia]. }
  { repeat constructor; lia. }
  constructor.
Qed.

Lemma on_recv_serves_witness :
  returns (λ fuel, on_recv (H := glibc_allocator) fuel (Some www_ab_query) 7
             (Upstream true true true (Some www_ab_reply)) [])
    (tt,
     [EvMalloc 0; EvRequestData; EvClientAddr 7; EvTid 4660;
      EvDomain [119; 119; 119; 46; 97; 98]; EvQueryType true;
      EvMalloc 1; EvSocket; EvReceiveTimeout 5; EvFree 1;
      EvSendUpstream (SockAddrIn [8; 8; 8; 8] 13568) [18; 52; 1; 0; 0; 1; 0; 0; 0; 0; 0; 0; 3; 119; 119; 119; 2; 97; 98; 0;
                      0; 1; 0; 1];
      EvClose; EvCounts 1 2 0 0; EvMalloc 2; EvMalloc 3; EvMalloc 4; EvMalloc 5;
      EvAnswerRecords 2;
      EvAnswer [119; 119; 119; 46; 97; 98] None;
      EvAnswer [120; 46; 97; 98] (Some [40; 30; 20; 10]);
      EvFree 2; EvFree 3; EvFree 4; EvFree 5;
      EvClientAddr 7; EvTid 4660; EvDomain [119; 119; 119; 46; 97; 98]; EvQueryType false;
      EvSendClient 7 www_ab_reply 56; EvFree 0]).
Proof.
  refine (on_recv_serves (H := glibc_allocator) www_ab_query (take 12 www_ab_query)
    www_ab 7 (Upstream true true true (Some www_ab_reply)) www_ab_reply
    (take 12 www_ab_reply) www_ab www_ab_answers _
    www_ab_query_ok www_ab_reply_ok eq_refl eq_refl eq_refl eq_refl).
  intros k. vm_compute. discriminate.
Defined.

(** C11 (bounds): [verify_dns_buffer] on a message of [buflen] bytes with the
    name [s] behind its header: a terminated name that fits its local array is
    accepted exactly when the question is of type A; a name that outruns the
    datagram is refused when [buflen] leaves room for it in the array; a name
    of 256 bytes or more in a longer datagram is written past the array. *)
Theorem verify_dns_buffer_spec hdr s buflen :
  length hdr = 12%nat → nonzero s → 0 <= buflen →
  (∀ q0 q1 r, (length s < MAX_NAME_LEN)%nat → Z.of_nat (length s) <= buflen + 1 →
     verify_dns_buffer (hdr ++ s ++ 0 :: q0 :: q1 :: r) buflen
     = Ok (if ntohs (q0 + 256 * q1) =? T_A then 0 else -1)) ∧
  (∀ r, buflen + 1 < Z.of_nat MAX_NAME_LEN → Z.of_nat (length s) = buflen + 2 →
     verify_dns_buffer (hdr ++ s ++ r) buflen = Ok (-1)) ∧
  (∀ c r, 255 <= buflen → length s = MAX_NAME_LEN →
     verify_dns_buffer (hdr ++ s ++ c :: r) buflen = UB OutOfBounds).
Proof.
  intros Hh Hs Hb. split_and!.
  - intros. by apply verify_dns_buffer_name.
  - intros r Hfit Hl. unfold verify_dns_buffer.
    change (2 * 2 >? TID_SIZE) with false. cbv iota.
    change (Z.to_nat SIZEOF_DNS_HEADER) with 12%nat. rewrite <- Hh, drop_app_length.
    destruct (copy_loop_long s r (replicate MAX_NAME_LEN 0) 0 buflen Hs) as [dn' Hc];
      [lia..|simpl; unfold MAX_NAME_LEN in Hfit; lia|].
    by step Hc.
  - intros. by apply verify_dns_buffer_overflow.
Qed.

(** A question of type A and one of another type; a name without its end; a name
    of 256 bytes. *)
Lemma verify_dns_buffer_spec_witness :
  let hdr := replicate 12 0 in
  verify_dns_buffer (hdr ++ [1; 97] ++ 0 :: 0 :: 1 :: [0; 1]) 19 = Ok 0 ∧
  verify_dns_buffer (hdr ++ [1; 97] ++ 0 :: 0 :: 28 :: [0; 1]) 19 = Ok (-1) ∧
  verify_dns_buffer (hdr ++ [1; 97] ++ [5; 5]) 0 = Ok (-1) ∧
  verify_dns_buffer (hdr ++ replicate MAX_NAME_LEN 97 ++ 0 :: [0; 1; 0; 1]) 273 = UB OutOfBounds.
Proof.
  destruct (verify_dns_buffer_spec (replicate 12 0) [1; 97] 19) as (H1 & _);
    [done|by repeat constructor|lia|].
  destruct (verify_dns_buffer_spec (replicate 12 0) [1; 97] 0) as (_ & H2 & _);
    [done|by repeat constructor|lia|].
  destruct (verify_dns_buffer_spec (replicate 12 0) (replicate MAX_NAME_LEN 97) 273) as (_ & _ & H3);
    [done|by apply Forall_replicate|lia|].
  split_and!; [apply (H1 0 1)|apply (H1 0 28)|apply H2|apply H3]; (done || (cbn; unfold MAX_NAME_LEN; lia)).
Defined.

(** The first steps of [on_recv], up to the test of the buffer. *)
Lemma on_recv_receives `{Allocator} dg addr env t fuel :
  (length dg + 2 <= MAX_BUF_LEN)%nat →
  ∃ y rest,
    on_recv fuel (Some dg) addr env t
    = (rc ← lift (verify_dns_buffer (dg ++ y :: 0 :: rest) (Z.of_nat (length dg)));
       if negb (rc =? 0) then _ ← emit EvUnsupported; emit (EvFree BUFFER)
       else
         _ ← emit EvRequestData;
         '(rc, cd) ← read_and_print_dns_header (Some (dg ++ y :: 0 :: rest))
                       (Z.of_nat (length dg)) (Some (QrData 0 [] 0)) (Some addr);
         if negb (rc =? 0) then emit (EvFree BUFFER)
         else
           let client_name := from_option domain_name [] cd in
           n ← lift (strlen client_name 0);
           buffer ← lift (strncpy (dg ++ y :: 0 :: rest) SIZEOF_DNS_HEADER client_name n);
           buffer ← lift (wr buffer (SIZEOF_DNS_HEADER + n) 0);
           '(rc, buffer, nBytes) ← send_data_to_dns fuel env buffer (Z.of_nat (length dg));
           forward_reply addr cd rc buffer nBytes) (t ++ [EvMalloc BUFFER]).
Proof.
  intros Hmax. pose proof (malloc_size BUFFER (Z.of_nat MAX_BUF_LEN)) as Hbl.
  destruct (app_length_split (malloc BUFFER (Z.of_nat MAX_BUF_LEN)) 8)
    as (m1 & m2 & Hm & Hm1); [unfold MAX_BUF_LEN in *; lia|]. rewrite Hm in Hbl.
  destruct (receive_ok (replicate 8 0 ++ m2) dg Hmax) as (y & rest & b2 & Hrc & Hwr & _);
    [len|].
  exists y, rest. unfold on_recv. rewrite emit_bind, Hm.
  lstep (memset_all 0 8 m2 m1 Hm1). lstep Hrc. rewrite not_failed. cbv iota. by lstep Hwr.
Qed.

(** C40 (safety): a single datagram whose name field is 256 bytes or more
    without a zero makes the server write past an array on its stack, before
    it has checked anything else about the sender or the message. *)
Theorem on_recv_stack_overflow `{Allocator} fuel hdr s c r addr env t :
  length hdr = 12%nat → nonzero s → length s = MAX_NAME_LEN →
  (length (hdr ++ s ++ c :: r) + 2 <= MAX_BUF_LEN)%nat →
  on_recv fuel (Some (hdr ++ s ++ c :: r)) addr env t = UB OutOfBounds.
Proof.
  intros Hh Hs Hl Hmax.
  destruct (on_recv_receives (hdr ++ s ++ c :: r) addr env t fuel Hmax) as (y & rest & ->).
  rewrite <- !app_assoc. cbn [app]. unfold mbind at 1, prog_bind at 1, lift at 1.
  rewrite verify_dns_buffer_overflow; [done..|]. unfold MAX_NAME_LEN in Hl. len.
Qed.

Lemma on_recv_stack_overflow_witness :
  on_recv (H := glibc_allocator) 100 (Some (replicate 12 0 ++ replicate 256 65 ++ [65])) 7
    (Upstream true true true None) [] = UB OutOfBounds.
Proof.
  apply (on_recv_stack_overflow (H := glibc_allocator) 100 (replicate 12 0) (replicate 256 65) 65 []).
  - done.
  - by apply Forall_replicate.
  - done.
  - vm_compute. lia.
Defined.

(** Storing the terminator at [buffer[nBytes+1]] leaves a block
    of exactly 512 bytes for every datagram of more than 510 bytes. *)
Theorem on_recv_terminator_overflow `{Allocator} fuel dg addr env t :
  length (malloc BUFFER (Z.of_nat MAX_BUF_LEN)) = MAX_BUF_LEN →
  (511 <= length dg)%nat →
  on_recv fuel (Some dg) addr env t = UB OutOfBounds.
Proof.
  intros Hm Hdg.
  destruct (app_length_split (malloc BUFFER (Z.of_nat MAX_BUF_LEN)) 8)
    as (m1 & m2 & Hm12 & Hm1); [unfold MAX_BUF_LEN in *; lia|]. rewrite Hm12 in Hm.
  assert (Htk : (511 <= length (take MAX_BUF_LEN dg) <= 512)%nat).
  { rewrite length_take. unfold MAX_BUF_LEN. lia. }
  unfold on_recv. rewrite emit_bind, Hm12. lstep (memset_all 0 8 m2 m1 Hm1).
  set (d := take MAX_BUF_LEN dg) in *.
  assert (Hb : length (replicate 8 0 ++ m2) = 512%nat) by (unfold MAX_BUF_LEN in Hm; len).
  unfold recvfrom. fold d.
  lstep (bind_ok (wr_bytes (replicate 8 0 ++ m2) 0 d)
    (λ b, mret (b, Z.of_nat (length d))) _ (wr_bytes_head d (replicate 8 0 ++ m2) ltac:(lia))).
  rewrite not_failed. cbv iota. unfold mbind at 1, prog_bind at 1, lift at 1.
  rewrite wr_oob; [done|]. rewrite u32_id by lia. len.
Qed.

Lemma on_recv_terminator_overflow_witness :
  on_recv (H := exact_allocator) 100 (Some (replicate 511 1)) 7 (Upstream true true true None) []
  = UB OutOfBounds.
Proof.
  apply (on_recv_terminator_overflow (H := exact_allocator)); [done|vm_compute; lia].
Defined.

(** ** The upstream reply *)

Lemma wf_query_shape dg h ls :
  wf_query dg h ls →
  length h = 12%nat ∧ ls ≠ [] ∧ Forall wf_label ls ∧ Forall dotless ls ∧
  (length (wire ls) <= 254)%nat ∧ Z.of_nat (length (wire ls)) <= Z.of_nat (length dg) <= 510.
Proof.
  intros (tl & Hdg & Hh & ? & ? & ? & ? & Hmax). apply (f_equal length) in Hdg.
  unfold MAX_BUF_LEN in Hmax. split_and!; (done || len).
Qed.

(** C39 (error): when the upstream server does not answer, [recvfrom] returns
    -1 into an unsigned variable and the failure is not noticed: the server
    treats its own query (first byte zeroed) as the reply, prints it, and asks
    the kernel to send 4294967295 bytes of its 512-byte buffer to the client. *)
Theorem upstream_failure_unnoticed `{Allocator} dg h ls addr env :
  (∀ k, 8 <= Z.of_nat (length (malloc k 4))) →
  wf_query dg h ls → field h 6 = 0 →
  reuse_ok env = true → timeo_ok env = true → send_ok env = true → reply env = None →
  ∃ t tl,
    returns (λ fuel, on_recv fuel (Some dg) addr env [])
      (tt, t ++ [EvSendClient addr
                   (covered (0 :: drop 1 (upstream_query ls (take 8 h)) ++ tl) 4294967295)
                   4294967295; EvFree BUFFER]) ∧
    EvSendUpstream g_dest (upstream_query ls (take 8 h)) ∈ t ∧
    (MAX_BUF_LEN <= length (upstream_query ls (take 8 h) ++ tl))%nat.
Proof.
  intros Hroom Hq Han Hre Hti Hse Hrep.
  destruct (request_run dg h ls addr Hq) as (r & Hlr & _ & _ & Hreq).
  apply wf_query_shape in Hq as (Hh & Hne & Hwf & Hdl & Hlen & Hn & Hmax).
  destruct (send_query ls Hwf Hdl Hne Hlen env (take 8 h) (drop 8 h) 0 r
    (Z.of_nat (length dg)) ltac:(len) ltac:(len) Hlr ltac:(lia) Hre Hti Hse)
    as (tl & _ & Hl4 & _ & Hsend).
  do 12 (destruct h as [|? h]; [discriminate|]). destruct h; [|discriminate].
  cbn [take drop app] in *.
  set (h2 := [0; z0; z1; z2; z3; z4; z5; z6; 0; 0; 0; 0]) in *.
  destruct (handle_reply_gen Hroom h2 ls (0 :: 1 :: tl) [] 4294967295
    (z :: drop 1 h2 ++ wire ls ++ 0 :: 0 :: 1 :: 0 :: 1 :: tl) eq_refl Hwf
    ltac:(unfold MAX_NAME_LEN; lia) ltac:(lia) ltac:(lia)
    (wr_app [] z _ 0 0 eq_refl) ltac:(constructor) Han ltac:(done)) as (N & HN).
  exists (([EvMalloc BUFFER; EvRequestData] ++
           header_events addr [z; z0; z1; z2; z3; z4; z5; z6; z7; z8; z9; z10] ls) ++
          upstream_events ls [z; z0; z1; z2; z3; z4; z5; z6] ++
          reply_events h2 [] ++ header_events addr h2 ls), tl. split_and!.
  - exists N. intros fuel Hf. rewrite Hreq. cbn [app].
    erewrite run_bind by (rewrite Hsend, Hrep; apply (HN fuel Hf)). cbv iota beta.
    rewrite forward_reply_gen; [|done|done|done|unfold MAX_NAME_LEN; lia|lia].
    assert (Hb : h2 ++ wire ls ++ 0 :: 0 :: 1 :: 0 :: 1 :: tl
      = 0 :: drop 1 (upstream_query ls [z; z0; z1; z2; z3; z4; z5; z6]) ++ tl).
    { unfold upstream_query. cbn [app skipn]. by rewrite <- (app_assoc (wire ls)). }
    rewrite Hb, <- !app_assoc. done.
  - rewrite !elem_of_app. right. left. set_solver.
  - unfold upstream_query. len.
Qed.

Definition www_ab_head : bytes := [18; 52; 1; 0; 0; 1; 0; 0].

Lemma upstream_failure_unnoticed_witness :
  ∃ t tl,
    returns (λ fuel, on_recv (H := glibc_allocator) fuel (Some www_ab_query) 7
      (Upstream true true true None) [])
      (tt, t ++ [EvSendClient 7
                   (covered (0 :: drop 1 (upstream_query www_ab
                      www_ab_head) ++ tl) 4294967295)
                   4294967295; EvFree BUFFER]) ∧
    EvSendUpstream g_dest (upstream_query www_ab www_ab_head) ∈ t ∧
    (MAX_BUF_LEN <= length (upstream_query www_ab
                              www_ab_head ++ tl))%nat.
Proof.
  refine (upstream_failure_unnoticed (H := glibc_allocator) www_ab_query (take 12 www_ab_query)
    www_ab 7 (Upstream true true true None) _ www_ab_query_ok eq_refl eq_refl eq_refl eq_refl
    eq_refl).
  intros k. vm_compute. discriminate.
Defined.

(** ** The answer section at its limits *)

(** A reply with more than [RECORD_LEN] answers makes the reading
    loop store its twenty-first record behind the array [answers]. *)
Theorem answers_array_overflow `{Allocator} b off rrs k :
  (∀ k, 8 <= Z.of_nat (length (malloc k 4))) →
  answers_at b off rrs → Z.of_nat (length rrs) = RECORD_LEN + 1 →
  ∃ N, ∀ fuel, (N <= fuel)%nat → ∀ t,
    parse_answers fuel (length rrs + k) 0 b off t = UB OutOfBounds.
Proof.
  intros Hroom Hat Hlen.
  assert (Hgen : ∀ rrs off i, answers_at b off rrs → 0 <= i <= RECORD_LEN →
    i + Z.of_nat (length rrs) = RECORD_LEN + 1 →
    ∃ N, ∀ fuel, (N <= fuel)%nat → ∀ t,
      parse_answers fuel (length rrs + k) i b off t = UB OutOfBounds).
  { clear off Hat Hlen rrs. induction rrs as [|x rrs IH]; intros off i Hat Hi Hlen.
    { simpl in Hlen. lia. }
    destruct (decide (i = RECORD_LEN)) as [->|Hlt].
    - destruct (parse_answer_name b off x rrs RECORD_LEN Hat) as (name & stop & N & HN).
      exists N. intros fuel Hf t. cbn [length Nat.add parse_answers].
      unfold mbind at 1, prog_bind at 1, parse_answer. rewrite emit_bind.
      by lstep (HN fuel Hf).
    - destruct (parse_answer_run Hroom b off x rrs i Hat ltac:(lia))
        as (r & off' & _ & Hat' & N & HN).
      cbn [length] in Hlen. destruct (IH off' (i + 1) Hat' ltac:(lia) ltac:(lia)) as (N' & HN').
      exists (N + N')%nat. intros fuel Hf t. cbn [length Nat.add parse_answers].
      step (HN fuel ltac:(lia) t). unfold mbind, prog_bind. by rewrite HN' by lia. }
  apply (Hgen rrs off 0 Hat); unfold RECORD_LEN in *; lia.
Qed.

(** Twenty-one times the address of the root's child [a], for [b ++ answers]. *)
Definition one_answer : bytes :=
  [1; 97; 0; 0; 1; 0; 1; 0; 0; 0; 9; 0; 4; 10; 20; 30; 40].
Definition many_answers : bytes := concat (replicate 21 one_answer).

Lemma answers_at_concat (n : nat) (pre : bytes) :
  answers_at (pre ++ concat (replicate n one_answer)) (Z.of_nat (length pre))
    (replicate n (RrA [[97 : Z]] [10; 20; 30; 40])).
Proof.
  revert pre. induction n as [|n IH]; intros pre; [constructor|]. cbn [replicate concat].
  set (rest := concat (replicate n one_answer)) in *.
  assert (Hrd : ∀ (j : nat) c, one_answer !! j = Some c →
    rd (pre ++ one_answer ++ rest) (Z.of_nat (length pre) + Z.of_nat j) = Ok c).
  { intros j c Hj. rewrite <- Nat2Z.inj_add. apply rd_lookup.
    rewrite lookup_app_r, Nat.add_sub_swap, Nat.sub_diag by lia. by apply lookup_app_l_Some. }
  assert (H16 : ∀ (j : nat) c d, one_answer !! j = Some c → one_answer !! (S j) = Some d →
    rd16 (pre ++ one_answer ++ rest) (Z.of_nat (length pre) + Z.of_nat j) = Ok (c + 256 * d)).
  { intros j c d Hc Hd. unfold rd16. step (Hrd _ _ Hc).
    replace (Z.of_nat (length pre) + Z.of_nat j + 1)
      with (Z.of_nat (length pre) + Z.of_nat (S j)) by lia. by step (Hrd _ _ Hd). }
  refine (answers_a _ _ _ 3 256 1024 _ _ _ (H16 3%nat 0 1 eq_refl eq_refl) eq_refl _ eq_refl _ _ _).
  - split_and!; [|done|repeat constructor; simpl; lia|vm_compute; lia].
    refine (name_label (pre ++ one_answer ++ rest) (Z.of_nat (length pre)) [97] [] 1 _ _ _ _ _).
    + pose proof (Hrd O 1 eq_refl) as H1. by rewrite Z.add_0_r in H1.
    + unfold wf_label. split; [simpl; lia|]. repeat constructor; lia.
    + repeat constructor; lia.
    + replace (pre ++ one_answer ++ rest) with ((pre ++ [1]) ++ [97] ++ drop 2 one_answer ++ rest)
        by (by rewrite <- app_assoc).
      apply rd_bytes_app; len.
    + apply name_end. rewrite <- (Hrd 2%nat 0 eq_refl). f_equal. simpl length. lia.
  - replace (Z.of_nat (length pre) + 3 + 8) with (Z.of_nat (length pre) + Z.of_nat 11) by lia.
    apply (H16 11%nat 0 4 eq_refl eq_refl).
  - replace (pre ++ one_answer ++ rest) with ((pre ++ take 13 one_answer) ++ [10; 20; 30; 40] ++ rest)
      by (by rewrite <- app_assoc).
    apply rd_bytes_app; len.
  - repeat constructor; lia.
  - specialize (IH (pre ++ one_answer)). rewrite <- app_assoc in IH.
    replace (Z.of_nat (length pre) + 3 + 14) with (Z.of_nat (length (pre ++ one_answer))) by len.
    exact IH.
Qed.

Lemma answers_array_overflow_witness :
  ∃ N, ∀ fuel, (N <= fuel)%nat → ∀ t,
    parse_answers (H := glibc_allocator) fuel 23 0 many_answers 0 t = UB OutOfBounds.
Proof.
  apply (answers_array_overflow (H := glibc_allocator) many_answers 0
    (replicate 21 (RrA [[97 : Z]] [10; 20; 30; 40])) 2).
  - intros k. vm_compute. discriminate.
  - exact (answers_at_concat 21 []).
  - done.
Defined.

(** The terminator stored behind the data of an address record
    leaves the four-byte block that was allocated for it. *)
Theorem address_terminator_overflow `{Allocator} b off ls ip rrs i :
  answers_at b off (RrA ls ip :: rrs) → 0 <= i < RECORD_LEN →
  length (malloc (rdata_block i) 4) = 4%nat →
  ∃ N, ∀ fuel, (N <= fuel)%nat → ∀ t, parse_answer fuel i b off t = UB OutOfBounds.
Proof.
  intros Hat Hi Hblk.
  inversion Hat as [|? ? n type dl ? ? Hn Ht HtA Hdl Hdl4 Hip Hok Hrest|]; subst.
  destruct Hn as (Hname & Hne & Hwf & Hlen). pose proof (rd_bytes_length _ _ _ _ Hip) as Hl4.
  pose proof (malloc_size (name_block i) (Z.of_nat MAX_NAME_LEN)) as Hms.
  destruct (uncompress_name_returns b off ls n
    (malloc (name_block i) (Z.of_nat MAX_NAME_LEN)) Hname Hne Hwf) as (rest & _ & N & HN); [lia|].
  exists N. intros fuel Hf t. unfold parse_answer. rewrite emit_bind. lstep (HN fuel Hf). guards.
  unfold R_TYPE, R_DATA_LEN, SIZEOF_R_DATA. rewrite Z.add_0_r. lstep Ht. rewrite HtA.
  change (T_A =? 1) with true. cbv iota. lstep Hdl. rewrite Hdl4, emit_bind.
  change (Z.to_nat 4) with 4%nat.
  pose proof (copy_rdata_app b (off + n + 10) ip [] (malloc (rdata_block i) 4) []) as Hcp.
  rewrite Hl4, Z.add_0_r, !app_nil_r in Hcp. cbn [app length] in Hcp. lstep (Hcp Hip Hblk).
  unfold mbind at 1, prog_bind at 1, lift at 1. by rewrite wr_oob by lia.
Qed.

Lemma address_terminator_overflow_witness :
  ∃ N, ∀ fuel, (N <= fuel)%nat → ∀ t,
    parse_answer (H := exact_allocator) fuel 0 many_answers 0 t = UB OutOfBounds.
Proof.
  apply (address_terminator_overflow (H := exact_allocator) many_answers 0 [[97 : Z]]
    [10; 20; 30; 40] (replicate 20 (RrA [[97 : Z]] [10; 20; 30; 40])) 0).
  - exact (answers_at_concat 21 []).
  - done.
  - done.
Defined.
