(* ===== verification/DnsTermination.v ===== *)
(** * Termination of the DNS server

    The only loop of the request path whose end depends on the data is the one
    of [uncompress_name].  This file gives the fuel that decides whether it
    ends, and shows that it runs for ever exactly when it reaches a cycle of
    compression pointers, and a call of [on_recv] exactly when the reply has an
    answer that does. *)
From S2P Require Import Prelude CMem Traces DnsName DnsServer DnsTypes.

Local Open Scope Z_scope.

(** ** [uncompress_name] *)

(** From offset [o] the loop reads [k] bytes of the name, and any number of
    pointers, and gets to offset [o']. *)
Inductive reads (b : bytes) : nat → Z → Z → Prop :=
  | reads_here o : reads b 0 o o
  | reads_pointer k o o1 o' : points b o o1 → reads b k o1 o' → reads b k o o'
  | reads_byte k o c o' :
      rd b o = Ok c → c ≠ 0 → c < 192 → reads b k (o + 1) o' → reads b (S k) o o'.

(** [uncompress_name] from offset [o] reaches a cycle of pointers before the
    [n] bytes of the name are used up. *)
Definition trapped (b : bytes) (n : nat) (o : Z) : Prop :=
  ∃ k o', (k <= n)%nat ∧ reads b k o o' ∧ tc (points b) o' o'.

(** A fuel that is always enough. *)
Definition name_fuel (b : bytes) (n : nat) : nat := (S n * (length b + 2))%nat.

Lemma nofuel_inv {A B} (m : res A) (f : A → res B) :
  finishes m → (m ≫= f) = NoFuel → ∃ a, m = Ok a ∧ f a = NoFuel.
Proof. unfold finishes. destruct m; [by eauto|done|done]. Qed.

Lemma rd_range b i c : rd b i = Ok c → 0 <= i < Z.of_nat (length b).
Proof. intros [Hi Hl]%rd_inv. apply lookup_lt_Some in Hl. lia. Qed.

Lemma rd_byte b i c : Forall byte_ok b → rd b i = Ok c → 0 <= c < 256.
Proof. intros Hb [_ Hl]%rd_inv. by apply (Forall_lookup_1 _ _ _ _ Hb Hl). Qed.

(** Offsets of a block without repetition. *)
Lemma NoDup_offsets (b : bytes) (vs : list Z) :
  NoDup vs → Forall (λ v, 0 <= v < Z.of_nat (length b)) vs → (length vs <= length b)%nat.
Proof.
  intros Hn Hv. replace (length b) with (length (seqZ 0 (Z.of_nat (length b))))
    by (rewrite length_seqZ; lia).
  apply submseteq_length, NoDup_submseteq; [done|]. intros v Hin.
  rewrite Forall_forall in Hv. apply elem_of_seqZ. specialize (Hv v Hin). lia.
Qed.

(** What is left to do: every byte of the name that may still be stored, and
    every pointer that may still be followed before the next one. *)
Definition measure (b : bytes) (n : nat) (vs : list Z) : nat :=
  (n * (length b + 2) + (length b + 1 - length vs))%nat.

Section termination.
Context (b : bytes) (Hb : Forall byte_ok b).

(** A loop that has not ended within the fuel goes round a cycle; [vs] are the
    pointers followed since the last byte of the name. *)
Lemma uncompress_loop_trapped fuel : ∀ name o p j cnt vs,
  uncompress_loop fuel b name o p j cnt = NoFuel → 0 <= p <= Z.of_nat (length name) →
  NoDup vs → Forall (λ v, 0 <= v < Z.of_nat (length b)) vs → Forall (λ v, tc (points b) v o) vs →
  (measure b (length name - Z.to_nat p) vs < fuel)%nat →
  trapped b (length name - Z.to_nat p) o.
Proof.
  induction fuel as [|f IH]; intros name o p j cnt vs Hrun Hp Hnd Hvs Htc Hf; [lia|].
  cbn [uncompress_loop] in Hrun.
  apply nofuel_inv in Hrun as (c & Hc & Hrun); [|apply rd_finishes].
  pose proof (rd_range _ _ _ Hc) as Ho. pose proof (rd_byte _ _ _ Hb Hc) as Hcb.
  destruct (Z.eqb_spec c 0) as [->|Hc0]; [done|]. destruct (Z.leb_spec 192 c) as [Hp192|Hp192].
  - apply nofuel_inv in Hrun as (c1 & Hc1 & Hrun); [|apply rd_finishes]. cbv zeta in Hrun.
    pose proof (rd_byte _ _ _ Hb Hc1) as Hc1b. set (o1 := (c - 192) * 256 + c1).
    assert (Hpt : points b o o1) by (exists c, c1; by split_and!; try lia).
    replace (u32 (c * 256 + c1 - 49152) - 1 + 1) with o1 in Hrun by (rewrite u32_id; lia).
    destruct (decide (o ∈ vs)) as [Hin|Hin].
    + exists 0%nat, o. split; [lia|]. split; [constructor|]. by eapply Forall_forall in Htc.
    + assert (Hle : (length (o :: vs) <= length b)%nat).
      { apply NoDup_offsets; [by constructor|by constructor]. }
      destruct (IH name o1 p 1 cnt (o :: vs) Hrun Hp) as (k & o' & Hk & Hr & Hcyc).
      * by constructor.
      * by constructor.
      * constructor; [by apply tc_once|]. eapply Forall_impl; [exact Htc|]. intros v Hv. eapply tc_r; [exact Hv|exact Hpt].
      * unfold measure in *. cbn [length] in *. lia.
      * exists k, o'. split; [done|]. split; [by eapply reads_pointer|done].
  - apply nofuel_inv in Hrun as (name' & Hw & Hrun); [|apply wr_finishes].
    apply wr_inv in Hw as [Hpr ->].
    pose proof (NoDup_offsets b vs Hnd Hvs) as Hle.
    destruct (IH _ (o + 1) (p + 1) _ _ [] Hrun) as (k & o' & Hk & Hr & Hcyc).
    + rewrite length_insert. lia.
    + constructor.
    + constructor.
    + constructor.
    + rewrite length_insert. unfold measure in *. cbn [length] in *.
      replace (length name - Z.to_nat p)%nat with (S (length name - Z.to_nat (p + 1))) in Hf by lia.
      lia.
    + rewrite length_insert in Hk. exists (S k), o'. split; [lia|].
      split; [by eapply reads_byte|done].
Qed.

(** In a trap no fuel is enough. *)
Lemma trapped_loop k o o' : reads b k o o' → tc (points b) o' o' → ∀ fuel name p j cnt,
  0 <= p → Z.of_nat k <= Z.of_nat (length name) - p →
  uncompress_loop fuel b name o p j cnt = NoFuel.
Proof.
  induction 1 as [o|k o o1 o' Hpt _ IH|k o c o' Hc Hc0 Hc192 _ IH]; intros Hcyc fuel name p j cnt Hp Hk.
  - by apply uncompress_loop_cycle.
  - destruct fuel as [|f]; [done|]. rewrite (uncompress_loop_points _ _ _ _ _ _ _ _ Hpt). by apply IH.
  - destruct fuel as [|f]; [done|]. cbn [uncompress_loop]. step Hc. guards.
    unfold wr. guards. change (Ok ?x ≫= ?g) with (g x). cbv beta. apply IH; [done|lia|].
    rewrite length_insert. lia.
Qed.

Lemma uncompress_name_loops fuel name off :
  name ≠ [] →
  uncompress_name fuel name off b = NoFuel ↔
  uncompress_loop fuel b (0 :: tail name) off 0 0 1 = NoFuel.
Proof.
  intros Hn. destruct name as [|x name]; [done|]. unfold uncompress_name.
  step (wr_app [] x name 0 0 eq_refl). cbn [app tail]. split.
  - intros Hrun. destruct (uncompress_loop _ _ _ _ _ _ _) as [[[[name1 p] j] cnt]|e|]; [|done|done].
    change (Ok ?x ≫= ?g) with (g x) in Hrun. cbv beta iota in Hrun.
    apply nofuel_inv in Hrun as (name2 & _ & Hrun); [|apply wr_finishes]. cbv zeta in Hrun.
    apply nofuel_inv in Hrun as (name3 & _ & Hrun); [done|]. apply unlabel_terminates.
  - by intros ->.
Qed.
End termination.

(** Within [name_fuel] the end of [uncompress_name] is decided. *)
Lemma uncompress_name_ends b off name fuel :
  Forall byte_ok b → name ≠ [] → (name_fuel b (length name) <= fuel)%nat →
  (uncompress_name fuel name off b = NoFuel ↔ trapped b (length name) off) ∧
  (trapped b (length name) off → diverges (λ f, uncompress_name f name off b)).
Proof.
  intros Hb Hn Hf.
  assert (Hlen : length (0 :: tail name) = length name) by (by destruct name).
  assert (Hdiv : trapped b (length name) off → diverges (λ f, uncompress_name f name off b)).
  { intros (k & o' & Hk & Hr & Hc) f. apply uncompress_name_loops; [done|].
    apply (trapped_loop b k off o' Hr Hc); [lia|]. rewrite Hlen. lia. }
  split; [|done]. split; [|intros Ht; by apply Hdiv].
  intros Hrun%uncompress_name_loops; [|done].
  apply (uncompress_loop_trapped b Hb _ _ _ _ _ _ []) in Hrun; [|lia|constructor..|].
  - rewrite Hlen, Nat.sub_0_r in Hrun. done.
  - rewrite Hlen. unfold measure, name_fuel in *. cbn [length Z.to_nat] in *. nia.
Qed.

(** ** Programs that finish *)

(** From no trace does the program run out of fuel. *)
Definition ends {S A} (m : prog S A) : Prop := ∀ s, m s ≠ NoFuel.

Section ends.
Context {S A B : Type}.

Lemma ends_bind (m : prog S A) (f : A → prog S B) : ends m → (∀ a, ends (f a)) → ends (m ≫= f).
Proof.
  intros Hm Hf s. unfold mbind, prog_bind. specialize (Hm s). destruct (m s) as [[a s']| |]; [|done|done].
  apply Hf.
Qed.

Lemma ends_lift (m : res A) : finishes m → ends (S := S) (lift m).
Proof. intros Hm s. unfold lift. by destruct m. Qed.

Lemma ends_ret (a : A) : ends (S := S) (mret a).
Proof. done. Qed.

Lemma ends_fail e : ends (S := S) (A := A) (fail e).
Proof. done. Qed.

Lemma lift_inv (m : res A) s a s' : lift (S := S) m s = Ok (a, s') → m = Ok a ∧ s' = s.
Proof. unfold lift. destruct m; [|done|done]. by intros [= -> ->]. Qed.

(** The part of a program that does not finish. *)
Lemma ends_inv (m : prog S A) (f : A → prog S B) s :
  ends m → (m ≫= f) s = NoFuel → ∃ a s', m s = Ok (a, s') ∧ f a s' = NoFuel.
Proof.
  intros Hm Hs. unfold mbind, prog_bind in Hs. specialize (Hm s).
  destruct (m s) as [[a s']| |]; [by eauto|done|done].
Qed.
End ends.

(** Only the first part may fail to finish. *)
Lemma bind_nofuel {S A B} (m : prog S A) (f : A → prog S B) s :
  (∀ a, ends (f a)) → (m ≫= f) s = NoFuel ↔ m s = NoFuel.
Proof.
  intros Hf. unfold mbind, prog_bind. destruct (m s) as [[a s']| |]; [|done..].
  split; [by intros ?%Hf|done].
Qed.

Lemma ends_emit {E} (e : E) : ends (emit e).
Proof. done. Qed.

Create HintDb cends.
#[export] Hint Resolve ends_bind ends_lift ends_ret ends_fail ends_emit : cends.

(** Goes through a program that finishes, one action at a time. *)
Ltac ends_step :=
  match goal with
  | |- ends (_ ≫= _) => apply ends_bind
  | |- ends (lift _) => apply ends_lift; auto with cfin
  | |- ends (mret _) => apply ends_ret
  | |- ends (fail _) => apply ends_fail
  | |- ends (emit _) => apply ends_emit
  | |- ends (if ?b then _ else _) => destruct b
  | |- ends (match ?x with _ => _ end) => destruct x
  | |- ∀ _, _ => intros ?
  end; cbv beta iota zeta.

(** *** The routines of the request path *)

Lemma finishes_if {A} (b : bool) (m n : res A) :
  finishes m → finishes n → finishes (if b then m else n).
Proof. by destruct b. Qed.

Lemma unlabel_finishes tc a : finishes (unlabel tc a).
Proof. exact (unlabel_terminates tc a). Qed.

#[export] Hint Resolve finishes_if unlabel_finishes : cfin.

Lemma copy_loop_finishes l : ∀ dn i n, finishes (copy_loop l dn i n).
Proof. induction l as [|c l IH]; intros dn i n; cbn [copy_loop]; [done|]. eauto 6 with cfin. Qed.

Lemma verify_and_copy_finishes q dn n : finishes (verify_and_copy_qname q dn n).
Proof.
  unfold verify_and_copy_qname. destruct q as [[b q]|], dn as [dn|]; try done.
  destruct (q <? 0); [done|]. apply copy_loop_finishes.
Qed.

Lemma copy_span_finishes n : ∀ host b lock d, finishes (copy_span n host b lock d).
Proof. induction n as [|n IH]; intros host b lock d; cbn [copy_span]; [done|]. eauto with cfin. Qed.

(** The index of the loop grows in every turn. *)
Lemma relabel_loop_finishes fuel : ∀ host b i lock d,
  0 <= i → (0 < fuel)%nat → Z.of_nat (length host) < Z.of_nat fuel + i →
  finishes (relabel_loop fuel host b i lock d).
Proof.
  induction fuel as [|f IH]; intros host b i lock d Hi H0 Hf; [lia|]. cbn [relabel_loop].
  apply finishes_bind; [auto with cfin|]. intros n Hn. pose proof (strlen_bound _ _ _ Hn).
  bdestr; [|done]. apply finishes_bind; [auto with cfin|]. intros c _. destruct (c =? 46).
  - apply finishes_bind; [auto with cfin|]. intros b' _.
    apply finishes_bind; [apply copy_span_finishes|]. intros [[b2 lock2] d2] _. apply IH; lia.
  - apply IH; lia.
Qed.

Lemma ChangetoDnsNameFormat_finishes dns host : finishes (ChangetoDnsNameFormat dns host).
Proof.
  unfold ChangetoDnsNameFormat. destruct dns as [[b d]|], host as [host|]; try done.
  apply finishes_bind; [auto with cfin|]. intros host' _.
  apply finishes_bind; [apply relabel_loop_finishes; lia|]. intros [b' d'] _. auto with cfin.
Qed.

Lemma recvfrom_finishes b n d : finishes (recvfrom b n d).
Proof. unfold recvfrom. destruct d; [|done]. auto with cfin. Qed.

Lemma verify_dns_buffer_finishes b n : finishes (verify_dns_buffer b n).
Proof.
  unfold verify_dns_buffer. destruct (_ >? _); [done|].
  apply finishes_bind; [apply copy_loop_finishes|]. intros [rc dn] _.
  destruct (rc =? -1); [done|]. eauto with cfin.
Qed.

Lemma copy_rdata_finishes n : ∀ b r d j, finishes (copy_rdata n b r d j).
Proof. induction n as [|n IH]; intros b r d j; cbn [copy_rdata]; [done|]. eauto with cfin. Qed.

Lemma build_query_finishes b dn : finishes (build_query b dn).
Proof.
  unfold build_query. apply finishes_bind; [apply ChangetoDnsNameFormat_finishes|].
  intros [[rc b'] dn'] _. destruct (rc =? -1); [done|].
  apply finishes_bind; [auto with cfin|]. intros n _. unfold write_question.
  apply finishes_bind; [|by intros [b2 payload] _]. eauto 8 with cfin.
Qed.

#[export] Hint Resolve verify_and_copy_finishes ChangetoDnsNameFormat_finishes recvfrom_finishes
  verify_dns_buffer_finishes copy_rdata_finishes build_query_finishes : cfin.

Lemma read_and_print_ends b n cd addr : ends (read_and_print_dns_header b n cd addr).
Proof.
  unfold read_and_print_dns_header, unlabel_domain_name. repeat ends_step.
Qed.

Lemma print_answers_ends b rs : ends (print_answers b rs).
Proof. induction rs as [|r rs IH]; cbn [print_answers]; repeat ends_step. apply IH. Qed.

Lemma free_answers_ends n : ∀ i, ends (free_answers n i).
Proof. induction n as [|n IH]; intros i; cbn [free_answers]; repeat ends_step. apply IH. Qed.

Lemma forward_reply_ends addr cd rc b n : ends (forward_reply addr cd rc b n).
Proof.
  unfold forward_reply. repeat first [apply read_and_print_ends|ends_step].
Qed.

(** *** The answer section *)

Section answers.
Context `{Allocator} (b : bytes) (Hb : Forall byte_ok b) (fuel : nat).

(** Enough for every name of the message. *)
Definition enough : Prop :=
  ∀ k, (name_fuel b (length (malloc k (Z.of_nat MAX_NAME_LEN))) <= fuel)%nat.

(** The offset at which the answer number [i] begins. *)
Inductive answer_starts : Z → Z → Prop :=
  | answer_first g :
      strlen b SIZEOF_DNS_HEADER = Ok g →
      answer_starts 0 (SIZEOF_DNS_HEADER + g + 1 + SIZEOF_QUESTION)
  | answer_next i r t x r' t' :
      answer_starts i r → parse_answer fuel i b r t = Ok ((x, r'), t') →
      answer_starts (i + 1) r'.

Lemma answer_starts_strlen i r : answer_starts i r → ∃ g, strlen b SIZEOF_DNS_HEADER = Ok g.
Proof. induction 1; eauto. Qed.

Lemma answer_starts_nonneg i r : answer_starts i r → 0 <= i.
Proof. induction 1; lia. Qed.

(** The name of the answer at [r], or the name in its data, is a trap. *)
Definition answer_trapped (i r : Z) : Prop :=
  trapped b (length (malloc (name_block i) (Z.of_nat MAX_NAME_LEN))) r ∨
  ∃ name stop type,
    uncompress_name fuel (malloc (name_block i) (Z.of_nat MAX_NAME_LEN)) r b = Ok (name, stop) ∧
    i < RECORD_LEN ∧ rd16 b (r + stop + R_TYPE) = Ok type ∧ ntohs type ≠ 1 ∧
    trapped b (length (malloc (rdata_block i) (Z.of_nat MAX_NAME_LEN))) (r + stop + SIZEOF_R_DATA).

(** The message, of [n] bytes, is taken for a reply and has such an answer. *)
Definition trap (n : Z) : Prop :=
  (∃ rc, verify_dns_buffer b n = Ok rc ∧ rc ≠ -1) ∧
  ∃ i r an, rd16 b H_ANCOUNT = Ok an ∧ i < ntohs an ∧ answer_starts i r ∧ answer_trapped i r.

(** A message that announces no answers has none that is a trap. *)
Lemma no_answers_no_trap n : rd16 b H_ANCOUNT = Ok 0 → ¬ trap n.
Proof.
  intros Han0 (_ & i & r & an & Han & Hi & Hst%answer_starts_nonneg & _).
  rewrite Han0 in Han. injection Han as <-. change (ntohs 0) with 0 in Hi. lia.
Qed.

Lemma uncompress_trapped k o :
  enough → uncompress_name fuel (malloc k (Z.of_nat MAX_NAME_LEN)) o b = NoFuel ↔
  trapped b (length (malloc k (Z.of_nat MAX_NAME_LEN))) o.
Proof.
  intros Hf. pose proof (malloc_size k (Z.of_nat MAX_NAME_LEN)) as Hm.
  assert (Hne : malloc k (Z.of_nat MAX_NAME_LEN) ≠ []).
  { intros E. rewrite E in Hm. unfold MAX_NAME_LEN in Hm. simpl in Hm. lia. }
  apply (uncompress_name_ends b o _ fuel Hb Hne (Hf k)).
Qed.

Lemma parse_answer_framed i r : framed (parse_answer fuel i b r).
Proof. unfold parse_answer. repeat framed_step. Qed.

Lemma parse_answers_framed n : ∀ i r, framed (parse_answers fuel n i b r).
Proof.
  induction n as [|n IH]; intros i r; cbn [parse_answers]; repeat first [apply IH|framed_step].
  apply parse_answer_framed.
Qed.

Lemma parse_answer_trapped i r t :
  enough → parse_answer fuel i b r t = NoFuel ↔ answer_trapped i r.
Proof.
  intros Hf. unfold parse_answer. rewrite emit_bind. split; [intros Hrun|intros Htr].
  - destruct (uncompress_name fuel (malloc (name_block i) (Z.of_nat MAX_NAME_LEN)) r b)
      as [[name stop]|e|] eqn:E1;
      [|by unfold mbind, prog_bind, lift in Hrun|left; by apply uncompress_trapped].
    rewrite (lift_bind _ _ _ _ eq_refl) in Hrun. cbv beta iota in Hrun.
    destruct (Z.leb_spec RECORD_LEN i); [done|].
    apply ends_inv in Hrun as (type & t1 & Hty & Hrun); [|repeat ends_step].
    apply lift_inv in Hty as [Hty ->]. destruct (Z.eqb_spec (ntohs type) 1).
    { exfalso. revert Hrun. match goal with |- ?m ?s = NoFuel → False =>
        enough (ends m) as He by exact (He s) end. repeat ends_step. }
    rewrite emit_bind in Hrun.
    destruct (uncompress_name fuel (malloc (rdata_block i) (Z.of_nat MAX_NAME_LEN)) _ b)
      as [[name2 stop2]|e|] eqn:E2; [done|done|].
    right. exists name, stop, type. split_and!; try done. by apply uncompress_trapped.
  - destruct Htr as [Htr|(name & stop & type & E1 & Hi & Hty & Hne & Htr)];
      apply uncompress_trapped in Htr; try done.
    + unfold mbind, prog_bind, lift. by rewrite Htr.
    + lstep E1. rewrite (proj2 (Z.leb_gt _ _)) by done. lstep Hty.
      rewrite (proj2 (Z.eqb_neq _ _)) by done. rewrite emit_bind. unfold mbind, prog_bind, lift.
      by rewrite Htr.
Qed.

Lemma parse_answers_trapped n : ∀ i r t,
  enough → answer_starts i r → parse_answers fuel n i b r t = NoFuel →
  ∃ i' r', i <= i' < i + Z.of_nat n ∧ answer_starts i' r' ∧ answer_trapped i' r'.
Proof.
  induction n as [|n IH]; intros i r t Hf Hst Hrun; [done|]. cbn [parse_answers] in Hrun.
  destruct (parse_answer fuel i b r t) as [[[x r'] t']|e|] eqn:E1;
    [|by unfold mbind, prog_bind in Hrun; rewrite E1 in Hrun|].
  2: { exists i, r. split; [lia|]. split; [done|]. by eapply parse_answer_trapped. }
  rewrite (run_bind _ _ _ _ _ E1) in Hrun. cbv beta iota in Hrun.
  destruct (parse_answers fuel n (i + 1) b r' t') as [[xs t2]|e|] eqn:E2;
    [|by unfold mbind, prog_bind in Hrun; rewrite E2 in Hrun|].
  - by rewrite (run_bind _ _ _ _ _ E2) in Hrun.
  - destruct (IH _ _ _ Hf (answer_next _ _ _ _ _ _ Hst E1) E2) as (i' & r2 & Hi & H2).
    exists i', r2. split; [lia|done].
Qed.

(** A trap at an answer that begins is one for the answers from the first. *)
Lemma parse_answers_start g i r n :
  strlen b SIZEOF_DNS_HEADER = Ok g → answer_starts i r → i <= Z.of_nat n →
  parse_answers fuel (n - Z.to_nat i) i b r [] = NoFuel →
  parse_answers fuel n 0 b (SIZEOF_DNS_HEADER + g + 1 + SIZEOF_QUESTION) [] = NoFuel.
Proof.
  intros Hg Hst. induction Hst as [g' Hg'|i r t x r' t' Hst IH Hp]; intros Hi Hrun.
  - rewrite Hg' in Hg. injection Hg as ->. by rewrite Nat.sub_0_r in Hrun.
  - pose proof (answer_starts_nonneg _ _ Hst). apply IH; [lia|].
    replace (n - Z.to_nat i)%nat with (S (n - Z.to_nat (i + 1))) by lia. cbn [parse_answers].
    destruct (framed_ok _ t [] _ _ (parse_answer_framed i r) Hp) as [u Hu].
    rewrite (run_bind _ _ _ _ _ Hu). cbv beta iota. unfold mbind, prog_bind.
    by rewrite (framed_nofuel _ [] u (parse_answers_framed _ _ _) Hrun).
Qed.

Lemma parse_answers_hangs g i r n t :
  enough → strlen b SIZEOF_DNS_HEADER = Ok g → answer_starts i r → i < Z.of_nat n →
  answer_trapped i r →
  parse_answers fuel n 0 b (SIZEOF_DNS_HEADER + g + 1 + SIZEOF_QUESTION) t = NoFuel.
Proof.
  intros Hf Hg Hst Hi Htr. pose proof (answer_starts_nonneg _ _ Hst).
  apply (framed_nofuel _ []); [apply parse_answers_framed|].
  apply (parse_answers_start g i r n Hg Hst); [lia|].
  destruct (n - Z.to_nat i)%nat as [|m] eqn:E; [lia|]. cbn [parse_answers].
  unfold mbind, prog_bind. by rewrite (proj2 (parse_answer_trapped i r [] Hf) Htr).
Qed.

(** A name that begins with its final zero is no trap, and no answer. *)
Lemma zero_not_trapped n o : rd b o = Ok 0 → ¬ trapped b n o.
Proof.
  intros Hz (k & o' & _ & Hr & Hc).
  assert (Hnp : ∀ o1, ¬ points b o o1).
  { intros o1 (c & c1 & Hrd & Hc192 & _). rewrite Hz in Hrd. injection Hrd as <-. lia. }
  destruct Hr as [o|k o o1 o' Hpt _|k o c o' Hrd Hc0 _ _].
  - apply tc_step_cycle in Hc as (o1 & Hpt & _). by apply (Hnp o1).
  - by apply (Hnp o1).
  - rewrite Hz in Hrd. by injection Hrd as <-.
Qed.

Lemma zero_no_name k o v :
  rd b o = Ok 0 → uncompress_name fuel (malloc k (Z.of_nat MAX_NAME_LEN)) o b ≠ Ok v.
Proof.
  intros Hz Eu. unfold uncompress_name in Eu.
  apply bind_inv in Eu as (name1 & [Hl ->]%wr_inv & Eu). revert Eu.
  destruct fuel as [|f]; [done|]. cbn [uncompress_loop]. step Hz. change (0 =? 0) with true.
  cbv iota. change (mret ?v ≫= ?g) with (g v). cbv beta iota zeta.
  intros (name2 & [Hl2 ->]%wr_inv & (name3 & Hn & _)%bind_inv)%bind_inv. revert Hn.
  unfold unlabel_name, unlabel. set (m := <[Z.to_nat 0 := 0]> _).
  assert (Hs : strlen m 0 = Ok 0).
  { subst m. pose proof (malloc_size k (Z.of_nat MAX_NAME_LEN)) as Hm.
    destruct (malloc _ _) as [|c l]; [unfold MAX_NAME_LEN in Hm; simpl in Hm; lia|done]. }
  cbn [unlabel_loop]. rewrite Hs. done.
Qed.

Lemma zero_not_answer i o t x : rd b o = Ok 0 → parse_answer fuel i b o t ≠ Ok x.
Proof.
  intros Hz Hrun. unfold parse_answer in Hrun. rewrite emit_bind in Hrun.
  destruct x as [x t']. apply run_bind_inv in Hrun as (u & t1 & Hu & _). revert Hu. unfold lift.
  destruct (uncompress_name _ _ o b) as [v|e|] eqn:Eu; [|done|done]. by apply zero_no_name in Eu.
Qed.
End answers.

(** *** The request path *)

Section server.
Context `{Allocator} (Hmalloc : ∀ k n, Forall byte_ok (malloc k n)) (fuel : nat).

(** The buffer [old] once the reply [d] is received into it and its terminator
    stored, if that does not leave the buffer. *)
Definition received (old d : bytes) : res bytes :=
  '(b, n) ← recvfrom old MAX_BUF_LEN (Some d); wr b (u32 (n + 1)) 0.

Lemma handle_reply_trap b n t b' :
  Forall byte_ok b → enough b fuel → failed n = false → wr b (u32 (n + 1)) 0 = Ok b' →
  handle_reply fuel b n t = NoFuel ↔ trap b' fuel n.
Proof.
  intros Hb Hf Hn Ew. unfold handle_reply. rewrite Hn. lstep Ew.
  pose proof Ew as [_ Eb]%wr_inv.
  assert (Hb' : Forall byte_ok b') by (rewrite Eb; by apply Forall_insert).
  assert (Hf' : enough b' fuel) by (rewrite Eb; unfold enough, name_fuel; by rewrite length_insert).
  clear Eb. split.
  - intros Hrun.
    apply ends_inv in Hrun as (rc & t2 & Hrc & Hrun); [|apply ends_lift; auto with cfin].
    apply lift_inv in Hrc as [Hrc _].
    destruct (Z.eqb_spec rc (-1)) as [|Hne]; [done|]. rewrite emit_bind in Hrun.
    apply ends_inv in Hrun as (g & t3 & Hg & Hrun); [|apply ends_lift; auto with cfin].
    apply ends_inv in Hrun as (q & t4 & _ & Hrun); [|apply ends_lift; auto with cfin].
    apply ends_inv in Hrun as (an & t5 & Han & Hrun); [|apply ends_lift; auto with cfin].
    do 2 (apply ends_inv in Hrun as (? & ? & _ & Hrun); [|apply ends_lift; auto with cfin]).
    rewrite emit_bind in Hrun. apply lift_inv in Hg as [Hg _]. apply lift_inv in Han as [Han _].
    match type of Hrun with (?m ≫= _) ?u = _ => destruct (m u) as [[rs t6]|e|] eqn:E end;
      [|unfold mbind, prog_bind in Hrun; by rewrite E in Hrun|].
    + rewrite (run_bind _ _ _ _ _ E) in Hrun. rewrite emit_bind in Hrun.
      apply ends_inv in Hrun as (? & ? & _ & Hrun); [|apply print_answers_ends].
      apply ends_inv in Hrun as (? & ? & _ & Hrun); [done|apply free_answers_ends].
    + split; [by exists rc|].
      apply (parse_answers_trapped b' Hb') in E as (i & r' & Hi & Hst & Htr); [|done|by constructor].
      exists i, r', an. split_and!; try done. pose proof (ntohs_u16 an) as Hu. unfold u16_ok in Hu. lia.
  - intros [(rc & Hrc & Hne) (i & r & an & Han & Hi & Hst & Htr)].
    lstep Hrc. rewrite (proj2 (Z.eqb_neq _ _)) by done. rewrite emit_bind.
    destruct (answer_starts_strlen _ _ _ _ Hst) as [g Hg]. lstep Hg.
    pose proof (strlen_bound _ _ _ Hg) as Hl. unfold SIZEOF_DNS_HEADER in Hl.
    assert (Hfield : ∀ o, 0 <= o < 11 → rd16 b' o = Ok (at16 b' o)) by (intros; apply rd16_at16; lia).
    lstep (Hfield H_QCOUNT ltac:(done)). lstep Han. lstep (Hfield H_AUTHCOUNT ltac:(done)).
    lstep (Hfield H_ADDCOUNT ltac:(done)). rewrite emit_bind. unfold mbind, prog_bind.
    by rewrite (parse_answers_hangs b' Hb' fuel g i r) by (done || lia).
Qed.

(** [send_data_to_dns] gets to the reply only if all the socket calls succeed. *)
Lemma send_data_refused env b n :
  reuse_ok env && timeo_ok env && send_ok env = false → ends (send_data_to_dns fuel env b n).
Proof.
  intros He. unfold send_data_to_dns.
  destruct (reuse_ok env); cbn [negb andb] in *; [|repeat ends_step].
  destruct (timeo_ok env); cbn [negb andb] in *; [|repeat ends_step].
  repeat first [progress (rewrite He; cbn [negb])|ends_step].
Qed.

(** The test of an [unsigned int] for a negative value. *)
Lemma recvfrom_not_failed b max d b' n : recvfrom b max d = Ok (b', n) → failed n = false.
Proof.
  destruct d as [d|]; cbn [recvfrom].
  - intros (b1 & _ & [= _ <-])%bind_inv. apply not_failed.
  - by intros [= _ <-].
Qed.

Lemma recvfrom_typed_block old d b n :
  Forall byte_ok old → from_option (Forall byte_ok) True d →
  recvfrom old MAX_BUF_LEN d = Ok (b, n) → (MAX_BUF_LEN <= length old)%nat →
  Forall byte_ok b ∧ length b = length old.
Proof.
  intros Ho Hd Hr Hl. destruct d as [d|]; cbn [recvfrom] in Hr; [|by injection Hr as <- <-].
  rewrite wr_bytes_head in Hr by (rewrite length_take; lia). injection Hr as <- <-. split.
  - apply Forall_app. split; [by apply Forall_take|by apply Forall_drop].
  - rewrite length_app, length_drop, length_take. lia.
Qed.

(** The fuel for the names of a message in a block of the server. *)
Definition server_fuel : Prop :=
  ∀ k, (S (length (malloc k (Z.of_nat MAX_NAME_LEN))) *
        (length (malloc BUFFER (Z.of_nat MAX_BUF_LEN)) + 2) <= fuel)%nat.

(** The query itself, taken for a reply, holds no name that is a trap. *)
Lemma query_no_trap h ls tl b n :
  length h = 12%nat → Forall wf_label ls →
  b = <[0%nat := 0]> (upstream_query ls (take 8 h) ++ 0 :: tl) → ¬ trap b fuel n.
Proof.
  intros Hh Hls Hb (_ & i & r & an & _ & _ & Hst & Htr).
  assert (Hshape : ∃ h', length h' = 12%nat ∧ b = h' ++ wire ls ++ 0 :: [0; 1; 0; 1] ++ 0 :: tl).
  { destruct (take 8 h) as [|x h7] eqn:Et; [by apply (f_equal length) in Et; len|].
    exists (0 :: h7 ++ [0; 0; 0; 0]). apply (f_equal length) in Et. split; [len|].
    rewrite Hb. unfold upstream_query. cbn [app insert list_insert]. repeat (cbn [app]; rewrite <- app_assoc). done. }
  destruct Hshape as (h' & Hh' & ->).
  set (b := h' ++ _) in *.
  assert (Hz : rd b r = Ok 0).
  2: { destruct Htr as [Htr|(name & stop & type & Hn & _)].
       - exact (zero_not_trapped b _ r Hz Htr).
       - by apply (zero_no_name b fuel _ _ _ Hz) in Hn. }
  clear Htr. induction Hst as [g Hg|i r t x r' t' _ IH Hp].
  2: { by apply (zero_not_answer b fuel _ _ _ _ IH) in Hp. }
  subst b. pose proof (strlen_app h' (wire ls) ([0; 1; 0; 1] ++ 0 :: tl) SIZEOF_DNS_HEADER
    ltac:(by rewrite Hh') (wire_nonzero ls Hls)) as Hg'.
  rewrite Hg' in Hg. injection Hg as <-.
  rewrite (app_assoc h'), (app_cons_assoc (h' ++ wire ls)), (app_assoc _ [0; 1; 0; 1]).
  apply rd_app. unfold SIZEOF_DNS_HEADER, SIZEOF_QUESTION. len.
Qed.

(** The reply of the upstream server, received over [old], is such a message. *)
Definition hangs (env : upstream) (old : bytes) : Prop :=
  reuse_ok env && timeo_ok env && send_ok env = true ∧
  ∃ d b, reply env = Some d ∧ received old d = Ok b ∧
    trap b fuel (Z.of_nat (length (take MAX_BUF_LEN d))).

(** From the reply on. *)
Lemma receive_trap old env t :
  Forall byte_ok old → from_option (Forall byte_ok) True (reply env) → enough old fuel →
  (MAX_BUF_LEN <= length old)%nat → (∀ n, ¬ trap (<[0%nat := 0]> old) fuel n) →
  ('(b, n) ← lift (recvfrom old MAX_BUF_LEN (reply env)); handle_reply fuel b n) t = NoFuel ↔
  ∃ d b, reply env = Some d ∧ received old d = Ok b ∧
    trap b fuel (Z.of_nat (length (take MAX_BUF_LEN d))).
Proof.
  intros Ho Hr Hf Hl Hno. destruct (recvfrom old MAX_BUF_LEN (reply env)) as [[b n]|e|] eqn:Er.
  2: { split; [done|]. intros (d & b & Hd & Hrc & _). unfold received in Hrc. by rewrite <- Hd, Er in Hrc. }
  2: { by apply recvfrom_finishes in Er. }
  rewrite (lift_bind _ _ _ _ eq_refl). cbv beta iota.
  destruct (recvfrom_typed_block _ _ _ _ Ho Hr Er Hl) as [Hb Hbl].
  pose proof (recvfrom_not_failed _ _ _ _ _ Er) as Hnf.
  assert (Hfb : enough b fuel) by (intros k; unfold name_fuel; rewrite Hbl; apply Hf).
  destruct (wr b (u32 (n + 1)) 0) as [b'|e|] eqn:Ew.
  - rewrite (handle_reply_trap b n t b' Hb Hfb Hnf Ew). destruct (reply env) as [d|].
    + pose proof Er as Er'. cbn [recvfrom] in Er'. apply bind_inv in Er' as (b1 & _ & [= -> Hn]).
      split.
      * intros Ht. exists d, b'. split; [done|]. unfold received. step Er. split; [done|]. by rewrite Hn.
      * intros (d2 & b2 & [= <-] & Hrc & Ht). unfold received in Hrc. rewrite Er in Hrc. cbn in Hrc.
        rewrite Ew in Hrc. injection Hrc as <-. by rewrite <- Hn.
    + injection Er as <- <-. apply wr_inv in Ew as [_ ->]. split; [|by intros (? & ? & ? & _)].
      intros Ht. by apply Hno in Ht.
  - unfold handle_reply. rewrite Hnf. unfold mbind, prog_bind, lift. rewrite Ew. split; [done|].
    intros (d & b2 & Hd & Hrc & _). unfold received in Hrc. rewrite <- Hd, Er in Hrc. cbn in Hrc.
    by rewrite Ew in Hrc.
  - by apply wr_finishes in Ew.
Qed.

End server.

Lemma on_recv_trap `{Allocator} dg h ls addr env :
  (∀ k n, Forall byte_ok (malloc k n)) →
  wf_query dg h ls → Forall byte_ok dg → from_option (Forall byte_ok) True (reply env) →
  ∃ tl, length (upstream_query ls (take 8 h) ++ 0 :: tl) = length (malloc BUFFER (Z.of_nat MAX_BUF_LEN)) ∧
    ∀ fuel t, server_fuel fuel →
    on_recv fuel (Some dg) addr env t = NoFuel ↔ hangs fuel env (upstream_query ls (take 8 h) ++ 0 :: tl).
Proof.
  intros Hmalloc Hq Hdt Hrt. destruct (request_run dg h ls addr Hq) as (r & Hlr & Hty & Hlb & Hreq).
  destruct Hq as (tlq & Hdg & Hh & Hne & Hwf & Hdl & Hlen & Hmax). pose proof (f_equal length Hdg) as Hdglen.
  destruct (send_query_any ls Hwf Hdl Hne Hlen env (take 8 h) (drop 8 h) 0 r (Z.of_nat (length dg))
    ltac:(len) ltac:(len) Hlr ltac:(len)) as (tl & Hhd & Hl4 & Htl & Hsend).
  cbv zeta in Hl4, Hsend. destruct tl as [|z tl]; [done|]. injection Hhd as ->.
  specialize (Htl (Hty Hmalloc Hdt)). apply Forall_cons in Htl as [_ Htl].
  assert (Hold : (take 8 h ++ [0; 0; 0; 0]) ++ wire ls ++ 0 :: 0 :: 1 :: 0 :: 1 :: 0 :: tl
    = upstream_query ls (take 8 h) ++ 0 :: tl).
  { unfold upstream_query. rewrite <- !app_assoc. done. }
  rewrite Hold in Hl4, Hsend. exists tl. rewrite Hl4, Hlb. split; [done|].
  set (old := upstream_query ls (take 8 h) ++ 0 :: tl) in *. intros fuel t Hf.
  assert (Hot : Forall byte_ok old).
  { rewrite Hdg in Hdt. subst old. unfold upstream_query.
    apply Forall_app in Hdt as [Hhb Hdt]. apply Forall_app in Hdt as [Hwb _].
    repeat (apply Forall_app; split); try done; [by apply Forall_take|..];
      repeat (constructor; [unfold byte_ok; lia|]); done. }
  assert (Hfo : enough old fuel) by (intros k; unfold name_fuel; rewrite Hl4, Hlb; apply Hf).
  rewrite Hreq, bind_nofuel by (intros [[rc b] n]; apply forward_reply_ends).
  rewrite Hsend. unfold hangs. destruct (reuse_ok env && timeo_ok env); cbn [andb]; [|by split; [|intros [? _]]].
  destruct (send_ok env); [|by split; [|intros [? _]]].
  rewrite receive_trap; [naive_solver|done|done|done|lia|].
  intros n. by apply (query_no_trap _ h ls tl).
Qed.
(** ** Properties *)

(** C8 (termination): within [name_fuel] the end of [uncompress_name] is
    decided: it has not returned, nor faulted, exactly when it reaches a cycle
    of compression pointers before the bytes of the name are used up, and then
    it runs for ever. *)
Theorem uncompress_name_terminates b off name fuel :
  Forall byte_ok b → name ≠ [] → (name_fuel b (length name) <= fuel)%nat →
  (uncompress_name fuel name off b = NoFuel ↔ trapped b (length name) off) ∧
  (trapped b (length name) off → diverges (λ f, uncompress_name f name off b)).
Proof. apply uncompress_name_ends. Qed.

(** A pointer to itself behind one label. *)
Definition self_pointer : bytes := [1; 97; 192; 2].

Lemma uncompress_name_terminates_witness :
  (uncompress_name 24 (replicate 3 0) 0 self_pointer = NoFuel ↔ trapped self_pointer 3 0) ∧
  (trapped self_pointer 3 0 → diverges (λ f, uncompress_name f (replicate 3 0) 0 self_pointer)).
Proof.
  apply (uncompress_name_terminates self_pointer 0 (replicate 3 0) 24); [|done|vm_compute; lia].
  repeat constructor; vm_compute; done.
Defined.

(** C4 (termination): when a call of [on_recv] for a supported query ends.
    With a fuel that is enough for every name of a message in the server's
    buffer, it has not ended exactly when the query could be sent on and the
    reply, received over it in the same buffer, is one of type A with an answer
    that begins, and whose name, or the name in its data, reaches a cycle of
    compression pointers.  Every other reply, error and silence of the upstream
    server lets it end. *)
Theorem on_recv_ends `{Allocator} dg h ls addr env :
  (∀ k n, Forall byte_ok (malloc k n)) →
  wf_query dg h ls → Forall byte_ok dg → from_option (Forall byte_ok) True (reply env) →
  ∃ tl, length (upstream_query ls (take 8 h) ++ 0 :: tl)
        = length (malloc BUFFER (Z.of_nat MAX_BUF_LEN)) ∧
    ∀ fuel t, server_fuel fuel →
    on_recv fuel (Some dg) addr env t = NoFuel ↔
    hangs fuel env (upstream_query ls (take 8 h) ++ 0 :: tl).
Proof. intros Hm Hq Hdt Hrt. by apply on_recv_trap. Qed.

(** The query for [www.ab], and the reply that the name does not exist. *)
Definition name_query : bytes :=
  [18; 52; 1; 0; 0; 1; 0; 0; 0; 0; 0; 0; 3; 119; 119; 119; 2; 97; 98; 0; 0; 1; 0; 1].
Definition name_error : bytes :=
  [18; 52; 129; 131; 0; 1; 0; 0; 0; 0; 0; 0; 3; 119; 119; 119; 2; 97; 98; 0; 0; 1; 0; 1].

(** The reply whose answer is a pointer to itself. *)
Definition name_trap : bytes :=
  [18; 52; 129; 128; 0; 1; 0; 1; 0; 0; 0; 0; 3; 119; 119; 119; 2; 97; 98; 0; 0; 1; 0; 1; 192; 24].

Lemma received_ok old d :
  (length d + 2 <= MAX_BUF_LEN)%nat → (MAX_BUF_LEN <= length old)%nat →
  ∃ x rest, received old d = Ok (d ++ x :: 0 :: rest).
Proof.
  intros Hd Hl. destruct (receive_ok old d Hd Hl) as (x & rest & b & Hr & Hw & _).
  exists x, rest. unfold received. by step Hr.
Qed.

Lemma name_trap_hangs `{Allocator} fuel old :
  (MAX_BUF_LEN <= length old)%nat → hangs fuel (Upstream true true true (Some name_trap)) old.
Proof.
  intros Hl. split; [done|].
  destruct (received_ok old name_trap) as (x & rest & Hr); [vm_compute; lia|done|].
  eexists _, _. split; [done|]. split; [exact Hr|]. split.
  - exists 0. split; [|done].
    exact (verify_dns_buffer_name (take 12 name_trap) [3; 119; 119; 119; 2; 97; 98] 0 1
      ([0; 1; 192; 24] ++ x :: 0 :: rest) 26 eq_refl ltac:(by repeat constructor)
      ltac:(vm_compute; lia) ltac:(vm_compute; done)).
  - exists 0, 24, 256. split_and!; [done|done| |].
    + apply (answer_first _ _ 7).
      exact (strlen_app (take 12 name_trap) [3; 119; 119; 119; 2; 97; 98]
        ([0; 1; 0; 1; 192; 24] ++ x :: 0 :: rest) 12 eq_refl ltac:(by repeat constructor)).
    + left. exists 0%nat, 24. split; [lia|]. split; [constructor|]. apply tc_once.
      exists 192, 24. by split_and!.
Qed.

Lemma name_error_ends `{Allocator} fuel old :
  (MAX_BUF_LEN <= length old)%nat → ¬ hangs fuel (Upstream true true true (Some name_error)) old.
Proof.
  intros Hl (_ & d & b & [= <-] & Hr & Ht).
  destruct (received_ok old name_error) as (x & rest & Hr'); [vm_compute; lia|done|].
  rewrite Hr' in Hr. injection Hr as <-. by apply no_answers_no_trap in Ht.
Qed.

(** The buffer is as long as it was asked for. *)
Lemma name_block_size `{Allocator} (b : bytes) :
  length b = length (malloc BUFFER (Z.of_nat MAX_BUF_LEN)) → (MAX_BUF_LEN <= length b)%nat.
Proof. pose proof (malloc_size BUFFER (Z.of_nat MAX_BUF_LEN)). lia. Qed.

(** To the first reply [on_recv] ends, to the second it never does. *)
Lemma on_recv_ends_witness :
  server_fuel (H := glibc_allocator) (265 * 522) ∧
  ∀ fuel t, server_fuel (H := glibc_allocator) fuel →
    on_recv (H := glibc_allocator) fuel (Some name_query) 7
      (Upstream true true true (Some name_error)) t ≠ NoFuel ∧
    on_recv (H := glibc_allocator) fuel (Some name_query) 7
      (Upstream true true true (Some name_trap)) t = NoFuel.
Proof.
  split.
  { intros k. cbn [malloc glibc_allocator]. rewrite !length_replicate.
    apply Nat.mul_le_mono; vm_compute; lia. }
  intros fuel t Hf.
  assert (Hm : ∀ k n, Forall byte_ok (malloc (Allocator := glibc_allocator) k n)).
  { intros k n. by apply Forall_replicate. }
  assert (Hq : wf_query name_query (take 12 name_query) [[119; 119; 119]; [97; 98]]).
  { exists [0; 1]. unfold wf_label, dotless. split_and!; try done; try (vm_compute; lia);
      repeat constructor; simpl; lia. }
  assert (Hb : Forall byte_ok name_query) by (by repeat constructor).
  split.
  - destruct (on_recv_ends (H := glibc_allocator) name_query _ _ 7
      (Upstream true true true (Some name_error)) Hm Hq Hb ltac:(by repeat constructor))
      as (tl & Hl & He).
    rewrite He by done. apply name_error_ends. by apply (name_block_size (H := glibc_allocator)).
  - destruct (on_recv_ends (H := glibc_allocator) name_query _ _ 7
      (Upstream true true true (Some name_trap)) Hm Hq Hb ltac:(by repeat constructor))
      as (tl & Hl & He).
    rewrite He by done. apply name_trap_hangs. by apply (name_block_size (H := glibc_allocator)).
Defined.
