(* ===== verification/DnsMain.v ===== *)
(** * The main program of the sample DNS server

    [main] of [src/sample_dns_server/src/dns_server/server.c]: the socket that
    is bound, the event loop that calls [on_recv] for every datagram, and what
    is released at the end.  The answers of the operating system and the
    datagrams that arrive before the event loop returns are an argument.
    libevent is not part of the repository: [event_base_dispatch] is a parameter
    ([EventLoop]), and what its documentation says of it is [EventLoopLaws]. *)
From S2P Require Import Prelude CMem DnsName DnsServer DnsSafety DnsTermination.

Local Open Scope Z_scope.

(** ** Operations *)

(** What [main] does, and the events of the calls of [on_recv]. *)
Inductive main_event :=
  | MBaseNew
  | MGetAddrInfo (service : bytes)
  | MSocket (fd : Z)
  | MClose (fd : Z)
  | MFreeAddrInfo
  | MReuseAddr (fd : Z)
  | MEventAdd (fd : Z)
  | MServe (e : event)
  | MBaseFree.

#[export] Instance main_event_eq_dec : EqDecision main_event.
Proof. solve_decision. Defined.

Abbreviation main_trace := (list main_event).

(** ["53053"] *)
Definition LISTEN_PORT : bytes := [53; 51; 48; 53; 51].

(** An address of the list [getaddrinfo] gives: what [socket] returns for it
    and whether [bind] succeeds. *)
Record address := Address { socket_fd : Z; bind_ok : bool }.

(** A datagram for the server, its sender, and the kernel's answers while it is
    served. *)
Record request := Request { datagram : option bytes; sender : Z; world : upstream }.

Record boot := Boot {
  addrinfo : option (list address);  (* [None]: getaddrinfo failed *)
  setsockopt_ok : bool;
  requests : list request            (* until event_base_dispatch returns *)
}.

(** The loop over the addresses: the socket that is bound, if any. *)
Fixpoint bind_loop (rp : list address) : prog main_trace (option Z) :=
  match rp with
  | [] => mret None
  | a :: rp' =>
      if socket_fd a =? -1 then bind_loop rp'
      else
        _ ← emit (MSocket (socket_fd a));
        if bind_ok a then mret (Some (socket_fd a))
        else _ ← emit (MClose (socket_fd a)); bind_loop rp'
  end.

(** A call of [on_recv] seen from [main]. *)
Definition served_as (evs : trace) : main_trace := map MServe evs.

Definition callback (p : prog trace unit) : prog main_trace unit := λ t,
  match p [] with
  | Ok (_, evs) => Ok (tt, t ++ served_as evs)
  | UB e => UB e
  | NoFuel => NoFuel
  end.

(** ** libevent *)

(** The flags of an event the program uses. *)
Inductive ev_flag := EV_READ | EV_PERSIST.

#[export] Instance ev_flag_eq_dec : EqDecision ev_flag.
Proof. solve_decision. Defined.

(** A [struct event] as [event_assign] fills it: the descriptor, the flags, and
    the function called with a datagram that is ready there. *)
Record io_event := EventAssign {
  ev_fd : Z;
  ev_flags : list ev_flag;
  ev_callback : request → prog main_trace unit
}.

Definition persistent (ev : io_event) : bool := bool_decide (EV_PERSIST ∈ ev_flags ev).

(** [event_base_dispatch] on a base with the event that is pending there, if
    any, while the datagrams of a list arrive. *)
Class EventLoop := {
  event_base_dispatch : option io_event → list request → prog main_trace Z
}.

(** Its documentation: it returns 1 when no event is pending, and -1 when the
    wait for events fails, here after the last datagram; it calls the function
    of a pending read event when there is a datagram to read, and goes on, with
    the event still pending if it is persistent, and not otherwise. *)
Class EventLoopLaws (L : EventLoop) : Prop := {
  dispatch_none rs t : event_base_dispatch None rs t = Ok (1, t);
  dispatch_fails ev t : event_base_dispatch (Some ev) [] t = Ok (-1, t);
  dispatch_ready ev r rs t :
    EV_READ ∈ ev_flags ev →
    event_base_dispatch (Some ev) (r :: rs) t
    = (_ ← ev_callback ev r;
       event_base_dispatch (if persistent ev then Some ev else None) rs) t
}.

Section main.
Context {A : Allocator} {L : EventLoop} (fuel : nat).

(** The read event: [on_recv] for every datagram. *)
Definition ev_receive (udpSocket : Z) : io_event :=
  EventAssign udpSocket [EV_READ; EV_PERSIST]
    (λ r, callback (on_recv fuel (datagram r) (sender r) (world r))).

Definition server_main (b : boot) : prog main_trace Z :=
  _ ← emit MBaseNew;
  _ ← emit (MGetAddrInfo LISTEN_PORT);
  match addrinfo b with
  | None => mret (-1)
  | Some res =>
      bound ← bind_loop res;
      match bound with
      | None => mret (-1)
      | Some udpSocket =>
          _ ← emit MFreeAddrInfo;
          _ ← emit (MReuseAddr udpSocket);
          if negb (setsockopt_ok b) then _ ← emit (MClose udpSocket); mret (-1)
          else
            let ev := ev_receive udpSocket in
            _ ← emit (MEventAdd (ev_fd ev));
            _ ← event_base_dispatch (Some ev) (requests b);
            _ ← emit (MClose udpSocket);
            _ ← emit MBaseFree;
            mret 0
      end
  end.
End main.

(** ** Laws *)

(** What is tried before an address that can be bound. *)
Definition tried (rp : list address) : main_trace :=
  concat ((λ a, if socket_fd a =? -1 then [] else [MSocket (socket_fd a); MClose (socket_fd a)])
    <$> rp).

(** An address that gives no bound socket. *)
Definition unusable (a : address) : Prop := socket_fd a = -1 ∨ bind_ok a = false.

Lemma bind_loop_skip pre rp t :
  Forall unusable pre → bind_loop (pre ++ rp) t = bind_loop rp (t ++ tried pre).
Proof.
  intros Hp. revert t. induction Hp as [|a pre Ha _ IH]; intros t; cbn [app bind_loop].
  { by rewrite app_nil_r. }
  unfold tried. rewrite fmap_cons. cbn [concat]. fold (tried pre).
  destruct (Z.eqb_spec (socket_fd a) (-1)) as [E|E]; [by rewrite IH|].
  destruct Ha as [?|Hb]; [done|]. rewrite Hb, emit_bind, emit_bind, IH. f_equal. by lnorm.
Qed.

Lemma bind_loop_bound pre fd rp t :
  Forall unusable pre → fd ≠ -1 →
  bind_loop (pre ++ Address fd true :: rp) t = Ok (Some fd, (t ++ tried pre) ++ [MSocket fd]).
Proof.
  intros Hp Hfd. rewrite bind_loop_skip by done. cbn [bind_loop socket_fd bind_ok].
  by rewrite (proj2 (Z.eqb_neq _ _)), emit_bind by done.
Qed.

Lemma bind_loop_none rp t : Forall unusable rp → bind_loop rp t = Ok (None, t ++ tried rp).
Proof. intros Hp. rewrite <- (app_nil_r rp) at 1. by rewrite bind_loop_skip. Qed.

Section serving.
Context {A : Allocator} {L : EventLoop} {EL : EventLoopLaws L}.

(** The request is served with the events [evs]. *)
Definition answered (r : request) (evs : trace) : Prop :=
  returns (λ fuel, on_recv fuel (datagram r) (sender r) (world r) []) (tt, evs).

(** However much fuel there is, the request is not served to its end. *)
Definition unanswered (r : request) : Prop :=
  ∃ n, ∀ fuel, (n <= fuel)%nat → on_recv fuel (datagram r) (sender r) (world r) [] = NoFuel.

Lemma dispatch_served rs evss rs' :
  Forall2 answered rs evss →
  ∃ n, ∀ fuel fd t, (n <= fuel)%nat →
    event_base_dispatch (Some (ev_receive fuel fd)) (rs ++ rs') t
    = event_base_dispatch (Some (ev_receive fuel fd)) rs' (t ++ concat (map served_as evss)).
Proof.
  induction 1 as [|r evs rs evss [n Hn] _ [m Hm]].
  { exists 0%nat. intros fuel fd t _. cbn. by rewrite app_nil_r. }
  exists (n + m)%nat. intros fuel fd t Hf. cbn [app].
  rewrite dispatch_ready by left.
  erewrite run_bind; [|cbn; unfold callback; rewrite Hn by lia; reflexivity].
  change (persistent (ev_receive fuel fd)) with true. cbv iota.
  rewrite Hm by lia. cbn [map concat]. by rewrite <- app_assoc.
Qed.

Lemma dispatch_run rs evss :
  Forall2 answered rs evss →
  ∃ n, ∀ fuel fd t, (n <= fuel)%nat →
    event_base_dispatch (Some (ev_receive fuel fd)) rs t
    = Ok (-1, t ++ concat (map served_as evss)).
Proof.
  intros Hrs. destruct (dispatch_served rs evss [] Hrs) as [n Hn]. exists n.
  intros fuel fd t Hf. rewrite <- (app_nil_r rs). by rewrite Hn, dispatch_fails.
Qed.

Lemma dispatch_hangs rs evss r rs' :
  Forall2 answered rs evss → unanswered r →
  ∃ n, ∀ fuel fd t, (n <= fuel)%nat →
    event_base_dispatch (Some (ev_receive fuel fd)) (rs ++ r :: rs') t = NoFuel.
Proof.
  intros Hrs [m Hm]. destruct (dispatch_served rs evss (r :: rs') Hrs) as [n Hn].
  exists (n + m)%nat. intros fuel fd t Hf. rewrite Hn, dispatch_ready by (lia || left).
  unfold mbind, prog_bind. cbn. unfold callback. by rewrite Hm by lia.
Qed.

(** A session in which an address can be bound. *)
Definition session (pre : list address) (fd : Z) (evss : list trace) : main_trace :=
  [MBaseNew; MGetAddrInfo LISTEN_PORT] ++ tried pre ++
  [MSocket fd; MFreeAddrInfo; MReuseAddr fd; MEventAdd fd] ++
  concat (map served_as evss) ++ [MClose fd; MBaseFree].

(** Up to the event loop, when an address can be bound. *)
Lemma server_starts pre fd rest rs fuel :
  Forall unusable pre → fd ≠ -1 →
  server_main fuel (Boot (Some (pre ++ Address fd true :: rest)) true rs) []
  = (_ ← event_base_dispatch (Some (ev_receive fuel fd)) rs;
     _ ← emit (MClose fd); _ ← emit MBaseFree; mret 0)
    ([MBaseNew; MGetAddrInfo LISTEN_PORT] ++ tried pre ++
     [MSocket fd; MFreeAddrInfo; MReuseAddr fd; MEventAdd fd]).
Proof.
  intros Hp Hfd. unfold server_main. rewrite !emit_bind. cbn [addrinfo].
  erewrite run_bind by (by apply bind_loop_bound). cbv iota beta. cbn [negb setsockopt_ok].
  rewrite !emit_bind. cbn [requests]. f_equal. cbn. by lnorm.
Qed.

Lemma server_runs pre fd rest rs evss :
  Forall unusable pre → fd ≠ -1 → Forall2 answered rs evss →
  returns (λ fuel, server_main fuel (Boot (Some (pre ++ Address fd true :: rest)) true rs) [])
    (0, session pre fd evss).
Proof.
  intros Hp Hfd Hrs. destruct (dispatch_run _ _ Hrs) as [n Hn].
  exists n. intros fuel Hf. rewrite server_starts by done.
  erewrite run_bind by (by apply Hn). rewrite !emit_bind.
  unfold session. cbn. do 2 f_equal. by lnorm.
Qed.

(** ** What the clients receive *)

(** How a request is handled: what [on_recv] does, and what the client is sent,
    if anything. *)
Inductive handled (r : request) : trace → option bytes → Prop :=
  | handled_reply dg h ls dg' h' ls' rrs :
      datagram r = Some dg → wf_query dg h ls → wf_reply dg' h' ls' rrs →
      reuse_ok (world r) && timeo_ok (world r) && send_ok (world r) = true →
      reply (world r) = Some dg' →
      handled r (served (sender r) h ls dg' h' ls' rrs) (Some dg')
  | handled_refused h s q0 q1 tl :
      datagram r = Some (h ++ s ++ 0 :: q0 :: q1 :: tl) → length h = 12%nat →
      nonzero s → (length s < MAX_NAME_LEN)%nat →
      (length (h ++ s ++ 0%Z :: q0 :: q1 :: tl) + 2 <= MAX_BUF_LEN)%nat →
      ntohs (q0 + 256 * q1) ≠ T_A →
      handled r [EvMalloc BUFFER; EvUnsupported; EvFree BUFFER] None
  | handled_dropped dg h ls :
      datagram r = Some dg → wf_query dg h ls →
      reuse_ok (world r) && timeo_ok (world r) && send_ok (world r) = false →
      handled r ([EvMalloc BUFFER; EvRequestData] ++ header_events (sender r) h ls ++
        (if reuse_ok (world r) && timeo_ok (world r) then upstream_events ls (take 8 h)
         else [EvMalloc CLIENT_DNS_REQ; EvSocket]) ++ [EvClose; EvFree BUFFER]) None.

Lemma handled_answered r evs out :
  (∀ k, 8 <= Z.of_nat (length (malloc k 4))) → handled r evs out → answered r evs.
Proof.
  intros Hroom Hr. unfold answered.
  destruct Hr as [dg h ls dg' h' ls' rrs Hd Hq Hrep He Hre|h s q0 q1 tl Hd Hh Hs Hl Hm Ht|dg h ls Hd Hq He];
    rewrite Hd.
  - apply andb_true_iff in He as [[H1 H2]%andb_true_iff H3]. by apply on_recv_run.
  - exists 0%nat. intros fuel _. by rewrite on_recv_refuses.
  - exists 0%nat. intros fuel _. by rewrite (on_recv_drops dg h ls).
Qed.

(** What a trace sends to a client. *)
Definition to_client (e : main_event) : option (Z * bytes * Z) :=
  match e with MServe (EvSendClient dest payload len) => Some (dest, payload, len) | _ => None end.

(** The datagram sent for the request [r], if there is one. *)
Definition delivery (r : request) (out : option bytes) : list (Z * bytes * Z) :=
  match out with Some dg => [(sender r, dg, Z.of_nat (length dg))] | None => [] end.

Definition not_sent (e : event) : Prop := to_client (MServe e) = None.

Lemma omap_none (t : trace) : Forall not_sent t → omap to_client (served_as t) = [].
Proof. induction 1 as [|e t He _ IH]; [done|]. by destruct e. Qed.

Lemma alloc_not_sent n i : Forall not_sent (alloc_events n i).
Proof. revert i. induction n as [|n IH]; intros i; repeat constructor. apply IH. Qed.

Lemma free_not_sent n i : Forall not_sent (free_events n i).
Proof. revert i. induction n as [|n IH]; intros i; repeat constructor. apply IH. Qed.

Lemma answers_not_sent rrs : Forall not_sent (map answer_event rrs).
Proof. induction rrs as [|[] rrs IH]; constructor; done. Qed.

Lemma served_as_app t1 t2 : served_as (t1 ++ t2) = served_as t1 ++ served_as t2.
Proof. apply map_app. Qed.

Lemma tried_not_sent pre : omap to_client (tried pre) = [].
Proof.
  unfold tried. induction pre as [|a pre IH]; [done|]. cbn [fmap list_fmap concat].
  rewrite omap_app, IH. by destruct (_ =? _).
Qed.

Lemma handled_sends r evs out :
  handled r evs out →
  omap to_client (served_as evs)
  = delivery r out.
Proof.
  destruct 1 as [dg h ls dg' h' ls' rrs|h s q0 q1 tl|dg h ls]; [|done|].
  - unfold served. rewrite !(app_assoc _ _ [_; _]), served_as_app, omap_app, omap_none; [done|].
    unfold reply_events, header_events, upstream_events.
    repeat (apply Forall_app; split); auto using alloc_not_sent, free_not_sent, answers_not_sent;
      by repeat constructor.
  - apply omap_none. unfold header_events, upstream_events.
    destruct (reuse_ok _ && timeo_ok _); cbn [app]; by repeat constructor.
Qed.

(** ** Properties *)

(** C5 (functional): the server binds the first address that can be bound,
    closing every socket it tried before, and then serves the datagrams one
    after the other, each with what [on_recv] does for it alone, although
    nothing but [EV_PERSIST] keeps the event pending; when the event loop is
    left, the socket is closed and the event base freed.  A datagram that
    [on_recv] never finishes with stops the server for good, whatever else
    arrives.  The three error returns, when [setsockopt] fails, no address can
    be bound, or [getaddrinfo] fails, give -1 with every socket closed, but with
    the event base, and in the second case the list of addresses, kept. *)
Theorem server_session pre fd rest rs evss r rs' so :
  Forall unusable pre → fd ≠ -1 → Forall2 answered rs evss → unanswered r →
  returns (λ fuel, server_main fuel (Boot (Some (pre ++ Address fd true :: rest)) true rs) [])
    (0, [MBaseNew; MGetAddrInfo LISTEN_PORT] ++ tried pre ++
        [MSocket fd; MFreeAddrInfo; MReuseAddr fd; MEventAdd fd] ++
        concat (map served_as evss) ++ [MClose fd; MBaseFree]) ∧
  (∃ n, ∀ fuel, (n <= fuel)%nat →
     server_main fuel (Boot (Some (pre ++ Address fd true :: rest)) true (rs ++ r :: rs')) []
     = NoFuel) ∧
  (∀ fuel, server_main fuel (Boot (Some (pre ++ Address fd true :: rest)) false rs) []
     = Ok (-1, [MBaseNew; MGetAddrInfo LISTEN_PORT] ++ tried pre ++
               [MSocket fd; MFreeAddrInfo; MReuseAddr fd; MClose fd])) ∧
  (∀ fuel, server_main fuel (Boot (Some pre) so rs) []
     = Ok (-1, [MBaseNew; MGetAddrInfo LISTEN_PORT] ++ tried pre)) ∧
  (∀ fuel, server_main fuel (Boot None so rs) [] = Ok (-1, [MBaseNew; MGetAddrInfo LISTEN_PORT])).
Proof.
  intros Hp Hfd Hrs Hr. split_and!.
  - by apply server_runs.
  - destruct (dispatch_hangs rs evss r rs' Hrs Hr) as [n Hn]. exists n. intros fuel Hf.
    rewrite server_starts by done. unfold mbind, prog_bind. by rewrite Hn.
  - intros fuel. unfold server_main. rewrite !emit_bind. cbn [addrinfo].
    erewrite run_bind by (by apply bind_loop_bound). cbv iota beta. cbn [negb setsockopt_ok].
    rewrite !emit_bind. cbn. do 2 f_equal. by lnorm.
  - intros fuel. unfold server_main. rewrite !emit_bind. cbn [addrinfo].
    by erewrite run_bind by (by apply bind_loop_none).
  - done.
Qed.

(** C3 (functional): in a session of supported, unsupported and dropped queries
    the sender of each supported query is sent exactly the upstream server's
    reply to it, unchanged and in the order of the queries, and the others
    nothing; what the server does in between is what [on_recv] does for each
    query, and when the event loop is left it returns 0 with the socket
    closed. *)
Theorem server_answers pre fd rest rs evss outs :
  (∀ k, 8 <= Z.of_nat (length (malloc k 4))) →
  Forall unusable pre → fd ≠ -1 → Forall3 handled rs evss outs →
  returns (λ fuel, server_main fuel (Boot (Some (pre ++ Address fd true :: rest)) true rs) [])
    (0, session pre fd evss) ∧
  omap to_client (session pre fd evss) = concat (zip_with delivery rs outs).
Proof.
  intros Hroom Hp Hfd Hrs. split.
  - apply server_runs; [done|done|].
    clear -Hrs Hroom. induction Hrs; constructor; [by eapply handled_answered|done].
  - unfold session. rewrite !omap_app, tried_not_sent. cbn [omap list_omap to_client app].
    rewrite app_nil_r. clear -Hrs. induction Hrs as [|r evs out rs evss outs Hr _ IH]; [done|].
    cbn [map concat]. by rewrite omap_app, IH, (handled_sends _ _ _ Hr).
Qed.
End serving.

(** An event loop that hands out the datagrams in turn. *)
Fixpoint fifo_dispatch (base : option io_event) (rs : list request) : prog main_trace Z :=
  match base, rs with
  | None, _ => mret 1
  | Some _, [] => mret (-1)
  | Some ev, r :: rs' =>
      _ ← ev_callback ev r; fifo_dispatch (if persistent ev then Some ev else None) rs'
  end.

Definition fifo_loop : EventLoop := {| event_base_dispatch := fifo_dispatch |}.

#[export] Instance fifo_loop_laws : EventLoopLaws fifo_loop.
Proof. split; [by intros []|done|done]. Qed.

(** An empty datagram is refused. *)
Definition empty_request : request := Request (Some []) 7 (Upstream true true true None).

(** A query whose reply has a pointer to itself for a name. *)
Definition trapped_request : request :=
  Request (Some name_query) 7 (Upstream true true true (Some name_trap)).

Lemma empty_answered :
  answered (A := exact_allocator) empty_request [EvMalloc BUFFER; EvUnsupported; EvFree BUFFER].
Proof. exists 0%nat. intros m _. vm_compute. reflexivity. Qed.

Lemma trapped_unanswered : unanswered (A := exact_allocator) trapped_request.
Proof.
  exists (265 * 522)%nat. intros fuel Hf.
  destruct (on_recv_trap (H := exact_allocator) name_query (take 12 name_query)
    [[119; 119; 119]; [97; 98]] 7 (Upstream true true true (Some name_trap)))
    as (tl & Hl & He).
  { intros k n. by apply Forall_replicate. }
  { exists [0; 1]. unfold wf_label, dotless. split_and!; try done; try (vm_compute; lia);
      repeat constructor; simpl; lia. }
  { by repeat constructor. }
  { by repeat constructor. }
  unfold trapped_request. cbn [datagram sender world]. rewrite He.
  - apply name_trap_hangs. by apply (name_block_size (H := exact_allocator)).
  - intros k. cbn [malloc exact_allocator]. rewrite !length_replicate.
    etrans; [|exact Hf]. apply Nat.mul_le_mono; vm_compute; lia.
Qed.

(** The first address has no socket, the second one is taken, the third one is
    bound: two empty datagrams are refused, the third datagram never served. *)
Lemma server_session_witness :
  let main := server_main (A := exact_allocator) (L := fifo_loop) in
  returns (λ fuel, main fuel
      (Boot (Some [Address (-1) false; Address 3 false; Address 4 true]) true
        [empty_request; empty_request]) [])
    (0, [MBaseNew; MGetAddrInfo [53; 51; 48; 53; 51]; MSocket 3; MClose 3; MSocket 4;
         MFreeAddrInfo; MReuseAddr 4; MEventAdd 4;
         MServe (EvMalloc 0); MServe EvUnsupported; MServe (EvFree 0);
         MServe (EvMalloc 0); MServe EvUnsupported; MServe (EvFree 0);
         MClose 4; MBaseFree]) ∧
  (∃ n, ∀ fuel, (n <= fuel)%nat →
     main fuel
      (Boot (Some [Address (-1) false; Address 3 false; Address 4 true]) true
        [empty_request; empty_request; trapped_request; empty_request]) [] = NoFuel) ∧
  (∀ fuel, main fuel
      (Boot (Some [Address (-1) false; Address 3 false; Address 4 true]) false
        [empty_request; empty_request]) []
     = Ok (-1, [MBaseNew; MGetAddrInfo [53; 51; 48; 53; 51]; MSocket 3; MClose 3; MSocket 4;
                MFreeAddrInfo; MReuseAddr 4; MClose 4])) ∧
  (∀ fuel, main fuel
      (Boot (Some [Address (-1) false; Address 3 false]) true [empty_request; empty_request]) []
     = Ok (-1, [MBaseNew; MGetAddrInfo [53; 51; 48; 53; 51]; MSocket 3; MClose 3])) ∧
  (∀ fuel, main fuel (Boot None true [empty_request; empty_request]) []
     = Ok (-1, [MBaseNew; MGetAddrInfo [53; 51; 48; 53; 51]])).
Proof.
  apply (server_session (A := exact_allocator) (L := fifo_loop)
    [Address (-1) false; Address 3 false] 4 [] [empty_request; empty_request]
    [[EvMalloc BUFFER; EvUnsupported; EvFree BUFFER];
     [EvMalloc BUFFER; EvUnsupported; EvFree BUFFER]] trapped_request [empty_request] true).
  - constructor; [by left|]. constructor; [by right|constructor].
  - done.
  - repeat constructor; apply empty_answered.
  - apply trapped_unanswered.
Defined.

(** A query for [www.ab], one of type AAAA, and one that cannot be sent on. *)
Definition aaaa_query : bytes := take 12 www_ab_query ++ [1; 97] ++ 0 :: 0 :: 28 :: [0; 1].

Definition busy : list request :=
  [Request (Some www_ab_query) 7 (Upstream true true true (Some www_ab_reply));
   Request (Some aaaa_query) 8 (Upstream true true true None);
   Request (Some www_ab_query) 9 (Upstream true true false None)].

Definition busy_events : list trace :=
  [served 7 (take 12 www_ab_query) www_ab www_ab_reply (take 12 www_ab_reply) www_ab www_ab_answers;
   [EvMalloc BUFFER; EvUnsupported; EvFree BUFFER];
   [EvMalloc BUFFER; EvRequestData] ++ header_events 9 (take 12 www_ab_query) www_ab ++
     upstream_events www_ab (take 8 www_ab_query) ++ [EvClose; EvFree BUFFER]].

Lemma server_answers_witness :
  returns (λ fuel, server_main (A := glibc_allocator) (L := fifo_loop) fuel
      (Boot (Some [Address 4 true]) true busy) []) (0, session [] 4 busy_events) ∧
  omap to_client (session [] 4 busy_events) = [(7, www_ab_reply, 56)].
Proof.
  apply (server_answers (A := glibc_allocator) (L := fifo_loop) [] 4 [] busy busy_events
    [Some www_ab_reply; None; None]); [intros k; vm_compute; discriminate|constructor|done|].
  - constructor; [|constructor; [|constructor; [|constructor]]].
    + apply handled_reply with www_ab_query; try done; [apply www_ab_query_ok|apply www_ab_reply_ok].
    + apply handled_refused with (take 12 www_ab_query) [1; 97] 0 28 [0; 1]; try done;
        [by repeat constructor|vm_compute; lia..].
    + apply (handled_dropped (Request (Some www_ab_query) 9 (Upstream true true false None))
        www_ab_query (take 12 www_ab_query) www_ab); [done|apply www_ab_query_ok|done].
Defined.
