(* ===== verification/Checksum.v ===== *)
(** * The internet checksum of the ping programs

    [checksum] of [src/ICMP_ping/myping.c] (the same text is in
    [other_mypings/myping_synchronous.c]) and [checksum] of
    [src/ICMP_ping/other_mypings/ping6_ll.c], verified against RFC 1071: the
    one's complement of the one's complement sum of the 16-bit words, in
    network order. *)
From S2P Require Import Prelude CMem.

Local Open Scope Z_scope.

(** ** The programs *)

(** [for (sum = 0; len > 1; len -= 2) sum += *buf++;] on the block [b] from
    offset [i] on; the fuel bounds the number of turns. *)
Fixpoint add_words (fuel : nat) (b : bytes) (i len sum : Z) : res (Z * Z * Z) :=
  match fuel with
  | O => NoFuel
  | S f =>
      if len >? 1 then
        w ← rd16 b i; add_words f b (i + 2) (len - 2) (u32 (sum + w))
      else mret (i, len, sum)
  end.

(** The words and the byte left over. *)
Definition sum16 (b : bytes) (len : Z) : res Z :=
  '(i, len, sum) ← add_words (S (Z.to_nat len)) b 0 len 0;
  if len =? 1 then c ← rd b i; mret (u32 (sum + c)) else mret sum.

(** [checksum] of [myping.c]: two foldings. *)
Definition checksum (b : bytes) (len : Z) : res Z :=
  sum ← sum16 b len;
  let sum := u32 (Z.shiftr sum 16 + Z.land sum 65535) in
  let sum := u32 (sum + Z.shiftr sum 16) in
  mret (u16 (Z.lnot sum)).

(** [while (sum >> 16) sum = (sum & 0xffff) + (sum >> 16);] *)
Fixpoint fold_loop (fuel : nat) (sum : Z) : res Z :=
  match fuel with
  | O => NoFuel
  | S f =>
      if Z.shiftr sum 16 =? 0 then mret sum
      else fold_loop f (u32 (Z.land sum 65535 + Z.shiftr sum 16))
  end.

(** [checksum] of [ping6_ll.c]: foldings until nothing is left to fold. *)
Definition checksum6 (fuel : nat) (b : bytes) (len : Z) : res Z :=
  sum ← sum16 b len;
  sum ← fold_loop fuel sum;
  mret (u16 (Z.lnot sum)).

(** ** RFC 1071 *)

(** The words of a message in network order, the last one padded. *)
Fixpoint be_words (s : bytes) : list Z :=
  match s with
  | hi :: lo :: s' => (256 * hi + lo) :: be_words s'
  | [hi] => [256 * hi]
  | [] => []
  end.

(** One's complement addition: the carry is added at the other end. *)
Definition oc_add (a b : Z) : Z := if a + b >? 65535 then a + b - 65535 else a + b.

Definition rfc1071 (s : bytes) : Z := 65535 - foldr oc_add 0 (be_words s).

(** ** Sums of words in the order of the machine *)

Fixpoint wsum (s : bytes) : Z :=
  match s with
  | lo :: hi :: s' => lo + 256 * hi + wsum s'
  | [lo] => lo
  | [] => 0
  end.

(** Induction over a list two elements at a time. *)
Lemma pair_ind (P : bytes → Prop) :
  P [] → (∀ a, P [a]) → (∀ a b s, P s → P (a :: b :: s)) → ∀ s, P s.
Proof.
  intros H0 H1 H2. fix IH 1. intros [|a [|b s]]; [done|done|]. apply H2, IH.
Qed.

(** A sum that fits 32 bits for every message of at most 65537 words. *)
Lemma wsum_bound s :
  Forall byte_ok s → 0 <= wsum s ∧ 2 * wsum s <= 65535 * (Z.of_nat (length s) + 1).
Proof.
  induction s as [|a|a b s IH] using pair_ind; intros Hs; [simpl; lia| |].
  - apply Forall_cons in Hs as [Ha _]. unfold byte_ok in Ha. cbn [wsum length]. lia.
  - apply Forall_cons in Hs as [Ha [Hb Hs]%Forall_cons]. specialize (IH Hs).
    unfold byte_ok in *. cbn [wsum length]. lia.
Qed.

Lemma wsum_fits s :
  Forall byte_ok s → Z.of_nat (length s) <= 131073 → 0 <= wsum s < 2 ^ 32.
Proof. intros Hs Hl. pose proof (wsum_bound s Hs). lia. Qed.

(** The carry added at the other end, once for all. *)
Definition oc16 (n : Z) : Z := if n =? 0 then 0 else 1 + (n - 1) mod 65535.

Lemma oc16_range n : 0 <= n → 0 <= oc16 n <= 65535.
Proof. intros. unfold oc16. bdestr. pose proof (Z.mod_pos_bound (n - 1) 65535). lia. Qed.

Lemma oc16_unique n x : 0 < n → 1 <= x <= 65535 → (x - n) mod 65535 = 0 → oc16 n = x.
Proof.
  intros Hn Hx Hm. unfold oc16. bdestr. apply Z.mod_divide in Hm as [k Hk]; [|lia].
  replace (n - 1) with (x - 1 + (- k) * 65535) by lia.
  rewrite Z.mod_add, Z.mod_small by lia. lia.
Qed.

Lemma oc16_congr n : ∃ k, oc16 n = n + k * 65535.
Proof.
  unfold oc16. bdestr; [exists 0; lia|]. exists (- ((n - 1) / 65535)).
  pose proof (Z.div_mod (n - 1) 65535). lia.
Qed.

Lemma oc16_pos n : 0 < n → 1 <= oc16 n <= 65535.
Proof. intros. unfold oc16. bdestr. pose proof (Z.mod_pos_bound (n - 1) 65535). lia. Qed.

Lemma mult_mod0 n k : n = k * 65535 → n mod 65535 = 0.
Proof. intros ->. apply Z.mod_mul. lia. Qed.

Lemma oc16_add a n : 0 <= a <= 65535 → 0 <= n → oc_add a (oc16 n) = oc16 (a + n).
Proof.
  intros Ha Hn. unfold oc_add. destruct (oc16_congr n) as [k Hk].
  destruct (decide (n = 0)) as [->|Hnz].
  - change (oc16 0) with 0. rewrite Z.gtb_ltb, Z.add_0_r. bdestr.
    destruct (decide (a = 0)) as [->|]; [done|]. symmetry.
    apply oc16_unique; [lia..|]. by rewrite Z.sub_diag.
  - pose proof (oc16_pos n ltac:(lia)). rewrite Z.gtb_ltb. bdestr; symmetry;
      apply oc16_unique; [lia|lia|apply (mult_mod0 _ (k - 1)); lia
                         |lia|lia|apply (mult_mod0 _ k); lia].
Qed.

(** The sum of the words in network order. *)
Fixpoint bsum (s : bytes) : Z :=
  match s with
  | hi :: lo :: s' => 256 * hi + lo + bsum s'
  | [hi] => 256 * hi
  | [] => 0
  end.

Lemma bsum_nonneg s : Forall byte_ok s → 0 <= bsum s.
Proof.
  induction s as [|a|a b s IH] using pair_ind; intros Hs; cbn [bsum]; [lia| |].
  - apply Forall_cons in Hs as [Ha _]. unfold byte_ok in Ha. lia.
  - apply Forall_cons in Hs as [Ha [Hb Hs]%Forall_cons]. specialize (IH Hs).
    unfold byte_ok in *. lia.
Qed.

Lemma ones_sum s : Forall byte_ok s → foldr oc_add 0 (be_words s) = oc16 (bsum s).
Proof.
  induction s as [|a|a b s IH] using pair_ind; intros Hs; [done| |]; cbn [be_words foldr bsum].
  - apply Forall_cons in Hs as [Ha _]. unfold byte_ok in Ha.
    change 0 with (oc16 0) at 1. rewrite oc16_add by lia. by rewrite Z.add_0_r.
  - apply Forall_cons in Hs as [Ha [Hb Hs]%Forall_cons]. rewrite (IH Hs).
    pose proof (bsum_nonneg s Hs). unfold byte_ok in *. apply oc16_add; lia.
Qed.

(** The two orders: each sum is the other one times 256, modulo 65535. *)
Lemma wsum_bsum s :
  Forall byte_ok s → (∃ k, 256 * bsum s = wsum s + k * 65535) ∧ (bsum s = 0 ↔ wsum s = 0).
Proof.
  induction s as [|a|a b s IH] using pair_ind; intros Hs; cbn [bsum wsum].
  - split; [by exists 0|done].
  - split; [exists a; lia|lia].
  - apply Forall_cons in Hs as [Ha [Hb Hs]%Forall_cons].
    pose proof (bsum_nonneg s Hs). pose proof (wsum_bound s Hs).
    destruct (IH Hs) as [[k Hk] Hz]. unfold byte_ok in *. split; [exists (k + a); lia|lia].
Qed.

Lemma ntohs_range v : 0 <= ntohs v <= 65535.
Proof. unfold ntohs. dm_lia. Qed.

Lemma ntohs_congr v : 0 <= v <= 65535 → ∃ k, ntohs v = 256 * v + k * 65535.
Proof.
  intros. exists (- (v / 256)). unfold ntohs.
  rewrite (Z.mod_small (v / 256)) by dm_lia. dm_lia.
Qed.

Lemma ntohs_compl v : 0 <= v <= 65535 → ntohs (65535 - v) = 65535 - ntohs v.
Proof. intros. unfold ntohs. dm_lia. Qed.

Lemma ntohs_pos v : 1 <= v <= 65535 → 1 <= ntohs v.
Proof. intros. unfold ntohs. dm_lia. Qed.

Lemma oc16_swap s : Forall byte_ok s → oc16 (wsum s) = ntohs (oc16 (bsum s)).
Proof.
  intros Hs. pose proof (bsum_nonneg s Hs). pose proof (wsum_bound s Hs).
  destruct (wsum_bsum s Hs) as [[k Hk] Hz]. destruct (decide (bsum s = 0)) as [E|E].
  { rewrite (proj1 Hz E), E. done. }
  pose proof (oc16_pos (bsum s) ltac:(lia)) as Hp.
  pose proof (ntohs_pos _ Hp). pose proof (ntohs_range (oc16 (bsum s))).
  destruct (oc16_congr (bsum s)) as [j Hj].
  destruct (ntohs_congr (oc16 (bsum s)) ltac:(lia)) as [m Hm].
  apply oc16_unique; [lia|lia|].
  apply (mult_mod0 _ (256 * j + m + k)). lia.
Qed.

(** ** The loops *)

Lemma add_words_ok s : ∀ fuel pre post sum,
  Forall byte_ok s → (length s < fuel)%nat → 0 <= sum → sum + wsum s < 2 ^ 32 →
  ∃ i len sum',
    add_words fuel (pre ++ s ++ post) (Z.of_nat (length pre)) (Z.of_nat (length s)) sum
    = Ok (i, len, sum') ∧
    ((len = 0 ∧ sum' = sum + wsum s) ∨
     (len = 1 ∧ ∃ c, rd (pre ++ s ++ post) i = Ok c ∧ sum' + c = sum + wsum s)).
Proof.
  induction s as [|a|a b s IH] using pair_ind; intros [|f] pre post sum Hs Hf H0 Hb; try lia.
  - do 3 eexists. split; [done|]. left. simpl. lia.
  - do 3 eexists. split; [done|]. right. split; [done|]. exists a.
    split; [by apply rd_app|done].
  - apply Forall_cons in Hs as [Ha [Hbb Hs]%Forall_cons]. pose proof (wsum_bound s Hs).
    cbn [length wsum add_words app] in *. unfold byte_ok in *. guards.
    step (rd16_app pre a b (s ++ post) _ eq_refl). rewrite u32_id by lia.
    destruct (IH f (pre ++ [a; b]) post (sum + (a + 256 * b)) Hs ltac:(lia) ltac:(lia) ltac:(lia))
      as (i & len & sum' & Hrun & Hres).
    replace (pre ++ a :: b :: s ++ post) with ((pre ++ [a; b]) ++ s ++ post)
      by (by rewrite <- app_assoc).
    replace (Z.of_nat (length pre) + 2) with (Z.of_nat (length (pre ++ [a; b]))) by len.
    replace (Z.of_nat (S (S (length s))) - 2) with (Z.of_nat (length s)) by lia.
    exists i, len, sum'. split; [done|].
    destruct Hres as [[-> ->]|[-> (c & Hc & Hsum)]]; [left; lia|right].
    split; [done|]. exists c. split; [done|lia].
Qed.

Lemma sum16_ok s post :
  Forall byte_ok s → Z.of_nat (length s) <= 131073 →
  sum16 (s ++ post) (Z.of_nat (length s)) = Ok (wsum s).
Proof.
  intros Hs Hl. pose proof (wsum_fits s Hs Hl) as Hfit. unfold sum16.
  destruct (add_words_ok s (S (Z.to_nat (Z.of_nat (length s)))) [] post 0 Hs ltac:(lia)
    ltac:(lia) ltac:(lia)) as (i & len & sum' & Hrun & Hres).
  step Hrun. destruct Hres as [[-> ->]|[-> (c & Hc & Hsum)]]; [done|].
  guards. step Hc. rewrite Hsum. unfold mret, res_ret. by rewrite u32_id by lia.
Qed.

(** One folding keeps the sum modulo 65535 and does not make it zero. *)
Definition fold1 (t : Z) : Z := t mod 65536 + t / 65536.

Lemma fold1_oc16 t : 0 <= t → oc16 (fold1 t) = oc16 t ∧ 0 <= fold1 t.
Proof.
  intros Ht. pose proof (Z.div_mod t 65536 ltac:(lia)) as Hdm.
  pose proof (Z.mod_pos_bound t 65536 ltac:(lia)) as Hr.
  assert (Hq : 0 <= t / 65536) by (apply Z.div_pos; lia). unfold fold1.
  split; [|lia]. destruct (decide (t = 0)) as [->|Hnz]; [done|].
  pose proof (oc16_pos t ltac:(lia)) as Hp. destruct (oc16_congr t) as [k Hk].
  apply oc16_unique; [lia|lia|]. apply (mult_mod0 _ (t / 65536 + k)). lia.
Qed.

Lemma oc16_small t : 0 <= t <= 65535 → oc16 t = t.
Proof.
  intros. destruct (decide (t = 0)) as [->|]; [done|].
  apply oc16_unique; [lia..|]. by rewrite Z.sub_diag.
Qed.

Lemma u16_lnot t : 0 <= t <= 65535 → u16 (Z.lnot t) = 65535 - t.
Proof.
  intros. unfold u16, Z.lnot. replace (Z.pred (- t)) with (65535 - t + (-1) * 65536) by lia.
  rewrite Z.mod_add by lia. apply Z.mod_small. lia.
Qed.

Lemma shiftr16 t : Z.shiftr t 16 = t / 65536.
Proof. by rewrite Z.shiftr_div_pow2. Qed.

Lemma land16 t : Z.land t 65535 = t mod 65536.
Proof. change 65535 with (Z.ones 16). by rewrite Z.land_ones. Qed.

(** The two foldings of [myping.c] are enough for 32 bits. *)
Lemma fold_twice t :
  0 <= t < 2 ^ 32 →
  let s := fold1 t in u16 (Z.lnot (u32 (s + s / 65536))) = 65535 - oc16 t.
Proof.
  intros Ht s. destruct (fold1_oc16 t ltac:(lia)) as [Ho H0]. fold s in Ho, H0. rewrite <- Ho.
  assert (Hs : s <= 131070) by (unfold s, fold1; dm_lia).
  rewrite u32_id by dm_lia. destruct (decide (s <= 65535)).
  - replace (s / 65536) with 0 by dm_lia. rewrite Z.add_0_r, u16_lnot, oc16_small by lia. done.
  - replace (s / 65536) with 1 by dm_lia.
    assert (Hoc : oc16 s = s - 65535).
    { apply oc16_unique; [lia..|]. apply (mult_mod0 _ (-1)). lia. }
    rewrite Hoc. unfold u16, Z.lnot.
    replace (Z.pred (- (s + 1))) with (65535 - (s - 65535) + (-2) * 65536) by lia.
    rewrite Z.mod_add by lia. apply Z.mod_small. lia.
Qed.

(** Two turns of the loop of [ping6_ll.c] are enough as well. *)
Lemma fold_loop_ok t fuel :
  0 <= t < 2 ^ 32 → (3 <= fuel)%nat → fold_loop fuel t = Ok (oc16 t).
Proof.
  assert (Hstep : ∀ f t, 0 <= t < 2 ^ 32 → 65535 < t →
    fold_loop (S f) t = fold_loop f (fold1 t)).
  { intros f u Hu Hlt. cbn [fold_loop]. rewrite shiftr16, land16.
    assert (u / 65536 ≠ 0) by dm_lia. guards. rewrite u32_id by dm_lia. done. }
  assert (Hstop : ∀ f t, 0 <= t <= 65535 → fold_loop (S f) t = Ok (oc16 t)).
  { intros f u Hu. cbn [fold_loop]. rewrite shiftr16.
    replace (u / 65536) with 0 by dm_lia. by rewrite oc16_small. }
  intros Ht Hf. destruct fuel as [|[|[|f]]]; [lia..|].
  destruct (decide (t <= 65535)); [apply Hstop; lia|].
  destruct (fold1_oc16 t ltac:(lia)) as [Ho H0]. rewrite Hstep, <- Ho by lia.
  assert (fold1 t <= 131070) by (unfold fold1; dm_lia).
  destruct (decide (fold1 t <= 65535)); [apply Hstop; lia|].
  destruct (fold1_oc16 (fold1 t) ltac:(lia)) as [Ho' H0']. rewrite Hstep, <- Ho' by lia.
  apply Hstop. unfold fold1 in *. dm_lia.
Qed.

Lemma checksum_wsum s post :
  Forall byte_ok s → Z.of_nat (length s) <= 131073 →
  checksum (s ++ post) (Z.of_nat (length s)) = Ok (65535 - oc16 (wsum s)).
Proof.
  intros Hs Hl. pose proof (wsum_fits s Hs Hl) as Hfit. unfold checksum.
  step (sum16_ok s post Hs Hl). rewrite !shiftr16, land16.
  rewrite (u32_id (wsum s / 65536 + wsum s mod 65536)) by dm_lia.
  pose proof (fold_twice (wsum s) Hfit) as Hf. unfold fold1 in Hf.
  rewrite (Z.add_comm (wsum s / 65536)). unfold mret, res_ret. by rewrite <- Hf.
Qed.

Lemma checksum6_wsum s post fuel :
  Forall byte_ok s → Z.of_nat (length s) <= 131073 → (3 <= fuel)%nat →
  checksum6 fuel (s ++ post) (Z.of_nat (length s)) = Ok (65535 - oc16 (wsum s)).
Proof.
  intros Hs Hl Hf. pose proof (wsum_fits s Hs Hl) as Hfit. unfold checksum6.
  step (sum16_ok s post Hs Hl). step (fold_loop_ok (wsum s) fuel Hfit Hf).
  pose proof (oc16_range (wsum s) ltac:(lia)). unfold mret, res_ret. by rewrite u16_lnot.
Qed.

Lemma rfc1071_wsum s : Forall byte_ok s → 65535 - oc16 (wsum s) = ntohs (rfc1071 s).
Proof.
  intros Hs. unfold rfc1071. rewrite ones_sum by done.
  pose proof (oc16_range (bsum s) (bsum_nonneg s Hs)). by rewrite ntohs_compl, oc16_swap.
Qed.

(** A message whose checksum field, zero at first, holds the checksum sums up
    to zero. *)
Lemma wsum_app pre s :
  Nat.even (length pre) = true → wsum (pre ++ s) = wsum pre + wsum s.
Proof.
  induction pre as [|a|a b pre IH] using pair_ind; intros H; [done|done|].
  cbn [app wsum]. rewrite IH by done. lia.
Qed.

Lemma checksum_fill pre s c :
  Nat.even (length pre) = true → Forall byte_ok (pre ++ 0 :: 0 :: s) →
  Z.of_nat (length (pre ++ 0 :: 0 :: s)) <= 131073 →
  c = 65535 - oc16 (wsum (pre ++ 0 :: 0 :: s)) →
  Forall byte_ok (pre ++ u8 c :: u8 (c / 256) :: s) ∧
  oc16 (wsum (pre ++ u8 c :: u8 (c / 256) :: s)) = 65535.
Proof.
  intros He Hs Hl Hc. rewrite wsum_app in Hc |- * by done. cbn [wsum] in *.
  pose proof Hs as [Hp [_ [_ Hq]%Forall_cons]%Forall_cons]%Forall_app.
  pose proof (wsum_bound pre Hp). pose proof (wsum_bound s Hq).
  set (t := wsum pre + wsum s) in *.
  replace (wsum pre + (0 + 256 * 0 + wsum s)) with t in Hc by lia.
  pose proof (oc16_range t ltac:(lia)) as Hr.
  split.
  { apply Forall_app. split; [done|]. by repeat (constructor; [apply u8_byte|]). }
  assert (Hv : u8 c + 256 * u8 (c / 256) = c) by (unfold u8; dm_lia).
  replace (wsum pre + (u8 c + 256 * u8 (c / 256) + wsum s)) with (t + c) by lia.
  destruct (oc16_congr t) as [k Hk].
  destruct (decide (t = 0)) as [Ht|Ht].
  - rewrite Ht in *. change (oc16 0) with 0 in *. rewrite Hc. done.
  - pose proof (oc16_pos t ltac:(lia)). apply oc16_unique; [lia..|].
    apply (mult_mod0 _ (k)). lia.
Qed.

(** ** Properties *)

(** C9 (equivalence): on every message of at most 131073 bytes (sums of up to
    65537 words fit 32 bits) the two programs' checksums agree, and their value,
    stored by this little-endian machine, is in network order the checksum
    of RFC 1071. *)
Theorem checksums_rfc1071 s post fuel :
  Forall byte_ok s → Z.of_nat (length s) <= 131073 → (3 <= fuel)%nat →
  checksum (s ++ post) (Z.of_nat (length s)) = Ok (ntohs (rfc1071 s)) ∧
  checksum6 fuel (s ++ post) (Z.of_nat (length s)) = Ok (ntohs (rfc1071 s)).
Proof.
  intros Hs Hl Hf. rewrite checksum_wsum, checksum6_wsum by done.
  by rewrite rfc1071_wsum.
Qed.

Lemma checksums_rfc1071_witness :
  let s := [0; 1; 242; 3; 244; 245; 246; 247] in
  rfc1071 s = 8717 ∧
  checksum (s ++ [9]) 8 = Ok (ntohs (rfc1071 s)) ∧
  checksum6 3 (s ++ [9]) 8 = Ok (ntohs (rfc1071 s)).
Proof.
  intros s. split; [reflexivity|].
  apply (checksums_rfc1071 s [9] 3).
  - repeat constructor; lia.
  - vm_compute. discriminate.
  - lia.
Defined.

(** C10 (functional): a receiver's check succeeds: when the checksum computed
    with an aligned two-byte field zero is stored in the field, the checksum
    of the result is zero, for either program's routine. *)
Theorem checksum_verifies pre s post c fuel :
  Nat.even (length pre) = true → Forall byte_ok (pre ++ 0 :: 0 :: s) →
  Z.of_nat (length (pre ++ 0 :: 0 :: s)) <= 131073 → (3 <= fuel)%nat →
  checksum ((pre ++ 0 :: 0 :: s) ++ post) (Z.of_nat (length (pre ++ 0 :: 0 :: s))) = Ok c →
  ∃ b, wr16 ((pre ++ 0 :: 0 :: s) ++ post) (Z.of_nat (length pre)) c = Ok b ∧
    checksum b (Z.of_nat (length (pre ++ 0 :: 0 :: s))) = Ok 0 ∧
    checksum6 fuel b (Z.of_nat (length (pre ++ 0 :: 0 :: s))) = Ok 0.
Proof.
  intros He Hs Hl Hf Hc. rewrite checksum_wsum in Hc by done.
  assert (Hcv : c = 65535 - oc16 (wsum (pre ++ 0 :: 0 :: s))) by congruence.
  destruct (checksum_fill pre s c He Hs Hl Hcv) as [Hs' Hoc].
  exists ((pre ++ u8 c :: u8 (c / 256) :: s) ++ post).
  rewrite <- !app_assoc. cbn [app]. rewrite wr16_app by done.
  replace (length (pre ++ 0 :: 0 :: s)) with (length (pre ++ u8 c :: u8 (c / 256) :: s)) in * by len.
  split; [done|]. pose proof (checksum_wsum _ post Hs' Hl) as H1.
  pose proof (checksum6_wsum _ post fuel Hs' Hl Hf) as H2.
  rewrite Hoc, <- app_assoc in H1, H2. done.
Qed.

Lemma checksum_verifies_witness :
  ∃ b, wr16 ([8; 0; 0; 0; 18; 52; 1] ++ [7]) 2 52196 = Ok b ∧
    checksum b 7 = Ok 0 ∧ checksum6 3 b 7 = Ok 0.
Proof.
  apply (checksum_verifies [8; 0] [18; 52; 1] [7] 52196 3).
  - done.
  - repeat constructor; lia.
  - vm_compute. discriminate.
  - lia.
  - vm_compute. reflexivity.
Defined.
