(* ===== verification/Ping.v ===== *)
(** * The IPv4 ping programs

    [src/ICMP_ping/myping.c], and what
    [src/ICMP_ping/other_mypings/myping_synchronous.c] does differently.  The
    programs run over the trace of what they print and send; the values the
    system calls return are arguments.  libevent's dispatch is reduced to the
    one call of the callback it makes, which does not return. *)
From S2P Require Import Prelude CMem Checksum.

Local Open Scope Z_scope.

(** ** Data *)

Definition PACKETSIZE : Z := 64.
Definition PING_ATTEMPTS : Z := 5.
Definition PING_ATTEMPTS_sync : Z := 4.
Definition ICMP_ECHO : Z := 8.
Definition ICMP_ECHOREPLY : Z := 0.
Definition SIZEOF_ICMPHDR : Z := 8.
Definition SIZEOF_IPHDR : Z := 20.

(** [struct icmphdr]: byte offsets of its fields. *)
Definition ICMP_TYPE : Z := 0.
Definition ICMP_CODE : Z := 1.
Definition ICMP_CHECKSUM : Z := 2.
Definition ICMP_ID : Z := 4.
Definition ICMP_SEQUENCE : Z := 6.

Inductive syscall := SysSocket | SysFcntl | SysTtl | SysSendto | SysRecvfrom.

(** What is printed and sent. *)
Inductive ping_event :=
  | Usage
  | NoHost
  | PError (call : syscall)
  | EchoMsg (j : Z)
  | GotMessage
  | SendTo (pkt : bytes)
  | Sleep
  | Rule
  | DumpOffset (i : Z)
  | DumpByte (c : Z)
  | IpLine (version hdr_size pkt_size protocol ttl : Z) (src dst : bytes)
  | IcmpLine (type code cksum id seq : Z)
  | NotEcho
  | Timeout
  | TimeoutNotSet
  | Exit.

Abbreviation ping_prog := (prog (list ping_event)).

(** The results of the system calls of one run of [ping]; [sendto_rc] and
    [early] by the number of the turn. *)
Record ping_env := PingEnv {
  sock_rc : Z;
  ttl_rc : Z;
  fcntl_rc : Z;
  sendto_rc : Z → Z;
  early : Z → option bytes   (* what the non-blocking recvfrom delivers *)
}.

(** [recvfrom] into a signed [int]. *)
Definition recv_int (buf : bytes) (max : Z) (d : option bytes) : res (bytes * Z) :=
  match d with
  | None => mret (buf, -1)
  | Some d =>
      let d := take (Z.to_nat max) d in
      buf ← wr_bytes buf 0 d; mret (buf, Z.of_nat (length d))
  end.

(** ** [ping] *)

(** [for (i=...; i<sizeof(pckt.msg)-1; i++) pckt.msg[i] = i+'0';] with [n]
    turns left, and [pckt.msg[i] = 0;]. *)
Fixpoint fill_msg (n : nat) (pckt : bytes) (i : Z) : res bytes :=
  match n with
  | O => wr pckt (SIZEOF_ICMPHDR + i) 0
  | S n' => pckt ← wr pckt (SIZEOF_ICMPHDR + i) (u8 (i + 48)); fill_msg n' pckt (i + 1)
  end.

(** Everything but the checksum of one packet, in the structure the previous
    packet was in. *)
Definition fill_echo (pid cnt : Z) (pckt : bytes) : res bytes :=
  pckt ← memset pckt 0 (Z.to_nat PACKETSIZE);
  pckt ← wr pckt ICMP_TYPE ICMP_ECHO;
  pckt ← wr16 pckt ICMP_ID (u16 pid);
  pckt ← fill_msg (Z.to_nat (PACKETSIZE - SIZEOF_ICMPHDR - 1)) pckt 0;
  wr16 pckt ICMP_SEQUENCE (u16 cnt).

Definition make_echo (pid cnt : Z) (pckt : bytes) : res bytes :=
  pckt ← fill_echo pid cnt pckt;
  c ← checksum pckt PACKETSIZE;
  wr16 pckt ICMP_CHECKSUM c.

(** The loop of [myping.c]; [n = PING_ATTEMPTS - j]. *)
Fixpoint ping_loop (n : nat) (env : ping_env) (pid : Z) (pckt : bytes) (j cnt : Z)
    : ping_prog unit :=
  match n with
  | O => mret tt
  | S n' =>
      _ ← emit (EchoMsg j);
      pckt ← lift (make_echo pid cnt pckt);
      _ ← emit (SendTo pckt);
      _ ← (if sendto_rc env j <=? 0 then emit (PError SysSendto) else mret tt);
      _ ← emit Sleep;
      ping_loop n' env pid pckt (j + 1) (cnt + 1)
  end.

Definition ping (env : ping_env) (pid : Z) (pckt : bytes) : ping_prog unit :=
  if sock_rc env <? 0 then emit (PError SysSocket)
  else
    _ ← (if negb (fcntl_rc env =? 0) then emit (PError SysFcntl) else mret tt);
    ping_loop (Z.to_nat (PING_ATTEMPTS - 1)) env pid pckt 1 1.

(** The loop of [myping_synchronous.c]: it looks for a reply first. *)
Fixpoint ping_loop_sync (n : nat) (env : ping_env) (pid : Z) (pckt : bytes) (j cnt : Z)
    : ping_prog unit :=
  match n with
  | O => mret tt
  | S n' =>
      '(pckt, rc) ← lift (recv_int pckt PACKETSIZE (early env j));
      _ ← (if rc >? 0 then emit GotMessage else mret tt);
      pckt ← lift (make_echo pid cnt pckt);
      _ ← emit (SendTo pckt);
      _ ← (if sendto_rc env j <=? 0 then emit (PError SysSendto) else mret tt);
      _ ← emit Sleep;
      ping_loop_sync n' env pid pckt (j + 1) (cnt + 1)
  end.

Definition ping_sync (env : ping_env) (pid : Z) (pckt : bytes) : ping_prog unit :=
  if sock_rc env <? 0 then emit (PError SysSocket)
  else
    _ ← (if negb (ttl_rc env =? 0) then emit (PError SysTtl) else mret tt);
    _ ← (if negb (fcntl_rc env =? 0) then emit (PError SysFcntl) else mret tt);
    ping_loop_sync (Z.to_nat PING_ATTEMPTS_sync) env pid pckt 0 1.

(** ** [verify_echo_reply] and [display] *)

(** [ip->ihl * 4]: the low four bits of the first byte count 32-bit words. *)
Definition header_len (b0 : Z) : Z := Z.land b0 15 * 4.

Definition verify_echo_reply (buf : bytes) : res Z :=
  b0 ← rd buf 0;
  type ← rd buf (header_len b0 + ICMP_TYPE);
  mret (if type =? ICMP_ECHOREPLY then 0 else -1).

(** The dump of the packet, byte [i] of [n + i]. *)
Fixpoint dump (n : nat) (buf : bytes) (i : Z) : ping_prog unit :=
  match n with
  | O => mret tt
  | S n' =>
      _ ← (if Z.land i 15 =? 0 then emit (DumpOffset i) else mret tt);
      c ← lift (rd buf i);
      _ ← emit (DumpByte c);
      dump n' buf (i + 1)
  end.

(** [raw]: whether the dump is compiled in ([_DISPLAY_RAW_] of [myping.c];
    always in the synchronous program, [display_sync] below). *)
Definition display (raw : bool) (pid : Z) (buf : bytes) (nbytes : Z) : ping_prog unit :=
  _ ← emit Rule;
  _ ← (if raw then dump (Z.to_nat nbytes) buf 0 else mret tt);
  b0 ← lift (rd buf 0);
  let icmp := header_len b0 in
  tot_len ← lift (rd16 buf 2);
  protocol ← lift (rd buf 9);
  ttl ← lift (rd buf 8);
  saddr ← lift (rd_bytes buf 12 4);
  daddr ← lift (rd_bytes buf 16 4);
  _ ← emit (IpLine (Z.shiftr b0 4) (header_len b0) (ntohs tot_len) protocol ttl saddr daddr);
  id ← lift (rd16 buf (icmp + ICMP_ID));
  if id =? pid then
    type ← lift (rd buf (icmp + ICMP_TYPE));
    code ← lift (rd buf (icmp + ICMP_CODE));
    ck ← lift (rd16 buf (icmp + ICMP_CHECKSUM));
    seq ← lift (rd16 buf (icmp + ICMP_SEQUENCE));
    emit (IcmpLine type code (ntohs ck) id seq)
  else mret tt.

(** [display] of the synchronous program, which always dumps the packet. *)
Definition display_sync : Z → bytes → Z → ping_prog unit := display true.

(** ** The listeners *)

Definition SIZEOF_BUF : Z := 1024.

(** One turn: [rc] is what [recvfrom] delivers. *)
Definition listen_turn (raw : bool) (pid : Z) (buf : bytes) (d : option bytes)
    : ping_prog bytes :=
  buf ← lift (memset buf 0 (Z.to_nat SIZEOF_BUF));
  '(buf, nbytes) ← lift (recv_int buf SIZEOF_BUF d);
  rc ← lift (verify_echo_reply buf);
  if rc <? 0 then _ ← emit NotEcho; mret buf
  else
    _ ← (if (nbytes >? 0) && (nbytes <=? PACKETSIZE + SIZEOF_IPHDR)
         then display raw pid buf nbytes else emit (PError SysRecvfrom));
    mret buf.

Fixpoint listen_loop (n : nat) (raw : bool) (pid : Z) (buf : bytes) (i : Z)
    (recvs : Z → option bytes) : ping_prog unit :=
  match n with
  | O => mret tt
  | S n' =>
      buf ← listen_turn raw pid buf (recvs i);
      listen_loop n' raw pid buf (i + 1) recvs
  end.

Definition listen_ev_thread (raw : bool) (pid : Z) (timed_out : bool) (buf : bytes)
    (recvs : Z → option bytes) : ping_prog unit :=
  if timed_out then _ ← emit Timeout; emit Exit
  else
    buf ← lift (memset buf 0 (Z.to_nat SIZEOF_BUF));
    _ ← listen_loop (Z.to_nat (PING_ATTEMPTS - 1)) raw pid buf 1 recvs;
    emit Exit.

(** [listener]: the callback runs once and ends the process. *)
Definition listener (raw : bool) (pid sd rcvtimeo_rc : Z) (timed_out : bool) (buf : bytes)
    (recvs : Z → option bytes) : ping_prog unit :=
  if sd <? 0 then _ ← emit (PError SysSocket); emit Exit
  else if rcvtimeo_rc <? 0 then _ ← emit TimeoutNotSet; emit Exit
  else listen_ev_thread raw pid timed_out buf recvs.

(** The loop of the synchronous program's [listener]. *)
Fixpoint listen_loop_sync (n : nat) (pid : Z) (buf : bytes) (i : Z)
    (recvs : Z → option bytes) : ping_prog unit :=
  match n with
  | O => emit Exit
  | S n' =>
      buf ← lift (memset buf 0 (Z.to_nat SIZEOF_BUF));
      '(buf, nbytes) ← lift (recv_int buf SIZEOF_BUF (recvs i));
      _ ← (if nbytes >? 0 then display_sync pid buf nbytes else emit (PError SysRecvfrom));
      listen_loop_sync n' pid buf (i + 1) recvs
  end.

Definition listener_sync (pid sd : Z) (buf : bytes) (recvs : Z → option bytes)
    : ping_prog unit :=
  if sd <? 0 then _ ← emit (PError SysSocket); emit Exit
  else listen_loop_sync (Z.to_nat PING_ATTEMPTS_sync) pid buf 0 recvs.

(** ** [main] *)

(** The process after [fork] is the child when [fork] returned 0.  [host] is
    whether [gethostbyname] found the name (the address goes to [sendto] and is
    left out); [child] and [parent] are the two runs. *)
Definition main (argc : Z) (host : bool) (fork_rc : Z) (child parent : ping_prog unit)
    : ping_prog unit :=
  if negb (argc =? 2) then _ ← emit Usage; emit Exit
  else if negb host then _ ← emit NoHost; emit Exit
  else if fork_rc =? 0 then child else parent.

(** The synchronous program does not test the result of [gethostbyname], and
    sends its packets once before it forks. *)
Definition main_sync (argc : Z) (host : bool) (fork_rc : Z) (first child parent : ping_prog unit)
    : ping_prog unit :=
  if negb (argc =? 2) then _ ← emit Usage; emit Exit
  else if negb host then fail NullDeref
  else _ ← first; if fork_rc =? 0 then child else parent.

(** ** The echo request *)

(** The payload: 55 characters from ['0'] on and a zero. *)
Definition payload : bytes := ((λ i : nat, Z.of_nat i + 48) <$> seq 0 55) ++ [0].

(** An echo message of the given type, checksum, identifier and sequence
    number, in the order of memory. *)
Definition echo_message (type ck id n : Z) : bytes :=
  type :: 0 :: u8 ck :: u8 (ck / 256) :: u8 id :: u8 (id / 256) :: u8 n :: u8 (n / 256) :: payload.

(** With the checksum of RFC 1071. *)
Definition echo_with (type id n : Z) : bytes :=
  echo_message type (ntohs (rfc1071 (echo_message type 0 id n))) id n.

Lemma echo_message_bytes type ck id n :
  byte_ok type → Forall byte_ok (echo_message type ck id n).
Proof.
  intros Ht. unfold echo_message.
  do 8 (constructor; [by apply u8_byte || done|]).
  unfold payload. apply Forall_app. split; [|by repeat constructor].
  apply Forall_fmap, Forall_forall. intros i Hi%elem_of_seq. unfold byte_ok. simpl. lia.
Qed.

Lemma fill_echo_ok pid cnt pckt :
  length pckt = 64%nat → fill_echo pid cnt pckt = Ok (echo_message ICMP_ECHO 0 (u16 pid) (u16 cnt)).
Proof.
  intros Hl. unfold fill_echo.
  pose proof (memset_all 0 64 [] pckt Hl) as Hm. rewrite app_nil_r in Hm.
  change (Z.to_nat PACKETSIZE) with 64%nat. step Hm. unfold wr16, echo_message.
  generalize (u8 (u16 pid)) (u8 (u16 pid / 256)) (u8 (u16 cnt)) (u8 (u16 cnt / 256)).
  intros. vm_compute. reflexivity.
Qed.

Lemma make_echo_ok pid cnt pckt :
  length pckt = 64%nat → make_echo pid cnt pckt = Ok (echo_with ICMP_ECHO (u16 pid) (u16 cnt)).
Proof.
  intros Hl. unfold make_echo. step (fill_echo_ok pid cnt pckt Hl).
  assert (Hb : Forall byte_ok (echo_message ICMP_ECHO 0 (u16 pid) (u16 cnt)))
    by (apply echo_message_bytes; done).
  pose proof (checksum_wsum _ [] Hb) as Hc. rewrite app_nil_r, rfc1071_wsum in Hc by done.
  change (Z.of_nat (length _)) with PACKETSIZE in Hc. step (Hc ltac:(done)).
  unfold echo_with. set (c := ntohs _). clearbody c.
  exact (wr16_app [ICMP_ECHO; 0] (u8 0) (u8 (0 / 256)) _ ICMP_CHECKSUM c eq_refl).
Qed.

(** The events of the turns from [j] on, for one program and the other. *)
Definition sent (env : ping_env) (pid j cnt : Z) : list ping_event :=
  SendTo (echo_with ICMP_ECHO (u16 pid) (u16 cnt)) ::
  (if sendto_rc env j <=? 0 then [PError SysSendto] else []) ++ [Sleep].

Lemma optional_emit (b : bool) (e : ping_event) t :
  (if b then emit e else mret tt) t = Ok (tt, t ++ (if b then [e] else [])).
Proof. destruct b; [done|]. by rewrite app_nil_r. Qed.

Fixpoint turns (n : nat) (env : ping_env) (pid j cnt : Z) : list ping_event :=
  match n with
  | O => []
  | S n' => EchoMsg j :: sent env pid j cnt ++ turns n' env pid (j + 1) (cnt + 1)
  end.

Fixpoint turns_sync (n : nat) (env : ping_env) (pid j cnt : Z) : list ping_event :=
  match n with
  | O => []
  | S n' =>
      (if default [] (early env j) is [] then [] else [GotMessage]) ++
      sent env pid j cnt ++ turns_sync n' env pid (j + 1) (cnt + 1)
  end.

Lemma ping_loop_run n env pid : ∀ pckt j cnt t,
  length pckt = 64%nat →
  ping_loop n env pid pckt j cnt t = Ok (tt, t ++ turns n env pid j cnt).
Proof.
  induction n as [|n IH]; intros pckt j cnt t Hl.
  { by rewrite app_nil_r. }
  cbn [ping_loop turns]. rewrite emit_bind.
  lstep (make_echo_ok pid cnt pckt Hl). rewrite emit_bind.
  step (optional_emit (sendto_rc env j <=? 0) (PError SysSendto)
    ((t ++ [EchoMsg j]) ++ [SendTo (echo_with ICMP_ECHO (u16 pid) (u16 cnt))])).
  rewrite emit_bind, IH by done. unfold sent. by lnorm.
Qed.

Lemma recv_int_ok buf max d :
  (Z.to_nat max <= length buf)%nat →
  ∃ buf' rc, recv_int buf max d = Ok (buf', rc) ∧ length buf' = length buf ∧
    rc = match d with None => -1 | Some d => Z.of_nat (length (take (Z.to_nat max) d)) end.
Proof.
  intros Hl. destruct d as [d|]; [|by do 2 eexists]. unfold recv_int.
  step (wr_bytes_head (take (Z.to_nat max) d) buf ltac:(len)).
  do 2 eexists. split; [done|]. split; [len|done].
Qed.

Lemma ping_loop_sync_run n env pid : ∀ pckt j cnt t,
  length pckt = 64%nat →
  ping_loop_sync n env pid pckt j cnt t = Ok (tt, t ++ turns_sync n env pid j cnt).
Proof.
  induction n as [|n IH]; intros pckt j cnt t Hl.
  { by rewrite app_nil_r. }
  cbn [ping_loop_sync turns_sync].
  destruct (recv_int_ok pckt PACKETSIZE (early env j)) as (pckt' & rc & Hr & Hl' & Hrc);
    [rewrite Hl; done|].
  lstep Hr. step (optional_emit (rc >? 0) GotMessage t).
  lstep (make_echo_ok pid cnt pckt' ltac:(congruence)). rewrite emit_bind.
  erewrite run_bind by apply optional_emit.
  rewrite emit_bind, IH by done. unfold sent. lnorm. do 4 f_equal.
  rewrite Hrc. by destruct (early env j) as [[|]|].
Qed.

(** ** The packets *)

(** The checksum of a complete message verifies. *)
Lemma echo_with_verifies type id n fuel :
  byte_ok type → (3 <= fuel)%nat →
  length (echo_with type id n) = 64%nat ∧
  checksum (echo_with type id n) 64 = Ok 0 ∧ checksum6 fuel (echo_with type id n) 64 = Ok 0.
Proof.
  intros Ht Hf.
  pose proof (echo_message_bytes type 0 id n Ht) as Hb. unfold echo_with.
  set (c := ntohs _).
  destruct (checksum_fill [type; 0] (drop 4 (echo_message type 0 id n)) c) as [Hb' Hoc].
  { done. } { exact Hb. } { done. } { symmetry. by apply rfc1071_wsum. }
  split; [done|].
  pose proof (checksum_wsum _ [] Hb') as H1. pose proof (checksum6_wsum _ [] fuel Hb') as H2.
  rewrite Hoc, app_nil_r in H1, H2. split; [by apply H1|by apply H2].
Qed.

(** ** What is displayed *)

Fixpoint dump_events (n : nat) (b : bytes) (i : Z) : list ping_event :=
  match n with
  | O => []
  | S n' =>
      (if Z.land i 15 =? 0 then [DumpOffset i] else []) ++
      DumpByte (at8 b i) :: dump_events n' b (i + 1)
  end.

Definition display_events (raw : bool) (pid : Z) (b : bytes) (nbytes : Z) : list ping_event :=
  let icmp := header_len (at8 b 0) in
  [Rule] ++ (if raw then dump_events (Z.to_nat nbytes) b 0 else []) ++
  [IpLine (Z.shiftr (at8 b 0) 4) icmp (ntohs (at16 b 2)) (at8 b 9) (at8 b 8)
     [at8 b 12; at8 b 13; at8 b 14; at8 b 15] [at8 b 16; at8 b 17; at8 b 18; at8 b 19]] ++
  (if at16 b (icmp + 4) =? pid then
     [IcmpLine (at8 b icmp) (at8 b (icmp + 1)) (ntohs (at16 b (icmp + 2)))
        (at16 b (icmp + 4)) (at16 b (icmp + 6))]
   else []).

Lemma dump_run n b : ∀ i t,
  0 <= i → i + Z.of_nat n <= Z.of_nat (length b) → dump n b i t = Ok (tt, t ++ dump_events n b i).
Proof.
  induction n as [|n IH]; intros i t Hi Hn; cbn [dump dump_events]; [by rewrite app_nil_r|].
  erewrite run_bind by apply optional_emit. lstep (rd_at8 b i ltac:(lia)).
  rewrite emit_bind, IH by lia. by lnorm.
Qed.

Lemma header_len_range c : byte_ok c → 0 <= header_len c <= 60.
Proof.
  intros Hc. unfold header_len. change 15 with (Z.ones 4).
  rewrite Z.land_ones by lia. pose proof (Z.mod_pos_bound c (2 ^ 4)). lia.
Qed.

Lemma display_run raw pid b nbytes t :
  length b = 1024%nat → byte_ok (at8 b 0) → nbytes <= 1024 →
  display raw pid b nbytes t = Ok (tt, t ++ display_events raw pid b nbytes).
Proof.
  intros Hl Hb Hn. unfold display, display_events. pose proof (header_len_range _ Hb).
  set (h := header_len (at8 b 0)) in *. rewrite emit_bind.
  assert (Hd : ∀ t', (if raw then dump (Z.to_nat nbytes) b 0 else mret tt) t'
    = Ok (tt, t' ++ (if raw then dump_events (Z.to_nat nbytes) b 0 else []))).
  { intros t'. destruct raw; [apply dump_run; lia|by rewrite app_nil_r]. }
  step (Hd (t ++ [Rule])). lstep (rd_at8 b 0 ltac:(lia)). fold h.
  lstep (rd16_at16 b 2 ltac:(lia) ltac:(lia)). lstep (rd_at8 b 9 ltac:(lia)).
  lstep (rd_at8 b 8 ltac:(lia)). lstep (rd_bytes_at8 b 12 ltac:(lia) ltac:(lia)).
  lstep (rd_bytes_at8 b 16 ltac:(lia) ltac:(lia)). rewrite emit_bind.
  unfold ICMP_ID, ICMP_TYPE, ICMP_CODE, ICMP_CHECKSUM, ICMP_SEQUENCE. rewrite Z.add_0_r.
  lstep (rd16_at16 b (h + 4) ltac:(lia) ltac:(lia)).
  destruct (at16 b (h + 4) =? pid); [|by lnorm].
  lstep (rd_at8 b h ltac:(lia)). lstep (rd_at8 b (h + 1) ltac:(lia)).
  lstep (rd16_at16 b (h + 2) ltac:(lia) ltac:(lia)).
  lstep (rd16_at16 b (h + 6) ltac:(lia) ltac:(lia)). unfold emit. by lnorm.
Qed.

(** *** One turn of the listener *)

(** The buffer after the reception of [d]. *)
Definition received (d : bytes) : bytes :=
  take 1024 d ++ replicate (1024 - length (take 1024 d)) 0.

Definition listen_events (raw : bool) (pid : Z) (d : option bytes) : list ping_event :=
  match d with
  | None => [PError SysRecvfrom]
  | Some d =>
      let b := received d in let n := Z.of_nat (length (take 1024 d)) in
      if negb (at8 b (header_len (at8 b 0)) =? ICMP_ECHOREPLY) then [NotEcho]
      else if (0 <? n) && (n <=? 84) then display_events raw pid b n
      else [PError SysRecvfrom]
  end.

Definition datagram_ok (d : option bytes) : Prop :=
  match d with None => True | Some d => Forall byte_ok d end.

Lemma received_length d : length (received d) = 1024%nat.
Proof. unfold received. len. Qed.

Lemma received_bytes d : Forall byte_ok d → Forall byte_ok (received d).
Proof.
  intros Hd. unfold received. apply Forall_app. split; [by apply Forall_take|].
  by apply Forall_replicate.
Qed.

Lemma listen_turn_run raw pid buf d t :
  length buf = 1024%nat → datagram_ok d →
  ∃ buf', length buf' = 1024%nat ∧
    listen_turn raw pid buf d t = Ok (buf', t ++ listen_events raw pid d).
Proof.
  intros Hl Hd. unfold listen_turn, SIZEOF_BUF. change (Z.to_nat 1024) with 1024%nat.
  pose proof (memset_all 0 1024 [] buf Hl) as Hm. rewrite app_nil_r in Hm. lstep Hm.
  rewrite app_nil_r. destruct d as [d|].
  2: { exists (replicate 1024 0). split; [done|]. done. }
  exists (received d). split; [apply received_length|].
  cbn [recv_int]. change (Z.to_nat 1024) with 1024%nat.
  pose proof (wr_bytes_head (take 1024 d) (replicate 1024 0) ltac:(len)) as Hw.
  rewrite drop_replicate in Hw. fold (received d) in Hw.
  lstep (bind_ok _ (λ b, mret (b, Z.of_nat (length (take 1024 d)))) _ Hw).
  pose proof (received_length d) as Hrl. pose proof (received_bytes d Hd) as Hrb.
  pose proof (at8_byte _ 0 Hrb ltac:(lia)) as H0. pose proof (header_len_range _ H0).
  set (n := Z.of_nat (length (take 1024 d))).
  assert (Hn : n <= 1024) by (unfold n; len).
  assert (Hv : verify_echo_reply (received d)
    = Ok (if at8 (received d) (header_len (at8 (received d) 0)) =? ICMP_ECHOREPLY
          then 0 else -1)).
  { unfold verify_echo_reply. step (rd_at8 (received d) 0 ltac:(lia)).
    unfold ICMP_TYPE. rewrite Z.add_0_r.
    by step (rd_at8 (received d) (header_len (at8 (received d) 0)) ltac:(lia)). }
  lstep Hv. unfold listen_events. fold n. destruct (_ =? ICMP_ECHOREPLY); [|done].
  change (0 <? 0) with false. cbn [negb]. rewrite Z.gtb_ltb.
  change (PACKETSIZE + SIZEOF_IPHDR) with 84.
  destruct ((0 <? n) && (n <=? 84)); [|done].
  by step (display_run raw pid (received d) n t Hrl H0 Hn).
Qed.

Lemma listen_loop_run n raw pid recvs : ∀ buf i t,
  length buf = 1024%nat → (∀ j, datagram_ok (recvs j)) →
  listen_loop n raw pid buf i recvs t
  = Ok (tt, t ++ concat ((λ k : nat, listen_events raw pid (recvs (i + Z.of_nat k))) <$> seq 0 n)).
Proof.
  induction n as [|n IH]; intros buf i t Hl Hd; [by rewrite app_nil_r|]. cbn [listen_loop].
  destruct (listen_turn_run raw pid buf (recvs i) t Hl (Hd i)) as (buf' & Hl' & Hr).
  step Hr. rewrite IH by done. cbn [seq fmap list_fmap concat]. rewrite Z.add_0_r, <- app_assoc.
  do 5 f_equal. rewrite <- (seq_shift n 0), <- list_fmap_compose. apply list_fmap_ext.
  intros _ k _. simpl. do 2 f_equal. lia.
Qed.

(** A turn of the synchronous listener: every datagram that is not empty is
    shown, whatever its length and type. *)
Definition listen_sync_events (pid : Z) (d : option bytes) : list ping_event :=
  match d with
  | None | Some [] => [PError SysRecvfrom]
  | Some d => display_events true pid (received d) (Z.of_nat (length (take 1024 d)))
  end.

Lemma listen_loop_sync_run n pid recvs : ∀ buf i t,
  length buf = 1024%nat → (∀ j, datagram_ok (recvs j)) →
  listen_loop_sync n pid buf i recvs t
  = Ok (tt, (t ++ concat ((λ k : nat, listen_sync_events pid (recvs (i + Z.of_nat k))) <$> seq 0 n))
            ++ [Exit]).
Proof.
  induction n as [|n IH]; intros buf i t Hl Hd; [by rewrite app_nil_r|]. cbn [listen_loop_sync].
  pose proof (memset_all 0 1024 [] buf Hl) as Hm. rewrite app_nil_r in Hm. lstep Hm.
  rewrite app_nil_r. change (Z.to_nat 1024) with 1024%nat.
  assert (Hnext : ∀ buf' t', length buf' = 1024%nat →
    listen_loop_sync n pid buf' (i + 1) recvs (t' ++ listen_sync_events pid (recvs i))
    = Ok (tt, (t' ++ concat ((λ k : nat, listen_sync_events pid (recvs (i + Z.of_nat k))) <$> seq 0 (S n)))
            ++ [Exit])).
  { intros buf' t' Hl'. rewrite IH by done. cbn [seq fmap list_fmap concat].
    rewrite Z.add_0_r, <- !app_assoc. do 6 f_equal.
    rewrite <- (seq_shift n 0), <- list_fmap_compose. apply list_fmap_ext.
    intros _ k _. simpl. do 2 f_equal. lia. }
  pose proof (Hd i) as Hdi. destruct (recvs i) as [d|] eqn:Er; [|by apply Hnext].
  cbn [recv_int]. unfold SIZEOF_BUF. change (Z.to_nat 1024) with 1024%nat.
  pose proof (wr_bytes_head (take 1024 d) (replicate 1024 0) ltac:(len)) as Hw.
  rewrite drop_replicate in Hw. fold (received d) in Hw.
  lstep (bind_ok _ (λ b, mret (b, Z.of_nat (length (take 1024 d)))) _ Hw).
  pose proof (received_length d) as Hrl. pose proof (received_bytes d Hdi) as Hrb.
  pose proof (at8_byte _ 0 Hrb ltac:(lia)) as H0.
  rewrite Z.gtb_ltb. destruct d as [|x d]; [by apply Hnext|].
  rewrite (proj2 (Z.ltb_lt _ _)) by (rewrite length_take; simpl length; lia).
  step (display_run true pid _ (Z.of_nat (length (take 1024 (x :: d)))) t Hrl H0 ltac:(len)).
  by apply Hnext.
Qed.

(** A reply to the request number [n], behind a 20-byte header. *)
Definition reply_to (pid n : Z) (h : bytes) : bytes :=
  69 :: h ++ echo_with ICMP_ECHOREPLY (u16 pid) n.

Lemma ntohs_ntohs v : 0 <= v <= 65535 → ntohs (ntohs v) = v.
Proof. intros. unfold ntohs. dm_lia. Qed.

Lemma u8_halves v : 0 <= v <= 65535 → u8 v + 256 * u8 (v / 256) = v.
Proof. intros. unfold u8. dm_lia. Qed.

Lemma rfc1071_range s : Forall byte_ok s → 0 <= rfc1071 s <= 65535.
Proof.
  intros Hs. unfold rfc1071. rewrite ones_sum by done.
  pose proof (oc16_range (bsum s) (bsum_nonneg s Hs)). lia.
Qed.

Lemma received_at d z :
  (length d <= 1024)%nat → 0 <= z < Z.of_nat (length d) → at8 (received d) z = at8 d z.
Proof.
  intros Hl Hz. unfold received, at8. rewrite take_ge by done.
  apply lookup_total_app_l. lia.
Qed.

Lemma reply_at pid n h k :
  length h = 19%nat → 0 <= k < 64 →
  at8 (received (reply_to pid n h)) (20 + k) = at8 (echo_with ICMP_ECHOREPLY (u16 pid) n) k.
Proof.
  intros Hl Hk. assert (Hlen : length (reply_to pid n h) = 84%nat).
  { unfold reply_to. cbn [length]. rewrite length_app, Hl. done. }
  rewrite received_at by lia. unfold reply_to, at8.
  rewrite (app_comm_cons h _ 69), lookup_total_app_r by (cbn [length]; lia).
  f_equal. cbn [length]. lia.
Qed.

Lemma reply_at16 pid n h k :
  length h = 19%nat → 0 <= k < 63 →
  at16 (received (reply_to pid n h)) (20 + k) = at16 (echo_with ICMP_ECHOREPLY (u16 pid) n) k.
Proof.
  intros Hl Hk. unfold at16. rewrite <- Z.add_assoc. by rewrite !reply_at by lia.
Qed.

(** The datagrams a run sends, in order. *)
Definition payloads (t : list ping_event) : list bytes :=
  omap (λ e, match e with SendTo p => Some p | _ => None end) t.

Lemma payloads_app t u : payloads (t ++ u) = payloads t ++ payloads u.
Proof. apply omap_app. Qed.

Lemma payloads_sent env pid j cnt :
  payloads (sent env pid j cnt) = [echo_with ICMP_ECHO (u16 pid) (u16 cnt)].
Proof. unfold sent. by destruct (_ <=? 0). Qed.

Lemma payloads_turns n env pid : ∀ j cnt,
  payloads (turns n env pid j cnt)
  = (λ k : nat, echo_with ICMP_ECHO (u16 pid) (u16 (cnt + Z.of_nat k))) <$> seq 0 n.
Proof.
  induction n as [|n IH]; intros j cnt; [done|]. cbn [turns].
  change (payloads (EchoMsg j :: ?t)) with (payloads t).
  rewrite !payloads_app, payloads_sent, IH. cbn [seq fmap list_fmap]. rewrite Z.add_0_r.
  rewrite <- (seq_shift n 0), <- list_fmap_compose. cbn [app]. f_equal.
  apply list_fmap_ext. intros _ k _. simpl. do 2 f_equal. lia.
Qed.

Lemma payloads_sync n env pid : ∀ j cnt,
  payloads (turns_sync n env pid j cnt)
  = (λ k : nat, echo_with ICMP_ECHO (u16 pid) (u16 (cnt + Z.of_nat k))) <$> seq 0 n.
Proof.
  induction n as [|n IH]; intros j cnt; [done|]. cbn [turns_sync].
  rewrite !payloads_app, payloads_sent, IH. cbn [seq fmap list_fmap]. rewrite Z.add_0_r.
  rewrite <- (seq_shift n 0), <- list_fmap_compose.
  assert (Hg : payloads (if default [] (early env j) is [] then [] else [GotMessage]) = [])
    by (by destruct (default [] (early env j))).
  rewrite Hg. cbn [app]. f_equal. apply list_fmap_ext. intros _ k _. simpl. do 2 f_equal. lia.
Qed.

Lemma ping_sync_run env pid pckt t :
  length pckt = 64%nat → 0 <= sock_rc env →
  ∃ evs, ping_sync env pid pckt t = Ok (tt, t ++ evs) ∧
    payloads evs = (λ n, echo_with ICMP_ECHO (u16 pid) n) <$> [1; 2; 3; 4].
Proof.
  intros Hl Hs. unfold ping_sync. guards.
  erewrite run_bind by apply optional_emit. erewrite run_bind by apply optional_emit.
  rewrite ping_loop_sync_run, <- !app_assoc by done. eexists. split; [done|].
  rewrite !payloads_app, payloads_sync. by repeat destruct (negb _).
Qed.

(** ** Properties *)

(** C12 (functional): with a socket, [ping] sends four echo requests numbered
    1 to 4, each 64 bytes long with the process's identifier (cut to 16 bits)
    and a checksum that verifies, whatever the structure held before and
    whatever [sendto] returns; it reports exactly the calls that failed. *)
Theorem ping_sends_four env pid pckt fuel :
  length pckt = 64%nat → 0 <= sock_rc env → fcntl_rc env = 0 → (3 <= fuel)%nat →
  let packet n := echo_with ICMP_ECHO (u16 pid) n in
  let turn n := [EchoMsg n; SendTo (packet n)] ++
                (if sendto_rc env n <=? 0 then [PError SysSendto] else []) ++ [Sleep] in
  ping env pid pckt [] = Ok (tt, turn 1 ++ turn 2 ++ turn 3 ++ turn 4) ∧
  Forall (λ n, length (packet n) = 64%nat ∧ checksum (packet n) 64 = Ok 0 ∧
               checksum6 fuel (packet n) 64 = Ok 0) [1; 2; 3; 4].
Proof.
  intros Hl Hs Hfc Hf packet turn. split.
  - unfold ping. guards.
    change (Z.to_nat (PING_ATTEMPTS - 1)) with 4%nat.
    unfold mbind, prog_bind, mret, prog_ret. rewrite ping_loop_run by done.
    cbn [turns]. unfold sent, turn. by lnorm.
  - apply Forall_forall. intros n _. by apply echo_with_verifies.
Qed.

Lemma ping_sends_four_witness :
  let env := PingEnv 3 0 0 (λ n, if n =? 2 then -1 else 64) (λ _, None) in
  let packet n := echo_with ICMP_ECHO (u16 4660) n in
  let turn n := [EchoMsg n; SendTo (packet n)] ++
                (if sendto_rc env n <=? 0 then [PError SysSendto] else []) ++ [Sleep] in
  ping env 4660 (replicate 64 7) [] = Ok (tt, turn 1 ++ turn 2 ++ turn 3 ++ turn 4) ∧
  Forall (λ n, length (packet n) = 64%nat ∧ checksum (packet n) 64 = Ok 0 ∧
               checksum6 3 (packet n) 64 = Ok 0) [1; 2; 3; 4].
Proof.
  apply (ping_sends_four (PingEnv 3 0 0 (λ n, if n =? 2 then -1 else 64) (λ _, None))
    4660 (replicate 64 7) 3); (done || lia).
Defined.

(** C13 (safety): with a socket and a timeout set, the listener handles any
    four datagrams, of any length and contents, without leaving its buffer,
    then ends the process; for each datagram it reports exactly this: an error
    when there is none, or it is empty or longer than 84 bytes; that it is no
    echo reply; or its fields.  The listener of the synchronous program does the
    same with the datagrams numbered from 0, but dumps and shows every one that
    is not empty. *)
Theorem listener_reports raw pid sd rcvtimeo_rc buf recvs :
  0 <= sd → 0 <= rcvtimeo_rc → length buf = 1024%nat → (∀ i, datagram_ok (recvs i)) →
  listener raw pid sd rcvtimeo_rc false buf recvs []
  = Ok (tt, listen_events raw pid (recvs 1) ++ listen_events raw pid (recvs 2) ++
            listen_events raw pid (recvs 3) ++ listen_events raw pid (recvs 4) ++ [Exit]) ∧
  listener_sync pid sd buf recvs []
  = Ok (tt, listen_sync_events pid (recvs 0) ++ listen_sync_events pid (recvs 1) ++
            listen_sync_events pid (recvs 2) ++ listen_sync_events pid (recvs 3) ++ [Exit]).
Proof.
  intros Hs Ht Hl Hd. split.
  2: { unfold listener_sync. guards. change (Z.to_nat PING_ATTEMPTS_sync) with 4%nat.
       rewrite listen_loop_sync_run by done. cbn [seq fmap list_fmap concat app].
       by rewrite <- !app_assoc. }
  unfold listener, listen_ev_thread. guards.
  pose proof (memset_all 0 1024 [] buf Hl) as Hm. rewrite app_nil_r in Hm.
  change (Z.to_nat SIZEOF_BUF) with 1024%nat. lstep Hm. rewrite app_nil_r.
  change (Z.to_nat (PING_ATTEMPTS - 1)) with 4%nat.
  assert (Hz : length (replicate 1024 0) = 1024%nat) by apply length_replicate.
  revert Hz. generalize (replicate 1024 0). intros z Hz.
  erewrite run_bind by (by apply listen_loop_run).
  unfold emit. cbn [seq fmap list_fmap concat app]. by rewrite <- !app_assoc.
Qed.

Lemma listener_reports_witness :
  let recvs i := if i =? 1 then None else if i =? 2 then Some [] else Some [69; 0; 1] in
  listener false 7 3 0 false (replicate 1024 9) recvs []
  = Ok (tt, [PError SysRecvfrom] ++ [PError SysRecvfrom] ++
            listen_events false 7 (Some [69; 0; 1]) ++ listen_events false 7 (Some [69; 0; 1]) ++
            [Exit]) ∧
  listener_sync 7 3 (replicate 1024 9) recvs []
  = Ok (tt, listen_sync_events 7 (Some [69; 0; 1]) ++ [PError SysRecvfrom] ++
            [PError SysRecvfrom] ++ listen_sync_events 7 (Some [69; 0; 1]) ++ [Exit]).
Proof.
  intros recvs. apply (listener_reports false 7 3 0 (replicate 1024 9) recvs); [lia|lia|done|].
  intros i. unfold recvs. destruct (i =? 1); [done|]. destruct (i =? 2); repeat constructor; lia.
Defined.

(** The listener shows the reply to a request of its own
    process number [pid] exactly when [pid] fits the 16-bit identifier: above
    65535 the request carries [pid mod 65536], the comparison is with [pid],
    and the line of the reply is never printed. *)
Theorem own_reply_displayed pid n h :
  0 <= pid → 0 <= n < 65536 → length h = 19%nat → Forall byte_ok h →
  ∃ line,
    listen_events false pid (Some (reply_to pid n h))
    = [Rule; line] ++
      (if pid <? 65536
       then [IcmpLine ICMP_ECHOREPLY 0 (rfc1071 (echo_message ICMP_ECHOREPLY 0 (u16 pid) n)) pid n]
       else []).
Proof.
  intros Hp Hn Hl Hh.
  assert (Hb : Forall byte_ok (echo_message ICMP_ECHOREPLY 0 (u16 pid) n))
    by (apply echo_message_bytes; done).
  pose proof (rfc1071_range _ Hb) as Hr. set (r := rfc1071 _) in *.
  assert (Hu : 0 <= u16 pid <= 65535) by (unfold u16; dm_lia).
  assert (H0 : at8 (received (reply_to pid n h)) 0 = 69).
  { apply received_at; unfold reply_to; cbn [length]; rewrite length_app, Hl; simpl; lia. }
  assert (Hty : at8 (received (reply_to pid n h)) 20 = ICMP_ECHOREPLY)
    by exact (reply_at pid n h 0 Hl ltac:(lia)).
  eexists. unfold listen_events, display_events. rewrite H0. change (header_len 69) with 20.
  rewrite Hty. assert (Hlen : length (take 1024 (reply_to pid n h)) = 84%nat).
  { unfold reply_to. rewrite length_take. cbn [length]. rewrite length_app, Hl. done. }
  rewrite Hlen. cbn [negb Z.eqb ICMP_ECHOREPLY]. change (_ && _) with true. cbv iota.
  rewrite !reply_at16 by (done || lia). rewrite (reply_at pid n h 1) by (done || lia).
  assert (Hid : at16 (echo_with ICMP_ECHOREPLY (u16 pid) n) 4 = u16 pid) by exact (u8_halves _ Hu).
  assert (Hsq : at16 (echo_with ICMP_ECHOREPLY (u16 pid) n) 6 = n)
    by exact (u8_halves n ltac:(lia)).
  assert (Hck : at16 (echo_with ICMP_ECHOREPLY (u16 pid) n) 2 = ntohs r)
    by exact (u8_halves _ (ntohs_range r)).
  rewrite Hid, Hsq, Hck, ntohs_ntohs by done. cbn [app]. do 2 f_equal.
  assert (Heq : (u16 pid =? pid) = (pid <? 65536)).
  { destruct (Z.ltb_spec pid 65536); [|unfold u16 in *; bdestr; done].
    rewrite u16_id by lia. apply Z.eqb_refl. }
  rewrite Heq. destruct (Z.ltb_spec pid 65536); [|done]. by rewrite u16_id by lia.
Qed.

Lemma own_reply_displayed_witness :
  (∃ line,
    listen_events false 4660 (Some (reply_to 4660 2 (replicate 19 9)))
    = [Rule; line] ++
      [IcmpLine ICMP_ECHOREPLY 0 (rfc1071 (echo_message ICMP_ECHOREPLY 0 4660 2)) 4660 2]) ∧
  (∃ line, listen_events false 70000 (Some (reply_to 70000 2 (replicate 19 9))) = [Rule; line] ++ []).
Proof.
  split.
  - apply (own_reply_displayed 4660 2 (replicate 19 9)); [lia|lia|done|by repeat constructor].
  - apply (own_reply_displayed 70000 2 (replicate 19 9)); [lia|lia|done|by repeat constructor].
Defined.

(** The parent process of [myping] sends the requests 1 to 4
    once; in the synchronous program, which calls [ping] before it forks as
    well, the same four requests go out twice before and after the fork. *)
Theorem parent_sends env pid pckt child fork_rc :
  length pckt = 64%nat → 0 <= sock_rc env → fork_rc ≠ 0 →
  ∃ t t',
    main 2 true fork_rc child (ping env pid pckt) [] = Ok (tt, t) ∧
    main_sync 2 true fork_rc (ping_sync env pid pckt) child (ping_sync env pid pckt) []
    = Ok (tt, t') ∧
    payloads t = (λ n, echo_with ICMP_ECHO (u16 pid) n) <$> [1; 2; 3; 4] ∧
    payloads t' = (λ n, echo_with ICMP_ECHO (u16 pid) n) <$> [1; 2; 3; 4; 1; 2; 3; 4].
Proof.
  intros Hl Hs Hf. unfold main, main_sync. cbn [negb Z.eqb Pos.eqb]. guards.
  destruct (ping_sync_run env pid pckt [] Hl Hs) as (e1 & Hr1 & Hp1).
  destruct (ping_sync_run env pid pckt ([] ++ e1) Hl Hs) as (e2 & Hr2 & Hp2).
  eexists _, _. split_and!.
  - unfold ping. guards. erewrite run_bind by apply optional_emit. by apply ping_loop_run.
  - step Hr1. exact Hr2.
  - rewrite payloads_app. change (Z.to_nat (PING_ATTEMPTS - 1)) with 4%nat.
    rewrite payloads_app, payloads_turns. by destruct (negb _).
  - cbn [app]. by rewrite payloads_app, Hp1, Hp2.
Qed.

Lemma parent_sends_witness :
  let env := PingEnv 3 0 0 (λ _, -1) (λ n, if n =? 0 then Some [1] else None) in
  let packet n := echo_with ICMP_ECHO (u16 9) n in
  ∃ t t',
    main 2 true 77 (listener false 9 3 0 true [] (λ _, None)) (ping env 9 (replicate 64 0)) []
    = Ok (tt, t) ∧
    main_sync 2 true 77 (ping_sync env 9 (replicate 64 0))
      (listener false 9 3 0 true [] (λ _, None)) (ping_sync env 9 (replicate 64 0)) []
    = Ok (tt, t') ∧
    payloads t = packet <$> [1; 2; 3; 4] ∧
    payloads t' = packet <$> [1; 2; 3; 4; 1; 2; 3; 4].
Proof.
  apply (parent_sends (PingEnv 3 0 0 (λ _, -1) (λ n, if n =? 0 then Some [1] else None)) 9
    (replicate 64 0) (listener false 9 3 0 true [] (λ _, None)) 77); (done || lia).
Defined.
