(* ===== verification/Ping6.v ===== *)
(** * The IPv6 ping program

    [src/ICMP_ping/other_mypings/ping6_ll.c]: the checksum over the
    pseudo-header, the frame that is sent, and the two nested loops that send
    it and wait for a reply.  What the network delivers and what the system
    calls return are arguments. *)
From S2P Require Import Prelude CMem Checksum.

Local Open Scope Z_scope.

(** ** Data *)

Definition ETH_HDRLEN : Z := 14.
Definition IP6_HDRLEN : Z := 40.
Definition ICMP_HDRLEN : Z := 8.
Definition IP_MAXPACKET : Z := 65535.
Definition INET6_ADDRSTRLEN : Z := 46.
Definition ETH_P_IPV6 : Z := 34525.        (* 0x86DD *)
Definition IPPROTO_ICMPV6 : Z := 58.
Definition ICMP6_ECHO_REQUEST : Z := 128.
Definition ICMP6_ECHO_REPLY : Z := 129.

(** [struct ip6_hdr] and [struct icmp6_hdr]: the integers are what the fields
    hold, the addresses sixteen bytes. *)
Record ip6_hdr := Ip6Hdr {
  ip6_flow : Z; ip6_plen : Z; ip6_nxt : Z; ip6_hops : Z;
  ip6_src : bytes; ip6_dst : bytes
}.

Record icmp6_hdr := Icmp6Hdr {
  icmp6_type : Z; icmp6_code : Z; icmp6_cksum : Z; icmp6_id : Z; icmp6_seq : Z
}.

(** The structures in memory. *)
Definition ip6_image (h : ip6_hdr) : bytes :=
  le_bytes 4 (ip6_flow h) ++ le_bytes 2 (ip6_plen h) ++ [ip6_nxt h; ip6_hops h] ++
  ip6_src h ++ ip6_dst h.

Definition icmp6_image (h : icmp6_hdr) : bytes :=
  [icmp6_type h; icmp6_code h] ++ le_bytes 2 (icmp6_cksum h) ++
  le_bytes 2 (icmp6_id h) ++ le_bytes 2 (icmp6_seq h).

(** ** [allocate_strmem] and [allocate_ustrmem] *)

(** [m] is what [malloc] returns; [None] is the end of the process. *)
Definition allocate_strmem (len : Z) (m : option bytes) : res (option bytes) :=
  if len <=? 0 then mret None
  else match m with
       | Some tmp => tmp ← memset tmp 0 (Z.to_nat len); mret (Some tmp)
       | None => mret None
       end.

Definition allocate_ustrmem : Z → option bytes → res (option bytes) := allocate_strmem.

(** ** [icmp6_checksum] *)

(** [buf], [ptr] (an offset into it) and [chksumlen]. *)
Abbreviation cursor := (bytes * Z * Z)%type.

(** Bytes stored at [ptr], which moves behind them, and counted. *)
Definition put_bytes (s : bytes) (c : cursor) : res cursor :=
  let '(buf, ptr, chksumlen) := c in
  buf ← wr_bytes buf ptr s;
  mret (buf, ptr + Z.of_nat (length s), chksumlen + Z.of_nat (length s)).

(** [for (i=0; i<payloadlen%2; i++, ptr++) { *ptr = 0; ptr += 1; ... }] *)
Fixpoint pad_loop (n : nat) (c : cursor) : res cursor :=
  match n with
  | O => mret c
  | S n' =>
      let '(buf, ptr, chksumlen) := c in
      buf ← wr buf ptr 0;
      let ptr := ptr + 1 in
      let chksumlen := chksumlen + 1 in
      pad_loop n' (buf, ptr + 1, chksumlen)
  end.

(** [buf] is the local array, of whatever contents. *)
Definition icmp6_checksum (fuel : nat) (buf : bytes) (iphdr : ip6_hdr) (icmp6hdr : icmp6_hdr)
    (payload : bytes) (payloadlen : Z) : res Z :=
  c ← put_bytes (ip6_src iphdr) (buf, 0, 0);
  c ← put_bytes (ip6_dst iphdr) c;
  upper ← add_int ICMP_HDRLEN payloadlen;
  c ← put_bytes [0; 0; u8 (Z.quot upper 256); u8 (Z.rem upper 256)] c;
  c ← put_bytes [0; 0; 0] c;
  c ← put_bytes [ip6_nxt iphdr] c;
  c ← put_bytes [icmp6_type icmp6hdr] c;
  c ← put_bytes [icmp6_code icmp6hdr] c;
  c ← put_bytes (le_bytes 2 (icmp6_id icmp6hdr)) c;
  c ← put_bytes (le_bytes 2 (icmp6_seq icmp6hdr)) c;
  c ← put_bytes [0; 0] c;
  s ← rd_bytes payload 0 (Z.to_nat payloadlen);
  c ← put_bytes s c;
  '(buf, ptr, chksumlen) ← pad_loop (Z.to_nat (Z.rem payloadlen 2)) c;
  checksum6 fuel buf chksumlen.

(** ** The frame *)

(** [src_mac] and [dst_mac]: the six stores into each.  [LITTLE_ENDIAN] is
    defined (glibc defines it on every machine). *)
Definition src_mac (m : bytes) : res bytes :=
  m ← wr m 0 119; m ← wr m 1 117; m ← wr m 2 102; m ← wr m 3 39; m ← wr m 4 0; wr m 5 8.

Definition dst_mac (m : bytes) : res bytes :=
  m ← wr m 0 255; m ← wr m 1 255; m ← wr m 2 255; m ← wr m 3 255; m ← wr m 4 255; wr m 5 255.

(** [data]: the text [Test]. *)
Definition fill_data (d : bytes) : res bytes :=
  d ← wr d 0 84; d ← wr d 1 101; d ← wr d 2 115; wr d 3 116.

Definition datalen : Z := 4.

(** The headers; the addresses are those [inet_pton] stores. *)
Definition send_iphdr (src dst : bytes) : ip6_hdr :=
  Ip6Hdr (ntohl (Z.lor (Z.lor (Z.shiftl 6 28) (Z.shiftl 0 20)) 0))
    (htons (ICMP_HDRLEN + datalen)) IPPROTO_ICMPV6 255 src dst.

Definition send_icmphdr (cksum : Z) : icmp6_hdr :=
  Icmp6Hdr ICMP6_ECHO_REQUEST 0 cksum (htons 1000) (htons 0).

Definition frame_length : Z := 6 + 6 + 2 + IP6_HDRLEN + ICMP_HDRLEN + datalen.

(** The stores into [send_ether_frame]. *)
Definition fill_frame (frame dst_mac src_mac : bytes) (ip : ip6_hdr) (icmp : icmp6_hdr)
    (data : bytes) : res bytes :=
  m ← rd_bytes dst_mac 0 6; frame ← wr_bytes frame 0 m;
  m ← rd_bytes src_mac 0 6; frame ← wr_bytes frame 6 m;
  frame ← wr frame 12 (ETH_P_IPV6 / 256);
  frame ← wr frame 13 (ETH_P_IPV6 mod 256);
  frame ← wr_bytes frame ETH_HDRLEN (ip6_image ip);
  frame ← wr_bytes frame (ETH_HDRLEN + IP6_HDRLEN) (icmp6_image icmp);
  d ← rd_bytes data 0 (Z.to_nat datalen);
  wr_bytes frame (ETH_HDRLEN + IP6_HDRLEN + ICMP_HDRLEN) d.

(** From the three blocks and the addresses to the frame; [buf] is the array
    of [icmp6_checksum]. *)
Definition build_frame (fuel : nat) (smac dmac data frame buf src dst : bytes) : res bytes :=
  smac ← src_mac smac;
  dmac ← dst_mac dmac;
  data ← fill_data data;
  let ip := send_iphdr src dst in
  c ← icmp6_checksum fuel buf ip (send_icmphdr 0) data datalen;
  fill_frame frame dmac smac ip (send_icmphdr c) data.

(** ** Sending and receiving *)

(** What one [recvfrom] gives: an error code, or a frame, and then whether
    [inet_ntop] can turn the address in it into text. *)
Inductive arrival := Eagain | Eintr | Eother | Frame (d : bytes) (text : bool).

(** The program's visible actions; [Free] numbers the blocks in the order of
    the calls of [free]. *)
Inductive event6 :=
  | Sent (frame : bytes)
  | SendFailed
  | NoReply
  | RecvFailed
  | TextFailed
  | Report (src : bytes) (nbytes : Z)
  | GaveUp (tries : Z)
  | CloseSend
  | CloseRecv
  | Free (block : nat)
  | SetupFailed.

Abbreviation prog6 := (prog (list event6)).

(** The buffer after [memset] and the reception of a frame. *)
Definition recv_frame (buf d : bytes) : res (bytes * Z) :=
  let d := take (Z.to_nat IP_MAXPACKET) d in
  buf ← wr_bytes buf 0 d; mret (buf, Z.of_nat (length d)).

(** The test for an echo reply. *)
Definition is_echo_reply (frame : bytes) : res bool :=
  b12 ← rd frame 12; b13 ← rd frame 13;
  nxt ← rd frame (ETH_HDRLEN + 6);
  type ← rd frame (ETH_HDRLEN + IP6_HDRLEN);
  code ← rd frame (ETH_HDRLEN + IP6_HDRLEN + 1);
  mret ((Z.shiftl b12 8 + b13 =? ETH_P_IPV6) && (nxt =? IPPROTO_ICMPV6) &&
        (type =? ICMP6_ECHO_REPLY) && (code =? 0)).

(** How the receive loop ends. *)
Inductive recv_end := TimedOut | Died | Replied.

#[export] Instance recv_end_eq_dec : EqDecision recv_end.
Proof. solve_decision. Defined.

(** The receive loop; [k] counts the calls of [recvfrom]. *)
Fixpoint recv_loop (fuel : nat) (arrivals : nat → arrival) (buf : bytes) (k : nat)
    : prog6 (recv_end * nat * bytes) :=
  match fuel with
  | O => λ _, NoFuel
  | S f =>
      buf ← lift (memset buf 0 (Z.to_nat IP_MAXPACKET));
      match arrivals k with
      | Eagain => _ ← emit NoReply; mret (TimedOut, S k, buf)
      | Eintr => recv_loop f arrivals buf (S k)
      | Eother => _ ← emit RecvFailed; mret (Died, S k, buf)
      | Frame d text =>
          '(buf, nbytes) ← lift (recv_frame buf d);
          reply ← lift (is_echo_reply buf);
          if reply : bool then
            src ← lift (rd_bytes buf (ETH_HDRLEN + 8) 16);
            if negb text then _ ← emit TextFailed; mret (Died, S k, buf)
            else _ ← emit (Report src nbytes); mret (Replied, S k, buf)
          else recv_loop f arrivals buf (S k)
      end
  end.

Definition trylim : Z := 3.

(** [close] and the calls of [free] at the end of [main]. *)
Definition release : prog6 unit :=
  _ ← emit CloseSend; _ ← emit CloseRecv;
  _ ← emit (Free 0); _ ← emit (Free 1); _ ← emit (Free 2); _ ← emit (Free 3); _ ← emit (Free 4);
  _ ← emit (Free 5); _ ← emit (Free 6); _ ← emit (Free 7); _ ← emit (Free 8); emit (Free 9).

(** The send loop; [tries] counts the calls of [sendto]. *)
Fixpoint send_loop (fuel : nat) (sendto_rc : nat → Z) (arrivals : nat → arrival)
    (frame buf : bytes) (tries k : nat) (trycount : Z) : prog6 unit :=
  match fuel with
  | O => λ _, NoFuel
  | S f =>
      if sendto_rc tries <=? 0 then emit SendFailed
      else
        _ ← emit (Sent (take (Z.to_nat frame_length) frame));
        '(r, k, buf) ← recv_loop f arrivals buf k;
        match r with
        | Died => mret tt
        | Replied => release
        | TimedOut =>
            let trycount := trycount + 1 in
            if trycount =? trylim then _ ← emit (GaveUp trylim); release
            else send_loop f sendto_rc arrivals frame buf (S tries) k trycount
        end
  end.

(** ** [main] *)

(** The blocks allocated at the start, by their lengths: [src_mac], [dst_mac],
    [data], the two frames, [interface], [target] and three address strings. *)
Definition block_lengths : list Z :=
  [6; 6; IP_MAXPACKET; IP_MAXPACKET; IP_MAXPACKET; 40;
   INET6_ADDRSTRLEN; INET6_ADDRSTRLEN; INET6_ADDRSTRLEN; INET6_ADDRSTRLEN].

Fixpoint allocate_all (lens : list Z) (i : nat) (mallocs : nat → option bytes)
    : res (option (list bytes)) :=
  match lens with
  | [] => mret (Some [])
  | len :: lens' =>
      m ← allocate_ustrmem len (mallocs i);
      match m with
      | None => mret None
      | Some b => bs ← allocate_all lens' (S i) mallocs; mret (cons b <$> bs)
      end
  end.

(** What the system gives [main]: descriptors, the interface index, the status
    of [getaddrinfo], whether [inet_ntop] works, and the two addresses
    [inet_pton] stores. *)
Record setup := Setup {
  mallocs : nat → option bytes;
  sendsd : Z;
  ifindex : Z;
  gai_status : Z;
  ntop_ok : bool;
  pton_src : option bytes;
  pton_dst : option bytes;
  recvsd : Z
}.

(** The strings are left out; [buf] is the array of [icmp6_checksum]. *)
Definition main6 (fuel : nat) (env : setup) (buf : bytes) (sendto_rc : nat → Z)
    (arrivals : nat → arrival) : prog6 unit :=
  blocks ← lift (allocate_all block_lengths 0 (mallocs env));
  match blocks with
  | Some (smac :: dmac :: data :: send_frame :: recv_frame :: _) =>
      if sendsd env <? 0 then emit SetupFailed
      else if ifindex env =? 0 then emit SetupFailed
      else if negb (gai_status env =? 0) then emit SetupFailed
      else if negb (ntop_ok env) then emit SetupFailed
      else match pton_src env, pton_dst env with
           | Some src, Some dst =>
               frame ← lift (build_frame fuel smac dmac data send_frame buf src dst);
               if recvsd env <? 0 then emit SetupFailed
               else send_loop fuel sendto_rc arrivals frame recv_frame 0 0 0
           | _, _ => emit SetupFailed
           end
  | _ => emit SetupFailed
  end.

(** ** The checksum over the pseudo-header *)

(** The cursor behind the bytes [d], with [r] left. *)
Definition cur (d r : bytes) : cursor := (d ++ r, Z.of_nat (length d), Z.of_nat (length d)).

Lemma put_bytes_ok d r s :
  (length s <= length r)%nat → put_bytes s (cur d r) = Ok (cur (d ++ s) (drop (length s) r)).
Proof.
  intros Hl. unfold put_bytes, cur.
  step (wr_bytes_at d r s Hl). unfold mret, res_ret. by rewrite length_app, Nat2Z.inj_add.
Qed.

Lemma put_bytes_oob d r s :
  (length r < length s)%nat → put_bytes s (cur d r) = UB OutOfBounds.
Proof.
  intros Hl. unfold put_bytes, cur. by rewrite wr_bytes_oob by len.
Qed.

(** The pseudo-header of RFC 2460, section 8.1, and the message with a zero
    checksum. *)
Definition pseudo_header (src dst : bytes) (n nxt : Z) : bytes :=
  src ++ dst ++ [0; 0; n / 256; n mod 256] ++ [0; 0; 0; nxt].

Definition icmp6_zeroed (h : icmp6_hdr) : icmp6_hdr :=
  Icmp6Hdr (icmp6_type h) (icmp6_code h) 0 (icmp6_id h) (icmp6_seq h).

(** A final zero byte completes the last word without changing it. *)
Lemma be_words_pad s : Nat.odd (length s) = true → be_words (s ++ [0]) = be_words s.
Proof.
  induction s as [|a|a b s IH] using pair_ind; intros H; [done| |].
  - cbn. by rewrite Z.add_0_r.
  - cbn [app be_words]. by rewrite IH.
Qed.

(** The sixteen-bit fields contribute the same words in both places. *)
Lemma be_words_app s t : Nat.even (length s) = true → be_words (s ++ t) = be_words s ++ be_words t.
Proof.
  induction s as [|a|a b s IH] using pair_ind; intros H; [done|done|].
  cbn [app be_words]. by rewrite IH.
Qed.

Lemma foldr_oc_bytes s t : Forall byte_ok s → Forall byte_ok t →
  bsum s = bsum t → rfc1071 s = rfc1071 t.
Proof. intros Hs Ht He. unfold rfc1071. by rewrite !ones_sum, He. Qed.

(** The bytes [icmp6_checksum] stores before the payload. *)
Definition stored (ip : ip6_hdr) (h : icmp6_hdr) (n : Z) : bytes :=
  ip6_src ip ++ ip6_dst ip ++ [0; 0; n / 256; n mod 256] ++ [0; 0; 0] ++ [ip6_nxt ip] ++
  [icmp6_type h] ++ [icmp6_code h] ++ le_bytes 2 (icmp6_id h) ++ le_bytes 2 (icmp6_seq h) ++ [0; 0].

Lemma half_bytes n : 0 <= n < 65536 → byte_ok (n / 256) ∧ byte_ok (n mod 256).
Proof. unfold byte_ok. intros. split; dm_lia. Qed.

Lemma le_bytes_ok k v : Forall byte_ok (le_bytes k v).
Proof. revert v. induction k; intros v; constructor; [apply u8_byte|done]. Qed.

Lemma bsum_app s t : Nat.even (length s) = true → bsum (s ++ t) = bsum s + bsum t.
Proof.
  induction s as [|a|a b s IH] using pair_ind; intros H; [done|done|].
  cbn [app bsum]. rewrite IH by done. lia.
Qed.

Section checksum6.
Context (ip : ip6_hdr) (h : icmp6_hdr).
Context (Hsrc : length (ip6_src ip) = 16%nat ∧ Forall byte_ok (ip6_src ip)).
Context (Hdst : length (ip6_dst ip) = 16%nat ∧ Forall byte_ok (ip6_dst ip)).
Context (Hnxt : byte_ok (ip6_nxt ip)) (Htype : byte_ok (icmp6_type h)) (Hcode : byte_ok (icmp6_code h)).

Lemma stored_length n : length (stored ip h n) = 48%nat.
Proof. unfold stored. destruct Hsrc, Hdst. len. Qed.

Lemma stored_bytes n : 0 <= n < 65536 → Forall byte_ok (stored ip h n).
Proof.
  intros Hn. unfold stored. destruct Hsrc, Hdst, (half_bytes n Hn).
  repeat (apply Forall_app; split); try done; try apply le_bytes_ok;
    repeat (constructor; [done|]); done.
Qed.

Lemma icmp6_checksum_unfold fuel buf payload n :
  Z.of_nat (length buf) = IP_MAXPACKET → 0 <= n <= INT_MAX - ICMP_HDRLEN →
  ∃ hd, length hd = 48%nat ∧ (n <= 65495 → hd = stored ip h (ICMP_HDRLEN + n)) ∧
  icmp6_checksum fuel buf ip h payload n
  = (s ← rd_bytes payload 0 (Z.to_nat n);
     c ← put_bytes s (cur hd (drop 48 buf));
     '(buf, ptr, chksumlen) ← pad_loop (Z.to_nat (n mod 2)) c;
     checksum6 fuel buf chksumlen).
Proof.
  intros Hb Hn. unfold icmp6_checksum. destruct Hsrc as [Hs _], Hdst as [Hd _].
  exists (ip6_src ip ++ ip6_dst ip ++
    [0; 0; u8 ((ICMP_HDRLEN + n) / 256); u8 ((ICMP_HDRLEN + n) mod 256)] ++ [0; 0; 0] ++
    [ip6_nxt ip] ++ [icmp6_type h] ++ [icmp6_code h] ++ le_bytes 2 (icmp6_id h) ++
    le_bytes 2 (icmp6_seq h) ++ [0; 0]).
  split; [cbn [le_bytes]; len|]. split.
  - intros Hsmall. unfold stored, ICMP_HDRLEN in *.
    destruct (half_bytes (8 + n)) as [Hhi Hlo]; [lia|]. by rewrite !u8_id.
  - change (buf, 0, 0) with (cur [] buf). unfold ICMP_HDRLEN, IP_MAXPACKET in *.
    repeat (erewrite bind_ok by (apply put_bytes_ok; len)).
    rewrite add_int_ok by (unfold INT_MIN, INT_MAX in *; lia). cbn [mbind res_bind].
    rewrite Z.quot_div_nonneg, !Z.rem_mod_nonneg by lia.
    repeat (erewrite bind_ok by (apply put_bytes_ok; len)).
    rewrite !drop_drop. rewrite Hs, Hd. cbn [app length le_bytes Nat.add]. by lnorm.
Qed.

(** The datagram the checksum is defined on. *)
Definition checked (payload : bytes) : bytes :=
  pseudo_header (ip6_src ip) (ip6_dst ip) (ICMP_HDRLEN + Z.of_nat (length payload)) (ip6_nxt ip) ++
  icmp6_image (icmp6_zeroed h) ++ payload.

(** The identifier, the number and the checksum are stored in another order
    than in the message, which does not matter to the sum. *)
Lemma bsum_checked payload :
  bsum (stored ip h (ICMP_HDRLEN + Z.of_nat (length payload)) ++ payload) = bsum (checked payload).
Proof.
  destruct Hsrc as [Hs _], Hdst as [Hd _]. unfold stored, checked, pseudo_header, icmp6_image.
  rewrite <- !app_assoc, !(bsum_app (ip6_src ip)), !(bsum_app (ip6_dst ip)) by (by rewrite ?Hs, ?Hd).
  cbn [le_bytes app bsum icmp6_zeroed icmp6_type icmp6_code icmp6_cksum icmp6_id icmp6_seq].
  change (u8 0) with 0. change (u8 (0 / 256)) with 0. lia.
Qed.

Lemma checked_bytes payload :
  Forall byte_ok payload → Z.of_nat (length payload) <= 65486 → Forall byte_ok (checked payload).
Proof.
  intros Hp Hn. unfold checked, pseudo_header, icmp6_image.
  destruct Hsrc, Hdst, (half_bytes (ICMP_HDRLEN + Z.of_nat (length payload)));
    [unfold ICMP_HDRLEN; lia|].
  repeat (apply Forall_app; split); try done; try apply le_bytes_ok;
    repeat (constructor; [done|]); done.
Qed.

Lemma icmp6_checksum_ok fuel buf payload extra :
  Z.of_nat (length buf) = IP_MAXPACKET → Forall byte_ok payload →
  Z.of_nat (length payload) <= 65486 → (3 <= fuel)%nat →
  icmp6_checksum fuel buf ip h (payload ++ extra) (Z.of_nat (length payload))
  = Ok (ntohs (rfc1071 (checked payload))).
Proof.
  intros Hb Hp Hn Hf.
  destruct (icmp6_checksum_unfold fuel buf (payload ++ extra) (Z.of_nat (length payload)) Hb)
    as (hd & _ & Hhd & ->); [unfold INT_MAX, ICMP_HDRLEN; lia|].
  rewrite Hhd by lia. rewrite Nat2Z.id.
  step (rd_bytes_app [] payload extra 0 _ eq_refl eq_refl). set (m := ICMP_HDRLEN + Z.of_nat (length payload)).
  assert (Hm : 0 <= m < 65536) by (unfold m, ICMP_HDRLEN; lia).
  pose proof (stored_length m) as Hsl. unfold IP_MAXPACKET in Hb.
  step (put_bytes_ok (stored ip h m) (drop 48 buf) payload ltac:(len)).
  set (d := stored ip h m ++ payload).
  assert (Hd : Forall byte_ok d) by (apply Forall_app; split; [by apply stored_bytes|done]).
  assert (Hdl : length d = (48 + length payload)%nat) by (unfold d; len).
  rewrite <- (foldr_oc_bytes d (checked payload)); [|done|by apply checked_bytes|apply bsum_checked].
  destruct (drop (length payload) (drop 48 buf)) as [|x r] eqn:Hx;
    [apply (f_equal length) in Hx; len|]. unfold cur.
  destruct (decide (Z.of_nat (length payload) mod 2 = 0)) as [He|Ho].
  - rewrite He. change (Z.to_nat 0) with O. cbn [pad_loop mbind res_bind mret res_ret].
    rewrite checksum6_wsum by (done || lia). by rewrite rfc1071_wsum.
  - assert (Ho1 : Z.of_nat (length payload) mod 2 = 1) by dm_lia. rewrite Ho1.
    change (Z.to_nat 1) with 1%nat. cbn [pad_loop].
    rewrite wr_app by done. cbn [mbind res_bind mret res_ret].
    rewrite app_cons_assoc.
    replace (Z.of_nat (length d) + 1) with (Z.of_nat (length (d ++ [0]))) by len.
    assert (Hd0 : Forall byte_ok (d ++ [0])) by (apply Forall_app; by repeat constructor).
    rewrite checksum6_wsum, rfc1071_wsum by (done || len).
    unfold rfc1071. rewrite be_words_pad; [done|]. rewrite Hdl.
    apply Nat.odd_spec. exists (24 + Z.to_nat (Z.of_nat (length payload) / 2))%nat. dm_lia.
Qed.

Lemma icmp6_checksum_long fuel buf payload :
  Z.of_nat (length buf) = IP_MAXPACKET →
  65487 <= Z.of_nat (length payload) <= INT_MAX - ICMP_HDRLEN →
  icmp6_checksum fuel buf ip h payload (Z.of_nat (length payload)) = UB OutOfBounds.
Proof.
  intros Hb Hn.
  destruct (icmp6_checksum_unfold fuel buf payload (Z.of_nat (length payload)) Hb)
    as (hd & Hhl & _ & ->); [lia|]. rewrite Nat2Z.id.
  pose proof (rd_bytes_app [] payload [] 0 _ eq_refl eq_refl) as Hr. rewrite app_nil_r in Hr.
  step Hr. unfold IP_MAXPACKET in Hb.
  destruct (decide (Z.of_nat (length payload) = 65487)) as [E|E].
  - step (put_bytes_ok hd (drop 48 buf) payload ltac:(len)).
    assert (Hx : drop (length payload) (drop 48 buf) = []) by (apply nil_length_inv; len).
    rewrite Hx, E. unfold cur. change (Z.to_nat _) with 1%nat. cbn [pad_loop].
    by rewrite wr_oob by len.
  - by rewrite put_bytes_oob by len.
Qed.

(** Lengths whose sum with the header is no [int]. *)
Lemma icmp6_checksum_overflow fuel buf payload n :
  Z.of_nat (length buf) = IP_MAXPACKET → INT_MAX - ICMP_HDRLEN < n →
  icmp6_checksum fuel buf ip h payload n = UB SignedOverflow.
Proof.
  intros Hb Hn. unfold icmp6_checksum. destruct Hsrc as [Hs _], Hdst as [Hd _].
  change (buf, 0, 0) with (cur [] buf). unfold ICMP_HDRLEN, IP_MAXPACKET in *.
  repeat (erewrite bind_ok by (apply put_bytes_ok; len)).
  unfold add_int, int_ok. rewrite (proj2 (Z.leb_gt (8 + n) _)) by lia.
  by rewrite andb_false_r.
Qed.
End checksum6.

(** ** The frame *)

Definition test_data : bytes := [84; 101; 115; 116].

Definition sent_cksum (src dst : bytes) : Z :=
  ntohs (rfc1071 (checked (send_iphdr src dst) (send_icmphdr 0) test_data)).

(** The first [frame_length] bytes of the frame. *)
Definition echo_frame (src dst : bytes) : bytes :=
  replicate 6 255 ++ [119; 117; 102; 39; 0; 8] ++ [134; 221] ++
  ip6_image (send_iphdr src dst) ++ icmp6_image (send_icmphdr (sent_cksum src dst)) ++ test_data.

Lemma src_mac_ok m : length m = 6%nat → src_mac m = Ok [119; 117; 102; 39; 0; 8].
Proof. intros Hl. do 6 (destruct m as [|? m]; [done|]). by destruct m. Qed.

Lemma dst_mac_ok m : length m = 6%nat → dst_mac m = Ok (replicate 6 255).
Proof. intros Hl. do 6 (destruct m as [|? m]; [done|]). by destruct m. Qed.

Lemma fill_data_ok d : (4 <= length d)%nat → fill_data d = Ok (test_data ++ drop 4 d).
Proof.
  intros Hl. unfold fill_data.
  step (wr_at [] d 84 ltac:(lia)). step (wr_at [84] (drop 1 d) 101 ltac:(len)).
  step (wr_at [84; 101] (drop 1 (drop 1 d)) 115 ltac:(len)).
  etransitivity; [exact (wr_at [84; 101; 115] (drop 1 (drop 1 (drop 1 d))) 116 ltac:(len))|].
  by rewrite !drop_drop.
Qed.

Lemma icmp6_image_length h : length (icmp6_image h) = 8%nat.
Proof. done. Qed.

Section frame.
Context (src dst : bytes).
Context (Hsrc : length src = 16%nat ∧ Forall byte_ok src).
Context (Hdst : length dst = 16%nat ∧ Forall byte_ok dst).

Lemma ip6_image_length : length (ip6_image (send_iphdr src dst)) = 40%nat.
Proof. unfold ip6_image. cbn [ip6_src ip6_dst send_iphdr]. destruct Hsrc, Hdst. len. Qed.

Lemma echo_frame_length : length (echo_frame src dst) = 66%nat.
Proof. unfold echo_frame. by rewrite !length_app, ip6_image_length, icmp6_image_length. Qed.

Lemma fill_frame_ok frame data c :
  (66 <= length frame)%nat →
  fill_frame frame (replicate 6 255) [119; 117; 102; 39; 0; 8] (send_iphdr src dst)
    (send_icmphdr c) (test_data ++ data)
  = Ok ((replicate 6 255 ++ [119; 117; 102; 39; 0; 8] ++ [134; 221] ++
         ip6_image (send_iphdr src dst) ++ icmp6_image (send_icmphdr c) ++ test_data) ++
        drop 66 frame).
Proof.
  intros Hf. unfold fill_frame. pose proof ip6_image_length as Hi.
  set (ip := ip6_image _) in *. set (ic := icmp6_image _). set (mac := [_; _; _; _; _; 8]).
  assert (Hc : length ic = 8%nat) by apply icmp6_image_length. assert (Hm : length mac = 6%nat) by done.
  step (rd_bytes_app [] (replicate 6 255) [] 0 6 eq_refl eq_refl).
  step (wr_bytes_at [] frame (replicate 6 255) ltac:(len)). cbn [app length].
  pose proof (rd_bytes_app [] mac [] 0 6 eq_refl eq_refl) as Hr. rewrite app_nil_r in Hr. step Hr.
  set (d1 := replicate 6 255). assert (H1 : Z.of_nat (length d1) = 6) by done.
  rewrite <- H1. step (wr_bytes_at d1 (drop 6 frame) mac ltac:(len)).
  change 12 with (Z.of_nat (length (d1 ++ mac))). erewrite bind_ok by (apply wr_at; len).
  change 13 with (Z.of_nat (length ((d1 ++ mac) ++ [134]))).
  erewrite bind_ok by (apply wr_at; len).
  set (d2 := ((d1 ++ mac) ++ [134]) ++ [221]).
  assert (H2 : length d2 = 14%nat) by done. change ETH_HDRLEN with (Z.of_nat 14). rewrite <- H2.
  erewrite bind_ok by (apply wr_bytes_at; len).
  replace (Z.of_nat (length d2) + IP6_HDRLEN) with (Z.of_nat (length (d2 ++ ip)))
    by (unfold IP6_HDRLEN; len).
  erewrite bind_ok by (apply wr_bytes_at; len).
  change (Z.to_nat datalen) with 4%nat.
  step (rd_bytes_app [] test_data data 0 4 eq_refl eq_refl).
  replace (Z.of_nat (length (d2 ++ ip)) + ICMP_HDRLEN)
    with (Z.of_nat (length ((d2 ++ ip) ++ ic))) by (unfold ICMP_HDRLEN; len).
  rewrite wr_bytes_at by len. rewrite !drop_drop, Hi, Hc. unfold d2. by lnorm.
Qed.

Lemma build_frame_ok fuel smac dmac data frame buf :
  length smac = 6%nat → length dmac = 6%nat → (4 <= length data)%nat → (66 <= length frame)%nat →
  Z.of_nat (length buf) = IP_MAXPACKET → (3 <= fuel)%nat →
  build_frame fuel smac dmac data frame buf src dst = Ok (echo_frame src dst ++ drop 66 frame).
Proof.
  intros Hs Hd Hda Hfr Hb Hf. unfold build_frame.
  step (src_mac_ok smac Hs). step (dst_mac_ok dmac Hd). step (fill_data_ok data Hda).
  pose proof (icmp6_checksum_ok (send_iphdr src dst) (send_icmphdr 0) Hsrc Hdst
    ltac:(done) ltac:(done) ltac:(done) fuel buf test_data (drop 4 data) Hb
    ltac:(by repeat constructor) ltac:(done) Hf) as Hc.
  step Hc. by apply fill_frame_ok.
Qed.

(** The receiver's check of the message in the frame. *)
Lemma echo_frame_verifies fuel :
  (3 <= fuel)%nat →
  checksum6 fuel (pseudo_header src dst 12 IPPROTO_ICMPV6 ++ drop 54 (echo_frame src dst)) 52
  = Ok 0.
Proof.
  intros Hf. pose proof ip6_image_length as Hi. destruct Hsrc as [Hsl Hsb], Hdst as [Hdl Hdb].
  assert (Hdrop : drop 54 (echo_frame src dst)
    = icmp6_image (send_icmphdr (sent_cksum src dst)) ++ test_data).
  { unfold echo_frame. rewrite !app_assoc. rewrite <- (app_assoc _ (icmp6_image _)).
    apply drop_app_length'. by rewrite !length_app, Hi. }
  pose proof (checked_bytes (send_iphdr src dst) (send_icmphdr 0) Hsrc Hdst
    ltac:(done) ltac:(done) ltac:(done) test_data ltac:(by repeat constructor) ltac:(done)) as Hck.
  set (pre := pseudo_header src dst 12 IPPROTO_ICMPV6 ++ [ICMP6_ECHO_REQUEST; 0]).
  set (post := le_bytes 2 (htons 1000) ++ le_bytes 2 (htons 0) ++ test_data).
  assert (Heq : checked (send_iphdr src dst) (send_icmphdr 0) test_data = pre ++ 0 :: 0 :: post).
  { unfold checked, pre, post. rewrite <- app_assoc. done. }
  assert (Hpl : length pre = 42%nat) by (unfold pre, pseudo_header; len).
  rewrite Heq in Hck.
  destruct (checksum_fill pre post (sent_cksum src dst)) as [Hb Hoc].
  { by rewrite Hpl. } { done. } { unfold post. len. }
  { unfold sent_cksum. by rewrite Heq, rfc1071_wsum. }
  assert (Hwhole : pseudo_header src dst 12 IPPROTO_ICMPV6 ++ drop 54 (echo_frame src dst)
    = pre ++ u8 (sent_cksum src dst) :: u8 (sent_cksum src dst / 256) :: post).
  { rewrite Hdrop. unfold pre, post. rewrite <- app_assoc. done. }
  rewrite Hwhole. pose proof (checksum6_wsum _ [] fuel Hb) as Hv.
  rewrite Hoc, app_nil_r in Hv.
  replace 52 with (Z.of_nat (length
    (pre ++ u8 (sent_cksum src dst) :: u8 (sent_cksum src dst / 256) :: post)))
    by (unfold post; len).
  apply Hv; [unfold post; len|done].
Qed.
End frame.

(** ** The loops *)

Definition MAXPACKET : nat := Z.to_nat IP_MAXPACKET.

(** The zeroed buffer with the received frame. *)
Definition frame_buffer (d : bytes) : bytes :=
  take MAXPACKET d ++ replicate (MAXPACKET - length (take MAXPACKET d)) 0.

Definition is_reply (d : bytes) : bool :=
  let b := frame_buffer d in
  (Z.shiftl (at8 b 12) 8 + at8 b 13 =? ETH_P_IPV6) && (at8 b 20 =? IPPROTO_ICMPV6) &&
  (at8 b 54 =? ICMP6_ECHO_REPLY) && (at8 b 55 =? 0).

(** The address reported for a reply. *)
Definition reply_src (d : bytes) : bytes := take 16 (drop 22 (frame_buffer d)).

(** What leaves the receive loop as it is. *)
Definition ignorable (a : arrival) : Prop :=
  match a with
  | Eintr => True
  | Frame d _ => is_reply d = false
  | _ => False
  end.

#[export] Instance ignorable_dec a : Decision (ignorable a).
Proof. destruct a; simpl; apply _. Defined.

(** [listens a k r k' evs]: from the [k]-th reception on, the receive loop
    ends with [r] before the [k']-th one, having done [evs]. *)
Inductive listens (a : nat → arrival) : nat → recv_end → nat → list event6 → Prop :=
  | listens_timeout k : a k = Eagain → listens a k TimedOut (S k) [NoReply]
  | listens_died k : a k = Eother → listens a k Died (S k) [RecvFailed]
  | listens_text k d :
      a k = Frame d false → is_reply d = true → listens a k Died (S k) [TextFailed]
  | listens_reply k d :
      a k = Frame d true → is_reply d = true →
      listens a k Replied (S k) [Report (reply_src d) (Z.of_nat (length (take MAXPACKET d)))]
  | listens_skip k r k' evs :
      ignorable (a k) → listens a (S k) r k' evs → listens a k r k' evs.

Lemma frame_buffer_length d : length (frame_buffer d) = MAXPACKET.
Proof. unfold frame_buffer. rewrite length_app, length_take, length_replicate. lia. Qed.

Lemma memset_frame buf :
  length buf = MAXPACKET → memset buf 0 (Z.to_nat IP_MAXPACKET) = Ok (replicate MAXPACKET 0).
Proof.
  intros Hl. pose proof (memset_all 0 MAXPACKET [] buf Hl) as Hm.
  by rewrite !app_nil_r in Hm.
Qed.

Lemma recv_frame_ok d :
  recv_frame (replicate MAXPACKET 0) d
  = Ok (frame_buffer d, Z.of_nat (length (take MAXPACKET d))).
Proof.
  unfold recv_frame. fold MAXPACKET.
  pose proof (wr_bytes_head (take MAXPACKET d) (replicate MAXPACKET 0)) as Hw.
  rewrite drop_replicate in Hw. fold (frame_buffer d) in Hw.
  rewrite Hw; [done|]. rewrite length_take, length_replicate. lia.
Qed.

Lemma MAXPACKET_val : Z.of_nat MAXPACKET = 65535.
Proof. unfold MAXPACKET. by rewrite Z2Nat.id. Qed.

Lemma is_echo_reply_ok d : is_echo_reply (frame_buffer d) = Ok (is_reply d).
Proof.
  unfold is_echo_reply, is_reply.
  assert (Hrd : ∀ z, 0 <= z < 65535 → rd (frame_buffer d) z = Ok (at8 (frame_buffer d) z)).
  { intros z Hz. apply rd_at8. by rewrite frame_buffer_length, MAXPACKET_val. }
  step (Hrd 12 ltac:(lia)). step (Hrd 13 ltac:(lia)). step (Hrd 20 ltac:(lia)).
  step (Hrd 54 ltac:(lia)). by step (Hrd 55 ltac:(lia)).
Qed.

Lemma reply_src_ok d :
  rd_bytes (frame_buffer d) (ETH_HDRLEN + 8) 16 = Ok (reply_src d).
Proof.
  pose proof (frame_buffer_length d) as Hl. pose proof MAXPACKET_val as Hv.
  destruct (app_length_split (frame_buffer d) 22) as (b1 & b2 & Hb & H1); [lia|].
  destruct (app_length_split b2 16) as (b3 & b4 & -> & H3);
    [rewrite Hb, length_app in Hl; lia|].
  unfold reply_src. rewrite Hb.
  rewrite (drop_app_length' b1) by done. rewrite (take_app_length' b3) by done.
  apply rd_bytes_app; [rewrite H1|]; done.
Qed.

Lemma recv_loop_run a k r k' evs :
  listens a k r k' evs →
  ∃ N, ∀ fuel, (N <= fuel)%nat → ∀ buf t, length buf = MAXPACKET →
    ∃ buf', length buf' = MAXPACKET ∧ recv_loop fuel a buf k t = Ok ((r, k', buf'), t ++ evs).
Proof.
  induction 1 as [k Ha|k Ha|k d Ha Hd|k d Ha Hd|k r k' evs Hi _ (N & IH)];
    [exists 1%nat|exists 1%nat|exists 1%nat|exists 1%nat|exists (S N)];
    intros [|fuel] Hf buf t Hb; try lia; cbn [recv_loop]; lstep (memset_frame buf Hb).
  - rewrite Ha. eexists. split; [|done]. apply length_replicate.
  - rewrite Ha. eexists. split; [|done]. apply length_replicate.
  - rewrite Ha. exists (frame_buffer d). split; [apply frame_buffer_length|].
    lstep (recv_frame_ok d). lstep (is_echo_reply_ok d). rewrite Hd. cbv iota.
    by lstep (reply_src_ok d).
  - rewrite Ha. exists (frame_buffer d). split; [apply frame_buffer_length|].
    lstep (recv_frame_ok d). lstep (is_echo_reply_ok d). rewrite Hd. cbv iota.
    by lstep (reply_src_ok d).
  - destruct (a k) as [| | |d text]; try done.
    + apply IH; [lia|apply length_replicate].
    + lstep (recv_frame_ok d). lstep (is_echo_reply_ok d). cbn in Hi. rewrite Hi. cbv iota.
      apply IH; [lia|apply frame_buffer_length].
Qed.

(** Nothing but ignorable frames: the loop does not end. *)
Lemma recv_loop_diverges a fuel : ∀ k buf t,
  length buf = MAXPACKET → (∀ j, (k <= j)%nat → ignorable (a j)) →
  recv_loop fuel a buf k t = NoFuel.
Proof.
  induction fuel as [|f IH]; intros k buf t Hb Hi; [done|]. cbn [recv_loop].
  lstep (memset_frame buf Hb). pose proof (Hi k ltac:(lia)) as Hk.
  destruct (a k) as [| | |d text]; try done.
  - apply IH; [apply length_replicate|]. intros. apply Hi. lia.
  - lstep (recv_frame_ok d). lstep (is_echo_reply_ok d). cbn in Hk. rewrite Hk. cbv iota.
    apply IH; [apply frame_buffer_length|]. intros. apply Hi. lia.
Qed.

(** Something else arrives in the end: the loop ends. *)
Lemma listens_total a k j :
  (k <= j)%nat → ¬ ignorable (a j) → ∃ r k' evs, listens a k r k' evs.
Proof.
  intros Hkj Hj. remember (j - k)%nat as n eqn:Hn. revert k Hkj Hn.
  induction n as [|n IH]; intros k Hkj Hn; destruct (decide (ignorable (a k))) as [Hi|Hi];
    try (destruct (a k) as [| | |d []] eqn:Ha; try done; do 3 eexists;
         [by apply listens_timeout|by apply listens_died|
          apply (listens_reply a k d Ha); cbn in Hi; by destruct (is_reply d)|
          apply (listens_text a k d Ha); cbn in Hi; by destruct (is_reply d)]).
  - replace k with j in Hi by lia. done.
  - destruct (IH (S k) ltac:(lia) ltac:(lia)) as (r & k' & evs & H).
    do 3 eexists. by apply listens_skip.
Qed.

(** [timeouts a k n k']: [n] rounds of the receive loop that time out. *)
Inductive timeouts (a : nat → arrival) : nat → nat → nat → Prop :=
  | timeouts_none k : timeouts a k 0 k
  | timeouts_more k k1 k2 n :
      listens a k TimedOut k1 [NoReply] → timeouts a k1 n k2 → timeouts a k (S n) k2.

Definition release_events : list event6 :=
  [CloseSend; CloseRecv; Free 0; Free 1; Free 2; Free 3; Free 4; Free 5; Free 6; Free 7; Free 8;
   Free 9].

Lemma release_run t : release t = Ok (tt, t ++ release_events).
Proof. unfold release. rewrite !emit_bind. unfold emit. by lnorm. Qed.

Lemma timed_out_events a k k' r evs : listens a k r k' evs → r = TimedOut → evs = [NoReply].
Proof. induction 1; intros; (done || auto). Qed.

(** What is done after the last round. *)
Definition ends (r : recv_end) (evs : list event6) : list event6 :=
  match r with Died => evs | Replied => evs ++ release_events | TimedOut => evs end.

(** [n] further rounds time out before the one that ends with [r]. *)
Lemma send_loop_run sendto_rc a frame n : ∀ k k1 k2 r evs tries trycount,
  timeouts a k n k1 → listens a k1 r k2 evs → (∀ i, 0 < sendto_rc i) →
  0 <= trycount → trycount + Z.of_nat n < trylim →
  (r = TimedOut → trycount + Z.of_nat n = trylim - 1) →
  ∃ N, ∀ fuel, (N <= fuel)%nat → ∀ buf t, length buf = MAXPACKET →
    send_loop fuel sendto_rc a frame buf tries k trycount t
    = Ok (tt, t ++ concat (replicate n [Sent (take (Z.to_nat frame_length) frame); NoReply]) ++
              Sent (take (Z.to_nat frame_length) frame) ::
              match r with
              | TimedOut => NoReply :: GaveUp trylim :: release_events
              | _ => ends r evs
              end).
Proof.
  induction n as [|n IH]; intros k k1 k2 r evs tries trycount Ht Hl Hs H0 Hlt Hr;
    inversion Ht as [|? k3 ? ? Hl3 Ht3]; subst.
  - destruct (recv_loop_run a k1 r k2 evs Hl) as (N & HN). exists (S N).
    intros [|fuel] Hf buf t Hb; [lia|]. cbn [send_loop].
    rewrite (proj2 (Z.leb_gt _ _) (Hs tries)). rewrite emit_bind.
    destruct (HN fuel ltac:(lia) buf (t ++ [Sent (take (Z.to_nat frame_length) frame)]) Hb)
      as (buf' & _ & Hrun). rewrite (run_bind _ _ _ _ _ Hrun).
    destruct r; cbv iota beta.
    + rewrite (timed_out_events _ _ _ _ _ Hl eq_refl).
      replace (trycount + 1) with trylim by (specialize (Hr eq_refl); lia).
      rewrite Z.eqb_refl, emit_bind, release_run. by lnorm.
    + unfold mret, prog_ret, ends. by lnorm.
    + rewrite release_run. unfold ends. by lnorm.
  - destruct (recv_loop_run a k TimedOut k3 [NoReply] Hl3) as (N & HN).
    destruct (IH k3 k1 k2 r evs (S tries) (trycount + 1) Ht3 Hl Hs ltac:(lia) ltac:(lia))
      as (N' & HN'); [intros; specialize (Hr ltac:(done)); lia|].
    exists (S (N + N')). intros [|fuel] Hf buf t Hb; [lia|]. cbn [send_loop].
    rewrite (proj2 (Z.leb_gt _ _) (Hs tries)). rewrite emit_bind.
    destruct (HN fuel ltac:(lia) buf (t ++ [Sent (take (Z.to_nat frame_length) frame)]) Hb)
      as (buf' & Hb' & Hrun). rewrite (run_bind _ _ _ _ _ Hrun). cbv iota beta.
    rewrite (proj2 (Z.eqb_neq _ _)) by lia. rewrite HN' by (lia || done).
    cbn [replicate concat]. by lnorm.
Qed.

(** ** The whole program *)

Definition allocates (env : setup) : Prop :=
  ∀ i len, block_lengths !! i = Some len →
    ∃ b, mallocs env i = Some b ∧ length b = Z.to_nat len.

Definition set_up (env : setup) (src dst : bytes) : Prop :=
  allocates env ∧ 0 <= sendsd env ∧ ifindex env ≠ 0 ∧ gai_status env = 0 ∧ ntop_ok env = true ∧
  pton_src env = Some src ∧ pton_dst env = Some dst ∧ 0 <= recvsd env ∧
  (length src = 16%nat ∧ Forall byte_ok src) ∧ (length dst = 16%nat ∧ Forall byte_ok dst).

Lemma allocate_ok len b :
  0 < len → length b = Z.to_nat len →
  allocate_ustrmem len (Some b) = Ok (Some (replicate (Z.to_nat len) 0)).
Proof.
  intros Hp Hl. unfold allocate_ustrmem, allocate_strmem. guards.
  pose proof (memset_all 0 (Z.to_nat len) [] b Hl) as Hm. rewrite !app_nil_r in Hm. by step Hm.
Qed.

Lemma allocate_all_ok lens mallocs : ∀ i,
  (∀ j len, lens !! j = Some len →
     0 < len ∧ ∃ b, mallocs (i + j)%nat = Some b ∧ length b = Z.to_nat len) →
  allocate_all lens i mallocs
  = Ok (Some ((λ len, replicate (Z.to_nat len) 0) <$> lens)).
Proof.
  induction lens as [|len lens IH]; intros i H; [done|]. cbn [allocate_all].
  destruct (H O len eq_refl) as (Hp & b & Hb & Hl). rewrite Nat.add_0_r in Hb. rewrite Hb.
  step (allocate_ok len b Hp Hl). cbv iota. rewrite IH; [done|].
  intros j len' Hj. replace (S i + j)%nat with (i + S j)%nat by lia. by apply H.
Qed.

Lemma main6_send_loop env src dst buf sendto_rc a :
  set_up env src dst → Z.of_nat (length buf) = IP_MAXPACKET →
  ∃ rest rbuf, length rbuf = MAXPACKET ∧ ∀ fuel t, (3 <= fuel)%nat →
    main6 fuel env buf sendto_rc a t
    = send_loop fuel sendto_rc a (echo_frame src dst ++ rest) rbuf 0 0 0 t.
Proof.
  intros (Ha & Hs & Hi & Hg & Hn & Hps & Hpd & Hr & Hsrc & Hdst) Hb.
  exists (drop 66 (replicate (Z.to_nat IP_MAXPACKET) 0)), (replicate MAXPACKET 0).
  split; [apply length_replicate|]. intros fuel t Hf.
  assert (Hall : ∀ j len, block_lengths !! j = Some len →
    0 < len ∧ ∃ b, mallocs env (0 + j)%nat = Some b ∧ length b = Z.to_nat len).
  { intros j len Hj. split; [|by apply Ha].
    assert (Hpos : Forall (λ len, 0 < len) block_lengths) by (repeat constructor).
    by eapply Forall_lookup_1 in Hpos. }
  unfold main6. lstep (allocate_all_ok block_lengths (mallocs env) 0 Hall).
  cbn [fmap list_fmap block_lengths]. guards. rewrite Hn, Hps, Hpd. cbn [negb].
  assert (Hbig : (66 <= length (replicate (Z.to_nat IP_MAXPACKET) (0 : Z)))%nat).
  { rewrite length_replicate. fold MAXPACKET. pose proof MAXPACKET_val. lia. }
  rewrite (lift_bind _ _ _ _ (build_frame_ok src dst Hsrc Hdst fuel _ _ _ _ buf
    (length_replicate _ _) (length_replicate _ _) (Nat.le_trans 4 66 _ ltac:(lia) Hbig) Hbig Hb Hf)).
  done.
Qed.

(** ** Properties *)

(** C16 (bounds): [icmp6_checksum] on a payload of up to 65486 bytes is the
    RFC 1071 checksum, in network order, of the pseudo-header of RFC 2460
    followed by the message with its checksum field zero, although the fields
    are stored in another order; every longer payload overruns the local array,
    unless its length and that of the header add up to no [int], which is an
    overflow. *)
Theorem icmp6_checksum_spec fuel buf ip h payload extra long :
  length (ip6_src ip) = 16%nat → Forall byte_ok (ip6_src ip) →
  length (ip6_dst ip) = 16%nat → Forall byte_ok (ip6_dst ip) →
  byte_ok (ip6_nxt ip) → byte_ok (icmp6_type h) → byte_ok (icmp6_code h) →
  Z.of_nat (length buf) = IP_MAXPACKET → Forall byte_ok payload → (3 <= fuel)%nat →
  Z.of_nat (length payload) <= 65486 → 65486 < Z.of_nat (length long) <= INT_MAX - 8 →
  icmp6_checksum fuel buf ip h (payload ++ extra) (Z.of_nat (length payload))
  = Ok (ntohs (rfc1071 (pseudo_header (ip6_src ip) (ip6_dst ip) (8 + Z.of_nat (length payload))
                          (ip6_nxt ip) ++
                        icmp6_image (icmp6_zeroed h) ++ payload))) ∧
  icmp6_checksum fuel buf ip h long (Z.of_nat (length long)) = UB OutOfBounds ∧
  ∀ n, INT_MAX - 8 < n → icmp6_checksum fuel buf ip h long n = UB SignedOverflow.
Proof.
  intros. split_and!; [by apply icmp6_checksum_ok| |intros; by apply icmp6_checksum_overflow].
  apply icmp6_checksum_long; [done..|]. unfold ICMP_HDRLEN. lia.
Qed.

Lemma icmp6_checksum_spec_witness :
  let src := replicate 16 32 in let dst := replicate 16 254 in let payload := [84; 101; 115] in
  let buf := replicate (Z.to_nat IP_MAXPACKET) 165 in
  let h := Icmp6Hdr 128 0 0 59395 0 in
  icmp6_checksum 3 buf (Ip6Hdr 96 0 58 255 src dst) h (payload ++ [9]) 3
  = Ok (ntohs (rfc1071 (pseudo_header src dst 11 58 ++ icmp6_image (icmp6_zeroed h) ++ payload))) ∧
  icmp6_checksum 3 buf (Ip6Hdr 96 0 58 255 src dst) h (replicate (Z.to_nat 65487) 84)
    (Z.of_nat (length (replicate (Z.to_nat 65487) 84))) = UB OutOfBounds ∧
  ∀ n, INT_MAX - 8 < n →
    icmp6_checksum 3 buf (Ip6Hdr 96 0 58 255 src dst) h (replicate (Z.to_nat 65487) 84) n
    = UB SignedOverflow.
Proof.
  apply (icmp6_checksum_spec 3 (replicate (Z.to_nat IP_MAXPACKET) 165)
    (Ip6Hdr 96 0 58 255 (replicate 16 32) (replicate 16 254)) (Icmp6Hdr 128 0 0 59395 0)
    [84; 101; 115] [9] (replicate (Z.to_nat 65487) 84));
    [reflexivity|by apply Forall_replicate|reflexivity|by apply Forall_replicate|done..|
     by rewrite length_replicate|by repeat constructor|lia|done|].
  rewrite length_replicate, Z2Nat.id by lia. unfold INT_MAX. lia.
Defined.

(** C15 (functional): the frame that is sent: 66 bytes, broadcast destination,
    the source address with its six bytes in reverse ([77:75:66:27:00:08] for
    [08:00:27:66:75:77]), the IPv6 and ICMPv6 headers and the text [Test];
    the checksum of the ICMPv6 message in it verifies. *)
Theorem build_frame_spec fuel smac dmac data frame buf src dst :
  length src = 16%nat ∧ Forall byte_ok src → length dst = 16%nat ∧ Forall byte_ok dst →
  length smac = 6%nat → length dmac = 6%nat → (4 <= length data)%nat → (66 <= length frame)%nat →
  Z.of_nat (length buf) = IP_MAXPACKET → (3 <= fuel)%nat →
  ∃ c,
    let f := replicate 6 255 ++ [119; 117; 102; 39; 0; 8] ++ [134; 221] ++
             [96; 0; 0; 0; 0; 12; 58; 255] ++ src ++ dst ++
             [128; 0] ++ le_bytes 2 c ++ [3; 232; 0; 0] ++ [84; 101; 115; 116] in
    build_frame fuel smac dmac data frame buf src dst = Ok (f ++ drop 66 frame) ∧
    Z.of_nat (length f) = frame_length ∧
    checksum6 fuel (pseudo_header src dst 12 58 ++ drop 54 f) 52 = Ok 0.
Proof.
  intros Hs Hd Hsm Hdm Hda Hfr Hb Hf. exists (sent_cksum src dst).
  assert (He : echo_frame src dst = replicate 6 255 ++ [119; 117; 102; 39; 0; 8] ++ [134; 221] ++
             [96; 0; 0; 0; 0; 12; 58; 255] ++ src ++ dst ++
             [128; 0] ++ le_bytes 2 (sent_cksum src dst) ++ [3; 232; 0; 0] ++ [84; 101; 115; 116]).
  { unfold echo_frame, ip6_image, icmp6_image. cbn [ip6_src ip6_dst send_iphdr].
    generalize (sent_cksum src dst). intros c. lnorm. done. }
  cbv zeta. rewrite <- He. split_and!.
  - by apply build_frame_ok.
  - by rewrite echo_frame_length.
  - by apply echo_frame_verifies.
Qed.

Lemma build_frame_spec_witness :
  let src := replicate 16 32 in let dst := replicate 16 254 in
  ∃ c,
    let f := replicate 6 255 ++ [119; 117; 102; 39; 0; 8] ++ [134; 221] ++
             [96; 0; 0; 0; 0; 12; 58; 255] ++ src ++ dst ++
             [128; 0] ++ le_bytes 2 c ++ [3; 232; 0; 0] ++ [84; 101; 115; 116] in
    build_frame 3 (replicate 6 0) (replicate 6 0) [0; 0; 0; 0; 7] (replicate 70 0)
      (replicate (Z.to_nat IP_MAXPACKET) 165) src dst = Ok (f ++ [0; 0; 0; 0]) ∧
    Z.of_nat (length f) = frame_length ∧
    checksum6 3 (pseudo_header src dst 12 58 ++ drop 54 f) 52 = Ok 0.
Proof.
  apply (build_frame_spec 3 (replicate 6 0) (replicate 6 0) [0; 0; 0; 0; 7] (replicate 70 0)
    (replicate (Z.to_nat IP_MAXPACKET) 165) (replicate 16 32) (replicate 16 254));
    try (split; [done|by apply Forall_replicate]); try done; try (simpl; lia).
Defined.

(** C14 (functional): a session with everything set up: after [n] rounds that
    time out the frame is sent once more, and then, as the last round ends,
    the reply is reported and everything released; or the process dies; or,
    when it was the third round, the program gives up and releases
    everything. *)
Theorem ping6_session env src dst buf sendto_rc a n k r k' evs :
  set_up env src dst → Z.of_nat (length buf) = IP_MAXPACKET → (∀ i, 0 < sendto_rc i) →
  timeouts a 0 n k → listens a k r k' evs → Z.of_nat n < trylim →
  (r = TimedOut → Z.of_nat n = trylim - 1) →
  returns (λ fuel, main6 fuel env buf sendto_rc a [])
    (tt, concat (replicate n [Sent (echo_frame src dst); NoReply]) ++
         Sent (echo_frame src dst) ::
         match r with
         | TimedOut => NoReply :: GaveUp trylim :: release_events
         | Died => evs
         | Replied => evs ++ release_events
         end).
Proof.
  intros Hset Hb Hs Ht Hl Hn Hr.
  destruct (main6_send_loop env src dst buf sendto_rc a Hset Hb) as (rest & rbuf & Hrb & Hm).
  destruct (send_loop_run sendto_rc a (echo_frame src dst ++ rest) n 0 k k' r evs 0 0 Ht Hl Hs
    ltac:(lia) ltac:(lia) ltac:(intros; rewrite Hr by done; lia)) as (N & HN).
  exists (N + 3)%nat. intros fuel Hf. rewrite Hm, HN by (lia || done).
  rewrite take_app_length' by (by destruct Hset as (_ & _ & _ & _ & _ & _ & _ & _ & ? & ?);
    rewrite echo_frame_length). by destruct r.
Qed.

(** A set-up in which everything works. *)
Definition good_setup : setup :=
  Setup (λ i, (λ len, replicate (Z.to_nat len) 170) <$> block_lengths !! i) 3 2 0 true
    (Some (replicate 16 32)) (Some (replicate 16 254)) 4.

Lemma good_setup_ok : set_up good_setup (replicate 16 32) (replicate 16 254).
Proof.
  split_and!; try done; try (by apply Forall_replicate).
  intros i len Hi. unfold good_setup. cbn [mallocs]. rewrite Hi.
  eexists. split; [done|]. apply length_replicate.
Qed.

Lemma ping6_session_witness :
  let a k := match k with 0 => Eagain | 1 => Eintr | 2 => Eagain | _ => Eother end%nat in
  let f := echo_frame (replicate 16 32) (replicate 16 254) in
  returns (λ fuel, main6 fuel good_setup (replicate (Z.to_nat IP_MAXPACKET) 165) (λ _, 66) a [])
    (tt, [Sent f; NoReply; Sent f; NoReply; Sent f; RecvFailed]).
Proof.
  intros a f.
  apply (ping6_session good_setup (replicate 16 32) (replicate 16 254)
    (replicate (Z.to_nat IP_MAXPACKET) 165) (λ _, 66) a 2 3 Died 4 [RecvFailed] good_setup_ok).
  - by rewrite length_replicate, Z2Nat.id.
  - lia.
  - eapply timeouts_more; [by apply listens_timeout|].
    eapply timeouts_more; [by apply listens_skip; [|apply listens_timeout]|apply timeouts_none].
  - by apply listens_died.
  - done.
  - done.
Defined.

(** C38 (termination): if, whatever has arrived, something that is not ignored
    (an echo reply, a timeout, another error) arrives later, the program ends,
    after it has sent its frame at most three times. *)
Theorem ping6_ends env src dst buf sendto_rc a :
  set_up env src dst → Z.of_nat (length buf) = IP_MAXPACKET → (∀ i, 0 < sendto_rc i) →
  (∀ k, ∃ j, (k <= j)%nat ∧ ¬ ignorable (a j)) →
  ∃ n evs, (n <= 2)%nat ∧ (∀ f, Sent f ∉ evs) ∧
    returns (λ fuel, main6 fuel env buf sendto_rc a [])
      (tt, concat (replicate n [Sent (echo_frame src dst); NoReply]) ++
           Sent (echo_frame src dst) :: evs).
Proof.
  intros Hset Hb Hs Hev.
  assert (Hrounds : ∀ m k, (∃ n k1 k2 r evs, (n <= m)%nat ∧ timeouts a k n k1 ∧
    listens a k1 r k2 evs ∧ (r = TimedOut → n = m))).
  { induction m as [|m IH]; intros k; destruct (Hev k) as (j & Hj & Hnj);
      destruct (listens_total a k j Hj Hnj) as (r & k' & evs & Hl).
    - exists O, k, k', r, evs. split_and!; [done|constructor|done|done].
    - destruct (decide (r = TimedOut)) as [->|Hr].
      + destruct (IH k') as (n & k1 & k2 & r & evs' & Hn & Ht & Hl' & Hr).
        exists (S n), k1, k2, r, evs'. split_and!; [lia| |done|intros; f_equal; auto].
        pose proof (timed_out_events _ _ _ _ _ Hl eq_refl). subst.
        by eapply timeouts_more.
      + exists O, k, k', r, evs. split_and!; [lia|constructor|done|done]. }
  destruct (Hrounds 2%nat O) as (n & k1 & k2 & r & evs & Hn & Ht & Hl & Hr).
  destruct (main6_send_loop env src dst buf sendto_rc a Hset Hb) as (rest & rbuf & Hrb & Hm).
  destruct (send_loop_run sendto_rc a (echo_frame src dst ++ rest) n 0 k1 k2 r evs 0 0 Ht Hl Hs
    ltac:(lia) ltac:(unfold trylim; lia) ltac:(intros; rewrite Hr by done; done)) as (N & HN).
  eexists n, _. split; [done|]. split.
  2: { exists (N + 3)%nat. intros fuel Hf. rewrite Hm, HN by (lia || done).
       rewrite take_app_length' by (by destruct Hset as (_ & _ & _ & _ & _ & _ & _ & _ & ? & ?);
         rewrite echo_frame_length). done. }
  intros f. assert (Hne : Sent f ∉ evs).
  { clear -Hl. induction Hl; [set_solver..|done]. }
  destruct r; unfold ends, release_events; set_solver.
Qed.

Lemma ping6_ends_witness :
  ∃ n evs, (n <= 2)%nat ∧ (∀ f, Sent f ∉ evs) ∧
    returns (λ fuel, main6 fuel good_setup (replicate (Z.to_nat IP_MAXPACKET) 165) (λ _, 66)
                       (λ k, if decide (k = 1)%nat then Eintr else Eagain) [])
      (tt, concat (replicate n [Sent (echo_frame (replicate 16 32) (replicate 16 254)); NoReply]) ++
           Sent (echo_frame (replicate 16 32) (replicate 16 254)) :: evs).
Proof.
  apply (ping6_ends good_setup (replicate 16 32) (replicate 16 254)
    (replicate (Z.to_nat IP_MAXPACKET) 165) (λ _, 66)).
  - apply good_setup_ok.
  - by rewrite length_replicate, Z2Nat.id.
  - lia.
  - intros k. exists (k + 2)%nat. split; [lia|]. rewrite decide_False by lia. tauto.
Defined.

(** The two seconds bound the wait for each frame, not for the
    reply: while other frames keep arriving the program neither gives up nor
    sends again, and never ends. *)
Theorem ping6_waits_for_ever env src dst buf sendto_rc a :
  set_up env src dst → Z.of_nat (length buf) = IP_MAXPACKET → 0 < sendto_rc O →
  (∀ k, ignorable (a k)) →
  ∀ fuel, (3 <= fuel)%nat → main6 fuel env buf sendto_rc a [] = NoFuel.
Proof.
  intros Hset Hb Hs Hi fuel Hf.
  destruct (main6_send_loop env src dst buf sendto_rc a Hset Hb) as (rest & rbuf & Hrb & Hm).
  rewrite Hm by done. destruct fuel as [|f]; [lia|]. cbn [send_loop].
  rewrite (proj2 (Z.leb_gt _ _) Hs), emit_bind. unfold mbind, prog_bind.
  by rewrite recv_loop_diverges.
Qed.

Lemma ping6_waits_for_ever_witness :
  main6 9 good_setup (replicate (Z.to_nat IP_MAXPACKET) 165) (λ _, 66) (λ _, Eintr) [] = NoFuel.
Proof.
  apply (ping6_waits_for_ever good_setup (replicate 16 32) (replicate 16 254)
    (replicate (Z.to_nat IP_MAXPACKET) 165) (λ _, 66)).
  - apply good_setup_ok.
  - by rewrite length_replicate, Z2Nat.id.
  - lia.
  - done.
  - lia.
Defined.
