(* ===== verification/Heap.v ===== *)
(** * A heap of linked nodes

    The memory the list and tree programs work on: nodes of one C structure,
    each allocated by [malloc] and addressed by a location.  A freed location
    keeps a mark and is never handed out again, so that every use after
    [free] and every second [free] is a fault.  Exhaustion of memory is left
    out. *)
From S2P Require Import Prelude.

Abbreviation loc := positive.

(** A pointer variable or field: null, never assigned, or an address. *)
Inductive ptr := Null | Undef | Ptr (l : loc).

#[export] Instance ptr_eq_dec : EqDecision ptr.
Proof. solve_decision. Defined.

(** Live nodes and freed locations. *)
Abbreviation heap N := (gmap loc (option N)).

Section heap.
Context {N : Type}.
Implicit Types (h : heap N) (n : N) (l : loc) (p : ptr).

(** The address in a pointer that is used. *)
Definition addr (p : ptr) : res loc :=
  match p with
  | Null => UB NullDeref
  | Undef => UB Uninit
  | Ptr l => Ok l
  end.

Definition load (p : ptr) : prog (heap N) N := λ h,
  l ← addr p;
  match h !! l with
  | Some (Some n) => Ok (n, h)
  | _ => UB UseAfterFree
  end.

(** An assignment to fields of the node at [p]. *)
Definition modify (p : ptr) (f : N → N) : prog (heap N) unit := λ h,
  l ← addr p;
  match h !! l with
  | Some (Some n) => Ok (tt, <[l := Some (f n)]> h)
  | _ => UB UseAfterFree
  end.

Definition fresh_loc (h : heap N) : loc := fresh (dom h : gset loc).

(** [malloc] and the assignments that follow it at once. *)
Definition alloc (n : N) : prog (heap N) ptr := λ h,
  Ok (Ptr (fresh_loc h), <[fresh_loc h := Some n]> h).

Definition free (p : ptr) : prog (heap N) unit := λ h,
  match p with
  | Null => Ok (tt, h)
  | Undef => UB Uninit
  | Ptr l =>
      match h !! l with
      | Some (Some _) => Ok (tt, <[l := None]> h)
      | _ => UB UseAfterFree
      end
  end.

(** A test of a pointer against [NULL], or of two pointers against each other. *)
Definition is_null (p : ptr) : res bool :=
  match p with Null => Ok true | Undef => UB Uninit | Ptr _ => Ok false end.

Definition same_ptr (p q : ptr) : res bool :=
  match p, q with
  | Undef, _ | _, Undef => UB Uninit
  | _, _ => Ok (bool_decide (p = q))
  end.

(** ** Laws *)

Lemma load_ok h l n : h !! l = Some (Some n) → load (Ptr l) h = Ok (n, h).
Proof. intros H. unfold load. simpl. by rewrite H. Qed.

Lemma modify_ok h l n f :
  h !! l = Some (Some n) → modify (Ptr l) f h = Ok (tt, <[l := Some (f n)]> h).
Proof. intros H. unfold modify. simpl. by rewrite H. Qed.

Lemma free_ok h l n : h !! l = Some (Some n) → free (Ptr l) h = Ok (tt, <[l := None]> h).
Proof. intros H. unfold free. by rewrite H. Qed.

Lemma fresh_loc_spec h : h !! fresh_loc h = None.
Proof. apply (not_elem_of_dom (D := gset loc)). exact (is_fresh (dom h : gset loc)). Qed.

Lemma alloc_ok h n : alloc n h = Ok (Ptr (fresh_loc h), <[fresh_loc h := Some n]> h).
Proof. done. Qed.

(** [keeps h h' ls]: the two heaps agree outside the locations [ls]. *)
Definition keeps (h h' : heap N) (ls : list loc) : Prop :=
  ∀ l, l ∉ ls → h' !! l = h !! l.

Lemma keeps_refl h ls : keeps h h ls.
Proof. done. Qed.

Lemma keeps_trans h1 h2 h3 ls ls' :
  keeps h1 h2 ls → keeps h2 h3 ls' → keeps h1 h3 (ls ++ ls').
Proof.
  intros H1 H2 l Hl. rewrite not_elem_of_app in Hl. destruct Hl. by rewrite H2, H1.
Qed.

Lemma keeps_sub h h' ls ls' : keeps h h' ls → ls ⊆ ls' → keeps h h' ls'.
Proof. intros H Hs l Hl. apply H. auto. Qed.

Lemma keeps_insert h l v : keeps h (<[l := v]> h) [l].
Proof. intros k Hk. rewrite lookup_insert_ne; [done|]. intros ->. by apply Hk, list_elem_of_here. Qed.
End heap.

#[export] Hint Resolve keeps_refl keeps_insert : core.

(** ** Arrays of a fixed length *)

Section arrays.
Context {A : Type}.

Definition arr_get (a : list A) (i : Z) : res A :=
  if (i <? 0)%Z then UB OutOfBounds
  else match a !! Z.to_nat i with Some v => Ok v | None => UB OutOfBounds end.

Definition arr_set (a : list A) (i : Z) (v : A) : res (list A) :=
  if ((i <? 0) || (Z.of_nat (length a) <=? i))%Z then UB OutOfBounds
  else Ok (<[Z.to_nat i := v]> a).

Lemma arr_get_app l x r i : i = Z.of_nat (length l) → arr_get (l ++ x :: r) i = Ok x.
Proof.
  intros ->. unfold arr_get. bdestr.
  by rewrite Nat2Z.id, lookup_app_r, Nat.sub_diag by done.
Qed.

Lemma arr_set_app l x r i v :
  i = Z.of_nat (length l) → arr_set (l ++ x :: r) i v = Ok (l ++ v :: r).
Proof.
  intros ->. unfold arr_set. rewrite length_app. simpl length. bdestr. simpl.
  by rewrite Nat2Z.id, insert_app_r_alt, Nat.sub_diag by done.
Qed.

Lemma arr_set_oob a i v : (i < 0 ∨ Z.of_nat (length a) <= i)%Z → arr_set a i v = UB OutOfBounds.
Proof. intros H. unfold arr_set. by bdestr. Qed.

Lemma arr_get_oob a i : (i < 0 ∨ Z.of_nat (length a) <= i)%Z → arr_get a i = UB OutOfBounds.
Proof.
  intros H. unfold arr_get. bdestr; [done|]. by rewrite lookup_ge_None_2 by lia.
Qed.
End arrays.

(** A program step known to return, in a goal about a heap program. *)
Tactic Notation "hstep" uconstr(H) := erewrite run_bind by (apply H).
