(* ===== verification/LinkedList.v ===== *)
(** * Singly-linked lists

    The node of [src/data_struct/linked_list/mylist.h] (the structures of
    [PS_3.c] and [addList.c] are the same up to names), the loop that walks to
    the end of a list, the insertion all three programs contain, and the
    description of a list in the heap. *)
From S2P Require Import Prelude Heap.

(** ** Data *)

Record mylist := Node { data : Z; next : ptr }.

Abbreviation lheap := (heap mylist).
Abbreviation lprog := (prog lheap).

Definition set_data (v : Z) (n : mylist) : mylist := Node v (next n).
Definition set_next (p : ptr) (n : mylist) : mylist := Node (data n) p.

(** ** Operations *)

(** [while (temp1->next != NULL) temp1 = temp1->next;] *)
Fixpoint find_last (fuel : nat) (p : ptr) : lprog ptr :=
  match fuel with
  | O => λ _, NoFuel
  | S f =>
      n ← load p;
      b ← lift (is_null (next n));
      if b : bool then mret p else find_last f (next n)
  end.

(** [insert]: the new value of [*head] is the result. *)
Definition insert (fuel : nat) (head : ptr) (v : Z) : lprog ptr :=
  temp ← alloc (Node v Null);
  b ← lift (is_null head);
  if b : bool then mret temp
  else
    temp1 ← find_last fuel head;
    _ ← modify temp1 (set_next temp);
    mret head.

(** [printlist]: the values printed. *)
Fixpoint printlist (fuel : nat) (head : ptr) : lprog (list Z) :=
  match fuel with
  | O => λ _, NoFuel
  | S f =>
      b ← lift (is_null head);
      if b : bool then mret []
      else
        n ← load head;
        vs ← printlist f (next n);
        mret (data n :: vs)
  end.

(** ** Lists in the heap *)

(** Nodes in order, each with its location and value. *)
Abbreviation nodes := (list (loc * Z)).

(** The pointer to the first of [ls], or [q]. *)
Definition first (ls : nodes) (q : ptr) : ptr :=
  match ls with [] => q | (l, _) :: _ => Ptr l end.

(** [lseg h ls q]: the nodes [ls] are live, linked, and the last leads to [q]. *)
Fixpoint lseg (h : lheap) (ls : nodes) (q : ptr) : Prop :=
  match ls with
  | [] => True
  | (l, v) :: ls' => h !! l = Some (Some (Node v (first ls' q))) ∧ lseg h ls' q
  end.

(** A list from [p] on, ending with [NULL], without a cycle. *)
Definition is_list (h : lheap) (p : ptr) (ls : nodes) : Prop :=
  p = first ls Null ∧ lseg h ls Null ∧ NoDup ls.*1.

(** ** Laws *)

Lemma first_app ls ls' q : first (ls ++ ls') q = first ls (first ls' q).
Proof. by destruct ls as [|[]]. Qed.

Lemma lseg_app h ls ls' q :
  lseg h (ls ++ ls') q ↔ lseg h ls (first ls' q) ∧ lseg h ls' q.
Proof.
  induction ls as [|[l v] ls IH]; simpl; [tauto|]. rewrite IH, first_app. tauto.
Qed.

Lemma lseg_lookup h ls q l v :
  lseg h ls q → (l, v) ∈ ls → ∃ p, h !! l = Some (Some (Node v p)).
Proof.
  induction ls as [|[l' v'] ls IH]; simpl; [set_solver|].
  intros [Hl Hs] [[= -> ->]|Hin]%elem_of_cons; eauto.
Qed.

(** A segment depends on its own locations only. *)
Lemma lseg_keeps h h' ls q ls' :
  lseg h ls q → keeps h h' ls' → ls.*1 ## ls' → lseg h' ls q.
Proof.
  induction ls as [|[l v] ls IH]; simpl; [done|]. intros [Hl Hs] Hk Hd.
  split; [rewrite Hk; [done|set_solver]|]. apply IH; [done..|set_solver].
Qed.

Lemma lseg_fresh h ls q : lseg h ls q → fresh_loc h ∉ ls.*1.
Proof.
  intros Hs Hin. apply list_elem_of_fmap in Hin as ([l v] & Heq & Hin). simpl in *.
  destruct (lseg_lookup h ls q l v Hs Hin) as [p Hp]. rewrite <- Heq in Hp.
  by rewrite fresh_loc_spec in Hp.
Qed.

(** The walk reaches the last node. *)
Lemma find_last_run h ls l v :
  lseg h (ls ++ [(l, v)]) Null →
  ∀ fuel, (length ls < fuel)%nat →
    find_last fuel (first (ls ++ [(l, v)]) Null) h = Ok (Ptr l, h).
Proof.
  induction ls as [|[l1 v1] ls IH]; intros Hs fuel Hf; (destruct fuel as [|f]; [simpl in Hf; lia|]);
    cbn [app first lseg find_last] in *; destruct Hs as [Hl Hs].
  - hstep (load_ok h l _ Hl). done.
  - hstep (load_ok h l1 _ Hl). cbn [next]. rewrite first_app.
    destruct ls as [|[l2 v2] ls]; cbn [app first] in *.
    + cbn. apply (IH Hs). simpl in *. lia.
    + cbn. apply (IH Hs). simpl in *. lia.
Qed.

Lemma insert_run h p ls v :
  is_list h p ls → let l := fresh_loc h in
  ∃ h' p', is_list h' p' (ls ++ [(l, v)]) ∧ keeps h h' (l :: ls.*1) ∧
    ∀ fuel, (length ls < fuel)%nat → insert fuel p v h = Ok (p', h').
Proof.
  intros (-> & Hs & Hnd) l. pose proof (lseg_fresh h ls Null Hs) as Hfr. fold l in Hfr.
  set (h1 := <[l := Some (Node v Null)]> h).
  assert (Hs1 : lseg h1 ls Null).
  { apply (lseg_keeps h h1 ls Null [l] Hs); [apply keeps_insert|set_solver]. }
  assert (Hl1 : h1 !! l = Some (Some (Node v Null))) by apply lookup_insert_eq.
  assert (Hk1 : keeps h h1 [l]) by apply keeps_insert.
  destruct ls as [|[k w] ls _] using rev_ind.
  - exists h1, (Ptr l). split_and!; [by split_and!; [| |apply NoDup_singleton]| |].
    + eapply keeps_sub; [done|set_solver].
    + intros fuel Hf. unfold insert. hstep alloc_ok. done.
  - set (h2 := <[k := Some (Node w (Ptr l))]> h1).
    assert (Hkl : k ≠ l) by (rewrite fmap_app in Hfr; set_solver).
    exists h2, (first (ls ++ [(k, w)]) Null). split_and!.
    + split_and!.
      * rewrite !first_app. by destruct ls as [|[]].
      * rewrite fmap_app in *. apply NoDup_app in Hnd as (Hnd1 & Hnd2 & _).
        rewrite <- app_assoc. apply lseg_app in Hs1 as [Ha Hb]. apply lseg_app. split.
        -- eapply (lseg_keeps h1 h2 ls (Ptr k) [k]); [done|apply keeps_insert|].
           intros x Hx Hxk. set_solver.
        -- split; [apply lookup_insert_eq|]. split; [|done].
           cbn [first]. unfold h2. by rewrite lookup_insert_ne.
      * rewrite !fmap_app. rewrite fmap_app in Hnd. apply NoDup_app. split_and!.
        -- done.
        -- set_solver.
        -- apply NoDup_singleton.
    + eapply keeps_sub; [eapply keeps_trans; [exact Hk1|apply keeps_insert]|].
      rewrite fmap_app. set_solver.
    + intros fuel Hf. unfold insert. hstep alloc_ok.
      assert (Hnn : is_null (first (ls ++ [(k, w)]) Null) = Ok false)
        by (by destruct ls as [|[]]).
      lstep Hnn. cbv iota.
      rewrite length_app in Hf. simpl in Hf.
      hstep (find_last_run h1 ls k w Hs1 fuel ltac:(lia)).
      apply lseg_app in Hs1 as [_ [Hkw _]]. hstep (modify_ok h1 k _ (set_next (Ptr l)) Hkw). done.
Qed.

Lemma printlist_run h ls :
  lseg h ls Null → ∀ fuel, (length ls < fuel)%nat →
    printlist fuel (first ls Null) h = Ok (ls.*2, h).
Proof.
  induction ls as [|[l v] ls IH]; intros Hs [|f] Hf; try (simpl in Hf; lia); [done|].
  destruct Hs as [Hl Hs]. cbn [first printlist is_null]. rewrite (run_bind _ _ _ false h) by done.
  hstep (load_ok h l _ Hl). cbn [next data].
  simpl in Hf. hstep (IH Hs f ltac:(lia)). done.
Qed.
