(* ===== verification/MyList.v ===== *)
(** * The linked list of [data_struct]

    [deletenode] of [src/data_struct/linked_list/mylist.c] and the session of
    [list.c]; [insert] and [printlist] are in LinkedList.  [mylist **head] is
    always the address of a local variable of the caller: it is modelled by
    passing the value and returning the new one. *)
From S2P Require Import Prelude Heap LinkedList.

Local Open Scope Z_scope.

(** ** Operations *)

(** [while (temp != NULL && temp->data == key)]: the new [*head_ref]. *)
Fixpoint drop_head (fuel : nat) (temp : ptr) (key : Z) : lprog ptr :=
  match fuel with
  | O => λ _, NoFuel
  | S f =>
      b ← lift (is_null temp);
      if b : bool then mret temp
      else
        n ← load temp;
        if data n =? key then _ ← free temp; drop_head f (next n) key
        else mret temp
  end.

(** [while (temp != NULL && temp->data != key) { prev = temp; ... }] *)
Fixpoint scan (fuel : nat) (temp prev : ptr) (key : Z) : lprog (ptr * ptr) :=
  match fuel with
  | O => λ _, NoFuel
  | S f =>
      b ← lift (is_null temp);
      if b : bool then mret (temp, prev)
      else
        n ← load temp;
        if data n =? key then mret (temp, prev) else scan f (next n) temp key
  end.

(** The outer loop. *)
Fixpoint delete_rest (fuel : nat) (temp prev : ptr) (key : Z) : lprog unit :=
  match fuel with
  | O => λ _, NoFuel
  | S f =>
      b ← lift (is_null temp);
      if b : bool then mret tt
      else
        '(temp, prev) ← scan fuel temp prev key;
        b ← lift (is_null temp);
        if b : bool then mret tt
        else
          n ← load temp;
          _ ← modify prev (set_next (next n));
          _ ← free temp;
          pn ← load prev;
          delete_rest f (next pn) prev key
  end.

(** [prev] is not initialised before the outer loop. *)
Definition deletenode (fuel : nat) (head : ptr) (key : Z) : lprog ptr :=
  head ← drop_head fuel head key;
  _ ← delete_rest fuel head Undef key;
  mret head.

(** [while (count != 0) { scanf; insert; count--; }] of [list.c]; a [scanf]
    at the end of the input leaves [num] as it was. *)
Fixpoint read_list (fuel : nat) (count num : Z) (input : list Z) (head : ptr)
    : lprog (ptr * Z * list Z) :=
  match fuel with
  | O => λ _, NoFuel
  | S f =>
      if count =? 0 then mret (head, num, input)
      else
        let num := match input with [] => num | x :: _ => x end in
        head ← insert f head num;
        count ← lift (add_int count (-1));
        read_list f count num (tail input) head
  end.

(** [main]: the two lists printed.  [num] starts with whatever it holds. *)
Definition list_main (fuel : nat) (num count : Z) (input : list Z) : lprog (list Z * list Z) :=
  '(head, num, input) ← read_list fuel count num input Null;
  before ← printlist fuel head;
  let num := match input with [] => num | x :: _ => x end in
  head ← deletenode fuel head num;
  after ← printlist fuel head;
  mret (before, after).

(** ** Deletion *)

Section delete.
Context (key : Z).

(** The nodes that stay, and those that go. *)
Definition kept (ls : nodes) : nodes := filter (λ x : loc * Z, x.2 ≠ key) ls.
Definition freed (h : lheap) (ls : nodes) : Prop := ∀ l, (l, key) ∈ ls → h !! l = Some None.

Lemma kept_app ls ls' : kept (ls ++ ls') = kept ls ++ kept ls'.
Proof. apply filter_app. Qed.

Lemma kept_cons_key l ls : kept ((l, key) :: ls) = kept ls.
Proof. unfold kept. rewrite filter_cons_False; [done|]. simpl. tauto. Qed.

Lemma kept_cons_ne l v ls : v ≠ key → kept ((l, v) :: ls) = (l, v) :: kept ls.
Proof. intros. unfold kept. by rewrite filter_cons_True. Qed.

Lemma kept_all ls : Forall (λ x : loc * Z, x.2 ≠ key) ls → kept ls = ls.
Proof. induction 1 as [|[l v] ls H _ IH]; [done|]. by rewrite kept_cons_ne, IH. Qed.

Lemma kept_sub ls : (kept ls).*1 ⊆ ls.*1.
Proof.
  intros l Hl. apply list_elem_of_fmap in Hl as (x & -> & Hx).
  apply list_elem_of_fmap_2. by apply list_elem_of_filter in Hx as [_ Hx].
Qed.

Lemma drop_head_run ls : ∀ h fuel,
  lseg h ls Null → NoDup ls.*1 → (length ls < fuel)%nat →
  ∃ h' ls', drop_head fuel (first ls Null) key h = Ok (first ls' Null, h') ∧
    lseg h' ls' Null ∧ kept ls' = kept ls ∧ (length ls' <= length ls)%nat ∧
    ls' `suffix_of` ls ∧ keeps h h' ls.*1 ∧
    (∀ l, (l, key) ∈ ls → (l, key) ∉ ls' → h' !! l = Some None) ∧
    match ls' with [] => True | (_, v) :: _ => v ≠ key end.
Proof.
  induction ls as [|[l v] ls IH]; intros h [|f] Hs Hnd Hf; try (simpl in Hf; lia).
  { exists h, []. split_and!; try done. }
  destruct Hs as [Hl Hs]. cbn [first drop_head is_null].
  rewrite (run_bind _ _ _ false h) by done. hstep (load_ok h l _ Hl). cbn [data next].
  destruct (Z.eqb_spec v key) as [->|Hv].
  - hstep (free_ok h l _ Hl). apply NoDup_cons in Hnd as [Hnl Hnd].
    destruct (IH (<[l := None]> h) f) as (h' & ls' & Hr & Hs' & Hk & Hle & Hsuf & Hkp & Hfr & Hhd).
    { eapply lseg_keeps; [done|apply keeps_insert|]. intros x Hx Hxl. set_solver. }
    { done. } { simpl in Hf. lia. }
    exists h', ls'. split_and!; try done.
    + by rewrite kept_cons_key.
    + simpl. lia.
    + by apply suffix_cons_r.
    + intros k Hk'. rewrite Hkp by set_solver. rewrite lookup_insert_ne; [done|]. set_solver.
    + intros k [[= ->]|Hin]%elem_of_cons Hnin; [|by apply Hfr].
      rewrite Hkp by done. apply lookup_insert_eq.
  - exists h, ((l, v) :: ls). split_and!; try done. 
Qed.
(** Where the inner loop stops. *)
Lemma split_key ls : ∃ ns tail,
  ls = ns ++ tail ∧ Forall (λ x : loc * Z, x.2 ≠ key) ns ∧
  (tail = [] ∨ ∃ l r, tail = (l, key) :: r).
Proof using.
  induction ls as [|[l v] ls (ns & tail & -> & Hn & Ht)].
  - exists [], []. auto.
  - destruct (decide (v = key)) as [->|Hv].
    + exists [], ((l, key) :: ns ++ tail). eauto 6.
    + exists ((l, v) :: ns), tail. split_and!; [done| |done]. by constructor.
Qed.

Lemma scan_run ns tail : ∀ h lp vp fuel,
  lseg h (ns ++ tail) Null → Forall (λ x : loc * Z, x.2 ≠ key) ns →
  (tail = [] ∨ ∃ l r, tail = (l, key) :: r) → (length (ns ++ tail) < fuel)%nat →
  ∃ ns' lq vq, (lp, vp) :: ns = ns' ++ [(lq, vq)] ∧
    scan fuel (first (ns ++ tail) Null) (Ptr lp) key h = Ok ((first tail Null, Ptr lq), h).
Proof using.
  induction ns as [|[l v] ns IH]; intros h lp vp [|f] Hs Hn Ht Hf; try lia.
  - exists [], lp, vp. split; [done|]. destruct Ht as [->|(l & r & ->)]; [done|].
    destruct Hs as [Hl Hs]. cbn [app first scan is_null].
    rewrite (run_bind _ _ _ false h) by done. hstep (load_ok h l _ Hl). cbn [data].
    by rewrite Z.eqb_refl.
  - apply Forall_cons in Hn as [Hv Hn]. destruct Hs as [Hl Hs].
    destruct (IH h l v f Hs Hn Ht) as (ns' & lq & vq & Heq & Hr); [simpl in Hf; lia|].
    exists ((lp, vp) :: ns'), lq, vq. split; [by rewrite Heq|].
    cbn [app first scan is_null]. rewrite (run_bind _ _ _ false h) by done.
    hstep (load_ok h l _ Hl). cbn [data next].
    rewrite (proj2 (Z.eqb_neq v key)) by done. exact Hr.
Qed.

(** The outer loop is about to look behind the node [lp], or at [lp] itself,
    which stays. *)
Definition looks (temp prev : ptr) (lp : loc) (vp : Z) (rest : nodes) : Prop :=
  (temp = first rest Null ∧ prev = Ptr lp) ∨ (temp = Ptr lp ∧ vp ≠ key).

Lemma scan_from ns tail h lp vp temp prev fuel :
  looks temp prev lp vp (ns ++ tail) → lseg h ((lp, vp) :: ns ++ tail) Null →
  Forall (λ x : loc * Z, x.2 ≠ key) ns →
  (tail = [] ∨ ∃ l r, tail = (l, key) :: r) → (length (ns ++ tail) + 1 < fuel)%nat →
  ∃ ns' lq vq, (lp, vp) :: ns = ns' ++ [(lq, vq)] ∧
    scan fuel temp prev key h = Ok ((first tail Null, Ptr lq), h).
Proof using.
  intros [[-> ->]|[-> Hv]] [Hl Hs] Hn Ht Hf.
  - apply scan_run; (done || lia).
  - destruct fuel as [|f]; [lia|].
    destruct (scan_run ns tail h lp vp f Hs Hn Ht ltac:(lia)) as (ns' & lq & vq & Heq & Hr).
    exists ns', lq, vq. split; [done|]. cbn [scan is_null].
    rewrite (run_bind _ _ _ false h) by done. hstep (load_ok h lp _ Hl). cbn [data next].
    rewrite (proj2 (Z.eqb_neq vp key)) by done. exact Hr.
Qed.

(** One turn of the loop: the node [l] behind [lq] is unlinked and freed. *)
Lemma unlink_run f temp prev h lq vq l nx :
  is_null temp = Ok false → scan (S f) temp prev key h = Ok ((Ptr l, Ptr lq), h) →
  h !! lq = Some (Some (Node vq (Ptr l))) → h !! l = Some (Some (Node key nx)) → lq ≠ l →
  ∃ h2, delete_rest (S f) temp prev key h = delete_rest f nx (Ptr lq) key h2 ∧
    h2 !! lq = Some (Some (Node vq nx)) ∧ h2 !! l = Some None ∧ keeps h h2 [lq; l].
Proof using.
  intros Hn Hscan Hq Hl Hne. set (h1 := <[lq := Some (Node vq nx)]> h).
  assert (Hl1 : h1 !! l = Some (Some (Node key nx))) by (unfold h1; by rewrite lookup_insert_ne).
  assert (Hq2 : <[l := None]> h1 !! lq = Some (Some (Node vq nx))).
  { rewrite lookup_insert_ne by done. apply lookup_insert_eq. }
  exists (<[l := None]> h1). split_and!; [|done|apply lookup_insert_eq|].
  - cbn [delete_rest]. lstep Hn. hstep Hscan. cbn [is_null].
    rewrite (run_bind _ _ _ false h) by done.
    hstep (load_ok h l _ Hl). hstep (modify_ok h lq _ (set_next nx) Hq).
    unfold set_next. cbn [data next]. hstep (free_ok h1 l _ Hl1). by hstep (load_ok _ lq _ Hq2).
  - eapply (keeps_trans h h1 _ [lq] [l]); apply keeps_insert.
Qed.

(** From a node [lp] that stays on: everything behind it with the key goes. *)
Lemma delete_rest_run k : ∀ rest h lp vp temp prev fuel,
  length rest = k → looks temp prev lp vp rest →
  lseg h ((lp, vp) :: rest) Null → NoDup (lp :: rest.*1) → (k + 1 < fuel)%nat →
  ∃ h', delete_rest fuel temp prev key h = Ok (tt, h') ∧
    lseg h' ((lp, vp) :: kept rest) Null ∧ freed h' rest ∧ keeps h h' (lp :: rest.*1).
Proof.
  induction k as [k IH] using lt_wf_ind. intros rest h lp vp temp prev [|f] Hk Hlk Hs Hnd Hf; [lia|].
  destruct (split_key rest) as (ns & tail & -> & Hns & Ht).
  destruct (scan_from ns tail h lp vp temp prev (S f)) as (ns' & lq & vq & Heq & Hscan);
    [done..|lia|].
  destruct Ht as [->|(l & r & ->)].
  - rewrite app_nil_r in *. exists h. split_and!; [|by rewrite kept_all| |done].
    + cbn [delete_rest]. assert (Hb : is_null temp = Ok true ∨ is_null temp = Ok false).
      { destruct Hlk as [[-> _]|[-> _]]; [destruct ns as [|[]]|]; auto. }
      destruct Hb as [Hb|Hb]; lstep Hb; [done|]. by hstep Hscan.
    + intros l Hl. rewrite Forall_forall in Hns. by destruct (Hns _ Hl).
  - rewrite fmap_app, fmap_cons in Hnd. cbn [fst] in Hnd.
    assert (Hall : lp :: ns.*1 = ns'.*1 ++ [lq]).
    { apply (f_equal (fmap fst)) in Heq. by rewrite fmap_app in Heq. }
    change (lp :: ns.*1 ++ l :: r.*1) with ((lp :: ns.*1) ++ l :: r.*1) in Hnd.
    rewrite Hall in Hnd.
    change ((lp, vp) :: ns ++ (l, key) :: r) with (((lp, vp) :: ns) ++ (l, key) :: r) in Hs.
    rewrite Heq, <- app_assoc in Hs. apply lseg_app in Hs as [Hpre [Hq [Hl Hr]]].
    cbn [first] in *.
    apply NoDup_app in Hnd as (Hnd1 & Hnd2 & [Hnl Hnr]%NoDup_cons).
    apply NoDup_app in Hnd1 as (Hn' & Hnq & _).
    assert (Hqn : lq ∉ l :: r.*1) by (apply Hnd2, elem_of_app; right; by apply list_elem_of_singleton).
    apply not_elem_of_cons in Hqn as [Hql Hqr].
    assert (Hnn : is_null temp = Ok false)
      by (destruct Hlk as [[-> _]|[-> _]]; by destruct ns as [|[]]).
    destruct (unlink_run f temp prev h lq vq l (first r Null)) as (h2 & Hstep & Hq2 & Hl2 & Hkeep);
      [done..|].
    assert (Hr2 : lseg h2 r Null).
    { eapply lseg_keeps; [exact Hr|exact Hkeep|]. intros x Hx Hin.
      apply elem_of_cons in Hin as [->|Hin]; [done|]. apply list_elem_of_singleton in Hin. by subst. }
    destruct (IH (length r)) with (rest := r) (h := h2) (lp := lq) (vp := vq)
      (temp := first r Null) (prev := Ptr lq) (fuel := f)
      as (h' & Hrun & [Hq' Hs'] & Hfr & Hkp).
    { rewrite length_app in Hk. simpl in Hk. lia. }
    { done. } { by left. } { done. } { by apply NoDup_cons. }
    { rewrite length_app in Hk. simpl in Hk. lia. }
    exists h'. split_and!.
    + by rewrite Hstep.
    + rewrite kept_app, kept_cons_key, (kept_all ns) by done.
      change ((lp, vp) :: ns ++ kept r) with (((lp, vp) :: ns) ++ kept r).
      rewrite Heq, <- app_assoc. apply lseg_app. split; [|by split].
      cbn [app first].
      eapply (lseg_keeps h h' ns' (Ptr lq) ([lq; l] ++ lq :: r.*1)); [done|by eapply keeps_trans|].
      intros x Hx Hin. pose proof (Hnq x Hx) as A.
      pose proof (Hnd2 x ltac:(apply elem_of_app; by left)) as B. clear -A B Hin. set_solver.
    + intros x [Hx|[[= ->]|Hx]%elem_of_cons]%elem_of_app; [|rewrite Hkp|by apply Hfr].
      * rewrite Forall_forall in Hns. by destruct (Hns _ Hx).
      * done.
      * rewrite not_elem_of_cons. split; [congruence|done].
    + eapply keeps_sub; [by eapply keeps_trans|].
      rewrite fmap_app, fmap_cons. cbn [fst].
      change (lp :: ns.*1 ++ l :: r.*1) with ((lp :: ns.*1) ++ l :: r.*1). rewrite Hall.
      clear. set_solver.
Qed.
End delete.

(** ** The operations as a whole *)

Lemma kept_nodup key ls : NoDup ls.*1 → NoDup (kept key ls).*1.
Proof.
  induction ls as [|[l v] ls IH]; intros Hnd; [constructor|].
  apply NoDup_cons in Hnd as [Hl Hnd]. destruct (decide (v = key)) as [->|Hv].
  - rewrite kept_cons_key. auto.
  - rewrite kept_cons_ne by done. apply NoDup_cons. split; [|auto].
    intros Hin. by apply Hl, (kept_sub key).
Qed.

Lemma deletenode_run key h p ls fuel :
  is_list h p ls → (length ls < fuel)%nat →
  ∃ h' p', deletenode fuel p key h = Ok (p', h') ∧ is_list h' p' (kept key ls) ∧
    freed key h' ls ∧ keeps h h' ls.*1.
Proof.
  intros (-> & Hs & Hnd) Hf.
  destruct (drop_head_run key ls h fuel Hs Hnd Hf)
    as (h1 & ls1 & Hd & Hs1 & Hk1 & Hle & [pre ->] & Hkp1 & Hfr1 & Hhd).
  unfold deletenode. hstep Hd. rewrite <- Hk1. destruct ls1 as [|[lp vp] rest].
  - exists h1, Null. split_and!; [|split_and!; [done|done|constructor]| |done].
    + destruct fuel; [lia|done].
    + intros l Hl. apply Hfr1; [done|]. apply not_elem_of_nil.
  - rewrite fmap_app, fmap_cons in Hnd. apply NoDup_app in Hnd as (_ & Hdis & Hnd). cbn [fst] in *.
    rewrite length_app in Hf. cbn [length] in Hf.
    destruct (delete_rest_run key (length rest) rest h1 lp vp (Ptr lp) Undef fuel eq_refl)
      as (h2 & Hr & Hs2 & Hfr2 & Hkp2); [by right|done|done|lia|].
    exists h2, (Ptr lp). split_and!.
    + cbn [first]. by hstep Hr.
    + rewrite kept_cons_ne by done. split_and!; [done|done|].
      apply (kept_nodup key ((lp, vp) :: rest)) in Hnd. by rewrite kept_cons_ne in Hnd.
    + intros l Hl. apply elem_of_app in Hl as [Hl|[[= -> ->]|Hl]%elem_of_cons]; [|done|by apply Hfr2].
      assert (Hlpre : l ∈ pre.*1) by (by apply (list_elem_of_fmap_2 fst) in Hl).
      rewrite Hkp2 by (by apply Hdis). apply Hfr1; [apply elem_of_app; by left|].
      intros Hin. apply (Hdis l Hlpre). by apply (list_elem_of_fmap_2 fst) in Hin.
    + eapply keeps_sub; [by eapply keeps_trans|]. rewrite fmap_app, fmap_cons. cbn [fst].
      clear. set_solver.
Qed.

(** Reading [vs] builds the list of its values, behind what is there. *)
Lemma read_list_run vs : ∀ h p ls num rest fuel,
  is_list h p ls → Z.of_nat (length vs) <= INT_MAX →
  (length ls + 2 * length vs < fuel)%nat →
  ∃ h' p' num' ls', read_list fuel (Z.of_nat (length vs)) num (vs ++ rest) p h
    = Ok ((p', num', rest), h') ∧ is_list h' p' ls' ∧ ls'.*2 = ls.*2 ++ vs ∧
      length ls' = (length ls + length vs)%nat.
Proof.
  induction vs as [|v vs IH]; intros h p ls num rest [|f] Hp Hmax Hf; try (simpl in Hf; lia).
  - exists h, p, num, ls. rewrite app_nil_r. split_and!; [done..|]. simpl. lia.
  - cbn [length read_list app tail] in *. guards.
    destruct (insert_run h p ls v Hp) as (h1 & p1 & Hp1 & _ & Hi).
    hstep (Hi f ltac:(lia)). unfold mbind, prog_bind, lift.
    rewrite add_int_ok by (unfold INT_MIN, INT_MAX in *; lia).
    replace (Z.of_nat (S (length vs)) + -1) with (Z.of_nat (length vs)) by lia.
    destruct (IH h1 p1 (ls ++ [(fresh_loc h, v)]) v rest f Hp1)
      as (h' & p' & num' & ls' & Hr & Hl & Hv & Hlen); [lia|len|].
    exists h', p', num', ls'. split_and!; [done|done| |].
    + rewrite Hv, fmap_app, <- app_assoc. done.
    + rewrite Hlen. len.
Qed.

Lemma kept_values key ls : (kept key ls).*2 = filter (λ v, v ≠ key) ls.*2.
Proof.
  induction ls as [|[l v] ls IH]; [done|]. destruct (decide (v = key)) as [->|Hv].
  - rewrite kept_cons_key, IH. csimpl. by rewrite filter_cons_False by tauto.
  - rewrite kept_cons_ne by done. csimpl. by rewrite filter_cons_True, IH.
Qed.

Lemma kept_length key ls : (length (kept key ls) <= length ls)%nat.
Proof. apply length_filter. Qed.

(** ** Properties *)

(** C19 (functional): [deletenode] returns a list of exactly the nodes whose
    value is not [key], in order and at their old addresses; every node with
    the key has been freed, once; no other memory is touched; and nothing is
    read after it was freed or before it was set. *)
Theorem deletenode_spec key h p ls fuel :
  is_list h p ls → (length ls < fuel)%nat →
  ∃ h' p', deletenode fuel p key h = Ok (p', h') ∧
    is_list h' p' (filter (λ x : loc * Z, x.2 ≠ key) ls) ∧
    (∀ l, (l, key) ∈ ls → h' !! l = Some None) ∧
    (∀ l, l ∉ ls.*1 → h' !! l = h !! l).
Proof. apply deletenode_run. Qed.

(** The list 4, 7, 4, 4, 9 in memory, beside another node. *)
Definition some_nodes : nodes := [(1%positive, 4); (2%positive, 7); (5%positive, 4); (3%positive, 4); (4%positive, 9)].
Definition some_heap : lheap :=
  {[1%positive := Some (Node 4 (Ptr 2)); 2%positive := Some (Node 7 (Ptr 5));
    5%positive := Some (Node 4 (Ptr 3)); 3%positive := Some (Node 4 (Ptr 4));
    4%positive := Some (Node 9 Null); 6%positive := Some (Node 1 Undef)]}.

Lemma some_heap_list : is_list some_heap (Ptr 1) some_nodes.
Proof. split_and!; [done|by vm_compute|]. apply (bool_decide_unpack _). by vm_compute. Qed.

Lemma deletenode_spec_witness :
  ∃ h' p', deletenode 6 (Ptr 1) 4 some_heap = Ok (p', h') ∧
    is_list h' p' [(2%positive, 7); (4%positive, 9)] ∧
    (∀ l, (l, 4) ∈ some_nodes → h' !! l = Some None) ∧
    (∀ l, l ∉ some_nodes.*1 → h' !! l = some_heap !! l).
Proof. apply (deletenode_spec 4 some_heap (Ptr 1) some_nodes 6 some_heap_list). simpl. lia. Defined.

(** The session of [list.c]: after the count, that many
    numbers and the number to delete, it prints the numbers in the order they
    were read and then the numbers different from the last one. *)
Theorem list_session num vs key rest fuel :
  Z.of_nat (length vs) <= INT_MAX → (2 * length vs < fuel)%nat →
  ∃ h', list_main fuel num (Z.of_nat (length vs)) (vs ++ key :: rest) ∅
        = Ok ((vs, filter (λ v, v ≠ key) vs), h').
Proof.
  intros Hmax Hf. unfold list_main.
  destruct (read_list_run vs ∅ Null [] num (key :: rest) fuel) as (h & p & num' & ls & Hr & Hl & Hv & Hlen);
    [split_and!; [done|done|constructor]|done|simpl; lia|].
  simpl in Hv, Hlen. hstep Hr. pose proof Hl as (Hp & Hs & _). rewrite Hp.
  hstep (printlist_run h ls Hs fuel ltac:(lia)). rewrite <- Hp.
  destruct (deletenode_run key h p ls fuel Hl ltac:(lia)) as (h' & p' & Hd & (Hp' & Hs' & _) & _ & _).
  hstep Hd. rewrite Hp'. pose proof (kept_length key ls).
  hstep (printlist_run h' (kept key ls) Hs' fuel ltac:(lia)).
  exists h'. by rewrite kept_values, Hv.
Qed.

Lemma list_session_witness :
  ∃ h', list_main 9 0 3 [5; 2; 5; 5; 77] ∅ = Ok (([5; 2; 5], [2]), h').
Proof. apply (list_session 0 [5; 2; 5] 5 [77] 9); [vm_compute; discriminate|simpl; lia]. Defined.
