(* ===== verification/ListSort.v ===== *)
(** * Sorting a linked list in place

    [src/Interview_Questions/PS/PS_3.c]: [swap] and the bubble sort [sort],
    which moves values between the nodes of a list and leaves the nodes where
    they are. *)
From Stdlib Require Import Sorted.
From S2P Require Import Prelude Heap LinkedList.

Local Open Scope Z_scope.

(** ** Operations *)

(** [insert] and [print_list]: the same steps as in the list of LinkedList. *)
Definition insert_end : nat → ptr → Z → lprog ptr := insert.
Definition print_list : nat → ptr → lprog (list Z) := printlist.

(** [swap(&(current->data), &(current->next->data))]. *)
Definition swap (first second : ptr) : lprog unit :=
  n ← load first;
  let temp := data n in
  m ← load second;
  _ ← modify first (set_data (data m));
  modify second (set_data temp).

(** The inner loop: the final [current], and [swapped]. *)
Fixpoint bubble (fuel : nat) (current rptr : ptr) (swapped : bool) : lprog (ptr * bool) :=
  match fuel with
  | O => λ _, NoFuel
  | S f =>
      n ← load current;
      b ← lift (same_ptr (next n) rptr);
      if b : bool then mret (current, swapped)
      else
        m ← load (next n);
        swapped ← (if data n >? data m then _ ← swap current (next n); mret true
                   else mret swapped);
        n ← load current;
        bubble f (next n) rptr swapped
  end.

(** [do ... while (swapped)]. *)
Fixpoint sort_loop (fuel : nat) (head rptr : ptr) : lprog unit :=
  match fuel with
  | O => λ _, NoFuel
  | S f =>
      '(current, swapped) ← bubble fuel head rptr false;
      if swapped : bool then sort_loop f head current else mret tt
  end.

Definition sort (fuel : nat) (head : ptr) : lprog unit := sort_loop fuel head Null.

(** [main]: the values inserted, and the two lists printed. *)
Definition sort_values : list Z := [10; 40; 4; 4; 90; 30; 20].

Fixpoint insert_all (fuel : nat) (head : ptr) (vs : list Z) : lprog ptr :=
  match vs with
  | [] => mret head
  | v :: vs' => head ← insert_end fuel head v; insert_all fuel head vs'
  end.

Definition sort_main (fuel : nat) : lprog (list Z * list Z) :=
  head ← insert_all fuel Null sort_values;
  before ← print_list fuel head;
  _ ← sort fuel head;
  after ← print_list fuel head;
  mret (before, after).

(** ** One pass, on the values *)

(** The values after a pass over [x :: vs], and whether any were exchanged. *)
Fixpoint pass (x : Z) (vs : list Z) : list Z * bool :=
  match vs with
  | [] => ([x], false)
  | y :: vs' =>
      if x >? y then (y :: (pass x vs').1, true)
      else (x :: (pass y vs').1, (pass y vs').2)
  end.

Lemma pass_perm vs : ∀ x, (pass x vs).1 ≡ₚ x :: vs.
Proof.
  induction vs as [|y vs IH]; intros x; [done|]. cbn [pass]. destruct (x >? y); cbn [fst].
  - rewrite IH. apply Permutation_swap.
  - by rewrite IH.
Qed.

Lemma pass_length vs x : length (pass x vs).1 = S (length vs).
Proof. by rewrite (pass_perm vs x). Qed.

(** The largest value ends up at the end. *)
Lemma pass_last vs : ∀ x, ∃ p m,
  (pass x vs).1 = p ++ [m] ∧ Forall (λ v, v <= m) p ∧ x <= m.
Proof.
  induction vs as [|y vs IH]; intros x; [exists [], x; split_and!; (done || lia)|].
  cbn [pass]. rewrite Z.gtb_ltb. destruct (Z.ltb_spec y x); cbn [fst].
  - destruct (IH x) as (p & m & -> & Hp & Hm). exists (y :: p), m.
    split_and!; [done|constructor; [lia|done]|done].
  - destruct (IH y) as (p & m & -> & Hp & Hm). exists (x :: p), m.
    split_and!; [done|constructor; [lia|done]|lia].
Qed.

(** Without an exchange the values were in order. *)
Lemma pass_unswapped vs : ∀ x,
  (pass x vs).2 = false → (pass x vs).1 = x :: vs ∧ StronglySorted Z.le (x :: vs).
Proof.
  induction vs as [|y vs IH]; intros x; [by repeat constructor|].
  cbn [pass]. rewrite Z.gtb_ltb. destruct (Z.ltb_spec y x) as [|Hxy]; cbn [fst snd]; [done|].
  intros Hf. destruct (IH y Hf) as [-> Hs]. split; [done|]. constructor; [done|].
  apply StronglySorted_inv in Hs as [_ Hy]. constructor; [done|].
  eapply Forall_impl; [exact Hy|]. simpl. lia.
Qed.

(** ** One pass, in the heap *)

Lemma zip_cons (l : loc) (x : Z) ls vs : zip (l :: ls) (x :: vs) = (l, x) :: zip ls vs.
Proof. done. Qed.

Lemma first_zip ls vs q :
  length ls = length vs → first (zip ls vs) q = match ls with [] => q | l :: _ => Ptr l end.
Proof. by destruct ls, vs. Qed.

Lemma fst_zip (ls : list loc) (vs : list Z) : length ls = length vs → (zip ls vs).*1 = ls.
Proof. intros H. apply fst_zip. lia. Qed.

Lemma snd_zip (ls : list loc) (vs : list Z) : length ls = length vs → (zip ls vs).*2 = vs.
Proof. intros H. apply snd_zip. lia. Qed.

Lemma last_default {A} (ls : list A) : ∀ k a b, List.last (k :: ls) a = List.last (k :: ls) b.
Proof. induction ls as [|c ls IH]; intros k a b; [done|]. apply IH. Qed.

(** The exchange of two neighbours. *)
Lemma swap_run h l k x y nl nk :
  h !! l = Some (Some (Node x nl)) → h !! k = Some (Some (Node y nk)) → l ≠ k →
  ∃ h2, swap (Ptr l) (Ptr k) h = Ok (tt, h2) ∧ h2 !! l = Some (Some (Node y nl)) ∧
    h2 !! k = Some (Some (Node x nk)) ∧ keeps h h2 [l; k].
Proof.
  intros Hl Hk Hlk. set (h1 := <[l := Some (Node y nl)]> h).
  assert (Hk1 : h1 !! k = Some (Some (Node y nk))) by (unfold h1; by rewrite lookup_insert_ne).
  exists (<[k := Some (Node x nk)]> h1). split_and!.
  - unfold swap. hstep (load_ok h l _ Hl). hstep (load_ok h k _ Hk). cbn [data].
    hstep (modify_ok h l _ (set_data y) Hl). exact (modify_ok h1 k _ (set_data x) Hk1).
  - rewrite lookup_insert_ne by done. apply lookup_insert_eq.
  - apply lookup_insert_eq.
  - eapply (keeps_trans h h1 _ [l] [k]); apply keeps_insert.
Qed.

Lemma bubble_run ls : ∀ l x vs h q sw fuel,
  length ls = length vs → lseg h (zip (l :: ls) (x :: vs)) q → NoDup (l :: ls) →
  (∀ k, k ∈ ls → Ptr k ≠ q) → q ≠ Undef → (length ls < fuel)%nat →
  ∃ h', bubble fuel (Ptr l) q sw h = Ok ((Ptr (List.last (l :: ls) l), sw || (pass x vs).2), h') ∧
    lseg h' (zip (l :: ls) (pass x vs).1) q ∧ keeps h h' (l :: ls).
Proof.
  induction ls as [|k ls IH]; intros l x [|y vs] h q sw [|f] Hlen Hs Hnd Hq Hu Hf;
    try discriminate; try (simpl in Hf; lia).
  - destruct Hs as [Hl _]. exists h. split_and!; [|done|done].
    cbn [bubble]. hstep (load_ok h l _ Hl). cbn [next first zip zip_with].
    assert (Hsame : same_ptr q q = Ok true) by (destruct q; try done; cbn; by rewrite bool_decide_eq_true_2).
    lstep Hsame. cbn [pass snd]. by rewrite orb_false_r.
  - injection Hlen as Hlen. rewrite !zip_cons in Hs. destruct Hs as [Hl [Hk Hs]]. cbn [first] in *.
    pose proof (first_zip ls vs q Hlen) as Hfz. rewrite Hfz in Hk.
    apply NoDup_cons in Hnd as [Hnl Hnd]. pose proof Hnd as [Hnk _]%NoDup_cons.
    apply not_elem_of_cons in Hnl as [Hlk Hnl].
    set (nk := match ls with [] => q | l :: _ => Ptr l end) in *.
    cbn [bubble]. hstep (load_ok h l _ Hl). cbn [next data].
    assert (Hsame : same_ptr (Ptr k) q = Ok false).
    { pose proof (Hq k ltac:(by left)). destruct q; try done.
      cbn. by rewrite bool_decide_eq_false_2. }
    lstep Hsame. hstep (load_ok h k _ Hk). cbn [data pass].
    destruct (x >? y) eqn:Hxy; cbn [fst snd].
    + destruct (swap_run h l k _ _ _ _ Hl Hk Hlk) as (h2 & Hsw & Hl2 & Hk2 & Hkeep).
      erewrite run_bind by (by hstep Hsw). hstep (load_ok h2 l _ Hl2). cbn [next].
      destruct (IH k x vs h2 q true f Hlen) as (h' & Hr & Hs' & Hkp); try done.
      { rewrite zip_cons. split; [by rewrite Hfz|].
        eapply lseg_keeps; [exact Hs|exact Hkeep|].
        rewrite fst_zip by done. intros z Hz Hin. set_solver. }
      { intros z Hz. apply Hq. by right. } { simpl in Hf. lia. }
      exists h'. split_and!.
      * rewrite Hr, orb_true_r, (last_default ls k k l). done.
      * rewrite zip_cons. split; [|exact Hs'].
        rewrite Hkp by (by apply not_elem_of_cons).
        destruct (pass x vs).1 eqn:Hp; [|done]. pose proof (pass_length vs x) as Hpl.
        by rewrite Hp in Hpl.
      * eapply keeps_sub; [by eapply keeps_trans|]. clear. set_solver.
    + rewrite (run_bind _ _ _ sw h) by done. hstep (load_ok h l _ Hl). cbn [next].
      destruct (IH k y vs h q sw f Hlen) as (h' & Hr & Hs' & Hkp); try done.
      { rewrite zip_cons. split; [by rewrite Hfz|done]. }
      { intros z Hz. apply Hq. by right. } { simpl in Hf. lia. }
      exists h'. split_and!.
      * rewrite Hr, (last_default ls k k l). done.
      * rewrite zip_cons. split; [|exact Hs'].
        rewrite Hkp by (by apply not_elem_of_cons).
        destruct (pass y vs).1 eqn:Hp; [|done]. pose proof (pass_length vs y) as Hpl.
        by rewrite Hp in Hpl.
      * eapply keeps_sub; [done|]. clear. set_solver.
Qed.

(** ** All passes *)

Lemma zip_app (l1 l2 : list loc) (v1 v2 : list Z) :
  length l1 = length v1 → zip (l1 ++ l2) (v1 ++ v2) = zip l1 v1 ++ zip l2 v2.
Proof. apply zip_with_app. Qed.

Lemma sorted_app (a b : list Z) :
  StronglySorted Z.le a → StronglySorted Z.le b → Forall (λ v, Forall (Z.le v) b) a →
  StronglySorted Z.le (a ++ b).
Proof.
  intros Ha Hb Hab. induction Ha as [|v a Ha IH Hv]; [done|].
  apply Forall_cons in Hab as [Hvb Hab]. cbn. constructor; [auto|].
  apply Forall_app. done.
Qed.

Lemma last_split (pre : list loc) l : ∃ ini, l :: pre = ini ++ [List.last (l :: pre) l].
Proof.
  exists (removelast (l :: pre)). apply app_removelast_last. done.
Qed.

Lemma sort_loop_run n : ∀ pre pv suf sv h fuel,
  length pre = S n → length pv = length pre → length sv = length suf →
  lseg h (zip (pre ++ suf) (pv ++ sv)) Null → NoDup (pre ++ suf) →
  StronglySorted Z.le sv → Forall (λ v, Forall (Z.le v) sv) pv → (S n < fuel)%nat →
  ∃ h' vs', sort_loop fuel (first (zip pre pv) Null) (first (zip suf sv) Null) h = Ok (tt, h') ∧
    lseg h' (zip (pre ++ suf) vs') Null ∧ vs' ≡ₚ pv ++ sv ∧ StronglySorted Z.le vs' ∧
    keeps h h' (pre ++ suf).
Proof.
  induction n as [|n IH]; intros [|l pre] [|x pv] suf sv h [|f] Hn Hpv Hsv Hs Hnd Hss Hle Hf;
    try discriminate; try lia; injection Hn as Hn; injection Hpv as Hpv;
    rewrite zip_app in Hs by (simpl; lia); apply lseg_app in Hs as [Hs1 Hs2];
    destruct (bubble_run pre l x pv h (first (zip suf sv) Null) false (S f)) as (h1 & Hb & Hs1' & Hk);
    try done; try lia; try (by apply NoDup_app in Hnd as (? & _ & _));
    try (by destruct suf, sv);
    try (intros k Hk; destruct suf as [|k' suf], sv as [|v' sv]; try done; cbn [first zip zip_with];
         intros [= ->]; apply NoDup_app in Hnd as (_ & Hd & _);
         by apply (Hd k'); [right|left]);
    assert (Hs2' : lseg h1 (zip suf sv) Null)
      by (eapply lseg_keeps; [done|done|]; rewrite fst_zip by lia;
          apply NoDup_app in Hnd as (_ & Hd & _); intros k Hk1 Hk2; by apply (Hd k)).
  - destruct pre, pv; try done. exists h1, (x :: sv). split_and!.
    + cbn [sort_loop]. rewrite zip_cons. cbn [first]. by hstep Hb.
    + change (zip ([l] ++ suf) (x :: sv)) with (zip [l] [x] ++ zip suf sv).
      apply lseg_app. done.
    + done.
    + change (x :: sv) with ([x] ++ sv). apply sorted_app; [by repeat constructor|done|done].
    + eapply keeps_sub; [done|]. clear. set_solver.
  - destruct (pass_last pv x) as (p & m & Hp & Hpm & Hxm).
    pose proof (pass_perm pv x) as Hperm. pose proof (pass_length pv x) as Hpl.
    destruct (last_split pre l) as [ini Hini]. set (lst := List.last (l :: pre) l) in *.
    assert (Hlini : length ini = S n) by (apply (f_equal length) in Hini; len).
    assert (Hlp : length p = S n) by (rewrite Hp in Hpl; len).
    assert (Hall : Forall (λ v, Forall (Z.le v) sv) (pass x pv).1) by (by rewrite Hperm).
    destruct (pass x pv).2 eqn:Hsw.
    + assert (Hloc : (l :: pre) ++ suf = ini ++ lst :: suf) by (rewrite Hini, <- app_assoc; done).
      rewrite Hloc in Hnd. rewrite Hini, Hp in Hs1'.
      rewrite Hp in Hall. apply Forall_app in Hall as [Hallp [Hm _]%Forall_cons].
      rewrite zip_app in Hs1' by lia.
      destruct (IH ini p (lst :: suf) (m :: sv) h1 f) as (h2 & vs' & Hr & Hs' & Hpr & Hst & Hk2);
        try done; try lia; try (simpl; lia).
      { rewrite zip_app by lia. rewrite zip_cons.
        change ((lst, m) :: zip suf sv) with ([(lst, m)] ++ zip suf sv).
        rewrite app_assoc. by apply lseg_app. }
      { constructor; [done|]. done. }
      { apply Forall_forall. intros v Hv. constructor.
        - rewrite Forall_forall in Hpm. auto.
        - rewrite Forall_forall in Hallp. auto. }
      exists h2, vs'. rewrite Hloc. split_and!; [|done| |done|].
      * cbn [sort_loop]. rewrite zip_cons. cbn [first]. hstep Hb. cbv iota beta. cbn [orb].
        rewrite ?Hsw. rewrite zip_cons in Hr. cbn [first] in Hr.
        assert (Hhd : first (zip ini p) Null = Ptr l).
        { destruct ini as [|l0 ini]; [done|]. destruct p; [done|]. by injection Hini as ->. }
        by rewrite Hhd in Hr.
      * rewrite Hpr. change (p ++ m :: sv) with (p ++ [m] ++ sv). rewrite app_assoc, <- Hp.
        by rewrite Hperm.
      * eapply keeps_sub; [by eapply keeps_trans|]. rewrite Hini. clear. set_solver.
    + destruct (pass_unswapped pv x Hsw) as [Heq Hso]. rewrite Heq in Hs1', Hall.
      exists h1, ((x :: pv) ++ sv). split_and!.
      * cbn [sort_loop]. rewrite zip_cons. cbn [first]. hstep Hb. cbv iota beta. cbn [orb].
        by rewrite ?Hsw.
      * rewrite zip_app by (simpl; lia). by apply lseg_app.
      * done.
      * by apply sorted_app.
      * eapply keeps_sub; [done|]. clear. set_solver.
Qed.

(** ** Properties *)

(** C20 (functional): on every non-empty list [sort] ends (with fuel for one
    turn per node and one more) and leaves the same nodes in the same order,
    holding the same values in ascending order; no other memory is touched. *)
Theorem sort_spec h p ls fuel :
  is_list h p ls → ls ≠ [] → (length ls < fuel)%nat →
  ∃ h' ls', sort fuel p h = Ok (tt, h') ∧ is_list h' p ls' ∧
    ls'.*1 = ls.*1 ∧ ls'.*2 ≡ₚ ls.*2 ∧ StronglySorted Z.le ls'.*2 ∧
    (∀ l, l ∉ ls.*1 → h' !! l = h !! l).
Proof.
  intros (-> & Hs & Hnd) Hne Hf.
  assert (Hz : ls = zip ls.*1 ls.*2) by (by rewrite zip_fst_snd).
  assert (Hl : length ls.*2 = length ls.*1) by (by rewrite !length_fmap).
  pose proof (sort_loop_run (pred (length ls)) ls.*1 ls.*2 [] [] h fuel) as Hrun.
  rewrite !app_nil_r, !length_fmap, <- Hz in Hrun.
  destruct Hrun as (h' & vs' & Hr & Hs' & Hp & Hst & Hk); try done.
  { destruct ls; [done|]. simpl. lia. }
  { constructor. }
  { apply Forall_forall. intros. constructor. }
  { destruct ls; [done|]. simpl in *. lia. }
  exists h', (zip ls.*1 vs').
  assert (Hlv : length ls.*1 = length vs') by (by rewrite Hp, Hl).
  split; [exact Hr|]. rewrite fst_zip, snd_zip by done.
  split_and!; [split_and!| | | |]; try done.
  - rewrite first_zip by done. by destruct ls as [|[]].
  - by rewrite fst_zip.
Qed.

Lemma sort_spec_witness :
  let h : lheap := {[1%positive := Some (Node 9 (Ptr 3)); 3%positive := Some (Node (-4) (Ptr 2));
                     2%positive := Some (Node 5 Null)]} in
  ∃ h' ls', sort 4 (Ptr 1) h = Ok (tt, h') ∧ is_list h' (Ptr 1) ls' ∧
    ls'.*1 = [1; 3; 2]%positive ∧ ls'.*2 ≡ₚ [9; -4; 5] ∧ StronglySorted Z.le ls'.*2 ∧
    (∀ l, l ∉ [1; 3; 2]%positive → h' !! l = h !! l).
Proof.
  intros h. apply (sort_spec h (Ptr 1) [(1%positive, 9); (3%positive, -4); (2%positive, 5)] 4).
  - split_and!; [done|by vm_compute|]. apply (bool_decide_unpack _). by vm_compute.
  - done.
  - simpl. lia.
Defined.

(** On the empty list [sort] dereferences the null head. *)
Lemma sort_empty_faults fuel h : sort (S (S fuel)) Null h = UB NullDeref.
Proof. done. Qed.

(** The session of [main]. *)
Example sort_main_prints : ∃ h, sort_main 10 ∅ = Ok (([10; 40; 4; 4; 90; 30; 20], [4; 4; 10; 20; 30; 40; 90]), h).
Proof. eexists. vm_compute. reflexivity. Qed.
