(* ===== verification/AddList.v ===== *)
(** * Adding numbers held in linked lists

    [src/leetcode/addList.c]: two numbers given by their digits, least
    significant first, are added into a new list. *)
From S2P Require Import Prelude Heap LinkedList.

Local Open Scope Z_scope.

(** ** Operations *)

(** [addNode]: the same steps as [insert] of LinkedList. *)
Definition addNode : nat → ptr → Z → lprog ptr := insert.

(** The loop of [printNode]: the values printed. *)
Fixpoint print_loop (fuel : nat) (temp : ptr) : lprog (list Z) :=
  match fuel with
  | O => λ _, NoFuel
  | S f =>
      n ← load temp;
      b ← lift (is_null (next n));
      if b : bool then mret [data n]
      else vs ← print_loop f (next n); mret (data n :: vs)
  end.

(** For the null pointer [[]] is printed (the result does not say so), and
    the loop is entered all the same. *)
Definition printNode (fuel : nat) (head : ptr) : lprog (list Z) := print_loop fuel head.

(** [if (l != NULL) { sum += l->val; l = l->next; }] *)
Definition add_digit (sum : Z) (l : ptr) : lprog (Z * ptr) :=
  b ← lift (is_null l);
  if b : bool then mret (sum, l)
  else
    n ← load l;
    sum ← lift (add_int sum (data n));
    mret (sum, next n).

Section add.
Context (fuel : nat).

(** The loop, with [n] bounding its turns and [fuel] those of [addNode]. *)
Fixpoint add_loop (n : nat) (l1 l2 l3 : ptr) (c : Z) : lprog (ptr * Z) :=
  match n with
  | O => λ _, NoFuel
  | S n' =>
      b1 ← lift (is_null l1);
      b2 ← lift (is_null l2);
      if (b1 && b2 : bool) then mret (l3, c)
      else
        '(sum, l1) ← add_digit 0 l1;
        '(sum, l2) ← add_digit sum l2;
        sum ← lift (add_int sum c);
        let c := Z.quot sum 10 in
        l3 ← addNode fuel l3 (Z.rem sum 10);
        add_loop n' l1 l2 l3 c
  end.

Definition addTwoNumbers (l1 l2 : ptr) : lprog ptr :=
  '(l3, c) ← add_loop fuel l1 l2 Null 0;
  if negb (c =? 0) then addNode fuel l3 c else mret l3.
End add.

(** [main]: 999 + 999, the three lists printed. *)
Definition add_main (fuel : nat) : lprog (list Z * list Z * list Z) :=
  l1 ← addNode fuel Null 9; l1 ← addNode fuel l1 9; l1 ← addNode fuel l1 9;
  l2 ← addNode fuel Null 9; l2 ← addNode fuel l2 9; l2 ← addNode fuel l2 9;
  p1 ← printNode fuel l1;
  p2 ← printNode fuel l2;
  l3 ← addTwoNumbers fuel l1 l2;
  p3 ← printNode fuel l3;
  mret (p1, p2, p3).

(** ** Numbers *)

Definition digit (d : Z) : Prop := 0 <= d <= 9.

(** The number a list of digits stands for. *)
Fixpoint value (ds : list Z) : Z :=
  match ds with
  | [] => 0
  | d :: ds' => d + 10 * value ds'
  end.

Lemma value_app ds es : value (ds ++ es) = value ds + 10 ^ Z.of_nat (length ds) * value es.
Proof.
  induction ds as [|d ds IH]; [cbn; lia|]. cbn [app value length].
  rewrite IH, Nat2Z.inj_succ, Z.pow_succ_r by lia. lia.
Qed.

(** [grows h0 h]: everything in [h0] is still in [h]. *)
Definition grows (h0 h : lheap) : Prop := ∀ l x, h0 !! l = Some x → h !! l = Some x.

Lemma lseg_grows h0 h ls q : lseg h0 ls q → grows h0 h → lseg h ls q.
Proof.
  induction ls as [|[l v] ls IH]; intros Hs Hg; [done|]. destruct Hs as [Hl Hs].
  split; [by apply Hg|auto].
Qed.

(** A list that is not in [h0]. *)
Definition apart (h0 : lheap) (ls : nodes) : Prop := ∀ l, l ∈ ls.*1 → h0 !! l = None.

(** Adding a node leaves the old heap as it is. *)
Lemma addNode_run h0 h p ls v fuel :
  grows h0 h → apart h0 ls → is_list h p ls → (length ls < fuel)%nat →
  ∃ h' p' l, addNode fuel p v h = Ok (p', h') ∧ is_list h' p' (ls ++ [(l, v)]) ∧
    grows h0 h' ∧ apart h0 (ls ++ [(l, v)]).
Proof.
  intros Hg Ha Hl Hf. destruct (insert_run h p ls v Hl) as (h' & p' & Hl' & Hk & Hr).
  exists h', p', (fresh_loc h). split_and!; [by apply Hr|done| |].
  - intros l x Hx. rewrite Hk; [by apply Hg|]. apply not_elem_of_cons. split.
    + intros ->. apply Hg in Hx. by rewrite fresh_loc_spec in Hx.
    + intros Hin. by rewrite (Ha l Hin) in Hx.
  - intros l. rewrite fmap_app. intros [Hin|Hin]%elem_of_app; [by apply Ha|].
    apply list_elem_of_singleton in Hin as ->. destruct (h0 !! fresh_loc h) eqn:E; [|done].
    apply Hg in E. by rewrite fresh_loc_spec in E.
Qed.

(** The first digit of a list, and the rest of it. *)
Definition head_digit (ls : nodes) : Z := match ls with [] => 0 | (_, v) :: _ => v end.

Lemma value_tail ls : value ls.*2 = head_digit ls + 10 * value (tail ls).*2.
Proof. by destruct ls as [|[l v] ls]. Qed.

Lemma head_digit_ok ls : Forall digit ls.*2 → digit (head_digit ls) ∧ Forall digit (tail ls).*2.
Proof.
  destruct ls as [|[l v] ls]; intros H; [done|]. csimpl in *. by apply Forall_cons in H.
Qed.

Lemma add_digit_run h ls sum :
  lseg h ls Null → INT_MIN <= sum + head_digit ls <= INT_MAX →
  add_digit sum (first ls Null) h = Ok ((sum + head_digit ls, first (tail ls) Null), h).
Proof.
  intros Hs Hi. destruct ls as [|[l v] ls]; cbn [first head_digit tail] in *.
  - unfold add_digit. cbn. by rewrite Z.add_0_r.
  - destruct Hs as [Hl _]. unfold add_digit. cbn [is_null].
    rewrite (run_bind _ _ _ false h) by done. hstep (load_ok h l _ Hl). cbn [data next].
    by lstep (add_int_ok sum v Hi).
Qed.

Lemma is_null_first ls : is_null (first ls Null) = Ok (match ls with [] => true | _ => false end).
Proof. by destruct ls as [|[]]. Qed.

Lemma lseg_tail h ls : lseg h ls Null → lseg h (tail ls) Null.
Proof. destruct ls as [|[l v] ls]; [done|]. by intros [_ H]. Qed.

Lemma add_loop_run fuel n : ∀ a b h0 h p acc c,
  lseg h0 a Null → lseg h0 b Null → Forall digit a.*2 → Forall digit b.*2 → 0 <= c <= 1 →
  grows h0 h → apart h0 acc → is_list h p acc →
  (length a `max` length b < n)%nat → (length acc + length a `max` length b <= fuel)%nat →
  ∃ h' p' new c', add_loop fuel n (first a Null) (first b Null) p c h = Ok ((p', c'), h') ∧
    is_list h' p' (acc ++ new) ∧ grows h0 h' ∧ apart h0 (acc ++ new) ∧ 0 <= c' <= 1 ∧
    Forall digit new.*2 ∧ length new = (length a `max` length b)%nat ∧
    value a.*2 + value b.*2 + c = value new.*2 + c' * 10 ^ Z.of_nat (length new).
Proof.
  induction n as [|n IH]; intros a b h0 h p acc c Ha Hb Hda Hdb Hc Hg Hap Hl Hn Hf; [lia|].
  cbn [add_loop]. lstep (is_null_first a). lstep (is_null_first b).
  destruct (decide (a = [] ∧ b = [])) as [[-> ->]|Hne].
  { exists h, p, [], c. rewrite app_nil_r. split_and!; try done; try lia. cbn. lia. }
  assert (Hb2 : (match a with [] => true | _ => false end &&
                 match b with [] => true | _ => false end) = false)
    by (destruct a, b; try done; by destruct Hne).
  rewrite Hb2. destruct (head_digit_ok a Hda) as [H1 Hda']. destruct (head_digit_ok b Hdb) as [H2 Hdb'].
  unfold digit in H1, H2.
  pose proof (add_digit_run h a 0 (lseg_grows _ _ _ _ Ha Hg)) as Hd1.
  hstep (Hd1 ltac:(unfold INT_MIN, INT_MAX; lia)). cbv iota beta.
  pose proof (add_digit_run h b (0 + head_digit a) (lseg_grows _ _ _ _ Hb Hg)) as Hd2.
  hstep (Hd2 ltac:(unfold INT_MIN, INT_MAX; lia)). cbv iota beta.
  set (s := 0 + head_digit a + head_digit b).
  lstep (add_int_ok s c ltac:(unfold s, INT_MIN, INT_MAX; lia)).
  assert (Hs : 0 <= s + c <= 19) by (unfold s; lia).
  rewrite Z.rem_mod_nonneg, Z.quot_div_nonneg by lia.
  assert (Hlen : (length a `max` length b = S (length (tail a) `max` length (tail b)))%nat).
  { destruct a, b; simpl; try lia; by destruct Hne. }
  destruct (addNode_run h0 h p acc ((s + c) mod 10) fuel Hg Hap Hl)
    as (h1 & p1 & l & Hadd & Hl1 & Hg1 & Hap1); [lia|]. hstep Hadd.
  destruct (IH (tail a) (tail b) h0 h1 p1 (acc ++ [(l, (s + c) mod 10)]) ((s + c) / 10))
    as (h' & p' & new & c' & Hr & Hl' & Hg' & Hap' & Hc' & Hdn & Hln & Hv);
    try done; try (by apply lseg_tail); try dm_lia; try (rewrite length_app; simpl; lia).
  exists h', p', ((l, (s + c) mod 10) :: new), c'.
  rewrite <- app_assoc in Hl', Hap'. split_and!; try done.
  - lia.
  - lia.
  - csimpl. constructor; [unfold digit; dm_lia|done].
  - simpl. lia.
  - csimpl. rewrite (value_tail a), (value_tail b). cbn [value length].
    rewrite Nat2Z.inj_succ, Z.pow_succ_r by lia.
    pose proof (Z.div_mod (s + c) 10 ltac:(lia)). unfold s in *. lia.
Qed.

(** ** Properties *)

(** C21 (functional): for two lists of decimal digits (which may share nodes)
    [addTwoNumbers] builds a new list of digits whose number is the sum of
    the two numbers, at most one digit longer than the longer of them, and
    leaves all memory there was as it was. *)
Theorem addTwoNumbers_spec fuel h p1 p2 a b :
  is_list h p1 a → is_list h p2 b → Forall digit a.*2 → Forall digit b.*2 →
  (length a `max` length b < fuel)%nat →
  ∃ h' p3 r, addTwoNumbers fuel p1 p2 h = Ok (p3, h') ∧ is_list h' p3 r ∧
    Forall digit r.*2 ∧ value r.*2 = value a.*2 + value b.*2 ∧
    (length r <= S (length a `max` length b))%nat ∧
    (∀ l x, h !! l = Some x → h' !! l = Some x) ∧ (∀ l, l ∈ r.*1 → h !! l = None).
Proof.
  intros (-> & Ha & _) (-> & Hb & _) Hda Hdb Hf. unfold addTwoNumbers.
  destruct (add_loop_run fuel fuel a b h h Null [] 0)
    as (h1 & p & new & c & Hr & Hl & Hg & Hap & Hc & Hd & Hln & Hv); try done; try lia.
  { by intros l x Hx. } { by intros l Hin%elem_of_nil. }
  { split_and!; [done|done|constructor]. }
  { simpl. lia. }
  hstep Hr. cbv iota beta. destruct (Z.eqb_spec c 0) as [->|Hnz]; cbn [negb].
  - exists h1, p, new. split_and!; try done; lia.
  - destruct (addNode_run h h1 p new c fuel Hg Hap Hl) as (h2 & p2' & l & Hadd & Hl2 & Hg2 & Hap2); [lia|].
    exists h2, p2', (new ++ [(l, c)]). split_and!; try done.
    + rewrite fmap_app. apply Forall_app. split; [done|]. constructor; [unfold digit; simpl; lia|constructor].
    + rewrite fmap_app, value_app, length_fmap. csimpl. cbn [value]. lia.
    + len.
Qed.

Lemma addTwoNumbers_spec_witness :
  let h : lheap := {[1%positive := Some (Node 9 (Ptr 2)); 2%positive := Some (Node 5 Null)]} in
  ∃ h' p3 r, addTwoNumbers 4 (Ptr 1) (Ptr 2) h = Ok (p3, h') ∧ is_list h' p3 r ∧
    Forall digit r.*2 ∧ value r.*2 = 59 + 5 ∧ (length r <= 3)%nat ∧
    (∀ l x, h !! l = Some x → h' !! l = Some x) ∧ (∀ l, l ∈ r.*1 → h !! l = None).
Proof.
  intros h.
  apply (addTwoNumbers_spec 4 h (Ptr 1) (Ptr 2) [(1%positive, 9); (2%positive, 5)] [(2%positive, 5)]).
  - split_and!; [done|by vm_compute|]. apply (bool_decide_unpack _). by vm_compute.
  - split_and!; [done|by vm_compute|]. apply (bool_decide_unpack _). by vm_compute.
  - repeat constructor; unfold digit; simpl; lia.
  - repeat constructor; unfold digit; simpl; lia.
  - simpl. lia.
Defined.

(** [printNode] prints a list with at least one node, and faults on none. *)
Lemma printNode_run ls : ∀ h fuel, lseg h ls Null → ls ≠ [] → (length ls <= fuel)%nat →
  printNode fuel (first ls Null) h = Ok (ls.*2, h).
Proof.
  unfold printNode. induction ls as [|[l v] ls IH]; intros h fuel Hs Hne Hf; [done|].
  destruct Hs as [Hl Hs]. destruct fuel as [|f]; [simpl in Hf; lia|].
  cbn [first print_loop]. hstep (load_ok h l _ Hl). cbn [next data]. lstep (is_null_first ls).
  destruct ls as [|x ls]; [done|]. simpl in Hf. hstep (IH h f Hs ltac:(done) ltac:(simpl; lia)). done.
Qed.

Lemma printNode_empty_faults fuel h : printNode (S fuel) Null h = UB NullDeref.
Proof. done. Qed.

(** The session of [main]. *)
Example add_main_prints :
  ∃ h, add_main 8 ∅ = Ok (([9; 9; 9], [9; 9; 9], [8; 9; 9; 1]), h).
Proof. eexists. vm_compute. reflexivity. Qed.
