(* ===== verification/Tree.v ===== *)
(** * Binary trees

    The tree node shared by [src/data_struct/bst/bst.c],
    [src/Interview_Questions/MS/bst_insert_search.c], [bst_mirror.c] and
    [PS/PS_4.c] (a value and two child pointers, under varying names), the
    description of a tree in the heap, and search trees. *)
From Stdlib Require Import Sorted.
From S2P Require Import Prelude Heap.

Local Open Scope Z_scope.

(** ** Data *)

Record tnode := TNode { key : Z; left : ptr; right : ptr }.

Abbreviation theap := (heap tnode).
Abbreviation tprog := (prog theap).

Definition set_left (p : ptr) (n : tnode) : tnode := TNode (key n) p (right n).
Definition set_right (p : ptr) (n : tnode) : tnode := TNode (key n) (left n) p.

(** ** Trees in the heap *)

Inductive tree :=
  | Leaf
  | Br (t1 : tree) (l : loc) (v : Z) (t2 : tree).

(** The pointer to the root, the addresses, the values, the height. *)
Definition root (t : tree) : ptr := match t with Leaf => Null | Br _ l _ _ => Ptr l end.

Fixpoint locs (t : tree) : list loc :=
  match t with Leaf => [] | Br t1 l _ t2 => locs t1 ++ l :: locs t2 end.

Fixpoint elems (t : tree) : list Z :=
  match t with Leaf => [] | Br t1 _ v t2 => elems t1 ++ v :: elems t2 end.

Fixpoint height (t : tree) : nat :=
  match t with Leaf => 0 | Br t1 _ _ t2 => S (height t1 `max` height t2) end.

Fixpoint tree_at (h : theap) (t : tree) : Prop :=
  match t with
  | Leaf => True
  | Br t1 l v t2 =>
      h !! l = Some (Some (TNode v (root t1) (root t2))) ∧ tree_at h t1 ∧ tree_at h t2
  end.

(** A tree at [p], with no node used twice. *)
Definition is_tree (h : theap) (p : ptr) (t : tree) : Prop :=
  p = root t ∧ tree_at h t ∧ NoDup (locs t).

(** Search trees without equal values. *)
Fixpoint bst (t : tree) : Prop :=
  match t with
  | Leaf => True
  | Br t1 _ v t2 =>
      Forall (λ x, x < v) (elems t1) ∧ Forall (λ x, v < x) (elems t2) ∧ bst t1 ∧ bst t2
  end.

(** ** Laws *)

Lemma tree_at_live h t l : tree_at h t → l ∈ locs t → ∃ n, h !! l = Some (Some n).
Proof.
  induction t as [|t1 IH1 k v t2 IH2]; cbn; [by intros _ ?%elem_of_nil|].
  intros (Hk & H1 & H2) [Hin|[->|Hin]%elem_of_cons]%elem_of_app; eauto.
Qed.

Lemma tree_at_keeps h h' t ls :
  tree_at h t → keeps h h' ls → (∀ l, l ∈ locs t → l ∉ ls) → tree_at h' t.
Proof.
  induction t as [|t1 IH1 k v t2 IH2]; cbn; [done|]. intros (Hk & H1 & H2) Hkp Hd.
  split_and!.
  - rewrite Hkp; [done|]. apply Hd, elem_of_app. right. by left.
  - apply IH1; [done..|]. intros l Hl. apply Hd, elem_of_app. by left.
  - apply IH2; [done..|]. intros l Hl. apply Hd, elem_of_app. right. by right.
Qed.

Lemma is_null_root t : is_null (root t) = Ok (match t with Leaf => true | _ => false end).
Proof. by destruct t. Qed.

(** The parts of a tree whose nodes are distinct. *)
Lemma nodup_locs t1 k v t2 :
  NoDup (locs (Br t1 k v t2)) →
  NoDup (locs t1) ∧ NoDup (locs t2) ∧ k ∉ locs t1 ∧ k ∉ locs t2 ∧
  (∀ l, l ∈ locs t1 → l ∉ locs t2).
Proof.
  cbn. intros (H1 & Hd & [Hk H2]%NoDup_cons)%NoDup_app. split_and!; try done.
  - intros Hin. apply (Hd k Hin). by left.
  - intros l Hl1 Hl2. apply (Hd l Hl1). by right.
Qed.

(** The values of a search tree, from left to right, ascend. *)
Lemma bst_sorted t : bst t → StronglySorted Z.lt (elems t).
Proof.
  induction t as [|t1 IH1 k v t2 IH2]; cbn; [constructor|].
  intros (Hlt & Hgt & H1 & H2). specialize (IH1 H1). specialize (IH2 H2).
  induction IH1 as [|x xs Hxs IH Hx]; cbn; [by constructor|].
  apply Forall_cons in Hlt as [Hxv Hlt]. constructor; [by apply IH|].
  apply Forall_app. split; [done|]. constructor; [done|].
  eapply Forall_impl; [exact Hgt|]. simpl. lia.
Qed.
