(* ===== verification/Bst.v ===== *)
(** * The search tree of [data_struct]

    [src/data_struct/bst/bst.c].  A [mytree **] argument is modelled by the
    value it points to, and by the new value as the result, which the caller
    stores back. *)
From Stdlib Require Import Sorted.
From S2P Require Import Prelude Heap Tree.

Local Open Scope Z_scope.

(** ** Operations *)

(** The traversals: the values printed. *)
Fixpoint inorder (fuel : nat) (root : ptr) : tprog (list Z) :=
  match fuel with
  | O => λ _, NoFuel
  | S f =>
      b ← lift (is_null root);
      if b : bool then mret []
      else
        n ← load root;
        vs1 ← inorder f (left n);
        n ← load root;
        vs2 ← inorder f (right n);
        mret (vs1 ++ key n :: vs2)
  end.

Fixpoint postorder (fuel : nat) (root : ptr) : tprog (list Z) :=
  match fuel with
  | O => λ _, NoFuel
  | S f =>
      b ← lift (is_null root);
      if b : bool then mret []
      else
        n ← load root;
        vs1 ← postorder f (left n);
        vs2 ← postorder f (right n);
        mret (vs1 ++ vs2 ++ [key n])
  end.

Fixpoint preorder (fuel : nat) (root : ptr) : tprog (list Z) :=
  match fuel with
  | O => λ _, NoFuel
  | S f =>
      b ← lift (is_null root);
      if b : bool then mret []
      else
        n ← load root;
        vs1 ← preorder f (left n);
        vs2 ← preorder f (right n);
        mret (key n :: vs1 ++ vs2)
  end.

(** [levelorder]: it stores the value of the root in a local array and prints
    nothing; for the null pointer it goes on to read the children. *)
Definition levelorder (root : ptr) : tprog (list Z) :=
  b ← lift (is_null root);
  if b : bool then n ← load root; mret []
  else n ← load root; mret [].

(** [insert]: every call allocates a node first; [*root] is the result. *)
Fixpoint insert (fuel : nat) (root : ptr) (val : Z) : tprog ptr :=
  match fuel with
  | O => λ _, NoFuel
  | S f =>
      newNode ← alloc (TNode val Null Null);
      b ← lift (is_null root);
      if b : bool then mret newNode
      else
        n ← load root;
        if key n <? val then
          p ← insert f (right n) val; _ ← modify root (set_right p); mret root
        else if key n >? val then
          p ← insert f (left n) val; _ ← modify root (set_left p); mret root
        else mret newNode
  end.

(** [main] up to the printing: the root is allocated and given a value, its
    children are not set. *)
Definition bst_main (fuel : nat) : tprog (list Z * list Z * list Z * list Z) :=
  root ← alloc (TNode 15 Undef Undef);
  root ← insert fuel root 2;
  root ← insert fuel root 10;
  root ← insert fuel root 22;
  root ← insert fuel root 32;
  root ← insert fuel root 1;
  root ← insert fuel root 17;
  pre ← preorder fuel root;
  post ← postorder fuel root;
  ino ← inorder fuel root;
  lev ← levelorder root;
  mret (pre, post, ino, lev).

(** ** The orders of the traversals *)

Fixpoint post_elems (t : tree) : list Z :=
  match t with Leaf => [] | Br t1 _ v t2 => post_elems t1 ++ post_elems t2 ++ [v] end.

Fixpoint pre_elems (t : tree) : list Z :=
  match t with Leaf => [] | Br t1 _ v t2 => v :: pre_elems t1 ++ pre_elems t2 end.

Lemma inorder_run t : ∀ h fuel, tree_at h t → (height t < fuel)%nat →
  inorder fuel (root t) h = Ok (elems t, h).
Proof.
  induction t as [|t1 IH1 l v t2 IH2]; intros h [|f] Ht Hf; try lia; [done|].
  destruct Ht as (Hl & H1 & H2). cbn [root inorder height elems] in *.
  rewrite (run_bind _ _ _ false h) by done. hstep (load_ok h l _ Hl). cbn [left].
  hstep (IH1 h f H1 ltac:(lia)). hstep (load_ok h l _ Hl). cbn [right].
  by hstep (IH2 h f H2 ltac:(lia)).
Qed.

Lemma postorder_run t : ∀ h fuel, tree_at h t → (height t < fuel)%nat →
  postorder fuel (root t) h = Ok (post_elems t, h).
Proof.
  induction t as [|t1 IH1 l v t2 IH2]; intros h [|f] Ht Hf; try lia; [done|].
  destruct Ht as (Hl & H1 & H2). cbn [root postorder height post_elems] in *.
  rewrite (run_bind _ _ _ false h) by done. hstep (load_ok h l _ Hl). cbn [left right key].
  hstep (IH1 h f H1 ltac:(lia)). by hstep (IH2 h f H2 ltac:(lia)).
Qed.

Lemma preorder_run t : ∀ h fuel, tree_at h t → (height t < fuel)%nat →
  preorder fuel (root t) h = Ok (pre_elems t, h).
Proof.
  induction t as [|t1 IH1 l v t2 IH2]; intros h [|f] Ht Hf; try lia; [done|].
  destruct Ht as (Hl & H1 & H2). cbn [root preorder height pre_elems] in *.
  rewrite (run_bind _ _ _ false h) by done. hstep (load_ok h l _ Hl). cbn [left right key].
  hstep (IH1 h f H1 ltac:(lia)). by hstep (IH2 h f H2 ltac:(lia)).
Qed.

(** ** Insertion *)

(** The tree after the insertion of [v], in the new node [l]: an equal value
    takes the place of the whole subtree. *)
Fixpoint ins (l : loc) (v : Z) (t : tree) : tree :=
  match t with
  | Leaf => Br Leaf l v Leaf
  | Br t1 k x t2 =>
      if x <? v then Br t1 k x (ins l v t2)
      else if v <? x then Br (ins l v t1) k x t2
      else Br Leaf l v Leaf
  end.

(** The calls above the one that places the node. *)
Fixpoint path_len (v : Z) (t : tree) : nat :=
  match t with
  | Leaf => 0
  | Br t1 _ x t2 =>
      if x <? v then S (path_len v t2) else if v <? x then S (path_len v t1) else 0
  end.

Lemma locs_ins l v t k : k ∈ locs (ins l v t) → k = l ∨ k ∈ locs t.
Proof.
  induction t as [|t1 IH1 k' x t2 IH2]; cbn [ins locs].
  - intros Hin. by apply list_elem_of_singleton in Hin; left.
  - destruct (x <? v); [|destruct (v <? x)]; cbn [locs].
    + intros [Hin|[->|Hin]%elem_of_cons]%elem_of_app.
      * right. apply elem_of_app. by left.
      * right. apply elem_of_app. right. by left.
      * destruct (IH2 Hin) as [->|Hin']; [by left|]. right. apply elem_of_app. right. by right.
    + intros [Hin|[->|Hin]%elem_of_cons]%elem_of_app.
      * destruct (IH1 Hin) as [->|Hin']; [by left|]. right. apply elem_of_app. by left.
      * right. apply elem_of_app. right. by left.
      * right. apply elem_of_app. right. by right.
    + intros Hin. by apply list_elem_of_singleton in Hin; left.
Qed.

Lemma nodup_ins l v t : l ∉ locs t → NoDup (locs t) → NoDup (locs (ins l v t)).
Proof.
  induction t as [|t1 IH1 k x t2 IH2]; intros Hl Hnd; [apply NoDup_singleton|].
  pose proof (nodup_locs _ _ _ _ Hnd) as (H1 & H2 & Hk1 & Hk2 & Hd).
  cbn [locs] in Hl. rewrite not_elem_of_app, not_elem_of_cons in Hl. destruct Hl as (Hl1 & Hlk & Hl2).
  cbn [ins]. destruct (x <? v); [|destruct (v <? x)]; cbn [locs]; [| |apply NoDup_singleton].
  - apply NoDup_app. split_and!; [done| |apply NoDup_cons; split; [|by apply IH2]].
    + intros y Hy. apply not_elem_of_cons. split; [by intros ->|].
      intros [->|Hin]%locs_ins; [done|]. by apply (Hd y).
    + intros [->|Hin]%locs_ins; done.
  - apply NoDup_app. split_and!; [by apply IH1| |by apply NoDup_cons].
    intros y [->|Hy]%locs_ins; apply not_elem_of_cons; split; try done; [by intros ->|by apply Hd].
Qed.

(** What an insertion leaves: the new tree with the new node [l], and the
    nodes [lost] that the calls above it allocated for nothing. *)
Definition inserted (h h' : theap) (v : Z) (t : tree) (l : loc) (lost : list loc) : Prop :=
  tree_at h' (ins l v t) ∧ NoDup (l :: lost) ∧ length lost = path_len v t ∧
  (∀ k, k ∈ l :: lost → h !! k = None) ∧
  (∀ k, k ∈ lost → h' !! k = Some (Some (TNode v Null Null))) ∧
  keeps h h' (l :: (lost ++ locs t)).

Lemma fresh_notin h t : tree_at h t → fresh_loc h ∉ locs t.
Proof.
  intros Ht Hin. destruct (tree_at_live h t _ Ht Hin) as [n Hn]. by rewrite fresh_loc_spec in Hn.
Qed.

(** The step common to the two branches: the node [m] of this call is lost,
    and the node [k] gets its child back. *)
Lemma inserted_step h h2 m v t k l lost n :
  h !! m = None → h !! k = Some (Some n) → k ∉ locs t → m ∉ locs t →
  inserted (<[m := Some (TNode v Null Null)]> h) h2 v t l lost →
  l ≠ m ∧ ¬ (m ∈ lost) ∧ l ≠ k ∧ h !! l = None ∧ h2 !! k = Some (Some n) ∧
  h2 !! m = Some (Some (TNode v Null Null)) ∧ (∀ j, j ∈ lost → h !! j = None ∧ j ≠ k).
Proof.
  intros Hm Hk Hkt Hmt (_ & Hnd & _ & Hfr & _ & Hkp).
  assert (Hnew : ∀ j, j ∈ l :: lost → j ≠ m ∧ h !! j = None).
  { intros j Hj. pose proof (Hfr j Hj) as Hj'. destruct (decide (j = m)) as [->|Hne].
    - by rewrite lookup_insert_eq in Hj'.
    - by rewrite lookup_insert_ne in Hj'. }
  destruct (Hnew l ltac:(by left)) as [Hlm Hl].
  assert (Hml : m ∉ lost) by (intros Hin; destruct (Hnew m ltac:(by right)); done).
  assert (Hlk : l ≠ k) by (intros ->; congruence).
  split_and!; try done.
  - rewrite Hkp, lookup_insert_ne; [done|congruence|].
    rewrite not_elem_of_cons, not_elem_of_app. split_and!; try done.
    intros Hin. destruct (Hnew k ltac:(by right)). congruence.
  - rewrite Hkp; [apply lookup_insert_eq|].
    rewrite not_elem_of_cons, not_elem_of_app. by split_and!.
  - intros j Hj. destruct (Hnew j ltac:(by right)) as [_ Hj']. split; [done|]. intros ->. congruence.
Qed.

(** What the two branches share: [t] is the child the call descends into, [u]
    the other one, and the node [k] gets new fields. *)
Lemma inserted_update h h2 m v t u k l lost n n' :
  h !! m = None → h !! k = Some (Some n) → k ∉ locs t → m ∉ locs t →
  tree_at h u → (∀ j, j ∈ locs u → j ∉ locs t) → k ∉ locs u →
  inserted (<[m := Some (TNode v Null Null)]> h) h2 v t l lost →
  let h3 := <[k := Some n']> h2 in
  h2 !! k = Some (Some n) ∧ tree_at h3 (ins l v t) ∧ tree_at h3 u ∧ NoDup (l :: m :: lost) ∧
  length (m :: lost) = S (path_len v t) ∧ (∀ j, j ∈ l :: m :: lost → h !! j = None) ∧
  (∀ j, j ∈ m :: lost → h3 !! j = Some (Some (TNode v Null Null))) ∧
  keeps h h3 (l :: (m :: lost) ++ k :: locs t).
Proof.
  intros Hm Hk Hkt Hmt Hu Hut Hku Hins h3.
  destruct (inserted_step h h2 m v t k l lost n Hm Hk Hkt Hmt Hins)
    as (Hlm & Hml & Hlk & Hl & Hk2 & Hm' & Hlost).
  destruct Hins as (Hti & [Hll Hnd]%NoDup_cons & Hlen & _ & Hlv & Hkp).
  assert (Hkeep : keeps h h3 (l :: (m :: lost) ++ k :: locs t)).
  { eapply keeps_sub; [eapply keeps_trans; [apply (keeps_insert h m)|];
      eapply keeps_trans; [exact Hkp|apply keeps_insert]|]. clear. set_solver. }
  split_and!; try done.
  - eapply tree_at_keeps; [exact Hti|apply keeps_insert|].
    intros j [->|Hj]%locs_ins Hjk; apply list_elem_of_singleton in Hjk as ->; done.
  - eapply tree_at_keeps; [exact Hu|exact Hkeep|]. intros j Hj Hin.
    destruct (tree_at_live h u j Hu Hj) as [x Hx].
    apply elem_of_cons in Hin as [->|[[->|Hin]%elem_of_cons|[->|Hin]%elem_of_cons]%elem_of_app];
      [congruence|congruence|by destruct (Hlost j Hin); congruence|done|by apply (Hut j)].
  - repeat (apply NoDup_cons; split); try done. by apply not_elem_of_cons.
  - simpl. by rewrite Hlen.
  - intros j [->|[->|Hj]%elem_of_cons]%elem_of_cons; [done|done|]. by apply Hlost.
  - intros j [->|Hj]%elem_of_cons; unfold h3; rewrite lookup_insert_ne; try done; try congruence.
    + by apply Hlv.
    + intros <-. by destruct (Hlost k Hj).
Qed.

Lemma bst_insert_run t v : ∀ h fuel,
  tree_at h t → NoDup (locs t) → (height t < fuel)%nat →
  ∃ h' l lost, insert fuel (root t) v h = Ok (root (ins l v t), h') ∧ inserted h h' v t l lost.
Proof.
  induction t as [|t1 IH1 k x t2 IH2]; intros h [|f] Ht Hnd Hf; try lia.
  { exists (<[fresh_loc h := Some (TNode v Null Null)]> h), (fresh_loc h), [].
    split; [done|]. split_and!; try done.
    - cbn. by rewrite lookup_insert_eq.
    - apply NoDup_singleton.
    - intros j Hj. apply list_elem_of_singleton in Hj as ->. apply fresh_loc_spec.
    - intros j Hj. by apply elem_of_nil in Hj. }
  pose proof (nodup_locs _ _ _ _ Hnd) as (Hnd1 & Hnd2 & Hk1 & Hk2 & Hd).
  assert (Hd' : ∀ j, j ∈ locs t2 → j ∉ locs t1) by (intros j H2 H1; by apply (Hd j)).
  pose proof (fresh_notin h _ Ht) as Hm. set (m := fresh_loc h) in *.
  pose proof (fresh_loc_spec h) as Hmf. fold m in Hmf.
  destruct Ht as (Hk & H1 & H2). cbn [root insert height locs] in *.
  rewrite not_elem_of_app, not_elem_of_cons in Hm. destruct Hm as (Hm1 & Hmk & Hm2).
  set (h1 := <[m := Some (TNode v Null Null)]> h).
  assert (Hk' : h1 !! k = Some (Some (TNode x (root t1) (root t2))))
    by (unfold h1; by rewrite lookup_insert_ne).
  assert (Ht : ∀ t, tree_at h t → m ∉ locs t → tree_at h1 t).
  { intros t Hat Hmt. eapply tree_at_keeps; [exact Hat|apply keeps_insert|].
    intros j Hj Hjm. apply list_elem_of_singleton in Hjm as ->. done. }
  hstep alloc_ok. fold m. fold h1. clearbody m. rewrite (run_bind _ _ _ false h1) by done.
  hstep (load_ok h1 k _ Hk'). cbn [key left right]. rewrite Z.gtb_ltb.
  unfold inserted. cbn [ins path_len locs]. destruct (x <? v) eqn:Hxv; [|destruct (v <? x) eqn:Hvx].
  - destruct (IH2 h1 f (Ht t2 H2 Hm2) Hnd2 ltac:(lia)) as (h2 & l & lost & Hr & Hins). hstep Hr.
    destruct (inserted_update h h2 m v t2 t1 k l lost _ (TNode x (root t1) (root (ins l v t2)))
      Hmf Hk Hk2 Hm2 H1 Hd Hk1 Hins) as (Hk3 & Hti & Hto & Hndl & Hlen & Hfr & Hlv & Hkp).
    hstep (modify_ok h2 k _ (set_right (root (ins l v t2))) Hk3).
    eexists _, l, (m :: lost). split; [done|]. cbn [tree_at].
    split_and!; try done; [by rewrite lookup_insert_eq|].
    eapply keeps_sub; [exact Hkp|]. clear. set_solver.
  - destruct (IH1 h1 f (Ht t1 H1 Hm1) Hnd1 ltac:(lia)) as (h2 & l & lost & Hr & Hins). hstep Hr.
    destruct (inserted_update h h2 m v t1 t2 k l lost _ (TNode x (root (ins l v t1)) (root t2))
      Hmf Hk Hk1 Hm1 H2 Hd' Hk2 Hins) as (Hk3 & Hti & Hto & Hndl & Hlen & Hfr & Hlv & Hkp).
    hstep (modify_ok h2 k _ (set_left (root (ins l v t1))) Hk3).
    eexists _, l, (m :: lost). split; [done|]. cbn [tree_at].
    split_and!; try done; [by rewrite lookup_insert_eq|].
    eapply keeps_sub; [exact Hkp|]. clear. set_solver.
  - exists h1, m, []. split; [done|]. split_and!; try done.
    + cbn. unfold h1. by rewrite lookup_insert_eq.
    + apply NoDup_singleton.
    + intros j Hj. by apply list_elem_of_singleton in Hj as ->.
    + intros j Hj. by apply elem_of_nil in Hj.
    + eapply keeps_sub; [apply keeps_insert|]. clear. set_solver.
Qed.

(** A value that is not in the tree is added to its values. *)
Lemma elems_ins l v t : bst t → v ∉ elems t → elems (ins l v t) ≡ₚ v :: elems t.
Proof.
  induction t as [|t1 IH1 k x t2 IH2]; intros Hb Hv; [done|]. destruct Hb as (_ & _ & H1 & H2).
  cbn [elems] in Hv. rewrite not_elem_of_app, not_elem_of_cons in Hv. destruct Hv as (Hv1 & Hvx & Hv2).
  cbn [ins elems]. destruct (Z.ltb_spec x v); [|destruct (Z.ltb_spec v x); [|lia]]; cbn [elems].
  - rewrite (IH2 H2 Hv2). solve_Permutation.
  - by rewrite (IH1 H1 Hv1).
Qed.

Lemma bst_ins l v t : bst t → v ∉ elems t → bst (ins l v t).
Proof.
  induction t as [|t1 IH1 k x t2 IH2]; intros Hb Hv; [by repeat constructor|].
  pose proof Hb as (Hlt & Hgt & H1 & H2).
  cbn [elems] in Hv. rewrite not_elem_of_app, not_elem_of_cons in Hv. destruct Hv as (Hv1 & Hvx & Hv2).
  cbn [ins]. destruct (Z.ltb_spec x v); [|destruct (Z.ltb_spec v x); [|lia]];
    cbn [bst]; split_and!; try done; auto.
  - rewrite (elems_ins l v t2 H2 Hv2). constructor; done.
  - rewrite (elems_ins l v t1 H1 Hv1). constructor; done.
Qed.

(** ** Properties *)

(** C22 (invariant): inserting a value that is not in a search tree yields a
    search tree with that value added, whose inorder traversal prints the
    values in ascending order; besides the node of the new value, one node per
    level above it is allocated and lost. *)
Theorem bst_insert_spec h p t v fuel :
  is_tree h p t → bst t → v ∉ elems t → (S (height t) < fuel)%nat →
  ∃ h' p' t' lost, insert fuel p v h = Ok (p', h') ∧ is_tree h' p' t' ∧ bst t' ∧
    elems t' ≡ₚ v :: elems t ∧
    inorder fuel p' h' = Ok (elems t', h') ∧ StronglySorted Z.lt (elems t') ∧
    length lost = path_len v t ∧ NoDup lost ∧
    Forall (λ l, h !! l = None ∧ h' !! l = Some (Some (TNode v Null Null)) ∧ l ∉ locs t') lost.
Proof.
  intros (-> & Ht & Hnd) Hb Hv Hf.
  destruct (bst_insert_run t v h fuel Ht Hnd ltac:(lia)) as (h' & l & lost & Hr & Hi).
  destruct Hi as (Hti & [Hll Hndl]%NoDup_cons & Hlen & Hfr & Hlv & _).
  assert (Hlt : l ∉ locs t).
  { intros Hin. destruct (tree_at_live h t l Ht Hin) as [n Hn].
    rewrite (Hfr l ltac:(by left)) in Hn. done. }
  exists h', (root (ins l v t)), (ins l v t), lost. split_and!; try done.
  - split_and!; [done|done|by apply nodup_ins].
  - by apply bst_ins.
  - by apply elems_ins.
  - apply inorder_run; [done|]. assert (height (ins l v t) <= S (height t))%nat; [|lia].
    clear. induction t as [|t1 IH1 k x t2 IH2]; [done|]. cbn [ins].
    destruct (x <? v); [|destruct (v <? x)]; cbn [height]; lia.
  - by apply bst_sorted, bst_ins.
  - apply Forall_forall. intros j Hj. split_and!; [apply Hfr; by right|by apply Hlv|].
    intros [->|Hin]%locs_ins; [done|]. destruct (tree_at_live h t j Ht Hin) as [n Hn].
    rewrite (Hfr j ltac:(by right)) in Hn. done.
Qed.

(** The tree 15 with the child 7 at its left. *)
Definition small_tree : tree := Br (Br Leaf 2%positive 7 Leaf) 1%positive 15 Leaf.
Definition small_heap : theap :=
  {[1%positive := Some (TNode 15 (Ptr 2) Null); 2%positive := Some (TNode 7 Null Null)]}.

Lemma small_is_tree : is_tree small_heap (Ptr 1) small_tree.
Proof. split_and!; [done|by vm_compute|]. apply (bool_decide_unpack _). by vm_compute. Qed.

Lemma bst_insert_spec_witness :
  ∃ h' p' t' lost, insert 4 (Ptr 1) 9 small_heap = Ok (p', h') ∧ is_tree h' p' t' ∧ bst t' ∧
    elems t' ≡ₚ [9; 7; 15] ∧
    inorder 4 p' h' = Ok (elems t', h') ∧ StronglySorted Z.lt (elems t') ∧
    length lost = 2%nat ∧ NoDup lost ∧
    Forall (λ l, small_heap !! l = None ∧ h' !! l = Some (Some (TNode 9 Null Null)) ∧
                 l ∉ locs t') lost.
Proof.
  apply (bst_insert_spec small_heap (Ptr 1) small_tree 9 4 small_is_tree).
  - cbn. split_and!; repeat constructor; lia.
  - cbn. rewrite !not_elem_of_cons. split_and!; [lia|lia|apply not_elem_of_nil].
  - simpl. lia.
Defined.

(** Inserting a value that is already at the root replaces the
    whole tree by one new node: every other value is lost, while all the old
    nodes stay allocated and can no longer be reached. *)
Theorem bst_insert_duplicate h p t1 k v t2 fuel :
  is_tree h p (Br t1 k v t2) → (0 < fuel)%nat →
  ∃ h' l, insert fuel p v h = Ok (Ptr l, h') ∧ is_tree h' (Ptr l) (Br Leaf l v Leaf) ∧
    inorder (S (S fuel)) (Ptr l) h' = Ok ([v], h') ∧
    tree_at h' (Br t1 k v t2) ∧ l ∉ locs (Br t1 k v t2).
Proof.
  intros (-> & Ht & Hnd) Hf. destruct fuel as [|f]; [lia|].
  pose proof (fresh_notin h _ Ht) as Hfr. pose proof Ht as (Hk & _).
  set (h1 := <[fresh_loc h := Some (TNode v Null Null)]> h).
  assert (Hl : h1 !! fresh_loc h = Some (Some (TNode v Null Null))) by apply lookup_insert_eq.
  assert (Hkl : k ≠ fresh_loc h).
  { intros ->. apply Hfr. cbn. apply elem_of_app. right. by left. }
  exists h1, (fresh_loc h). split_and!; try done.
  - cbn [insert root]. hstep alloc_ok. fold h1. rewrite (run_bind _ _ _ false h1) by done.
    assert (Hk1 : h1 !! k = Some (Some (TNode v (root t1) (root t2)))).
    { unfold h1. by rewrite lookup_insert_ne. }
    hstep (load_ok h1 k _ Hk1). cbn [key]. by rewrite Z.gtb_ltb, Z.ltb_irrefl.
  - split_and!; [done|done|apply NoDup_singleton].
  - apply (inorder_run (Br Leaf (fresh_loc h) v Leaf)); [done|]. simpl. lia.
  - eapply tree_at_keeps; [exact Ht|apply keeps_insert|].
    intros j Hj Hin. apply list_elem_of_singleton in Hin as ->. done.
Qed.

Lemma bst_insert_duplicate_witness :
  ∃ h' l, insert 1 (Ptr 1) 15 small_heap = Ok (Ptr l, h') ∧
    is_tree h' (Ptr l) (Br Leaf l 15 Leaf) ∧ inorder 3 (Ptr l) h' = Ok ([15], h') ∧
    tree_at h' small_tree ∧ l ∉ locs small_tree.
Proof.
  apply (bst_insert_duplicate small_heap (Ptr 1) (Br Leaf 2%positive 7 Leaf) 1%positive 15 Leaf 1
    small_is_tree). lia.
Defined.

(** [main] does not set the children of its first node: its first
    call of [insert] reads an uninitialised pointer. *)
Theorem bst_main_faults fuel h : bst_main (S (S fuel)) h = UB Uninit.
Proof.
  unfold bst_main. hstep alloc_ok.
  set (k := fresh_loc h). set (h1 := <[k := Some (TNode 15 Undef Undef)]> h).
  unfold mbind at 1, prog_bind at 1.
  assert (Hi : insert (S (S fuel)) (Ptr k) 2 h1 = UB Uninit); [|by rewrite Hi].
  cbn [insert]. hstep alloc_ok. set (m := fresh_loc h1).
  set (h2 := <[m := Some (TNode 2 Null Null)]> h1).
  assert (Hmk : m ≠ k).
  { intros E. pose proof (fresh_loc_spec h1) as Hm. fold m in Hm. rewrite E in Hm.
    unfold h1 in Hm. by rewrite lookup_insert_eq in Hm. }
  assert (Hk : h2 !! k = Some (Some (TNode 15 Undef Undef))).
  { unfold h2, h1. rewrite lookup_insert_ne by done. apply lookup_insert_eq. }
  rewrite (run_bind _ _ _ false h2) by done. hstep (load_ok h2 k _ Hk). cbn [key left].
  by change (15 <? 2) with false.
Qed.

(** [levelorder] dereferences the null pointer it has just recognised. *)
Lemma levelorder_null_faults h : levelorder Null h = UB NullDeref.
Proof. done. Qed.
