(* ===== verification/LevelOrder.v ===== *)
(** * Level-order traversal with a queue

    Three programs print a tree level by level with three different queues.
    This file states what the traversal expects of a queue ([PtrQueue] and
    [QueueLaws]), gives the loop two of them share, and proves it against the
    levels of the tree. *)
From S2P Require Import Prelude Heap Tree.

Local Open Scope Z_scope.

(** ** The interface *)

(** The operations of a queue of node pointers; [dequeue] gives the null
    pointer when there is nothing. *)
Class PtrQueue (Q : Type) := {
  enqueue : ptr → Q → res Q;
  dequeue : Q → res (ptr * Q);
}.

(** [contents q ps k]: [q] holds [ps], and at least [k] more pointers can be
    put into it, whatever is taken out in between. *)
Class QueueLaws (Q : Type) `{PtrQueue Q} := {
  contents : Q → list ptr → nat → Prop;
  enqueue_law q ps k p :
    contents q ps (S k) → ∃ q', enqueue p q = Ok q' ∧ contents q' (ps ++ [p]) k;
  dequeue_law q p ps k :
    contents q (p :: ps) k → ∃ q', dequeue q = Ok (p, q') ∧ contents q' ps k;
  dequeue_empty q k : contents q [] k → ∃ q', dequeue q = Ok (Null, q');
}.

(** ** The loop *)

(** A node read without changing the heap. *)
Definition node_at (h : theap) (p : ptr) : res tnode := '(n, _) ← load p h; mret n.

Section visit.
Context {Q : Type} `{PtrQueue Q} (h : theap).

(** [if (temp->left != NULL) enqueue(temp->left);] and the same for [right]. *)
Definition enqueue_children (n : tnode) (q : Q) : res Q :=
  b ← is_null (left n);
  q ← (if b : bool then mret q else enqueue (left n) q);
  b ← is_null (right n);
  if b : bool then mret q else enqueue (right n) q.

(** [while (temp) { print; enqueue the children; temp = dequeue(); }]: the
    values printed, and the queue. *)
Fixpoint visit (fuel : nat) (temp : ptr) (q : Q) : res (list Z * Q) :=
  match fuel with
  | O => NoFuel
  | S f =>
      b ← is_null temp;
      if b : bool then mret ([], q)
      else
        n ← node_at h temp;
        q ← enqueue_children n q;
        '(temp, q) ← dequeue q;
        '(vs, q) ← visit f temp q;
        mret (key n :: vs, q)
  end.
End visit.

(** ** The levels of a tree *)

Fixpoint zapp (a b : list (list Z)) : list (list Z) :=
  match a, b with
  | [], _ => b
  | _, [] => a
  | x :: a', y :: b' => (x ++ y) :: zapp a' b'
  end.

(** The values at depth 0, 1, 2, ... from left to right. *)
Fixpoint levels (t : tree) : list (list Z) :=
  match t with
  | Leaf => []
  | Br t1 _ v t2 => [v] :: zapp (levels t1) (levels t2)
  end.

Fixpoint size (t : tree) : nat :=
  match t with Leaf => 0 | Br t1 _ _ t2 => S (size t1 + size t2) end.

(** The same for a row of trees. *)
Definition flevels (ts : list tree) : list (list Z) := foldr (λ t, zapp (levels t)) [] ts.

Definition branch (t : tree) : Prop := t ≠ Leaf.

(** The non-empty subtrees below a tree, and below a row of trees. *)
Definition kids (t : tree) : list tree :=
  match t with
  | Leaf => []
  | Br t1 _ _ t2 =>
      match t1 with Leaf => [] | _ => [t1] end ++ match t2 with Leaf => [] | _ => [t2] end
  end.
Definition kids_of (ts : list tree) : list tree := concat (kids <$> ts).

Definition values (ts : list tree) : list Z :=
  concat ((λ t, match t with Leaf => [] | Br _ _ v _ => [v] end) <$> ts).

Definition fsize (ts : list tree) : nat := sum_list_with size ts.

Lemma zapp_nil_r a : zapp a [] = a.
Proof. by destruct a. Qed.

Lemma zapp_assoc a b c : zapp (zapp a b) c = zapp a (zapp b c).
Proof.
  revert b c. induction a as [|x a IH]; intros [|y b] [|z c]; try done. cbn.
  by rewrite IH, <- app_assoc.
Qed.

Lemma flevels_app a b : flevels (a ++ b) = zapp (flevels a) (flevels b).
Proof.
  induction a as [|t a IH]; [done|].
  change (flevels ((t :: a) ++ b)) with (zapp (levels t) (flevels (a ++ b))).
  by rewrite IH, <- zapp_assoc.
Qed.

Lemma flevels_kids t1 l v t2 :
  flevels (kids (Br t1 l v t2)) = zapp (levels t1) (levels t2).
Proof.
  destruct t1 as [|a1 l1 v1 b1], t2 as [|a2 l2 v2 b2]; try done;
    cbn [kids app flevels foldr]; by rewrite ?zapp_nil_r.
Qed.

Lemma kids_branch t : Forall branch (kids t).
Proof.
  destruct t as [|t1 l v t2]; [constructor|]. cbn.
  destruct t1, t2; repeat constructor; done.
Qed.

Lemma kids_of_cons t ts : kids_of (t :: ts) = kids t ++ kids_of ts.
Proof. done. Qed.

Lemma kids_of_app a b : kids_of (a ++ b) = kids_of a ++ kids_of b.
Proof. unfold kids_of. by rewrite fmap_app, concat_app. Qed.

Lemma fsize_app a b : fsize (a ++ b) = (fsize a + fsize b)%nat.
Proof. apply sum_list_with_app. Qed.

(** The first level of a row of trees, and the other ones. *)
Lemma flevels_unfold ts :
  Forall branch ts → ts ≠ [] → flevels ts = values ts :: flevels (kids_of ts).
Proof.
  induction ts as [|t ts IH]; intros Hb Hne; [done|]. apply Forall_cons in Hb as [Ht Hb].
  destruct t as [|t1 l v t2]; [done|]. rewrite kids_of_cons, flevels_app, flevels_kids.
  destruct ts as [|t' ts]; [cbn; by rewrite !zapp_nil_r|].
  change (flevels (Br t1 l v t2 :: t' :: ts))
    with (zapp (levels (Br t1 l v t2)) (flevels (t' :: ts))).
  rewrite (IH Hb) by done. done.
Qed.

(** ** The loop prints the levels *)

Lemma node_at_ok h l n : h !! l = Some (Some n) → node_at h (Ptr l) = Ok n.
Proof. intros H. unfold node_at. by rewrite (load_ok h l n H). Qed.

Lemma fsize_kids t1 l v t2 : fsize (kids (Br t1 l v t2)) = (size t1 + size t2)%nat.
Proof. destruct t1, t2; cbn; lia. Qed.

(** Every tree of a row accounts for itself and for what is below it. *)
Lemma fsize_split ts :
  Forall branch ts → fsize ts = (length ts + fsize (kids_of ts))%nat.
Proof.
  induction ts as [|t ts IH]; intros Hb; [done|]. apply Forall_cons in Hb as [Ht Hb].
  destruct t as [|t1 l v t2]; [done|]. rewrite kids_of_cons, fsize_app, fsize_kids.
  change (fsize (Br t1 l v t2 :: ts)) with (size (Br t1 l v t2) + fsize ts)%nat.
  rewrite (IH Hb). cbn [size length]. lia.
Qed.

Lemma kids_at h t : tree_at h t → Forall (tree_at h) (kids t).
Proof.
  destruct t as [|t1 l v t2]; [constructor|]. intros (_ & H1 & H2). cbn [kids].
  destruct t1, t2; repeat constructor; apply H1 || apply H2.
Qed.

Section laws.
Context {Q : Type} `{QueueLaws Q} (h : theap).

Lemma enqueue_children_ok t1 l v t2 q ps k :
  contents q ps (length (kids (Br t1 l v t2)) + k) →
  ∃ q', enqueue_children (TNode v (root t1) (root t2)) q = Ok q' ∧
    contents q' (ps ++ (root <$> kids (Br t1 l v t2))) k.
Proof.
  intros Hc. unfold enqueue_children. cbn [left right].
  step (is_null_root t1). destruct t1 as [|a1 l1 v1 b1]; cbn [kids app length Nat.add] in Hc.
  - cbn [mbind res_bind mret res_ret]. step (is_null_root t2).
    destruct t2 as [|a2 l2 v2 b2]; [|by apply enqueue_law].
    exists q. cbn in *. by rewrite app_nil_r.
  - destruct t2 as [|a2 l2 v2 b2]; cbn [app length Nat.add] in Hc;
      destruct (enqueue_law q ps _ (Ptr l1) Hc) as (q1 & Hq1 & Hc1); cbn [root]; step Hq1.
    + exists q1. done.
    + cbn [is_null mbind res_bind].
      destruct (enqueue_law q1 _ k (Ptr l2) Hc1) as (q2 & Hq2 & Hc2).
      exists q2. split; [done|]. by rewrite <- app_assoc in Hc2.
Qed.

(** [t] is visited, [a] is the rest of its level, [b] the part of the next
    level that is already in the queue. *)
Lemma visit_run n : ∀ t a b q k fuel,
  Forall branch (t :: a ++ b) → Forall (tree_at h) (t :: a ++ b) →
  contents q (root <$> (a ++ b)) k → (fsize (kids_of (t :: a ++ b)) <= k)%nat →
  fsize (t :: a ++ b) = n → (n < fuel)%nat →
  ∃ q', visit h fuel (root t) q
    = Ok (values (t :: a) ++ concat (flevels (b ++ kids_of (t :: a))), q').
Proof.
  induction n as [n IH] using lt_wf_ind.
  intros t a b q k [|f] Hb Ht Hc Hk Hn Hf; [lia|].
  pose proof (fsize_split _ Hb) as Hsz.
  pose proof Hb as [Hbt Hbr]%Forall_cons. pose proof Ht as [Htt Htr]%Forall_cons.
  destruct t as [|t1 l v t2]; [done|]. set (t := Br t1 l v t2) in *.
  pose proof (fsize_split _ (kids_branch t)) as Hkl.
  rewrite kids_of_cons, fsize_app in Hk.
  destruct (enqueue_children_ok t1 l v t2 q (root <$> (a ++ b)) (k - length (kids t)))
    as (q1 & Hq1 & Hc1).
  { fold t. by replace (length (kids t) + (k - length (kids t)))%nat with k by lia. }
  fold t in Hc1. rewrite <- fmap_app, <- app_assoc in Hc1.
  assert (Hbk : Forall branch (a ++ b ++ kids t)).
  { rewrite app_assoc. apply Forall_app. split; [done|apply kids_branch]. }
  assert (Htk : Forall (tree_at h) (a ++ b ++ kids t)).
  { rewrite app_assoc. apply Forall_app. split; [done|by apply kids_at]. }
  assert (Hk' : (fsize (kids_of (a ++ b ++ kids t)) <= k - length (kids t))%nat).
  { rewrite app_assoc, kids_of_app, fsize_app. lia. }
  assert (Hn' : S (fsize (a ++ b ++ kids t)) = n).
  { change (fsize (t :: a ++ b)) with (size t + fsize (a ++ b))%nat in Hn.
    rewrite app_assoc, fsize_app. unfold t. rewrite fsize_kids. cbn [size] in Hn. unfold t in Hn.
    cbn [size] in Hn. lia. }
  destruct Htt as [Hl _]. unfold t at 1. cbn [root visit is_null].
  rewrite (bind_ok _ _ false) by done. step (node_at_ok h l _ Hl). step Hq1. cbn [key].
  rewrite kids_of_cons. change (values (t :: a)) with (v :: values a).
  destruct a as [|t' a].
  - cbn [app] in *. destruct (b ++ kids t) as [|t' r] eqn:Hr.
    + apply app_nil in Hr as [-> Hkn]. destruct (dequeue_empty q1 _ Hc1) as (q2 & Hq2).
      step Hq2. exists q2.
      destruct f as [|f]; [simpl in Hn'; lia|]. cbn [app kids_of fmap list_fmap concat].
      rewrite app_nil_r, Hkn. done.
    + destruct (dequeue_law q1 _ _ _ Hc1) as (q2 & Hq2 & Hc2). step Hq2.
      destruct (IH (fsize (t' :: r)) ltac:(lia) t' r [] q2
        (k - length (kids t))%nat f) as (q3 & Hv);
        rewrite ?app_nil_r; try done; try lia.
      step Hv. exists q3. cbn [app].
      rewrite Hr.
      by rewrite (flevels_unfold (t' :: r)).
  - cbn [app] in *. destruct (dequeue_law q1 _ _ _ Hc1) as (q2 & Hq2 & Hc2). step Hq2.
    destruct (IH (fsize (t' :: a ++ b ++ kids t)) ltac:(lia) t' a (b ++ kids t) q2
      (k - length (kids t))%nat f)
      as (q3 & Hv); try done; try lia.
    step Hv. exists q3. by rewrite <- app_assoc.
Qed.

(** A tree of at most [S k] nodes. *)
Lemma visit_levels t q k fuel :
  tree_at h t → contents q [] k → (size t <= S k)%nat → (S (size t) < fuel)%nat →
  ∃ q', visit h fuel (root t) q = Ok (concat (levels t), q').
Proof.
  intros Ht Hc Hk Hf. assert (Hd : t = Leaf ∨ branch t) by (destruct t; [by left|by right]).
  destruct Hd as [->|Hb].
  { destruct fuel as [|f]; [lia|]. by exists q. }
  assert (Hfb : Forall branch ([t] ++ [])) by (by repeat constructor).
  pose proof (fsize_split _ Hfb) as Hsz. cbn [app length] in Hsz.
  assert (Hs1 : fsize [t] = size t) by (cbn; lia).
  destruct (visit_run (size t) t [] [] q k fuel) as (q' & Hv); try done; try lia.
  { by repeat constructor. } { cbn [app]. lia. }
  exists q'. rewrite Hv. do 2 f_equal.
  pose proof (flevels_unfold [t]) as Hu. cbn [app] in Hfb.
  assert (Hl : levels t = flevels [t]) by (cbn; by rewrite zapp_nil_r).
  rewrite Hl, Hu by done. done.
Qed.
End laws.
