(* ===== verification/BstSearch.v ===== *)
(** * The search tree of the MS interview questions

    [src/Interview_Questions/MS/bst_insert_search.c]: insertion that keeps
    equal values, and the level-order traversal over a global queue of 100
    pointers, filled and emptied from the front. *)
From Stdlib Require Import Sorted.
From S2P Require Import Prelude Heap Tree LevelOrder.

Local Open Scope Z_scope.

(** ** Operations *)

(** [Insert], with the node of [getNewNode] and the stores that follow. *)
Fixpoint Insert (fuel : nat) (root : ptr) (data : Z) : tprog ptr :=
  match fuel with
  | O => λ _, NoFuel
  | S f =>
      b ← lift (is_null root);
      if b : bool then alloc (TNode data Null Null)
      else
        n ← load root;
        if data <=? key n then
          p ← Insert f (left n) data; _ ← modify root (set_left p); mret root
        else if data >? key n then
          p ← Insert f (right n) data; _ ← modify root (set_right p); mret root
        else mret root
  end.

Definition Q_LEN : Z := 100.

(** The globals [Q], [start] and [end]. *)
Record queue100 := Queue100 { Q : list ptr; start : Z; qend : Z }.

Definition queue100_init : queue100 := Queue100 (replicate 100 Null) 0 0.

(** A full queue drops the pointer. *)
Definition enqueue100 (data : ptr) (q : queue100) : res queue100 :=
  if qend q <? Q_LEN then
    a ← arr_set (Q q) (qend q) data; mret (Queue100 a (start q) (qend q + 1))
  else mret q.

Definition dequeue100 (q : queue100) : res (ptr * queue100) :=
  if start q >=? qend q then mret (Null, q)
  else p ← arr_get (Q q) (start q); mret (p, Queue100 (Q q) (start q + 1) (qend q)).

#[export] Instance queue100_ops : PtrQueue queue100 :=
  {| enqueue := enqueue100; dequeue := dequeue100 |}.

(** [level_order]: its call of itself on the dequeued node is the next turn of
    the loop. *)
Definition level_order (h : theap) (fuel : nat) (root : ptr) (q : queue100)
    : res (list Z * queue100) := visit h fuel root q.

(** [preorder] prints the left child of the root, if there is one. *)
Definition preorder (root : ptr) : tprog (list Z) :=
  b ← lift (is_null root);
  if b : bool then mret []
  else
    n ← load root;
    b ← lift (is_null (left n));
    if b : bool then mret [] else m ← load (left n); mret [key m].

Fixpoint Insert_all (fuel : nat) (root : ptr) (vs : list Z) : tprog ptr :=
  match vs with
  | [] => mret root
  | v :: vs' => root ← Insert fuel root v; Insert_all fuel root vs'
  end.

(** [main]: what the two traversals print. *)
Definition search_main (fuel : nat) : tprog (list Z * list Z) :=
  root ← Insert_all fuel Null [8; 10; 4; 9; 25];
  h ← get;
  '(lev, _) ← lift (level_order h fuel root queue100_init);
  pre ← preorder root;
  mret (lev, pre).

Example search_main_prints : ∃ h, search_main 9 ∅ = Ok (([8; 4; 10; 9; 25], [4]), h).
Proof. eexists. vm_compute. reflexivity. Qed.

(** ** The queue *)

Definition contents100 (q : queue100) (ps : list ptr) (k : nat) : Prop :=
  ∃ pre post, Q q = pre ++ ps ++ post ∧ start q = Z.of_nat (length pre) ∧
    qend q = Z.of_nat (length pre + length ps) ∧ (k <= length post)%nat ∧
    Z.of_nat (length (Q q)) = Q_LEN.

#[export] Instance queue100_laws : QueueLaws queue100.
Proof.
  refine {| contents := contents100 |}.
  - intros [a s e] ps k p (pre & post & HQ & Hs & He & Hk & Hl). cbn in *. subst a s e.
    destruct post as [|x post]; [simpl in Hk; lia|].
    exists (Queue100 (pre ++ (ps ++ [p]) ++ post) (Z.of_nat (length pre))
              (Z.of_nat (length pre + length ps) + 1)).
    split.
    + unfold enqueue100. cbn [Q start qend].
      rewrite !length_app in Hl. cbn [length] in Hl.
      rewrite (proj2 (Z.ltb_lt _ _)) by lia.
      rewrite app_assoc. rewrite (arr_set_app (pre ++ ps) x post) by (rewrite length_app; lia).
      cbn [mbind res_bind]. by rewrite <- !app_assoc.
    + exists pre, post. cbn. rewrite !length_app in *. cbn [length] in *. split_and!; (done || lia).
  - intros [a s e] p ps k (pre & post & HQ & Hs & He & Hk & Hl). cbn in *. subst a s e.
    exists (Queue100 (pre ++ p :: ps ++ post) (Z.of_nat (length pre) + 1)
              (Z.of_nat (length pre + S (length ps)))).
    split.
    + unfold dequeue100. cbn [Q start qend]. rewrite Z.geb_leb, (proj2 (Z.leb_gt _ _)) by lia.
      by rewrite arr_get_app.
    + exists (pre ++ [p]), post. cbn. rewrite <- !app_assoc, !length_app in *. cbn [length app] in *.
      split_and!; (done || lia).
  - intros [a s e] k (pre & post & HQ & Hs & He & Hk & Hl). cbn in *. subst a s e.
    eexists. unfold dequeue100. cbn [Q start qend].
    by rewrite Z.geb_leb, (proj2 (Z.leb_le _ _)) by lia.
Defined.

Lemma init_contents : contents queue100_init [] 100.
Proof. exists [], (replicate 100 Null). split_and!; done. Qed.

(** ** Insertion *)

Fixpoint ins_le (l : loc) (v : Z) (t : tree) : tree :=
  match t with
  | Leaf => Br Leaf l v Leaf
  | Br t1 k x t2 => if v <=? x then Br (ins_le l v t1) k x t2 else Br t1 k x (ins_le l v t2)
  end.

(** Search trees with equal values to the left. *)
Fixpoint bst_le (t : tree) : Prop :=
  match t with
  | Leaf => True
  | Br t1 _ v t2 =>
      Forall (λ x, x <= v) (elems t1) ∧ Forall (λ x, v < x) (elems t2) ∧ bst_le t1 ∧ bst_le t2
  end.

Lemma elems_ins_le l v t : elems (ins_le l v t) ≡ₚ v :: elems t.
Proof.
  induction t as [|t1 IH1 k x t2 IH2]; [done|]. cbn [ins_le]. destruct (v <=? x); cbn [elems].
  - by rewrite IH1.
  - rewrite IH2. solve_Permutation.
Qed.

Lemma bst_le_ins l v t : bst_le t → bst_le (ins_le l v t).
Proof.
  induction t as [|t1 IH1 k x t2 IH2]; [by repeat constructor|]. intros (Hlt & Hgt & H1 & H2).
  cbn [ins_le]. destruct (Z.leb_spec v x); cbn [bst_le]; split_and!; try done; auto.
  - rewrite elems_ins_le. by constructor.
  - rewrite elems_ins_le. by constructor.
Qed.

Lemma locs_ins_le l v t : locs (ins_le l v t) ≡ₚ l :: locs t.
Proof.
  induction t as [|t1 IH1 k x t2 IH2]; [done|]. cbn [ins_le]. destruct (v <=? x); cbn [locs].
  - by rewrite IH1.
  - rewrite IH2. solve_Permutation.
Qed.

Lemma Insert_run t v : ∀ h fuel,
  tree_at h t → NoDup (locs t) → (height t < fuel)%nat →
  ∃ h', Insert fuel (root t) v h = Ok (root (ins_le (fresh_loc h) v t), h') ∧
    tree_at h' (ins_le (fresh_loc h) v t) ∧ keeps h h' (fresh_loc h :: locs t).
Proof.
  induction t as [|t1 IH1 k x t2 IH2]; intros h [|f] Ht Hnd Hf; try lia.
  { eexists. split; [done|]. split; [cbn; by rewrite lookup_insert_eq|].
    eapply keeps_sub; [apply keeps_insert|]. done. }
  pose proof (nodup_locs _ _ _ _ Hnd) as (Hnd1 & Hnd2 & Hk1 & Hk2 & Hd).
  set (m := fresh_loc h). pose proof (fresh_loc_spec h) as Hm. fold m in Hm.
  destruct Ht as (Hk & H1 & H2). cbn [height root Insert] in *.
  assert (Hmk : m ≠ k) by (intros E; by rewrite E, Hk in Hm).
  assert (Hlive : ∀ t j, tree_at h t → j ∈ locs t → j ≠ m).
  { intros t j Ht Hj ->. destruct (tree_at_live h t m Ht Hj) as [n Hn]. by rewrite Hm in Hn. }
  rewrite (run_bind _ _ _ false h) by done. hstep (load_ok h k _ Hk). cbn [key left right ins_le].
  destruct (v <=? x) eqn:Hvx.
  - destruct (IH1 h f H1 Hnd1 ltac:(lia)) as (h1 & Hr & Ht1 & Hkp). fold m in Hr, Ht1, Hkp.
    hstep Hr.
    assert (Hk' : h1 !! k = Some (Some (TNode x (root t1) (root t2)))).
    { rewrite Hkp; [done|]. by apply not_elem_of_cons. }
    hstep (modify_ok h1 k _ (set_left (root (ins_le m v t1))) Hk').
    eexists. split; [done|]. split.
    + cbn [tree_at]. split_and!; [by rewrite lookup_insert_eq| |].
      * eapply tree_at_keeps; [exact Ht1|apply keeps_insert|].
        intros j Hj Hjk. apply list_elem_of_singleton in Hjk as ->.
        rewrite locs_ins_le in Hj. apply elem_of_cons in Hj as [->|Hj]; done.
      * eapply tree_at_keeps; [exact H2|eapply keeps_trans; [exact Hkp|apply keeps_insert]|].
        intros j Hj [[E|Hin]%elem_of_cons|E%list_elem_of_singleton]%elem_of_app.
        { by apply (Hlive t2 j H2 Hj). } { by apply (Hd j). } { by rewrite E in Hj. }
    + eapply keeps_sub; [eapply keeps_trans; [exact Hkp|apply keeps_insert]|]. cbn [locs].
      clear. set_solver.
  - rewrite Z.gtb_ltb, (proj2 (Z.ltb_lt _ _)) by (by apply Z.leb_gt).
    destruct (IH2 h f H2 Hnd2 ltac:(lia)) as (h1 & Hr & Ht2 & Hkp). fold m in Hr, Ht2, Hkp.
    hstep Hr.
    assert (Hk' : h1 !! k = Some (Some (TNode x (root t1) (root t2)))).
    { rewrite Hkp; [done|]. by apply not_elem_of_cons. }
    hstep (modify_ok h1 k _ (set_right (root (ins_le m v t2))) Hk').
    eexists. split; [done|]. split.
    + cbn [tree_at]. split_and!; [by rewrite lookup_insert_eq| |].
      * eapply tree_at_keeps; [exact H1|eapply keeps_trans; [exact Hkp|apply keeps_insert]|].
        intros j Hj [[E|Hin]%elem_of_cons|E%list_elem_of_singleton]%elem_of_app.
        { by apply (Hlive t1 j H1 Hj). } { by apply (Hd j). } { by rewrite E in Hj. }
      * eapply tree_at_keeps; [exact Ht2|apply keeps_insert|].
        intros j Hj Hjk. apply list_elem_of_singleton in Hjk as ->.
        rewrite locs_ins_le in Hj. apply elem_of_cons in Hj as [->|Hj]; done.
    + eapply keeps_sub; [eapply keeps_trans; [exact Hkp|apply keeps_insert]|]. cbn [locs].
      clear. set_solver.
Qed.

(** ** Properties *)

Lemma height_ins_le l v t : (height (ins_le l v t) <= S (height t))%nat.
Proof.
  induction t as [|t1 IH1 k x t2 IH2]; [done|]. cbn [ins_le].
  destruct (v <=? x); cbn [height]; lia.
Qed.

Lemma size_ins_le l v t : size (ins_le l v t) = S (size t).
Proof.
  induction t as [|t1 IH1 k x t2 IH2]; [done|]. cbn [ins_le].
  destruct (v <=? x); cbn [size]; lia.
Qed.

Lemma height_size t : (height t <= size t)%nat.
Proof. induction t; cbn; lia. Qed.

Lemma bst_le_sorted t : bst_le t → StronglySorted Z.le (elems t).
Proof.
  induction t as [|t1 IH1 k v t2 IH2]; cbn; [constructor|].
  intros (Hlt & Hgt & H1 & H2). specialize (IH1 H1). specialize (IH2 H2).
  induction IH1 as [|x xs Hxs IH Hx]; cbn.
  - constructor; [done|]. eapply Forall_impl; [exact Hgt|]. simpl. lia.
  - apply Forall_cons in Hlt as [Hxv Hlt]. constructor; [by apply IH|].
    apply Forall_app. split; [done|]. constructor; [done|].
    eapply Forall_impl; [exact Hgt|]. simpl. lia.
Qed.

Lemma Insert_is_tree h t v fuel :
  is_tree h (root t) t → (height t < fuel)%nat →
  ∃ h' l, Insert fuel (root t) v h = Ok (root (ins_le l v t), h') ∧ h !! l = None ∧
    is_tree h' (root (ins_le l v t)) (ins_le l v t) ∧ keeps h h' (l :: locs t).
Proof.
  intros (_ & Ht & Hnd) Hf.
  destruct (Insert_run t v h fuel Ht Hnd Hf) as (h' & Hr & Hti & Hkp).
  exists h', (fresh_loc h). split_and!; try done; [apply fresh_loc_spec|].
  split_and!; try done. rewrite locs_ins_le. apply NoDup_cons. split; [|done].
  intros Hin. destruct (tree_at_live h t _ Ht Hin) as [n Hn].
  by rewrite fresh_loc_spec in Hn.
Qed.

(** [Insert] keeps a search tree with equal values to the left
    a search tree, adds exactly the value given, once more when it was there
    already, in one new node, and touches no memory but that of the tree. *)
Theorem Insert_spec h p t v fuel :
  is_tree h p t → bst_le t → (height t < fuel)%nat →
  ∃ h' p' t' l, Insert fuel p v h = Ok (p', h') ∧ is_tree h' p' t' ∧ bst_le t' ∧
    elems t' ≡ₚ v :: elems t ∧ StronglySorted Z.le (elems t') ∧
    h !! l = None ∧ locs t' ≡ₚ l :: locs t ∧ keeps h h' (l :: locs t) ∧
    (height t' <= S (height t))%nat.
Proof.
  intros Ht Hb Hf. pose proof Ht as (-> & _).
  destruct (Insert_is_tree h t v fuel Ht Hf) as (h' & l & Hr & Hl & Hti & Hkp).
  exists h', (root (ins_le l v t)), (ins_le l v t), l. split_and!; try done.
  - by apply bst_le_ins.
  - apply elems_ins_le.
  - by apply bst_le_sorted, bst_le_ins.
  - apply locs_ins_le.
  - apply height_ins_le.
Qed.

(** The tree 8 with the child 4 at its left. *)
Definition search_heap : theap :=
  {[1%positive := Some (TNode 8 (Ptr 2) Null); 2%positive := Some (TNode 4 Null Null)]}.
Definition search_tree : tree := Br (Br Leaf 2%positive 4 Leaf) 1%positive 8 Leaf.

Lemma Insert_spec_witness :
  ∃ h' p' t' l, Insert 3 (Ptr 1) 4 search_heap = Ok (p', h') ∧ is_tree h' p' t' ∧ bst_le t' ∧
    elems t' ≡ₚ [4; 4; 8] ∧ StronglySorted Z.le (elems t') ∧
    search_heap !! l = None ∧ locs t' ≡ₚ l :: locs search_tree ∧
    keeps search_heap h' (l :: locs search_tree) ∧ (height t' <= 3)%nat.
Proof.
  apply (Insert_spec search_heap (Ptr 1) search_tree 4 3).
  - split_and!; [done|by vm_compute|]. apply (bool_decide_unpack _). by vm_compute.
  - cbn. split_and!; repeat constructor; lia.
  - simpl. lia.
Defined.

Lemma Insert_all_run vs : ∀ h t fuel,
  is_tree h (root t) t → bst_le t → (size t + length vs <= fuel)%nat →
  ∃ h' t', Insert_all fuel (root t) vs h = Ok (root t', h') ∧ is_tree h' (root t') t' ∧
    bst_le t' ∧ elems t' ≡ₚ vs ++ elems t ∧ size t' = (size t + length vs)%nat.
Proof.
  induction vs as [|v vs IH]; intros h t fuel Ht Hb Hf; cbn [Insert_all].
  { exists h, t. split_and!; done || simpl; lia. }
  simpl in Hf. pose proof (height_size t) as Hs.
  destruct (Insert_is_tree h t v fuel Ht ltac:(lia)) as (h1 & l & Hr & _ & Ht1 & _).
  hstep Hr. destruct (IH h1 (ins_le l v t) fuel Ht1 (bst_le_ins l v t Hb)) as
    (h2 & t2 & Hr2 & Ht2 & Hb2 & He2 & Hs2); [rewrite size_ins_le; lia|].
  exists h2, t2. split_and!; try done.
  - rewrite He2, elems_ins_le. solve_Permutation.
  - rewrite Hs2, size_ins_le. simpl. lia.
Qed.

(** C23 (functional): up to 101 values inserted one after the other make a
    search tree of exactly these values, and the level-order traversal of it
    returns and prints every level of the tree from left to right, the global
    queue of 100 pointers being enough. *)
Theorem search_session vs fuel :
  (length vs <= 101)%nat → (S (length vs) < fuel)%nat →
  ∃ h t q, Insert_all fuel Null vs ∅ = Ok (root t, h) ∧ is_tree h (root t) t ∧ bst_le t ∧
    elems t ≡ₚ vs ∧ StronglySorted Z.le (elems t) ∧
    level_order h fuel (root t) queue100_init = Ok (concat (levels t), q).
Proof.
  intros Hl Hf.
  destruct (Insert_all_run vs ∅ Leaf fuel) as (h & t & Hr & Ht & Hb & He & Hs).
  { split_and!; [done|done|constructor]. } { done. } { simpl. lia. }
  simpl in Hs. rewrite app_nil_r in He. pose proof Ht as (_ & Hat & _).
  destruct (visit_levels h t queue100_init 100 fuel Hat init_contents) as (q & Hv);
    [lia|lia|].
  exists h, t, q. split_and!; try done. by apply bst_le_sorted.
Qed.

Lemma search_session_witness :
  ∃ h t q, Insert_all 9 Null [8; 10; 4; 9; 25] ∅ = Ok (root t, h) ∧ is_tree h (root t) t ∧
    bst_le t ∧ elems t ≡ₚ [8; 10; 4; 9; 25] ∧ StronglySorted Z.le (elems t) ∧
    level_order h 9 (root t) queue100_init = Ok (concat (levels t), q).
Proof. apply (search_session [8; 10; 4; 9; 25] 9); simpl; lia. Defined.
