(* ===== verification/Mirror.v ===== *)
(** * Mirroring a binary tree

    [src/Interview_Questions/MS/bst_mirror.c]: the exchange of the children of
    every node, and the level-order traversal over a global array of ten
    pointers whose two operations check neither end of it. *)
From S2P Require Import Prelude Heap Tree LevelOrder.

Local Open Scope Z_scope.

(** ** Operations *)

Definition MAX_Q_LEN : nat := 10.

(** The globals [Q], [front] and [rear]. *)
Record mqueue := MQueue { mQ : list ptr; mfront : Z; mrear : Z }.

Definition mqueue_init : mqueue := MQueue (replicate MAX_Q_LEN Null) 0 0.

Definition menqueue (p : ptr) (q : mqueue) : res mqueue :=
  a ← arr_set (mQ q) (mrear q) p; mret (MQueue a (mfront q) (mrear q + 1)).

Definition mdequeue (q : mqueue) : res (ptr * mqueue) :=
  p ← arr_get (mQ q) (mfront q); mret (p, MQueue (mQ q) (mfront q + 1) (mrear q)).

#[export] Instance mqueue_ops : PtrQueue mqueue := {| enqueue := menqueue; dequeue := mdequeue |}.

(** What is printed: the values, and the end of a line. *)
Inductive out := Val (v : Z) | NewLine.

Definition levelOrderTraversal (h : theap) (fuel : nat) (root : ptr) (q : mqueue)
    : res (list out * mqueue) :=
  b ← is_null root;
  if b : bool then mret ([], q)
  else '(vs, q) ← visit h fuel root q; mret ((Val <$> vs) ++ [NewLine], q).

(** [mirror] reads the fields of its node again after each call. *)
Fixpoint mirror (fuel : nat) (root : ptr) : tprog unit :=
  match fuel with
  | O => λ _, NoFuel
  | S f =>
      b ← lift (is_null root);
      if b : bool then mret tt
      else
        n ← load root; _ ← mirror f (left n);
        n ← load root; _ ← mirror f (right n);
        n ← load root;
        let temp := left n in
        _ ← modify root (set_left (right n));
        modify root (set_right temp)
  end.

Definition newNode (data : Z) : tprog ptr := alloc (TNode data Null Null).

Definition mirror_main (fuel : nat) : tprog (list out * list out) :=
  root ← newNode 10;
  p ← newNode 5; _ ← modify root (set_left p);
  p ← newNode 12; _ ← modify root (set_right p);
  p ← newNode 3; n ← load root; _ ← modify (left n) (set_left p);
  p ← newNode 7; n ← load root; _ ← modify (left n) (set_right p);
  h ← get; '(o1, q) ← lift (levelOrderTraversal h fuel root mqueue_init);
  _ ← mirror fuel root;
  h ← get; '(o2, q) ← lift (levelOrderTraversal h fuel root mqueue_init);
  mret (o1, o2).

Example mirror_main_prints : ∃ h, mirror_main 9 ∅
  = Ok ((Val <$> [10; 5; 12; 3; 7]) ++ [NewLine],
        (Val <$> [10; 12; 5; 7; 3]) ++ [NewLine], h).
Proof. eexists. vm_compute. reflexivity. Qed.

(** ** The queue *)

(** [q] holds [ps], the slots from [mrear] on being [post]. *)
Definition mholds (q : mqueue) (ps post : list ptr) : Prop :=
  ∃ pre, mQ q = pre ++ ps ++ post ∧ mfront q = Z.of_nat (length pre) ∧
    mrear q = Z.of_nat (length pre + length ps) ∧ length (mQ q) = MAX_Q_LEN.

Lemma mholds_enqueue q ps x post p :
  mholds q ps (x :: post) →
  ∃ q', menqueue p q = Ok q' ∧ mholds q' (ps ++ [p]) post ∧ mfront q' = mfront q.
Proof.
  destruct q as [a f r]. intros (pre & HQ & Hf & Hr & Hl). cbn in *. subst a f r.
  exists (MQueue (pre ++ (ps ++ [p]) ++ post) (Z.of_nat (length pre))
            (Z.of_nat (length pre + length ps) + 1)). split_and!; [| |done].
  - unfold menqueue. cbn [mQ mfront mrear].
    rewrite app_assoc. rewrite (arr_set_app (pre ++ ps) x post) by (rewrite length_app; lia).
    cbn [mbind res_bind]. by rewrite <- !app_assoc.
  - exists pre. cbn. rewrite !length_app in *. cbn [length] in *. split_and!; (done || lia).
Qed.

Lemma mholds_enqueue_full q ps p : mholds q ps [] → menqueue p q = UB OutOfBounds.
Proof.
  destruct q as [a f r]. intros (pre & HQ & Hf & Hr & Hl). cbn in *. subst a f r.
  unfold menqueue. cbn [mQ mrear]. rewrite arr_set_oob; [done|].
  rewrite !length_app. cbn. lia.
Qed.

Lemma mholds_dequeue q p ps post :
  mholds q (p :: ps) post →
  ∃ q', mdequeue q = Ok (p, q') ∧ mholds q' ps post ∧ mfront q' = mfront q + 1.
Proof.
  destruct q as [a f r]. intros (pre & HQ & Hf & Hr & Hl). cbn in *. subst a f r.
  exists (MQueue (pre ++ p :: ps ++ post) (Z.of_nat (length pre) + 1)
            (Z.of_nat (length pre + S (length ps)))). split_and!; [| |done].
  - unfold mdequeue. cbn [mQ mfront]. by rewrite arr_get_app.
  - exists (pre ++ [p]). cbn. rewrite <- !app_assoc, !length_app in *. cbn [length app] in *.
    split_and!; (done || lia).
Qed.

(** An empty queue gives a slot nobody has written: the initial null pointer. *)
Definition mcontents (q : mqueue) (ps : list ptr) (k : nat) : Prop :=
  ∃ m, mholds q ps (replicate m Null) ∧ (k < m)%nat.

#[export] Instance mqueue_laws : QueueLaws mqueue.
Proof.
  refine {| contents := mcontents |}.
  - intros q ps k p (m & Hm & Hk). destruct m as [|m]; [lia|].
    destruct (mholds_enqueue q ps Null (replicate m Null) p Hm) as (q' & Hq & Hh & _).
    exists q'. split; [done|]. exists m. split; [done|lia].
  - intros q p ps k (m & Hm & Hk).
    destruct (mholds_dequeue q p ps _ Hm) as (q' & Hq & Hh & _).
    exists q'. split; [done|]. by exists m.
  - intros [a f r] k (m & (pre & HQ & Hf & Hr & Hl) & Hk). cbn in *. subst a f r.
    destruct m as [|m]; [lia|]. eexists. unfold dequeue, mqueue_ops, mdequeue. cbn [mQ mfront replicate app].
    by rewrite arr_get_app.
Defined.

Lemma mqueue_init_contents : contents mqueue_init [] 9.
Proof. exists 10%nat. split; [|lia]. by exists []. Qed.

(** ** The mirrored tree *)

Fixpoint mirrored (t : tree) : tree :=
  match t with
  | Leaf => Leaf
  | Br t1 l v t2 => Br (mirrored t2) l v (mirrored t1)
  end.

Lemma mirrored_mirrored t : mirrored (mirrored t) = t.
Proof. induction t as [|t1 IH1 l v t2 IH2]; [done|]. cbn. by rewrite IH1, IH2. Qed.

Lemma root_mirrored t : root (mirrored t) = root t.
Proof. by destruct t. Qed.

Lemma elems_mirrored t : elems (mirrored t) = rev (elems t).
Proof.
  induction t as [|t1 IH1 l v t2 IH2]; [done|]. cbn.
  rewrite IH1, IH2, rev_app_distr. cbn [rev]. by rewrite <- app_assoc.
Qed.

Lemma locs_mirrored t : locs (mirrored t) = rev (locs t).
Proof.
  induction t as [|t1 IH1 l v t2 IH2]; [done|]. cbn.
  rewrite IH1, IH2, rev_app_distr. cbn [rev]. by rewrite <- app_assoc.
Qed.

Lemma size_mirrored t : size (mirrored t) = size t.
Proof. induction t as [|t1 IH1 l v t2 IH2]; [done|]. cbn. lia. Qed.

Lemma height_mirrored t : height (mirrored t) = height t.
Proof. induction t as [|t1 IH1 l v t2 IH2]; [done|]. cbn. lia. Qed.

Lemma rev_zapp a b : @rev Z <$> zapp a b = zapp (@rev Z <$> b) (@rev Z <$> a).
Proof.
  revert b. induction a as [|x a IH]; intros [|y b]; try done. cbn. f_equal; [|apply IH].
  apply rev_app_distr.
Qed.

(** Every level is read from the other end. *)
Lemma levels_mirrored t : levels (mirrored t) = @rev Z <$> levels t.
Proof.
  induction t as [|t1 IH1 l v t2 IH2]; [done|]. cbn [mirrored levels].
  rewrite fmap_cons. cbn [rev app]. by rewrite rev_zapp, IH1, IH2.
Qed.

Lemma nodup_mirrored t : NoDup (locs t) → NoDup (locs (mirrored t)).
Proof. by rewrite locs_mirrored, <- Permutation_rev. Qed.

Lemma elem_locs_mirrored j t : j ∈ locs (mirrored t) → j ∈ locs t.
Proof. by rewrite locs_mirrored, <- Permutation_rev. Qed.

Lemma mirror_run t : ∀ h fuel,
  tree_at h t → NoDup (locs t) → (height t < fuel)%nat →
  ∃ h', mirror fuel (root t) h = Ok (tt, h') ∧ tree_at h' (mirrored t) ∧ keeps h h' (locs t).
Proof.
  induction t as [|t1 IH1 k v t2 IH2]; intros h [|f] Ht Hnd Hf; try lia; [by exists h|].
  pose proof (nodup_locs _ _ _ _ Hnd) as (Hnd1 & Hnd2 & Hk1 & Hk2 & Hd).
  destruct Ht as (Hk & H1 & H2). cbn [height root mirror mirrored locs] in *.
  rewrite (run_bind _ _ _ false h) by done. hstep (load_ok h k _ Hk). cbn [left].
  destruct (IH1 h f H1 Hnd1 ltac:(lia)) as (h1 & Hr1 & Ht1 & Hkp1). hstep Hr1.
  assert (Hk' : h1 !! k = Some (Some (TNode v (root t1) (root t2)))) by (by rewrite Hkp1).
  assert (H2' : tree_at h1 t2).
  { eapply tree_at_keeps; [exact H2|exact Hkp1|]. intros j Hj Hj1. by apply (Hd j). }
  hstep (load_ok h1 k _ Hk'). cbn [right].
  destruct (IH2 h1 f H2' Hnd2 ltac:(lia)) as (h2 & Hr2 & Ht2 & Hkp2). hstep Hr2.
  assert (Hk2' : h2 !! k = Some (Some (TNode v (root t1) (root t2)))) by (by rewrite Hkp2).
  hstep (load_ok h2 k _ Hk2'). cbv zeta. cbn [left right].
  hstep (modify_ok h2 k _ (set_left (root t2)) Hk2').
  rewrite (modify_ok _ k (set_left (root t2) (TNode v (root t1) (root t2)))) by apply lookup_insert_eq.
  rewrite insert_insert_eq. eexists. split; [done|].
  split; [cbn [tree_at]; split_and!|].
  - rewrite lookup_insert_eq. unfold set_right, set_left. cbn. by rewrite !root_mirrored.
  - eapply tree_at_keeps; [exact Ht2|apply keeps_insert|].
    by intros j Hj%elem_locs_mirrored ->%list_elem_of_singleton.
  - eapply tree_at_keeps; [exact Ht1|eapply keeps_trans; [exact Hkp2|apply keeps_insert]|].
    intros j Hj%elem_locs_mirrored [Hin| ->%list_elem_of_singleton]%elem_of_app; [|done].
    by apply (Hd j).
  - eapply keeps_sub; [eapply keeps_trans; [exact Hkp1|eapply keeps_trans;
      [exact Hkp2|apply keeps_insert]]|]. clear. set_solver.
Qed.

(** ** Properties *)

(** Two heaps that agree outside a tree and hold the same tree are the same. *)
Lemma tree_heap_eq h h' t : tree_at h t → tree_at h' t → keeps h h' (locs t) → h' = h.
Proof.
  intros Ht Ht' Hk. apply map_eq. intros j. destruct (decide (j ∈ locs t)) as [Hj|Hj].
  - clear Hk. revert Ht Ht' Hj. induction t as [|t1 IH1 l v t2 IH2]; [by intros _ _ ?%elem_of_nil|].
    intros (Hl & H1 & H2) (Hl' & H1' & H2') [Hj|[->|Hj]%elem_of_cons]%elem_of_app; auto.
    by rewrite Hl, Hl'.
  - by apply Hk.
Qed.

(** C24 (functional): [mirror] returns on every tree, exchanges the children of
    every node in place (the same nodes, the values from right to left, every
    level reversed), touches no other memory, and a second [mirror] restores
    the memory exactly as it was. *)
Theorem mirror_spec h p t fuel :
  is_tree h p t → (height t < fuel)%nat →
  ∃ h', mirror fuel p h = Ok (tt, h') ∧ is_tree h' p (mirrored t) ∧ keeps h h' (locs t) ∧
    elems (mirrored t) = rev (elems t) ∧ levels (mirrored t) = @rev Z <$> levels t ∧
    mirror fuel p h' = Ok (tt, h).
Proof.
  intros (-> & Ht & Hnd) Hf.
  destruct (mirror_run t h fuel Ht Hnd Hf) as (h1 & Hr & Ht1 & Hk).
  pose proof (nodup_mirrored t Hnd) as Hnd1.
  exists h1. split_and!; try done;
    [by split_and!; [rewrite root_mirrored|..]|apply elems_mirrored|apply levels_mirrored|].
  destruct (mirror_run (mirrored t) h1 fuel Ht1 Hnd1) as (h2 & Hr2 & Ht2 & Hk2);
    [by rewrite height_mirrored|].
  rewrite root_mirrored in Hr2. rewrite mirrored_mirrored in Ht2. rewrite Hr2.
  rewrite (tree_heap_eq h h2 t); try done.
  intros j Hj. rewrite Hk2, Hk; [done..|]. by intros Hin%elem_locs_mirrored.
Qed.

(** 10 with the children 5 and 12. *)
Definition three_tree : tree :=
  Br (Br Leaf 2%positive 5 Leaf) 1%positive 10 (Br Leaf 3%positive 12 Leaf).
Definition three_heap : theap :=
  {[1%positive := Some (TNode 10 (Ptr 2) (Ptr 3)); 2%positive := Some (TNode 5 Null Null);
    3%positive := Some (TNode 12 Null Null)]}.

Lemma mirror_spec_witness :
  ∃ h', mirror 3 (Ptr 1) three_heap = Ok (tt, h') ∧ is_tree h' (Ptr 1) (mirrored three_tree) ∧
    keeps three_heap h' (locs three_tree) ∧
    elems (mirrored three_tree) = [12; 10; 5] ∧ levels (mirrored three_tree) = [[10]; [12; 5]] ∧
    mirror 3 (Ptr 1) h' = Ok (tt, three_heap).
Proof.
  apply (mirror_spec three_heap (Ptr 1) three_tree 3).
  - split_and!; [done|by vm_compute|]. apply (bool_decide_unpack _). by vm_compute.
  - simpl. lia.
Defined.

(** Past the end of the array: with [n] more nodes to print, the slot read
    after the last one is [mfront + n - 1]. *)
Lemma menqueue_cases q ps post p :
  mholds q ps post →
  menqueue p q = UB OutOfBounds ∨
  ∃ q' post', menqueue p q = Ok q' ∧ mholds q' (ps ++ [p]) post' ∧ mfront q' = mfront q.
Proof.
  destruct post as [|x post]; intros Hq; [left; by eapply mholds_enqueue_full|].
  right. destruct (mholds_enqueue q ps x post p Hq) as (q' & H). by exists q', post.
Qed.

Lemma enqueue_children_cases t1 l v t2 q ps post :
  mholds q ps post →
  enqueue_children (TNode v (root t1) (root t2)) q = UB OutOfBounds ∨
  ∃ q' post', enqueue_children (TNode v (root t1) (root t2)) q = Ok q' ∧
    mholds q' (ps ++ (root <$> kids (Br t1 l v t2))) post' ∧ mfront q' = mfront q.
Proof.
  intros Hq. unfold enqueue_children. cbn [left right].
  step (is_null_root t1). destruct t1 as [|a1 l1 v1 b1]; cbn [kids app].
  - cbn [mbind res_bind mret res_ret]. step (is_null_root t2).
    destruct t2 as [|a2 l2 v2 b2]; [|by apply (menqueue_cases q ps post)].
    right. exists q, post. cbn. by rewrite app_nil_r.
  - destruct (menqueue_cases q ps post (Ptr l1) Hq) as [Hu|(q1 & post1 & Hq1 & Hh1 & Hf1)];
      unfold enqueue, mqueue_ops; cbn [root]; [left; by rewrite Hu|].
    step Hq1. step (is_null_root t2). destruct t2 as [|a2 l2 v2 b2]; [by right; exists q1, post1|].
    destruct (menqueue_cases q1 _ post1 (Ptr l2) Hh1) as [Hu|(q2 & post2 & Hq2 & Hh2 & Hf2)];
      cbn [root]; [by left|].
    right. exists q2, post2. rewrite <- app_assoc in Hh2. split_and!; [done|done|congruence].
Qed.

Lemma visit_overflow h : ∀ fuel t ts q post,
  Forall branch (t :: ts) → Forall (tree_at h) (t :: ts) → mholds q (root <$> ts) post →
  (MAX_Q_LEN < Z.to_nat (mfront q) + fsize (t :: ts))%nat → 0 <= mfront q →
  (fsize (t :: ts) < fuel)%nat →
  visit h fuel (root t) q = UB OutOfBounds.
Proof.
  induction fuel as [|f IH]; intros t ts q post Hb Ht Hh Hn H0 Hf; [lia|].
  pose proof Hb as [Hbt Hbr]%Forall_cons. pose proof Ht as [Htt Htr]%Forall_cons.
  destruct t as [|t1 l v t2]; [done|]. pose proof Htt as [Hl _].
  change (fsize (Br t1 l v t2 :: ts)) with (S (size t1 + size t2) + fsize ts)%nat in *.
  cbn [root visit is_null]. rewrite (bind_ok _ _ false) by done. step (node_at_ok h l _ Hl).
  destruct (enqueue_children_cases t1 l v t2 q _ post Hh) as [Hu|(q1 & post1 & Hq1 & Hh1 & Hf1)];
    [by rewrite Hu|].
  step Hq1. rewrite <- fmap_app in Hh1. pose proof (fsize_kids t1 l v t2) as Hk.
  assert (Hb' : Forall branch (ts ++ kids (Br t1 l v t2))).
  { apply Forall_app. split; [done|apply kids_branch]. }
  assert (Ht' : Forall (tree_at h) (ts ++ kids (Br t1 l v t2))).
  { apply Forall_app. split; [done|by apply kids_at]. }
  pose proof (fsize_app ts (kids (Br t1 l v t2))) as Hs. rewrite Hk in Hs. clear Hk.
  destruct (ts ++ kids (Br t1 l v t2)) as [|t' ts'].
  - change (fsize []) with 0%nat in Hs. unfold dequeue, mqueue_ops, mdequeue.
    destruct Hh1 as (pre & HQ & Hf' & _ & Hlen).
    rewrite arr_get_oob; [done|]. unfold MAX_Q_LEN in *. lia.
  - destruct (mholds_dequeue q1 (root t') _ post1 Hh1) as (q2 & Hq2 & Hh2 & Hf2).
    unfold dequeue, mqueue_ops. step Hq2. cbv iota beta. fold mqueue_ops.
    rewrite (IH t' ts' q2 post1); try done; lia.
Qed.

(** C33 (bounds): the traversal of a tree of at most ten nodes returns and
    prints every level from left to right; for every larger tree it leaves the
    array of ten pointers. *)
Theorem mirror_queue_bound h p t fuel :
  is_tree h p t → t ≠ Leaf → (S (size t) < fuel)%nat →
  (size t <= 10 → ∃ q, levelOrderTraversal h fuel p mqueue_init
     = Ok ((Val <$> concat (levels t)) ++ [NewLine], q))%nat ∧
  (10 < size t → levelOrderTraversal h fuel p mqueue_init = UB OutOfBounds)%nat.
Proof.
  intros (-> & Ht & _) Hb Hf. unfold levelOrderTraversal. step (is_null_root t).
  split; intros Hs.
  - destruct (visit_levels h t mqueue_init 9 fuel Ht mqueue_init_contents) as (q & Hv); [lia|lia|].
    destruct t; [done|]. step Hv. by exists q.
  - assert (Hv : visit h fuel (root t) mqueue_init = UB OutOfBounds).
    { apply (visit_overflow h fuel t [] mqueue_init (replicate 10 Null)); try done.
      - by repeat constructor.
      - by repeat constructor.
      - by exists [].
      - unfold MAX_Q_LEN. cbn. lia.
      - cbn. lia. }
    rewrite Hv. by destruct t.
Qed.

(** A chain of [n] nodes to the right, the last one at address [n]. *)
Fixpoint chain (n : nat) (l : loc) : tree :=
  match n with O => Leaf | S m => Br Leaf l (Zpos l) (chain m (Pos.succ l)) end.
Fixpoint chain_heap (n : nat) (l : loc) : theap :=
  match n with
  | O => ∅
  | S m => <[l := Some (TNode (Zpos l) Null (root (chain m (Pos.succ l))))]>
             (chain_heap m (Pos.succ l))
  end.

Lemma mirror_queue_bound_witness :
  ((11 <= 10)%nat → ∃ q, levelOrderTraversal (chain_heap 11 1) 13 (Ptr 1) mqueue_init
     = Ok ((Val <$> concat (levels (chain 11 1))) ++ [NewLine], q)) ∧
  ((10 < 11)%nat → levelOrderTraversal (chain_heap 11 1) 13 (Ptr 1) mqueue_init
     = UB OutOfBounds).
Proof.
  apply (mirror_queue_bound (chain_heap 11 1) (Ptr 1) (chain 11 1) 13).
  - split_and!; [done|vm_compute; by split_and!|]. apply (bool_decide_unpack _). by vm_compute.
  - done.
  - simpl. lia.
Defined.
