(* ===== verification/MaxPath.v ===== *)
(** * The path of greatest sum

    [src/Interview_Questions/PS/PS_4.c]: the search for the leaf whose path
    from the root has the greatest sum, the printing of that path, and the
    level-order traversal over a circular queue.  The traversals only read the
    tree, so they take the heap as an argument. *)
From S2P Require Import Prelude Heap Tree LevelOrder.

Local Open Scope Z_scope.

(** ** The greatest sum *)

(** [printPath]: whether the leaf is below [root], and what is printed. *)
Fixpoint printPath (h : theap) (fuel : nat) (root target_leaf : ptr) : res (bool * list Z) :=
  match fuel with
  | O => NoFuel
  | S f =>
      b ← is_null root;
      if b : bool then mret (false, [])
      else
        n ← node_at h root;
        here ← same_ptr root target_leaf;
        if here : bool then mret (true, [key n])
        else
          '(b, o1) ← printPath h f (left n) target_leaf;
          if b : bool then mret (true, o1 ++ [key n])
          else
            '(b, o2) ← printPath h f (right n) target_leaf;
            if b : bool then mret (true, o1 ++ o2 ++ [key n])
            else mret (false, o1 ++ o2)
  end.

(** [*max_sum_ref] and [*target_leaf_ref]. *)
Definition best : Type := Z * ptr.

Fixpoint getTargetLeaf (h : theap) (fuel : nat) (node : ptr) (r : best) (curr_sum : Z)
    : res best :=
  match fuel with
  | O => NoFuel
  | S f =>
      b ← is_null node;
      if b : bool then mret r
      else
        n ← node_at h node;
        curr_sum ← add_int curr_sum (key n);
        bl ← is_null (left n);
        leaf ← (if bl : bool then is_null (right n) else mret false);
        let r := if (leaf : bool) && (curr_sum >? r.1) then (curr_sum, node) else r in
        r ← getTargetLeaf h f (left n) r curr_sum;
        getTargetLeaf h f (right n) r curr_sum
  end.

(** The sum returned and the path printed; [target_leaf] starts without a value. *)
Definition maxSumPath (h : theap) (fuel : nat) (node : ptr) : res (Z * list Z) :=
  b ← is_null node;
  if b : bool then mret (0, [])
  else
    '(max_sum, target_leaf) ← getTargetLeaf h fuel node (INT_MIN, Undef) 0;
    '(_, o) ← printPath h fuel node target_leaf;
    mret (max_sum, o).

(** ** The queue *)

Record myQueue := MyQueue { data : list ptr; front : Z; rear : Z; capacity : Z }.

Definition createQueue : myQueue := MyQueue (replicate 10 Undef) (-1) (-1) 10.

(** [%] of C, on a divisor that is not zero. *)
Definition enqueue10 (root : ptr) (q : myQueue) : res myQueue :=
  let r := Z.rem (rear q + 1) (capacity q) in
  a ← arr_set (data q) r root;
  mret (MyQueue a (if front q =? -1 then r else front q) r (capacity q)).

Definition IsEmptyQueue (q : myQueue) : bool := front q =? -1.

(** [(Q->front)+1 % Q->capacity]: the remainder is taken of 1. *)
Definition dequeue10 (q : myQueue) : res (ptr * myQueue) :=
  if IsEmptyQueue q then mret (Null, q)
  else
    temp ← arr_get (data q) (front q);
    if front q =? rear q then mret (temp, MyQueue (data q) (-1) (-1) (capacity q))
    else mret (temp, MyQueue (data q) (front q + Z.rem 1 (capacity q)) (rear q) (capacity q)).

#[export] Instance myQueue_ops : PtrQueue myQueue :=
  {| enqueue := enqueue10; dequeue := dequeue10 |}.

Fixpoint level_loop (h : theap) (fuel : nat) (q : myQueue) : res (list Z) :=
  match fuel with
  | O => NoFuel
  | S f =>
      if IsEmptyQueue q then mret []
      else
        '(temp, q) ← dequeue10 q;
        b ← is_null temp;
        if b : bool then mret []
        else
          n ← node_at h temp;
          q ← enqueue_children n q;
          vs ← level_loop h f q;
          mret (key n :: vs)
  end.

Definition levelorder (h : theap) (fuel : nat) (root : ptr) : res (list Z) :=
  q ← enqueue10 root createQueue; level_loop h fuel q.

Definition newNode (data : Z) : tprog ptr := alloc (TNode data Null Null).

(** [main]: the level order, the path and its sum. *)
Definition max_main (fuel : nat) : tprog (list Z * (Z * list Z)) :=
  root ← newNode 10;
  p ← newNode (-2); _ ← modify root (set_left p);
  p ← newNode 7; _ ← modify root (set_right p);
  p ← newNode 8; n ← load root; _ ← modify (left n) (set_left p);
  p ← newNode (-4); n ← load root; _ ← modify (left n) (set_right p);
  p ← newNode 4; n ← load root; n ← load (left n); _ ← modify (left n) (set_left p);
  p ← newNode 2; n ← load root; n ← load (left n); _ ← modify (left n) (set_right p);
  p ← newNode 3; n ← load root; _ ← modify (right n) (set_left p);
  p ← newNode 1; n ← load root; _ ← modify (right n) (set_right p);
  h ← get;
  lev ← lift (levelorder h fuel root);
  sum ← lift (maxSumPath h fuel root);
  mret (lev, sum).

Example max_main_prints : ∃ h, max_main 12 ∅
  = Ok (([10; -2; 7; 8; -4; 3; 1; 4; 2], (20, [4; 8; -2; 10])), h).
Proof. eexists. vm_compute. reflexivity. Qed.

(** ** Paths *)

(** The leaves, each with the values from the root down to it. *)
Fixpoint paths (t : tree) : list (loc * list Z) :=
  match t with
  | Leaf => []
  | Br Leaf l v Leaf => [(l, [v])]
  | Br t1 _ v t2 => prod_map id (cons v) <$> (paths t1 ++ paths t2)
  end.

Definition zsum (vs : list Z) : Z := foldr Z.add 0 vs.

(** No sum of values from the root down overflows. *)
Fixpoint fits (c : Z) (t : tree) : bool :=
  match t with
  | Leaf => true
  | Br t1 _ v t2 => int_ok (c + v) && fits (c + v) t1 && fits (c + v) t2
  end.

(** What a leaf does to the best one so far. *)
Definition better (c : Z) (r : best) (p : loc * list Z) : best :=
  if c + zsum p.2 >? r.1 then (c + zsum p.2, Ptr p.1) else r.

Lemma better_path c v ps : ∀ r,
  foldl (better c) r (prod_map id (cons v) <$> ps) = foldl (better (c + v)) r ps.
Proof.
  induction ps as [|[l vs] ps IH]; intros r; [done|]. rewrite fmap_cons. cbn [foldl].
  rewrite IH. f_equal. unfold better. cbn. by rewrite Z.add_assoc.
Qed.

Lemma paths_inner t1 l v t2 :
  t1 ≠ Leaf ∨ t2 ≠ Leaf → paths (Br t1 l v t2) = prod_map id (cons v) <$> (paths t1 ++ paths t2).
Proof. by destruct t1, t2; intros [H|H]. Qed.

Lemma paths_locs t : ∀ l vs, (l, vs) ∈ paths t → l ∈ locs t.
Proof.
  induction t as [|t1 IH1 k v t2 IH2]; [by intros l vs ?%elem_of_nil|]. intros l vs Hin.
  assert (Hd : (t1 = Leaf ∧ t2 = Leaf) ∨ t1 ≠ Leaf ∨ t2 ≠ Leaf)
    by (destruct t1; [|by right; left]; destruct t2; [by left|by right; right]).
  destruct Hd as [[-> ->]|Hd].
  - apply list_elem_of_singleton in Hin as [= -> ->]. by left.
  - rewrite paths_inner in Hin by done.
    apply list_elem_of_fmap in Hin as ([l' vs'] & [= -> ->] & Hin). cbn in *.
    apply elem_of_app in Hin as [Hin|Hin]; apply elem_of_app; [left; eauto|right; right; eauto].
Qed.

(** ** The search *)

Lemma getTargetLeaf_run h t : ∀ fuel r c,
  tree_at h t → (height t < fuel)%nat →
  getTargetLeaf h fuel (root t) r c
  = if fits c t then Ok (foldl (better c) r (paths t)) else UB SignedOverflow.
Proof.
  induction t as [|t1 IH1 k v t2 IH2]; intros [|f] r c Ht Hf; try lia; [done|].
  destruct Ht as (Hk & H1 & H2). cbn [height] in Hf.
  cbn [getTargetLeaf root is_null]. rewrite (bind_ok _ _ false) by done.
  step (node_at_ok h k _ Hk). cbn [key left right fits]. unfold add_int.
  destruct (int_ok (c + v)); [|done]. cbn [mbind res_bind andb].
  rewrite !is_null_root. cbn [mbind res_bind].
  assert (Hd : (t1 = Leaf ∧ t2 = Leaf) ∨ t1 ≠ Leaf ∨ t2 ≠ Leaf)
    by (destruct t1; [|by right; left]; destruct t2; [by left|by right; right]).
  destruct Hd as [[-> ->]|Hd].
  - cbn. destruct f as [|f]; [cbn in Hf; lia|]. cbn. unfold better. cbn. by rewrite Z.add_0_r.
  - rewrite paths_inner, better_path, foldl_app by done.
    assert (Hl : (match t1 with Leaf => Ok (match t2 with Leaf => true | _ => false end)
                  | _ => mret false end : res bool) = Ok false).
    { destruct t1; [|done]. destruct t2; [by destruct Hd|done]. }
    replace (if match t1 with Leaf => true | _ => false end
             then Ok (match t2 with Leaf => true | _ => false end) else mret false)
      with (Ok false : res bool) by (by destruct t1).
    cbn [mbind res_bind andb]. rewrite (IH1 f r (c + v) H1) by lia.
    destruct (fits (c + v) t1); [|done]. cbn [mbind res_bind].
    by rewrite (IH2 f _ (c + v) H2) by lia.
Qed.

Lemma printPath_absent h l t : ∀ fuel,
  tree_at h t → l ∉ locs t → (height t < fuel)%nat →
  printPath h fuel (root t) (Ptr l) = Ok (false, []).
Proof.
  induction t as [|t1 IH1 k v t2 IH2]; intros [|f] Ht Hl Hf; try lia; [done|].
  destruct Ht as (Hk & H1 & H2). cbn [height locs] in *.
  rewrite not_elem_of_app, not_elem_of_cons in Hl. destruct Hl as (Hl1 & Hlk & Hl2).
  cbn [printPath root is_null]. rewrite (bind_ok _ _ false) by done.
  step (node_at_ok h k _ Hk). cbn [same_ptr]. rewrite bool_decide_eq_false_2 by congruence.
  cbn [mbind res_bind left right]. rewrite (IH1 f H1 Hl1) by lia. cbn [mbind res_bind].
  by rewrite (IH2 f H2 Hl2) by lia.
Qed.

Lemma printPath_run h l vs t : ∀ fuel,
  tree_at h t → NoDup (locs t) → (l, vs) ∈ paths t → (height t < fuel)%nat →
  printPath h fuel (root t) (Ptr l) = Ok (true, rev vs).
Proof.
  revert vs. induction t as [|t1 IH1 k v t2 IH2]; intros vs [|f] Ht Hnd Hin Hf; try lia.
  { by apply elem_of_nil in Hin. }
  pose proof (nodup_locs _ _ _ _ Hnd) as (Hnd1 & Hnd2 & Hk1 & Hk2 & Hd).
  destruct Ht as (Hk & H1 & H2). cbn [height locs] in *.
  cbn [printPath root is_null]. rewrite (bind_ok _ _ false) by done.
  step (node_at_ok h k _ Hk). cbn [same_ptr].
  assert (Hc : (t1 = Leaf ∧ t2 = Leaf) ∨ t1 ≠ Leaf ∨ t2 ≠ Leaf)
    by (destruct t1; [|by right; left]; destruct t2; [by left|by right; right]).
  destruct Hc as [[-> ->]|Hc].
  { apply list_elem_of_singleton in Hin as [= -> ->]. by rewrite bool_decide_eq_true_2. }
  rewrite paths_inner in Hin by done.
  apply list_elem_of_fmap in Hin as ([l' vs'] & [= -> ->] & Hin).
  cbn [left right key mbind res_bind id].
  apply elem_of_app in Hin as [Hin|Hin]; pose proof (paths_locs _ _ _ Hin) as Hl.
  - rewrite bool_decide_eq_false_2 by (intros [= ->]; done).
    rewrite (IH1 vs' f H1 Hnd1 Hin) by lia. done.
  - rewrite bool_decide_eq_false_2 by (intros [= ->]; done).
    rewrite (printPath_absent h l' t1 f H1) by (first [lia|by intros ?; apply (Hd l')]).
    cbn [mbind res_bind]. rewrite (IH2 vs' f H2 Hnd2 Hin) by lia. done.
Qed.

(** The choice made by the loop: the first of the greatest sums. *)
Lemma better_foldl ps : ∀ m p,
  ∃ m' p', foldl (better 0) (m, p) ps = (m', p') ∧
    ((m' = m ∧ p' = p ∧ Forall (λ q, zsum q.2 <= m) ps) ∨
     ∃ pre l vs post, ps = pre ++ (l, vs) :: post ∧ m' = zsum vs ∧ p' = Ptr l ∧ m < m' ∧
       Forall (λ q, zsum q.2 < m') pre ∧ Forall (λ q, zsum q.2 <= m') post).
Proof.
  induction ps as [|[l vs] ps IH]; intros m p; cbn [foldl]; [exists m, p; by auto|].
  change (better 0 (m, p) (l, vs)) with (if zsum vs >? m then (zsum vs, Ptr l) else (m, p)).
  rewrite Z.gtb_ltb. destruct (Z.ltb_spec m (zsum vs)).
  - destruct (IH (zsum vs) (Ptr l)) as (m' & p' & Hf & [(-> & -> & Ha)|Hex]).
    + exists (zsum vs), (Ptr l). split; [done|]. right. by exists [], l, vs, ps.
    + exists m', p'. split; [done|]. right.
      destruct Hex as (pre & l' & vs' & post & -> & -> & -> & Hlt & Hpre & Hpost).
      exists ((l, vs) :: pre), l', vs', post. split_and!; try done; try lia.
      by constructor.
  - destruct (IH m p) as (m' & p' & Hf & [(-> & -> & Ha)|Hex]).
    + exists m, p. split; [done|]. left. split_and!; try done. by constructor.
    + exists m', p'. split; [done|]. right.
      destruct Hex as (pre & l' & vs' & post & -> & -> & -> & Hlt & Hpre & Hpost).
      exists ((l, vs) :: pre), l', vs', post. split_and!; try done.
      constructor; [apply (Z.le_lt_trans _ m); done|done].
Qed.

(** ** Properties *)

(** C25 (functional): on every tree in memory [maxSumPath] either returns the
    greatest sum of a path from the root to a leaf and prints the first such
    path from the leaf up to the root; or a sum overflows, which is undefined
    behaviour; or no sum exceeds [INT_MIN], and the leaf that is then looked
    for was never set. *)
Theorem maxSumPath_spec h p t fuel :
  is_tree h p t → t ≠ Leaf → (height t < fuel)%nat →
  (fits 0 t = false ∧ maxSumPath h fuel p = UB SignedOverflow) ∨
  (fits 0 t = true ∧ Forall (λ q, zsum q.2 <= INT_MIN) (paths t) ∧
     maxSumPath h fuel p = UB Uninit) ∨
  (fits 0 t = true ∧ ∃ pre l vs post, paths t = pre ++ (l, vs) :: post ∧ INT_MIN < zsum vs ∧
     Forall (λ q, zsum q.2 < zsum vs) pre ∧ Forall (λ q, zsum q.2 <= zsum vs) post ∧
     maxSumPath h fuel p = Ok (zsum vs, rev vs)).
Proof.
  intros (-> & Ht & Hnd) Hne Hf. unfold maxSumPath. step (is_null_root t).
  destruct t as [|t1 k v t2] eqn:E; [done|]. rewrite <- E in *. cbn match.
  rewrite (getTargetLeaf_run h t fuel _ 0 Ht Hf).
  destruct (fits 0 t); [|by left]. right. cbn [mbind res_bind].
  destruct (better_foldl (paths t) INT_MIN Undef) as (m & q & -> & [(-> & -> & Ha)|Hex]).
  - left. split_and!; try done. destruct fuel as [|f]; [lia|]. rewrite E in Ht |- *.
    destruct Ht as [Hk _]. cbn [printPath root is_null]. rewrite (bind_ok _ _ false) by done.
    step (node_at_ok h k _ Hk). done.
  - right. destruct Hex as (pre & l & vs & post & Hp & -> & -> & Hlt & Hpre & Hpost).
    split; [done|]. exists pre, l, vs, post. split_and!; try done.
    rewrite (printPath_run h l vs t fuel Ht Hnd); [done| |done].
    rewrite Hp. apply elem_of_app. right. by left.
Qed.

(** 10 with the children -2 and 7. *)
Definition sum_tree : tree :=
  Br (Br Leaf 2%positive (-2) Leaf) 1%positive 10 (Br Leaf 3%positive 7 Leaf).
Definition sum_heap : theap :=
  {[1%positive := Some (TNode 10 (Ptr 2) (Ptr 3)); 2%positive := Some (TNode (-2) Null Null);
    3%positive := Some (TNode 7 Null Null)]}.

Lemma sum_is_tree : is_tree sum_heap (Ptr 1) sum_tree.
Proof. split_and!; [done|by vm_compute|]. apply (bool_decide_unpack _). by vm_compute. Qed.

Lemma maxSumPath_spec_witness :
  (fits 0 sum_tree = false ∧ maxSumPath sum_heap 3 (Ptr 1) = UB SignedOverflow) ∨
  (fits 0 sum_tree = true ∧ Forall (λ q, zsum q.2 <= INT_MIN) (paths sum_tree) ∧
     maxSumPath sum_heap 3 (Ptr 1) = UB Uninit) ∨
  (fits 0 sum_tree = true ∧ ∃ pre l vs post, paths sum_tree = pre ++ (l, vs) :: post ∧
     INT_MIN < zsum vs ∧
     Forall (λ q, zsum q.2 < zsum vs) pre ∧ Forall (λ q, zsum q.2 <= zsum vs) post ∧
     maxSumPath sum_heap 3 (Ptr 1) = Ok (zsum vs, rev vs)).
Proof.
  apply (maxSumPath_spec sum_heap (Ptr 1) sum_tree 3 sum_is_tree); [done|]. simpl. lia.
Defined.

(** Both failures happen. *)
Example maxSumPath_overflows :
  maxSumPath {[1%positive := Some (TNode INT_MAX (Ptr 2) Null);
               2%positive := Some (TNode 1 Null Null)]} 3 (Ptr 1) = UB SignedOverflow.
Proof. vm_compute. reflexivity. Qed.

Example maxSumPath_uninit :
  maxSumPath {[1%positive := Some (TNode INT_MIN Null Null)]} 3 (Ptr 1) = UB Uninit.
Proof. vm_compute. reflexivity. Qed.

(** ** The circular queue *)

(** Empty, both indices are -1; otherwise the pointers lie between them, and
    [k] more fit before the end of the array. *)
Definition contents10 (q : myQueue) (ps : list ptr) (k : nat) : Prop :=
  length (data q) = 10%nat ∧ capacity q = 10 ∧
  match ps with
  | [] => front q = -1 ∧ rear q = -1 ∧ (k <= 10)%nat
  | _ => ∃ pre post, data q = pre ++ ps ++ post ∧ front q = Z.of_nat (length pre) ∧
      rear q = Z.of_nat (length pre + length ps) - 1 ∧ (k <= length post)%nat
  end.

#[export] Instance myQueue_laws : QueueLaws myQueue.
Proof.
  refine {| contents := contents10 |}.
  - intros [a f r c] ps k p (Hl & Hc & Hm). cbn in *. subst c. unfold enqueue10.
    cbn [data front rear capacity]. destruct ps as [|p0 ps].
    + destruct Hm as (-> & -> & Hk). destruct a as [|x a]; [done|]. eexists. split; [done|].
      cbn. split_and!; try done. exists [], a. cbn in *. split_and!; (done || lia).
    + destruct Hm as (pre & post & Ha & -> & -> & Hk).
      destruct post as [|x post]; [cbn in Hk; lia|]. subst a.
      rewrite !length_app in Hl. cbn [length] in Hl |- *.
      set (n := (length pre + S (length ps))%nat).
      replace (Z.of_nat n - 1 + 1) with (Z.of_nat n) by lia.
      rewrite Z.rem_small by (unfold n; lia). rewrite app_assoc.
      rewrite (arr_set_app (pre ++ p0 :: ps) x post) by (rewrite length_app; done).
      cbn [mbind res_bind]. eexists. split; [done|]. guards. rewrite <- app_assoc.
      split_and!; [cbn [data app]; len|done|]. cbn [app].
      exists pre, post. cbn [data front rear length]. rewrite <- app_assoc, length_app.
      cbn [length app] in *. unfold n. split_and!; (done || lia).
  - intros [a f r c] p ps k (Hl & Hc & pre & post & Ha & Hf & Hr & Hk).
    cbn in Hl, Hc, Ha, Hf, Hr. subst a f r c.
    unfold dequeue, myQueue_ops, dequeue10, IsEmptyQueue. cbn [data front rear capacity].
    rewrite !length_app in Hl. cbn [length] in Hl. guards. rewrite arr_get_app by done.
    cbn [mbind res_bind]. destruct ps as [|p' ps].
    + cbn [length] in *. guards. eexists. split; [done|]. unfold contents10.
      cbn [data front rear capacity]. split_and!; done || len.
    + cbn [length] in *. guards. eexists. split; [done|]. unfold contents10.
      cbn [data front rear capacity]. split_and!; try done; [len|].
      exists (pre ++ [p]), post. rewrite <- app_assoc, length_app. cbn [length app].
      change (Z.rem 1 10) with 1. split_and!; (done || lia).
  - intros [a f r c] k (Hl & Hc & Hf & Hr & Hk). cbn in *. subst. by eexists.
Defined.

(** The loop is the shared one, entered with the first pointer taken out. *)
Lemma level_loop_visit h : ∀ f q vs,
  ('(temp, q) ← dequeue q; '(vs, _) ← visit h f temp q; mret vs) = Ok vs →
  level_loop h f q = Ok vs.
Proof.
  induction f as [|f IH]; intros q vs H.
  { unfold dequeue, myQueue_ops in H. by destruct (dequeue10 q) as [[]| |]. }
  cbn [level_loop]. change (dequeue q) with (dequeue10 q) in H.
  destruct (IsEmptyQueue q) eqn:He.
  { unfold dequeue10 in H. by rewrite He in H. }
  destruct (dequeue10 q) as [[temp q1]| |]; try done. cbn [mbind res_bind] in *.
  cbn [visit] in H. destruct (is_null temp) as [[|]| |]; try done. cbn [mbind res_bind] in *.
  destruct (node_at h temp) as [n| |]; try done. cbn [mbind res_bind] in *.
  destruct (enqueue_children n q1) as [q2| |]; try done. cbn [mbind res_bind] in *.
  rewrite (IH q2 (tail vs)).
  - destruct (dequeue q2) as [[temp2 q3]| |]; try done. cbn [mbind res_bind] in *.
    destruct (visit h f temp2 q3) as [[vs' q4]| |]; try done. cbn in *. by injection H as <-.
  - destruct (dequeue q2) as [[temp2 q3]| |]; try done. cbn [mbind res_bind] in *.
    destruct (visit h f temp2 q3) as [[vs' q4]| |]; try done. cbn in *. by injection H as <-.
Qed.

(** C32 (functional): the level-order traversal of a tree of at most eleven
    nodes, the empty one included, returns and prints every level from left to
    right: the first pointer has left the queue of ten before the others
    enter it. *)
Theorem levelorder_spec h p t fuel :
  is_tree h p t → (size t <= 11)%nat → (S (size t) < fuel)%nat →
  levelorder h fuel p = Ok (concat (levels t)).
Proof.
  intros (-> & Ht & _) Hs Hf. unfold levelorder.
  assert (Hc : contents createQueue [] 10) by done.
  destruct (enqueue_law createQueue [] 9 (root t) Hc) as (q1 & Hq1 & Hc1).
  change (enqueue (root t) createQueue) with (enqueue10 (root t) createQueue) in Hq1.
  step Hq1. apply level_loop_visit.
  injection Hq1 as <-.
  assert (Hd : dequeue (MyQueue (root t :: replicate 9 Undef) 0 0 10)
    = Ok (root t, MyQueue (root t :: replicate 9 Undef) (-1) (-1) 10)) by done.
  cbn in Hd |- *. step Hd. cbv iota beta.
  destruct (visit_levels h t (MyQueue (root t :: replicate 9 Undef) (-1) (-1) 10) 10 fuel Ht)
    as (q2 & Hv); [done|lia|lia|].
  cbn in Hv. by step Hv.
Qed.

Lemma levelorder_spec_witness : levelorder sum_heap 6 (Ptr 1) = Ok [10; -2; 7].
Proof. apply (levelorder_spec sum_heap (Ptr 1) sum_tree 6 sum_is_tree); simpl; lia. Defined.

(** The front index never returns to the first slot: taken out of a queue
    whose rear has wrapped, the pointer in the last slot moves the front to 10,
    and the next [dequeue] reads past the array. *)
Lemma dequeue_never_wraps q p :
  length (data q) = 10%nat → capacity q = 10 → data q !! 9%nat = Some p → front q = 9 →
  0 <= rear q < 9 →
  ∃ q', dequeue10 q = Ok (p, q') ∧ IsEmptyQueue q' = false ∧ dequeue10 q' = UB OutOfBounds.
Proof.
  destruct q as [a f r c]. cbn. intros Hl -> Hp -> Hr.
  exists (MyQueue a 10 r 10). split_and!; [|done|].
  - unfold dequeue10, IsEmptyQueue, arr_get. cbn [data front rear capacity].
    change (Z.to_nat 9) with 9%nat. rewrite Hp. guards. cbn [mbind res_bind]. by guards.
  - unfold dequeue10, IsEmptyQueue. cbn [data front]. by rewrite arr_get_oob by lia.
Qed.

(** The nodes [l], [2l] and [2l+1], ... of [n] nodes numbered level by level. *)
Fixpoint complete_heap (n : nat) : theap :=
  match n with
  | O => ∅
  | S m =>
      let l := Pos.of_nat n in
      <[l := Some (TNode (Zpos l) (if (l~0 <=? 12)%positive then Ptr l~0 else Null)
                                  (if (l~1 <=? 12)%positive then Ptr l~1 else Null))]>
        (complete_heap m)
  end.

Example levelorder_twelve : levelorder (complete_heap 12) 20 (Ptr 1) = UB OutOfBounds.
Proof. vm_compute. reflexivity. Qed.
