(* ===== verification/Threads.v ===== *)
(** * Threads as transition systems

    The programs with several threads are modelled as step relations on the
    shared state and one program counter per thread; a step is one call of the
    thread library or one access to the shared data, and any thread whose step
    is enabled may be the next.  This file holds what their proofs share:
    invariants over every interleaving, and the end of every run by a measure. *)
From stdpp Require Export relations.
From S2P Require Import Prelude.

Section systems.
Context {S : Type} (step : S → S → Prop).

(** The states of the runs that start in [s]. *)
Definition reachable (s : S) : S → Prop := rtc step s.

Lemma reachable_inv (I : S → Prop) s0 :
  I s0 → (∀ s s', I s → step s s' → I s') → ∀ s, reachable s0 s → I s.
Proof. intros H0 Hs s Hr. revert H0. induction Hr; eauto. Qed.

(** No run is infinite. *)
Lemma sn_measure (I : S → Prop) (μ : S → nat) :
  (∀ s s', I s → step s s' → I s' ∧ μ s' < μ s) → ∀ s, I s → sn step s.
Proof.
  intros Hs s. remember (μ s) as n eqn:Hn. revert s Hn.
  induction n as [n IH] using lt_wf_ind. intros s -> HI. constructor. intros s' Hstep.
  destruct (Hs s s' HI Hstep) as [HI' Hlt]. by eapply IH.
Qed.

(** A run given by the states it passes through. *)
Fixpoint run_of (s : S) (ss : list S) : Prop :=
  match ss with
  | [] => True
  | s' :: ss' => step s s' ∧ run_of s' ss'
  end.

Lemma run_of_reachable ss : ∀ s, run_of s ss → reachable s (default s (last ss)).
Proof.
  induction ss as [|s' ss IH]; intros s Hr; [by apply rtc_refl|]. destruct Hr as [Hs Hr].
  eapply rtc_l; [exact Hs|]. specialize (IH s' Hr).
  rewrite last_cons. by destruct (last ss).
Qed.
End systems.

(** The two threads of the programs that have two. *)
Inductive two := T1 | T2.

#[export] Instance two_eq_dec : EqDecision two.
Proof. solve_decision. Defined.

Definition other (t : two) : two := match t with T1 => T2 | T2 => T1 end.

(** One value for each of them. *)
Definition per (A : Type) : Type := A * A.

Definition sel {A} (m : per A) (t : two) : A := match t with T1 => m.1 | T2 => m.2 end.

Definition move {A} (m : per A) (t : two) (a : A) : per A :=
  match t with T1 => (a, m.2) | T2 => (m.1, a) end.

(** ** Any number of threads, as a list *)

(** A sum over the threads, when one of them has moved. *)
Lemma sum_move {A} (f : A → nat) l k x y :
  l !! k = Some x →
  sum_list_with f (<[k := y]> l) + f x = sum_list_with f l + f y.
Proof.
  revert k. induction l as [|a l IH]; intros [|k] Hk; simplify_eq/=; [lia|].
  specialize (IH k Hk). lia.
Qed.

Lemma sum_le_lookup {A} (f : A → nat) l k x : l !! k = Some x → f x ≤ sum_list_with f l.
Proof.
  revert k. induction l as [|a l IH]; intros [|k] Hk; simplify_eq/=; [lia|].
  specialize (IH k Hk). lia.
Qed.

Lemma sum_snoc {A} (f : A → nat) l x :
  sum_list_with f (l ++ [x]) = sum_list_with f l + f x.
Proof. rewrite sum_list_with_app. simpl. lia. Qed.

Lemma sum_zero {A} (f : A → nat) l :
  sum_list_with f l = 0 → Forall (λ x, f x = 0) l.
Proof. induction l as [|a l IH]; simpl; constructor; [lia|apply IH; lia]. Qed.

Lemma Forall_move {A} (P : A → Prop) l k y : Forall P l → P y → Forall P (<[k := y]> l).
Proof. apply Forall_insert. Qed.

(** A count of threads that are inside is the count at the one that is. *)
Lemma sum_inside {A} (ins : A → bool) (f : A → nat) ps k p :
  (∀ q, ins q = false → f q = 0) → ps !! k = Some p →
  (∀ j q, ps !! j = Some q → ins q = true → j = k) → sum_list_with f ps = f p.
Proof.
  intros Hf. revert k. induction ps as [|q ps IH]; intros [|k] Hk Hin; simplify_eq/=.
  - enough (sum_list_with f ps = 0) by lia.
    assert (Hout : ∀ j r, ps !! j = Some r → ins r = false).
    { intros j r Hj. destruct (ins r) eqn:E; [|done]. by specialize (Hin (S j) r Hj E). }
    clear -Hf Hout. induction ps as [|r ps IH]; [done|]. simpl.
    rewrite IH, Hf; [done|by apply (Hout 0)|]. intros j r' Hj. by apply (Hout (S j)).
  - rewrite Hf; [|destruct (ins q) eqn:E; [by specialize (Hin 0 q eq_refl E)|done]].
    apply (IH k Hk). intros j r Hj Hr. specialize (Hin (S j) r Hj Hr). congruence.
Qed.

Lemma sum_outside {A} (ins : A → bool) (f : A → nat) ps :
  (∀ q, ins q = false → f q = 0) → (∀ j q, ps !! j = Some q → ins q = false) →
  sum_list_with f ps = 0.
Proof.
  intros Hf Hout. induction ps as [|p ps IH]; [done|]. simpl.
  rewrite IH, Hf; [done|by apply (Hout 0)|]. intros j q Hj. by apply (Hout (S j)).
Qed.

(** ** [main] of the programs with two threads *)

(** Where [main] is: at a [pthread_create], at a [pthread_join], past them, or
    past a [pthread_join] with an identifier that has not been stored. *)
Inductive main_pc := Create1 | Create2 | Join1 | Join2 | Joined | Undefined.

#[export] Instance main_pc_eq_dec : EqDecision main_pc.
Proof. solve_decision. Defined.

(** The threads that exist; [refused]: those whose [pthread_create] fails, which
    [main] reports and passes over. *)
Definition born (refused : two → bool) (m : main_pc) (t : two) : bool :=
  negb (refused t) &&
  match m, t with
  | Create1, _ | Create2, T2 => false
  | _, _ => true
  end.

Section mains.
Context {S P : Type} (step : S → S → Prop) (at_pc : S → two → P) (returned : P)
  (refused : two → bool).

(** [main] and the threads together: a thread moves only once it exists. *)
Inductive main_step : main_pc * S → main_pc * S → Prop :=
  | main_thread m s s' :
      m ≠ Undefined → step s s' → (∀ t, born refused m t = false → at_pc s' t = at_pc s t) →
      main_step (m, s) (m, s')
  | main_create1 s : main_step (Create1, s) (Create2, s)
  | main_create2 s : main_step (Create2, s) (Join1, s)
  | main_join1 s :
      refused T1 = false → at_pc s T1 = returned → main_step (Join1, s) (Join2, s)
  | main_join2 s :
      refused T2 = false → at_pc s T2 = returned → main_step (Join2, s) (Joined, s)
  | main_join1_bad s : refused T1 = true → main_step (Join1, s) (Undefined, s)
  | main_join2_bad s : refused T2 = true → main_step (Join2, s) (Undefined, s).

Lemma main_reachable m s s0 :
  reachable main_step (Create1, s0) (m, s) → reachable step s0 s.
Proof.
  intros Hr. change (reachable step s0 (m, s).2). revert Hr. generalize (m, s).
  apply rtc_ind_r; [apply rtc_refl|]. intros p q _ Hs IH.
  destruct Hs; try done. by eapply rtc_r.
Qed.

(** What [main] knows past its joins. *)
Lemma main_joined m s s0 :
  (∀ s s' t, step s s' → at_pc s t = returned → at_pc s' t = returned) →
  reachable main_step (Create1, s0) (m, s) →
  (m = Join2 ∨ m = Joined → refused T1 = false ∧ at_pc s T1 = returned) ∧
  (m = Joined → refused T2 = false ∧ at_pc s T2 = returned).
Proof.
  intros Hk Hr. change ((λ p : main_pc * S,
    (p.1 = Join2 ∨ p.1 = Joined → refused T1 = false ∧ at_pc p.2 T1 = returned) ∧
    (p.1 = Joined → refused T2 = false ∧ at_pc p.2 T2 = returned)) (m, s)). revert Hr. generalize (m, s).
  apply rtc_ind_r; [cbn; by split; [intros [?|?]|]|]. intros p q _ Hs IH.
  destruct Hs; cbn in *; naive_solver.
Qed.

(** Turns left for [main]. *)
Definition main_left (m : main_pc) : nat :=
  match m with Create1 => 4 | Create2 => 3 | Join1 => 2 | Join2 => 1 | Joined | Undefined => 0 end.

(** If the threads always come to an end, so does the program. *)
Lemma main_sn (I : S → Prop) (μ : S → nat) s0 :
  (∀ s s', I s → step s s' → I s' ∧ μ s' < μ s) → I s0 → sn main_step (Create1, s0).
Proof.
  intros Hs H0. apply (sn_measure _ (λ p, I p.2) (λ p, main_left p.1 + μ p.2)); [|done].
  intros p q Hp Hst. destruct Hst as [m s s' _ Ht _|s|s|s|s|s|s]; cbn in *; try (split; [done|lia]).
  destruct (Hs s s' Hp Ht). split; [done|lia].
Qed.

(** The program can go on until [main] is past its joins. *)
Lemma main_progress `{!EqDecision P} m s :
  (∀ t, refused t = false) → m ≠ Joined → m ≠ Undefined →
  (∀ t, at_pc s t ≠ returned → ∃ s', step s s') → ∃ q, main_step (m, s) q.
Proof.
  intros Hf Hm Hu Hp.
  assert (Hb : ∀ s' t, m = Join1 ∨ m = Join2 → born refused m t = false → at_pc s' t = at_pc s t).
  { intros s' t [->| ->]; unfold born; rewrite Hf; by destruct t. }
  destruct m; [eexists; apply main_create1|eexists; apply main_create2|..|done|done].
  - destruct (decide (at_pc s T1 = returned)) as [H|H]; [eexists; by apply main_join1|].
    destruct (Hp T1 H) as [s' Hs]. exists (Join1, s'). apply main_thread; auto.
  - destruct (decide (at_pc s T2 = returned)) as [H|H]; [eexists; by apply main_join2|].
    destruct (Hp T2 H) as [s' Hs]. exists (Join2, s'). apply main_thread; auto.
Qed.

(** Without a refusal [main] is never at an undefined join. *)
Lemma main_defined m s s0 :
  (∀ t, refused t = false) → reachable main_step (Create1, s0) (m, s) → m ≠ Undefined.
Proof.
  intros Hf Hr. change ((λ p : main_pc * S, p.1 ≠ Undefined) (m, s)). revert Hr. generalize (m, s).
  apply rtc_ind_r; [done|]. intros p q _ Hs IH. destruct Hs; cbn in *; congruence.
Qed.

(** A first thread that cannot be created is joined all the same. *)
Lemma main_refused s0 : refused T1 = true → reachable main_step (Create1, s0) (Undefined, s0).
Proof.
  intros Hf. eapply rtc_l; [apply main_create1|]. eapply rtc_l; [apply main_create2|].
  apply rtc_once. by apply main_join1_bad.
Qed.
End mains.
