(* ===== verification/AlternatePrint.v ===== *)
(** * Two threads and a condition variable

    [src/mutex_sempaphores/alternate_print.c] (and its copy in [src/pthread]):
    [odd_thread] and [even_thread] share a counter under a mutex and take turns
    through one condition variable. *)
From Stdlib Require Import Sorted.
From S2P Require Import Prelude Threads.

Local Open Scope Z_scope.

(** ** The model *)

(** Where a thread is: the statement it is about to execute.  The threads run
    the same code but for the test of the inner loop. *)
Inductive pc :=
  | PLock     (* pthread_mutex_lock *)
  | PTest     (* while (global_count % 2 ...) *)
  | PWait     (* inside pthread_cond_wait, not yet woken *)
  | PWoken    (* woken, the mutex not yet taken again *)
  | PPrint    (* the printf after pthread_cond_wait *)
  | PInc      (* global_count++ *)
  | PSignal   (* pthread_cond_signal *)
  | PExit     (* if (global_count > 100), with the unlock on both branches *)
  | PDone.    (* returned *)

#[export] Instance pc_eq_dec : EqDecision pc.
Proof. solve_decision. Defined.

(** [global_count], [count_lock], the two threads ([T1] is [odd_thread], [T2]
    [even_thread]), and the values printed so far with the thread that printed
    them. *)
Record state := State {
  global_count : Z;
  count_lock : option two;
  pcs : per pc;
  printed : list (two * Z);
}.

Definition start : state := State 0 None (PLock, PLock) [].

(** The test of the inner loop: [odd_thread] waits while the count is odd. *)
Definition waits (t : two) (c : Z) : bool :=
  match t with T1 => negb (c mod 2 =? 0) | T2 => c mod 2 =? 0 end.

(** [pthread_cond_signal]: the other thread is woken if it waits. *)
Definition signalled (m : per pc) (t : two) : per pc :=
  match sel m (other t) with PWait => move m (other t) PWoken | _ => m end.

(** [spurious]: whether [pthread_cond_wait] may return with no signal. *)
Inductive step (spurious : bool) : state → state → Prop :=
  | step_lock t c m o :
      sel m t = PLock →
      step spurious (State c None m o) (State c (Some t) (move m t PTest) o)
  | step_wait t c m o :
      sel m t = PTest → waits t c = true →
      step spurious (State c (Some t) m o) (State c None (move m t PWait) o)
  | step_pass t c m o :
      sel m t = PTest → waits t c = false →
      step spurious (State c (Some t) m o) (State c (Some t) (move m t PInc) o)
  | step_spurious t c l m o :
      spurious = true → sel m t = PWait →
      step spurious (State c l m o) (State c l (move m t PWoken) o)
  | step_relock t c m o :
      sel m t = PWoken →
      step spurious (State c None m o) (State c (Some t) (move m t PPrint) o)
  | step_print t c m o :
      sel m t = PPrint →
      step spurious (State c (Some t) m o) (State c (Some t) (move m t PTest) (o ++ [(t, c)]))
  | step_inc t c m o :
      sel m t = PInc →
      step spurious (State c (Some t) m o) (State (c + 1) (Some t) (move m t PSignal) o)
  | step_signal t c m o :
      sel m t = PSignal →
      step spurious (State c (Some t) m o)
        (State c (Some t) (move (signalled m t) t PExit) o)
  | step_return t c m o :
      sel m t = PExit → (c >? 100) = true →
      step spurious (State c (Some t) m o) (State c None (move m t PDone) o)
  | step_again t c m o :
      sel m t = PExit → (c >? 100) = false →
      step spurious (State c (Some t) m o) (State c None (move m t PLock) o).

(** ** The invariant *)

(** Between taking the mutex and giving it back. *)
Definition inside (p : pc) : bool :=
  match p with PTest | PPrint | PInc | PSignal | PExit => true | _ => false end.

(** The count when it is the turn of a thread. *)
Definition turn (t : two) (c : Z) : Prop := match t with T1 => c mod 2 = 0 | T2 => c mod 2 = 1 end.

(** The holder of the mutex is the thread that is inside, and there is at most
    one. *)
Definition lock_inv (l : option two) (m : per pc) : Prop :=
  match inside m.1, inside m.2 with
  | true, true => False
  | true, false => l = Some T1
  | false, true => l = Some T2
  | false, false => l = None
  end.

(** What the count is like when thread [t] is at [p] and the other one at [q]:
    it waits only if it is not its turn or if it is about to be signalled. *)
Definition count_inv (t : two) (p q : pc) (c : Z) : Prop :=
  match p with
  | PInc => turn t c ∧ c <= 101
  | PSignal | PExit => ¬ turn t c
  | PWait => match q with PSignal => True | _ => ¬ turn t c end
  | _ => True
  end.

(** How the threads end: [odd_thread] makes the count 101 and leaves, then
    [even_thread] makes it 102 and leaves. *)
Definition end_inv (m : per pc) (c : Z) : Prop :=
  match m.1 with
  | PDone => 101 <= c
  | PSignal | PExit => c <= 101
  | _ => c <= 100
  end ∧
  match m.2 with
  | PDone => c = 102
  | PSignal | PExit => c = 102 → m.1 = PDone
  | _ => c <= 101
  end.

Definition inv (s : state) : Prop :=
  let '(State c l m _) := s in
  0 <= c <= 102 ∧ lock_inv l m ∧ count_inv T1 m.1 m.2 c ∧ count_inv T2 m.2 m.1 c ∧ end_inv m c.

Lemma inv_start : inv start.
Proof. cbn. split_and!; (done || lia). Qed.

Lemma waits_turn t c : waits t c = false → turn t c.
Proof.
  unfold waits, turn. destruct t; [intros H%negb_false_iff%Z.eqb_eq|intros H%Z.eqb_neq]; [done|].
  dm_lia.
Qed.

Lemma waits_not_turn t c : waits t c = true → ¬ turn t c.
Proof.
  unfold waits, turn. destruct t; [intros H%negb_true_iff%Z.eqb_neq|intros H%Z.eqb_eq]; [done|].
  dm_lia.
Qed.

(** The cases of a step, with the other thread at each of its places. *)
Ltac step_cases Hs :=
  destruct Hs as [t c m o Hp|t c m o Hp Hw|t c m o Hp Hw|t c l m o Hsp Hp
    |t c m o Hp|t c m o Hp|t c m o Hp|t c m o Hp|t c m o Hp Hx|t c m o Hp Hx];
  try first [apply waits_turn in Hw|apply waits_not_turn in Hw];
  try (apply Zgt_is_gt_bool in Hx); try (rewrite Z.gtb_ltb in Hx; apply Z.ltb_ge in Hx);
  destruct t, m as [p q]; cbn in Hp; subst; first [destruct p|destruct q].

Lemma inv_step sp s s' : inv s → step sp s s' → inv s'.
Proof.
  intros Hi Hs. step_cases Hs.
  all: unfold inv, lock_inv, count_inv, end_inv, turn in *; cbn [fst snd inside sel move signalled] in *.
  all: destruct Hi as (Hc & Hl & H1 & H2 & H3 & H4); try done.
  all: split_and!; try done; dm_lia.
Qed.

(** ** Ending *)

(** How far a thread is from its next wait or return. *)
Definition weight (p : pc) : nat :=
  match p with
  | PLock => 2 | PTest => 1 | PWait => 0 | PWoken => 3 | PPrint => 2
  | PInc => 0 | PSignal => 7 | PExit => 3 | PDone => 0
  end.

Definition distance (s : state) : nat :=
  (8 * Z.to_nat (102 - global_count s) + weight (pcs s).1 + weight (pcs s).2)%nat.

Lemma distance_step s s' : inv s → step false s s' → (distance s' < distance s)%nat.
Proof.
  intros Hi Hs. step_cases Hs; try done.
  all: unfold inv, count_inv, distance in *;
    cbn [fst snd sel move signalled other global_count pcs weight] in *; lia.
Qed.

(** The holder of the mutex can always go on, and so can a thread that wants
    the mutex when it is free. *)
Lemma inside_steps t c m o : inside (sel m t) = true → ∃ s', step false (State c (Some t) m o) s'.
Proof.
  intros Hp. destruct (sel m t) eqn:E; try done.
  - destruct (waits t c) eqn:Hw; eexists; [by apply step_wait|by apply step_pass].
  - eexists. by apply step_print.
  - eexists. by apply step_inc.
  - eexists. by apply step_signal.
  - destruct (c >? 100) eqn:Hc; eexists; [by apply step_return|by apply step_again].
Qed.

Lemma asks_steps t c m o :
  sel m t = PLock ∨ sel m t = PWoken → ∃ s', step false (State c None m o) s'.
Proof. intros [Hp|Hp]; eexists; [by apply step_lock|by apply step_relock]. Qed.

(** Something can be done until both threads have returned. *)
Lemma progress s : inv s → pcs s ≠ (PDone, PDone) → ∃ s', step false s s'.
Proof.
  destruct s as [c l [p q] o]. intros (Hc & Hl & H1 & H2 & H3 & H4) Hn.
  unfold lock_inv, count_inv, turn in *. cbn [fst snd] in *.
  destruct (inside p) eqn:Ep; [destruct (inside q); [done|]; subst l; by apply inside_steps|].
  destruct (inside q) eqn:Eq; [subst l; by apply inside_steps|]. subst l.
  destruct (decide (p = PLock ∨ p = PWoken)) as [Hp|Hp]; [by apply (asks_steps T1)|].
  destruct (decide (q = PLock ∨ q = PWoken)) as [Hq|Hq]; [by apply (asks_steps T2)|].
  destruct p; try discriminate Ep; try (by destruct Hp; auto);
    destruct q; try discriminate Eq; try (by destruct Hq; auto); done || dm_lia.
Qed.

Lemma spurious_mono sp s s' : step false s s' → step sp s s'.
Proof. intros Hs. destruct Hs; try done; by constructor. Qed.

Lemma reachable_invariant sp s : reachable (step sp) start s → inv s.
Proof. apply reachable_inv; [apply inv_start|apply inv_step]. Qed.

(** ** What is printed *)

(** A thread that has been signalled finds that it is its turn. *)
Definition woken_inv (t : two) (p : pc) (c : Z) : Prop :=
  match p with PWoken | PPrint => turn t c | _ => True end.

(** The thread whose turn it is has printed the count and is about to
    increment it. *)
Definition announced (m : per pc) (c : Z) : Prop :=
  match m.1 with PTest | PInc => turn T1 c | _ => False end ∨
  match m.2 with PTest | PInc => turn T2 c | _ => False end.

(** Everything printed lies before the count, or is the count announced. *)
Definition print_inv (s : state) : Prop :=
  let '(State c _ m o) := s in
  woken_inv T1 m.1 c ∧ woken_inv T2 m.2 c ∧
  Forall (λ e, turn e.1 e.2) o ∧ StronglySorted Z.lt o.*2 ∧
  Forall (λ v, v <= c) o.*2 ∧ (Forall (λ v, v < c) o.*2 ∨ announced m c).

Lemma print_inv_start : print_inv start.
Proof. cbn. split_and!; try done; try constructor; constructor. Qed.

Lemma sorted_snoc (o : list Z) v :
  StronglySorted Z.lt o → Forall (λ w, w < v) o → StronglySorted Z.lt (o ++ [v]).
Proof.
  intros Hs Hv. induction Hs as [|w o Hs IH Hw]; cbn; [repeat constructor|].
  apply Forall_cons in Hv as [Hwv Hv]. constructor; [auto|]. apply Forall_app. by split; [|constructor].
Qed.

Lemma Forall_lt_succ (o : list Z) c : Forall (λ v, v <= c) o → Forall (λ v, v < c + 1) o.
Proof. intros H. eapply Forall_impl; [exact H|]. simpl. lia. Qed.

(** Whoever prints has not been announced. *)
Lemma print_step t c m o :
  sel m t = PPrint → inv (State c (Some t) m o) → print_inv (State c (Some t) m o) →
  print_inv (State c (Some t) (move m t PTest) (o ++ [(t, c)])).
Proof.
  intros Hp Hi (Hw1 & Hw2 & Ht & Hs & Hle & Hla).
  assert (Hlt : Forall (λ v, v < c) o.*2).
  { destruct Hla as [?|Ha]; [done|]. exfalso. destruct Hi as (_ & Hl & _ & _ & _).
    unfold announced, lock_inv, woken_inv, turn in *.
    destruct t, m as [p q]; cbn in Hp; subst; cbn [fst snd inside] in *.
    - destruct q; try done; destruct Ha as [Ha|Ha]; done || dm_lia.
    - destruct p; try done; destruct Ha as [Ha|Ha]; done || dm_lia. }
  assert (Htc : turn t c).
  { destruct t, m as [p q]; cbn in Hp; subst; [apply Hw1|apply Hw2]. }
  unfold print_inv. rewrite fmap_app. split_and!.
  - destruct t; [done|apply Hw1].
  - destruct t; [apply Hw2|done].
  - apply Forall_app. by split; [|constructor].
  - by apply sorted_snoc.
  - apply Forall_app. split; [done|]. constructor; [cbn; lia|done].
  - right. unfold announced. destruct t; [by left|by right].
Qed.

Lemma print_inv_step s s' : inv s → print_inv s → step false s s' → print_inv s'.
Proof.
  intros Hi Hpr Hs. step_cases Hs; try done.
  all: try by (apply print_step).
  all: destruct Hpr as (Hw1 & Hw2 & Ht & Hso & Hle & Hla).
  all: pose proof (Forall_lt_succ _ _ Hle) as Hlt.
  all: unfold inv, lock_inv, count_inv, print_inv, woken_inv, announced, turn in *;
    cbn [fst snd inside sel move signalled other] in *.
  all: destruct Hi as (Hc & Hl & H1 & H2 & _); split_and!; try done; try dm_lia.
  all: destruct Hla as [Hla|[Hla|Hla]]; try done; try first [by left|right; dm_lia|exfalso; dm_lia].
  all: eapply Forall_impl; [exact Hlt|]; simpl; lia.
Qed.

(** ** Properties *)

(** Without spurious wake-ups every run ends, whatever the
    scheduling, and it ends only when both threads have returned, the count is
    102 and the mutex is free: no wake-up is lost and no deadlock is possible. *)
Theorem alternate_terminates :
  sn (step false) start ∧
  ∀ s, reachable (step false) start s → nf (step false) s →
    pcs s = (PDone, PDone) ∧ global_count s = 102 ∧ count_lock s = None.
Proof.
  split.
  - apply (sn_measure _ inv distance); [|apply inv_start].
    intros s s' Hi Hs. split; [by eapply inv_step|by apply distance_step].
  - intros s Hr Hn. pose proof (reachable_invariant _ s Hr) as Hi.
    destruct (decide (pcs s = (PDone, PDone))) as [Hd|Hd].
    + destruct s as [c l m o]. cbn in Hd. subst m. destruct Hi as (_ & Hl & _ & _ & _ & Hc). done.
    + destruct (progress s Hi Hd) as [s' Hs]. destruct Hn. by exists s'.
Qed.

(** C27 (safety): in every interleaving, spurious wake-ups included, at most one
    thread is between lock and unlock and it is the holder of the mutex; the
    count stays between 0 and 102; each thread increments it only in its turn,
    [odd_thread] when it is even; and some thread can always go on until both
    have returned. *)
Theorem alternate_safety sp s :
  reachable (step sp) start s →
  (∀ t, inside (sel (pcs s) t) = true →
     count_lock s = Some t ∧ inside (sel (pcs s) (other t)) = false) ∧
  0 <= global_count s <= 102 ∧
  (∀ t, sel (pcs s) t = PInc → turn t (global_count s)) ∧
  (pcs s ≠ (PDone, PDone) → ∃ s', step sp s s').
Proof.
  intros Hr. pose proof (reachable_invariant sp s Hr) as Hi. split; [|split; [|split]].
  - destruct s as [c l [p q] o]. destruct Hi as (_ & Hl & _). unfold lock_inv in Hl.
    intros []; cbn in *; intros Hin; rewrite Hin in Hl; [by destruct (inside q)|].
    by destruct (inside p).
  - destruct s as [c l m o]. apply Hi.
  - destruct s as [c l m o]. destruct Hi as (_ & _ & H1 & H2 & _).
    intros [] Hp; cbn in Hp; rewrite Hp in *; [apply H1|apply H2].
  - intros Hd. destruct (progress s Hi Hd) as [s' Hs]. exists s'. by apply spurious_mono.
Qed.

(** Both threads at the top of their loops, the count [c]: one of them goes
    round once without ever waiting, and prints nothing. *)
Lemma silent_round t c o :
  turn t c → c <= 99 →
  rtc (step false) (State c None (PLock, PLock) o) (State (c + 1) None (PLock, PLock) o).
Proof.
  intros Ht Hc. assert (Hw : waits t c = false).
  { destruct (waits t c) eqn:E; [|done]. by apply waits_not_turn in E. }
  eapply rtc_l; [by apply (step_lock _ t); destruct t|].
  eapply rtc_l; [by apply (step_pass _ t); [destruct t|]|].
  eapply rtc_l; [by apply (step_inc _ t); destruct t|].
  eapply rtc_l; [by apply (step_signal _ t); destruct t|].
  apply rtc_once. replace (PLock, PLock) with (move (move (signalled (move (move (move
    (PLock, PLock) t PTest) t PInc) t PSignal) t) t PExit) t PLock) at 2 by (by destruct t).
  apply step_again; [by destruct t|]. rewrite Z.gtb_ltb. apply Z.ltb_ge. lia.
Qed.

Lemma silent_rounds n : (n <= 100)%nat →
  rtc (step false) start (State (Z.of_nat n) None (PLock, PLock) []).
Proof.
  induction n as [|n IH]; intros Hn; [by apply rtc_refl|].
  etrans; [apply IH; lia|]. replace (Z.of_nat (S n)) with (Z.of_nat n + 1) by lia.
  destruct (decide (Z.of_nat n mod 2 = 0)).
  - apply (silent_round T1); [done|lia].
  - apply (silent_round T2); [unfold turn; dm_lia|lia].
Qed.

(** C34 (functional): without spurious wake-ups what is printed ascends strictly,
    so no value is printed twice, and every value is printed by the thread
    whose turn it is: [odd_thread] prints even values, [even_thread] odd ones.
    But a thread prints only after it has waited: there is a run of the whole
    program that counts to 102 and prints nothing. *)
Theorem alternate_prints :
  (∀ s, reachable (step false) start s →
     StronglySorted Z.lt (printed s).*2 ∧ Forall (λ e, turn e.1 e.2) (printed s)) ∧
  reachable (step false) start (State 102 None (PDone, PDone) []).
Proof.
  split.
  - intros s Hr. assert (H : inv s ∧ print_inv s).
    { revert s Hr. apply reachable_inv; [split; [apply inv_start|apply print_inv_start]|].
      intros s s' [Hi Hp] Hs. split; [by eapply inv_step|by eapply print_inv_step]. }
    destruct s as [c l m o]. destruct H as [_ (_ & _ & Ht & Hs & _)]. done.
  - etrans; [apply (silent_rounds 100); lia|]. change (Z.of_nat 100) with 100.
    eapply rtc_l; [by apply (step_lock _ T1)|]. eapply rtc_l; [by apply step_pass|].
    eapply rtc_l; [by apply step_inc|]. eapply rtc_l; [by apply step_signal|].
    eapply rtc_l; [by apply step_return|].
    eapply rtc_l; [by apply (step_lock _ T2)|]. eapply rtc_l; [by apply step_pass|].
    eapply rtc_l; [by apply step_inc|]. eapply rtc_l; [by apply step_signal|].
    apply rtc_once. by apply step_return.
Qed.

(** ** [main] *)

(** [main] creates [odd_thread] and [even_thread] and joins them in this order. *)
Definition program (refused : two → bool) (spurious : bool) :
    main_pc * state → main_pc * state → Prop :=
  main_step (step spurious) (λ s, sel (pcs s)) PDone refused.

(** [pthread_mutex_destroy] and [pthread_cond_destroy], at the end of [main]:
    defined for a mutex that is free and a condition variable on which no thread
    waits. *)
Definition destroyable (s : state) : Prop :=
  count_lock s = None ∧ ∀ t, sel (pcs s) t ≠ PWait.

Lemma done_stays sp s s' t : step sp s s' → sel (pcs s) t = PDone → sel (pcs s') t = PDone.
Proof.
  intros Hs. destruct Hs as [u ? m ? Hp|u ? m ? Hp|u ? m ? Hp|u ? ? m ? _ Hp|u ? m ? Hp|u ? m ? Hp
    |u ? m ? Hp|u ? m ? Hp|u ? m ? Hp|u ? m ? Hp]; unfold signalled; destruct t, u, m as [p q];
    cbn in *; try congruence; subst; try done; intros ->; done.
Qed.

(** At a state where both have returned. *)
Lemma done_state s : inv s → pcs s = (PDone, PDone) → global_count s = 102 ∧ count_lock s = None.
Proof. destruct s as [c l m o]. cbn. intros (_ & Hl & _ & _ & _ & Hc) ->. by split. Qed.

(** C26 (liveness): [main] with its threads: without spurious wake-ups every run
    ends, whatever the scheduling, the moment at which the threads come into
    being, and whether they do.  If they do it ends only with [main] past both
    joins and the count at 102; and whenever [main] is past its joins, spurious
    wake-ups included, both threads could be created and it may destroy the
    mutex and the condition variable. *)
Theorem alternate_program refused :
  sn (program refused false) (Create1, start) ∧
  (∀ m s, reachable (program refused false) (Create1, start) (m, s) →
     nf (program refused false) (m, s) → (∀ t, refused t = false) →
     m = Joined ∧ global_count s = 102) ∧
  ∀ sp s, reachable (program refused sp) (Create1, start) (Joined, s) →
    (∀ t, refused t = false) ∧ destroyable s ∧ global_count s = 102.
Proof.
  assert (Hj : ∀ sp s, reachable (program refused sp) (Create1, start) (Joined, s) →
    (∀ t, refused t = false) ∧ destroyable s ∧ global_count s = 102).
  { intros sp s Hr. pose proof (reachable_invariant sp s (main_reachable _ _ _ _ _ _ _ Hr)) as Hi.
    destruct (main_joined _ _ _ _ _ _ _ (done_stays sp) Hr) as [H1 H2].
    destruct (H1 ltac:(by right)) as [Hf1 Hd1]. destruct (H2 eq_refl) as [Hf2 Hd2].
    assert (Hd : pcs s = (PDone, PDone)) by (destruct s as [c l [p q] o]; cbn in *; congruence).
    destruct (done_state s Hi Hd) as [Hc Hl]. split; [by intros []|]. split; [|done]. split; [done|].
    rewrite Hd. by intros []. }
  split_and!; [| |exact Hj].
  - apply (main_sn _ _ _ _ inv distance); [|apply inv_start].
    intros s s' Hi Hs. split; [by eapply inv_step|by apply distance_step].
  - intros m s Hr Hn Hf. destruct (decide (m = Joined)) as [->|Hm]; [by apply Hj in Hr as (_ & _ & ?)|].
    destruct Hn. apply main_progress; [apply _|done|done|by eapply main_defined|]. intros t Ht.
    pose proof (reachable_invariant _ s (main_reachable _ _ _ _ _ _ _ Hr)) as Hi.
    apply (progress s Hi). intros Hd. rewrite Hd in Ht. by destruct t.
Qed.

(** After [odd_thread] has taken the mutex. *)
Lemma alternate_safety_witness :
  (∀ t, inside (sel (PTest, PLock) t) = true →
     Some T1 = Some t ∧ inside (sel (PTest, PLock) (other t)) = false) ∧
  0 <= 0 <= 102 ∧ (∀ t, sel (PTest, PLock) t = PInc → turn t 0) ∧
  ((PTest, PLock) ≠ (PDone, PDone) →
     ∃ s', step true (State 0 (Some T1) (PTest, PLock) []) s').
Proof.
  apply (alternate_safety true (State 0 (Some T1) (PTest, PLock) [])).
  apply rtc_once. apply (step_lock true T1 0 (PLock, PLock) []). reflexivity.
Defined.
