(* ===== verification/MutexPrint.v ===== *)
(** * Two threads and a mutex only

    [src/mutex_sempaphores/mutex_alt_print.c] (and its copy in [src/pthread]):
    each thread takes the mutex once, before its loop, and gives it back in
    every turn that is not its own.  Unlocking a mutex that is not held has no
    defined behaviour by POSIX; the model is given for both readings: the program
    is broken there, or, as with the default mutexes of glibc, the mutex is free
    and the thread goes on.  The counter is read and written without the mutex;
    the model takes each access as one atomic step. *)
From S2P Require Import Prelude Threads.

Local Open Scope Z_scope.

(** ** The model *)

(** The statement a thread is about to execute. *)
Inductive mpc :=
  | MLock     (* pthread_mutex_lock, before the loop *)
  | MTest     (* if (cnt_g % 2 ...) *)
  | MPrint    (* the printf of the value *)
  | MInc      (* cnt_g++ *)
  | MMsg      (* the printf before the unlock *)
  | MUnlock   (* pthread_mutex_unlock *)
  | MCond     (* while (cnt_g < 100) *)
  | MDone.

#[export] Instance mpc_eq_dec : EqDecision mpc.
Proof. solve_decision. Defined.

Inductive event := Value (t : two) (v : Z) | Unlocking (t : two) (v : Z).

(** [cnt_g], the holder of [cnt_m], [func1] ([T1]) and [func2] ([T2]), the
    lines printed. *)
Record mstate := MState { cnt_g : Z; cnt_m : option two; mpcs : per mpc; lines : list event }.

(** [Broken]: the mutex was unlocked by a thread that does not hold it, which
    for a default mutex is undefined behaviour. *)
Inductive config := Run (s : mstate) | Broken.

Definition mstart : config := Run (MState 0 None (MLock, MLock) []).

Definition mine (t : two) (c : Z) : bool :=
  match t with T1 => c mod 2 =? 0 | T2 => negb (c mod 2 =? 0) end.

(** [lax]: unlocking a mutex that is not held leaves it free. *)
Inductive mstep (lax : bool) : config → config → Prop :=
  | mstep_lock t c m o :
      sel m t = MLock → mstep lax (Run (MState c None m o)) (Run (MState c (Some t) (move m t MTest) o))
  | mstep_test t c l m o :
      sel m t = MTest →
      mstep lax (Run (MState c l m o))
        (Run (MState c l (move m t (if mine t c then MPrint else MMsg)) o))
  | mstep_print t c l m o :
      sel m t = MPrint →
      mstep lax (Run (MState c l m o)) (Run (MState c l (move m t MInc) (o ++ [Value t c])))
  | mstep_inc t c l m o :
      sel m t = MInc → mstep lax (Run (MState c l m o)) (Run (MState (c + 1) l (move m t MCond) o))
  | mstep_msg t c l m o :
      sel m t = MMsg →
      mstep lax (Run (MState c l m o)) (Run (MState c l (move m t MUnlock) (o ++ [Unlocking t c])))
  | mstep_unlock t c m o :
      sel m t = MUnlock →
      mstep lax (Run (MState c (Some t) m o)) (Run (MState c None (move m t MCond) o))
  | mstep_unlock_bad t c l m o :
      lax = false → sel m t = MUnlock → l ≠ Some t → mstep lax (Run (MState c l m o)) Broken
  | mstep_unlock_lax t c l m o :
      lax = true → sel m t = MUnlock → l ≠ Some t →
      mstep lax (Run (MState c l m o)) (Run (MState c None (move m t MCond) o))
  | mstep_cond t c l m o :
      sel m t = MCond →
      mstep lax (Run (MState c l m o))
        (Run (MState c l (move m t (if c <? 100 then MTest else MDone)) o)).

(** ** The invariant *)

(** The values among the lines, and the unlock lines of a thread. *)
Definition values_of (o : list event) : list (two * Z) :=
  omap (λ e, match e with Value t v => Some (t, v) | _ => None end) o.

Definition is_unlocking (t : two) (e : event) : nat :=
  match e with Unlocking u _ => if decide (u = t) then 1 else 0 | _ => 0 end.
Definition unlockings (t : two) (o : list event) : nat := sum_list_with (is_unlocking t) o.

(** The thread that prints [v]. *)
Definition printer (v : Z) : two := if v mod 2 =? 0 then T1 else T2.

(** The lines there are when [n] values have been printed. *)
Definition upto (n : Z) : list (two * Z) := (λ v, (printer v, v)) <$> seqZ 0 n.

(** Between the test of a value and its increment. *)
Definition busy (p : mpc) : bool := match p with MPrint | MInc => true | _ => false end.
Definition owed (p : mpc) : Z := match p with MInc => 1 | _ => 0 end.
Definition msg (p : mpc) : nat := match p with MUnlock => 1 | _ => 0 end.

(** [k] unlock lines of a thread at [p]: it holds the mutex before its first
    unlock only. *)
Definition unlock_inv (t : two) (p : mpc) (k : nat) (l : option two) : Prop :=
  (k <= 1 + msg p)%nat ∧ (l = Some t → k = msg p) ∧ (p = MLock → k = 0%nat).

Lemma upto_succ n : 0 <= n → upto (n + 1) = upto n ++ [(printer n, n)].
Proof. intros Hn. unfold upto. rewrite seqZ_app, fmap_app by lia. by rewrite Z.add_0_l. Qed.

Lemma mine_printer t c : mine t c = true → printer c = t.
Proof. unfold mine, printer. destruct t, (c mod 2 =? 0); done. Qed.

Lemma values_snoc_value o t v : values_of (o ++ [Value t v]) = values_of o ++ [(t, v)].
Proof. unfold values_of. by rewrite omap_app. Qed.
Lemma values_snoc_msg o t v : values_of (o ++ [Unlocking t v]) = values_of o.
Proof. unfold values_of. rewrite omap_app. by rewrite app_nil_r. Qed.

Lemma unlockings_snoc t o e : unlockings t (o ++ [e]) = (unlockings t o + is_unlocking t e)%nat.
Proof. unfold unlockings. rewrite sum_list_with_app. cbn. lia. Qed.

(** Hypotheses of the form [A → B] whose premise is at hand. *)
Ltac saturate_eq :=
  repeat match goal with
  | H : ?a = ?a → _ |- _ => specialize (H eq_refl)
  | H : ?A → _, H' : ?A |- _ => specialize (H H')
  end.

Lemma mine_excl c : mine T1 c = true → mine T2 c = true → False.
Proof. unfold mine. by destruct (c mod 2 =? 0). Qed.

Lemma owed_idle p : (busy p = true → False) → owed p = 0.
Proof. destruct p; try done; intros H; by destruct H. Qed.

(** The values, whatever an unlock of a mutex that is not held does. *)
Definition vinv (f : config) : Prop :=
  match f with
  | Broken => True
  | Run (MState c _ m o) =>
      0 <= c ∧ (busy m.1 = true → mine T1 c = true) ∧ (busy m.2 = true → mine T2 c = true) ∧
      values_of o = upto (c + owed m.1 + owed m.2)
  end.

Lemma vinv_step lax f f' : vinv f → mstep lax f f' → vinv f'.
Proof.
  intros Hi Hs. destruct Hs as [t c m o Hp|t c l m o Hp|t c l m o Hp|t c l m o Hp|t c l m o Hp
    |t c m o Hp|t c l m o _ Hp _|t c l m o _ Hp _|t c l m o Hp]; try done;
    destruct Hi as (Hc & H1 & H2 & Hv);
    destruct t, m as [p q]; cbn in Hp; subst; cbn [fst snd busy owed move] in *.
  all: try match goal with |- context [mine ?t ?x] => destruct (mine t x) eqn:? end;
    try match goal with |- context [?x <? 100] => destruct (x <? 100) end; cbn [vinv].
  all: cbn [fst snd busy owed]; rewrite ?values_snoc_value, ?values_snoc_msg.
  all: try match goal with H : _ → mine T1 ?x = true, H' : _ → mine T2 ?x = true |- _ =>
    pose proof (mine_excl x) as Hx end.
  all: split_and!; try done; try lia; intros; saturate_eq; try done; try lia.
  all: try (by exfalso; eauto).
  - rewrite Hv, (owed_idle q) by auto. by rewrite !Z.add_0_r, upto_succ, (mine_printer T1 c).
  - rewrite Hv, (owed_idle p) by auto. by rewrite !Z.add_0_r, upto_succ, (mine_printer T2 c).
  - rewrite Hv. f_equal. lia.
  - rewrite Hv. f_equal. lia.
Qed.

(** The unlock lines, when an unlock of a mutex that is not held breaks the
    program. *)
Definition uinv (f : config) : Prop :=
  match f with
  | Broken => True
  | Run (MState _ l m o) =>
      unlock_inv T1 m.1 (unlockings T1 o) l ∧ unlock_inv T2 m.2 (unlockings T2 o) l
  end.

Lemma uinv_step f f' : uinv f → mstep false f f' → uinv f'.
Proof.
  intros Hi Hs. destruct Hs as [t c m o Hp|t c l m o Hp|t c l m o Hp|t c l m o Hp|t c l m o Hp
    |t c m o Hp|t c l m o _ Hp _|t c l m o Hf _ _|t c l m o Hp]; try done;
    destruct Hi as (Hu1 & Hu2); unfold unlock_inv in *;
    destruct t, m as [p q]; cbn in Hp; subst; cbn [fst snd msg move] in *;
    destruct Hu1 as (Ha1 & Hb1 & Hc1), Hu2 as (Ha2 & Hb2 & Hc2).
  all: try match goal with |- context [mine ?t ?x] => destruct (mine t x) eqn:? end;
    try match goal with |- context [?x <? 100] => destruct (x <? 100) end; cbn [uinv].
  all: cbn [fst snd msg]; rewrite ?unlockings_snoc; unfold unlock_inv; cbn.
  all: split_and!; try done; try lia; intros; try done; try lia.
  all: repeat case_decide; try done; saturate_eq; try lia.
Qed.

Lemma vinv_reachable lax f : reachable (mstep lax) mstart f → vinv f.
Proof. apply reachable_inv; [done|apply vinv_step]. Qed.

Lemma uinv_reachable f : reachable (mstep false) mstart f → uinv f.
Proof.
  apply reachable_inv; [|apply uinv_step]. cbn. unfold unlock_inv. by split_and!; auto with lia.
Qed.

(** ** The end of the counting *)

(** A thread that has not reached the test of its loop at a count of 100 or
    more keeps the count from going on: [func2] alone leads from 99 to 100. *)
Definition mend (f : config) : Prop :=
  match f with
  | Broken => True
  | Run (MState c _ m _) =>
      c <= 101 ∧
      match m.1 with MLock => c = 0 | MCond => True | MDone => 100 <= c | _ => c <= 100 end ∧
      match m.2 with MLock => c <= 1 | MCond => True | MDone => 100 <= c | _ => c <= 99 end
  end.

Lemma mine_parity t c : mine t c = true ↔ c mod 2 = match t with T1 => 0 | T2 => 1 end.
Proof. unfold mine. destruct t; [by rewrite Z.eqb_eq|]. rewrite negb_true_iff, Z.eqb_neq. dm_lia. Qed.

Lemma mend_step lax f f' : vinv f → mend f → mstep lax f f' → mend f'.
Proof.
  intros Hi He Hs. destruct Hs as [t c m o Hp|t c l m o Hp|t c l m o Hp|t c l m o Hp|t c l m o Hp
    |t c m o Hp|t c l m o _ Hp Hl|t c l m o _ Hp Hl|t c l m o Hp]; try done;
    destruct Hi as (Hc & H1 & H2 & _), He as (Hb & He1 & He2);
    destruct t, m as [p q]; cbn in Hp; subst; cbn [fst snd busy move] in *; unfold mend; cbn [fst snd];
    rewrite ?mine_parity in *.
  all: try match goal with |- context [mine ?t ?x] => destruct (mine t x) eqn:? end;
    try match goal with |- context [?x <? 100] => destruct (Z.ltb_spec x 100) end.
  all: saturate_eq; split_and!; try done; try lia.
  all: try (destruct p; first [lia|dm_lia]). all: try (destruct q; first [lia|dm_lia]).
Qed.

Lemma mend_reachable lax f : reachable (mstep lax) mstart f → mend f.
Proof.
  intros Hr. enough (vinv f ∧ mend f) by tauto. revert f Hr. apply reachable_inv; [done|].
  intros f f' [Hi He] Hs. split; [by eapply vinv_step|by eapply mend_step].
Qed.

(** ** [main] *)

(** The runs in which the program is not broken. *)
Definition mrun (lax : bool) (s s' : mstate) : Prop := mstep lax (Run s) (Run s').
Definition mfirst : mstate := MState 0 None (MLock, MLock) [].

Lemma mrun_reachable lax s :
  reachable (mrun lax) mfirst s → reachable (mstep lax) mstart (Run s).
Proof.
  revert s. apply rtc_ind_r; [apply rtc_refl|]. intros s s' _ Hs IH. by eapply rtc_r.
Qed.

(** [main] creates [func1] and [func2] and joins them in this order. *)
Definition mprogram (lax : bool) (refused : two → bool) :
    main_pc * mstate → main_pc * mstate → Prop :=
  main_step (mrun lax) (λ s, sel (mpcs s)) MDone refused.

Lemma mdone_stays lax s s' t : mrun lax s s' → sel (mpcs s) t = MDone → sel (mpcs s') t = MDone.
Proof.
  unfold mrun. intros Hs. remember (Run s) as f eqn:Ef. remember (Run s') as f' eqn:Ef'.
  destruct Hs as [u ? m|u ? ? m|u ? ? m|u ? ? m|u ? ? m|u ? m|u ? ? m|u ? ? m|u ? ? m];
    simplify_eq; destruct t, u, m as [p q]; cbn in *; congruence.
Qed.

(** Past its joins [main] has seen both threads return. *)
Lemma mprogram_joined lax refused s :
  reachable (mprogram lax refused) (Create1, mfirst) (Joined, s) →
  reachable (mstep lax) mstart (Run s) ∧ mpcs s = (MDone, MDone).
Proof.
  intros Hr. split; [by eapply mrun_reachable, main_reachable|].
  destruct (main_joined _ _ _ _ _ _ _ (mdone_stays lax) Hr) as [H1 H2].
  destruct (H1 ltac:(by right)) as [_ Hd1]. destruct (H2 eq_refl) as [_ Hd2].
  destruct s as [c l [p q] o]. cbn in *. congruence.
Qed.

(** [func1] goes round its loop with the count at 1: where unlocking a mutex that
    is not held is tolerated, its line is printed again and again. *)
Lemma func1_round l o :
  rtc (mstep true) (Run (MState 1 l (MCond, MLock) o))
    (Run (MState 1 None (MCond, MLock) (o ++ [Unlocking T1 1]))).
Proof.
  eapply rtc_l; [by apply (mstep_cond _ T1)|]. eapply rtc_l; [by apply (mstep_test _ T1)|].
  eapply rtc_l; [by apply (mstep_msg _ T1)|]. apply rtc_once.
  destruct (decide (l = Some T1)) as [->|Hl]; [by apply (mstep_unlock _ T1)|].
  by apply (mstep_unlock_lax _ T1).
Qed.

Lemma func1_rounds n : ∀ l o, ∃ l',
  rtc (mstep true) (Run (MState 1 l (MCond, MLock) o))
    (Run (MState 1 l' (MCond, MLock) (o ++ replicate n (Unlocking T1 1)))).
Proof.
  induction n as [|n IH]; intros l o; [exists l; cbn; by rewrite app_nil_r|].
  destruct (IH None (o ++ [Unlocking T1 1])) as [l' Hr]. exists l'.
  etrans; [apply func1_round|]. by rewrite <- app_assoc in Hr.
Qed.

(** ** Properties *)

(** Not more than one thread has printed a value it has not counted yet. *)
Lemma owed_one c p q :
  (busy p = true → mine T1 c = true) → (busy q = true → mine T2 c = true) →
  0 <= owed p + owed q <= 1.
Proof.
  intros H1 H2. pose proof (mine_excl c) as Hx. destruct p, q; cbn in *; try lia;
    exfalso; apply Hx; auto.
Qed.

Lemma unlock_twice c l m o t :
  reachable (mstep false) mstart (Run (MState c l m o)) →
  (unlockings t o <= 2)%nat ∧
  (unlockings t o = 2%nat →
     sel m t = MUnlock ∧ l ≠ Some t ∧ mstep false (Run (MState c l m o)) Broken).
Proof.
  intros [Hu1 Hu2]%uinv_reachable.
  assert (Ht : unlock_inv t (sel m t) (unlockings t o) l) by (by destruct t).
  destruct Ht as (Hk & Hl & _).
  assert (Hm : (msg (sel m t) <= 1)%nat) by (by destruct (sel m t); cbn; lia).
  split; [lia|]. intros H. assert (Hm' : msg (sel m t) = 1%nat) by lia.
  assert (Hpc : sel m t = MUnlock) by (by destruct (sel m t)).
  assert (Hlt : l ≠ Some t) by (intros E; specialize (Hl E); lia).
  split_and!; try done. by apply (mstep_unlock_bad _ t).
Qed.

(** C30 (safety): whatever the interleaving of the two threads, and whatever an
    unlock of a mutex that is not held does, the values printed are 0, 1, 2, ...
    in order, the even ones by [func1] and the odd ones by [func2], with the
    count at most one behind; and a run of [main] that gets past its joins has
    printed exactly the values below the count, which is then 100 or 101.  As
    long as its behaviour is defined the program prints at most two unlock lines
    of one thread: the second one precedes an unlock of a mutex the thread does
    not hold.  Where such an unlock is tolerated the line may come, as the
    comment of the program says, any number of times with the same count. *)
Theorem mutex_alt_safety lax s :
  (reachable (mstep lax) mstart (Run s) →
  (∃ n, values_of (lines s) = upto n ∧ cnt_g s <= n <= cnt_g s + 1) ∧
  (lax = false → ∀ t, (unlockings t (lines s) <= 2)%nat ∧
    (unlockings t (lines s) = 2%nat →
       sel (mpcs s) t = MUnlock ∧ cnt_m s ≠ Some t ∧ mstep lax (Run s) Broken))) ∧
  (∀ refused s, reachable (mprogram lax refused) (Create1, mfirst) (Joined, s) →
    100 <= cnt_g s <= 101 ∧ values_of (lines s) = upto (cnt_g s)) ∧
  ∀ n, ∃ s, reachable (mstep true) mstart (Run s) ∧
    lines s = Value T1 0 :: replicate n (Unlocking T1 1).
Proof.
  split_and!.
  - intros Hr. pose proof (vinv_reachable _ _ Hr) as Hi. destruct s as [c l [p q] o].
    destruct Hi as (Hc & H1 & H2 & Hv). cbn [fst snd] in *. split.
    + exists (c + owed p + owed q). split; [done|]. cbn [cnt_g].
      pose proof (owed_one c p q H1 H2). lia.
    + intros -> t. by apply unlock_twice.
  - intros refused s' [Hr Hd]%mprogram_joined. pose proof (vinv_reachable _ _ Hr) as Hi.
    pose proof (mend_reachable _ _ Hr) as He. destruct s' as [c l m o]. cbn in Hd. subst m.
    destruct Hi as (_ & _ & _ & Hv), He as (Hb & H1 & _). cbn in *.
    rewrite !Z.add_0_r in Hv. split; [lia|done].
  - intros n. destruct (func1_rounds n (Some T1) [Value T1 0]) as [l Hr]. eexists. split.
    + eapply rtc_l; [by apply (mstep_lock _ T1)|]. eapply rtc_l; [by apply (mstep_test _ T1)|].
      eapply rtc_l; [by apply (mstep_print _ T1)|]. eapply rtc_l; [by apply (mstep_inc _ T1)|].
      exact Hr.
    + done.
Qed.

(** [func1] about to unlock for the second time, in the reading in which that
    breaks the program. *)
Definition twice : mstate :=
  MState 1 None (MUnlock, MLock) [Value T1 0; Unlocking T1 1; Unlocking T1 1].

Lemma twice_reachable : reachable (mstep false) mstart (Run twice).
Proof.
  eapply rtc_l; [by apply (mstep_lock _ T1)|]. eapply rtc_l; [by apply (mstep_test _ T1)|].
  eapply rtc_l; [by apply (mstep_print _ T1)|]. eapply rtc_l; [by apply (mstep_inc _ T1)|].
  eapply rtc_l; [by apply (mstep_cond _ T1)|]. eapply rtc_l; [by apply (mstep_test _ T1)|].
  eapply rtc_l; [by apply (mstep_msg _ T1)|]. eapply rtc_l; [by apply (mstep_unlock _ T1)|].
  eapply rtc_l; [by apply (mstep_cond _ T1)|]. eapply rtc_l; [by apply (mstep_test _ T1)|].
  apply rtc_once. by apply (mstep_msg _ T1).
Qed.

Lemma mutex_alt_safety_witness :
  (∃ n, values_of [Value T1 0; Unlocking T1 1; Unlocking T1 1] = upto n ∧ 1 <= n <= 1 + 1) ∧
  ∀ t, (unlockings t [Value T1 0; Unlocking T1 1; Unlocking T1 1] <= 2)%nat ∧
    (unlockings t [Value T1 0; Unlocking T1 1; Unlocking T1 1] = 2%nat →
       sel (MUnlock, MLock) t = MUnlock ∧ None ≠ Some t ∧ mstep false (Run twice) Broken).
Proof.
  destruct (mutex_alt_safety false twice) as (H & _). destruct (H twice_reachable) as [Hv Hu].
  split; [exact Hv|exact (Hu eq_refl)].
Defined.

(** [func1] alone unlocks the mutex, finds the count still odd, and unlocks it
    again. *)
Lemma mutex_alt_breaks : reachable (mstep false) mstart Broken.
Proof.
  eapply rtc_l; [by apply (mstep_lock _ T1)|]. eapply rtc_l; [by apply (mstep_test _ T1)|].
  eapply rtc_l; [by apply (mstep_print _ T1)|]. eapply rtc_l; [by apply (mstep_inc _ T1)|].
  do 2 (eapply rtc_l; [by apply (mstep_cond _ T1)|]; eapply rtc_l; [by apply (mstep_test _ T1)|];
    eapply rtc_l; [by apply (mstep_msg _ T1)|];
    first [eapply rtc_l; [by apply (mstep_unlock _ T1)|]|apply rtc_once]).
  by apply (mstep_unlock_bad _ T1).
Qed.

(** ** A run to the end *)

(** After one unlock each, if the threads are scheduled strictly in turn. *)
Lemma turn_round t c o :
  mine t c = true → c < 100 →
  rtc (mrun false) (MState c None (MCond, MCond) o) (MState (c + 1) None (MCond, MCond) (o ++ [Value t c])).
Proof.
  intros Hm Hc. unfold mrun.
  assert (H1 := mstep_cond false t c None (MCond, MCond) o ltac:(by destruct t)).
  rewrite (proj2 (Z.ltb_lt _ _) Hc) in H1. eapply rtc_l; [exact H1|].
  assert (H2 := mstep_test false t c None (move (MCond, MCond) t MTest) o ltac:(by destruct t)).
  rewrite Hm in H2. eapply rtc_l; [exact H2|].
  eapply rtc_l; [apply (mstep_print _ t); by destruct t|].
  apply rtc_once. replace (MCond, MCond) with
    (move (move (move (move (MCond, MCond) t MTest) t MPrint) t MInc) t MCond) at 2 by (by destruct t).
  apply (mstep_inc _ t). by destruct t.
Qed.

Lemma turn_rounds n : (n <= 98)%nat → ∀ o,
  ∃ o', rtc (mrun false) (MState 2 None (MCond, MCond) o) (MState (2 + Z.of_nat n) None (MCond, MCond) o').
Proof.
  intros Hn o. induction n as [|n IH]; [exists o; apply rtc_refl|].
  destruct IH as [o' IH]; [lia|]. eexists. etrans; [exact IH|].
  replace (2 + Z.of_nat (S n)) with (2 + Z.of_nat n + 1) by lia.
  apply (turn_round (printer (2 + Z.of_nat n))); [|lia].
  apply mine_parity. unfold printer. destruct (Z.eqb_spec ((2 + Z.of_nat n) mod 2) 0); [done|dm_lia].
Qed.

(** Past the creation of both threads all their steps are steps of the program. *)
Lemma mprogram_run s s' : rtc (mrun false) s s' → rtc (mprogram false (λ _, false)) (Join1, s) (Join1, s').
Proof.
  induction 1 as [|s1 s2 s3 Hs _ IH]; [apply rtc_refl|]. eapply rtc_l; [|exact IH].
  apply main_thread; [done|done|]. by intros [].
Qed.

(** The behaviour of the program may stay defined to the end. *)
Lemma mutex_alt_completes : ∃ s, reachable (mprogram false (λ _, false)) (Create1, mfirst) (Joined, s).
Proof.
  destruct (turn_rounds 98 ltac:(lia) [Value T1 0; Unlocking T1 1; Value T2 1; Unlocking T2 2]) as [o Ho].
  eexists. eapply rtc_l; [apply main_create1|]. eapply rtc_l; [apply main_create2|].
  etrans; [apply mprogram_run|].
  { unfold mrun. eapply rtc_l; [by apply (mstep_lock _ T1)|]. eapply rtc_l; [by apply (mstep_test _ T1)|].
    eapply rtc_l; [by apply (mstep_print _ T1)|]. eapply rtc_l; [by apply (mstep_inc _ T1)|].
    eapply rtc_l; [by apply (mstep_cond _ T1)|]. eapply rtc_l; [by apply (mstep_test _ T1)|].
    eapply rtc_l; [by apply (mstep_msg _ T1)|]. eapply rtc_l; [by apply (mstep_unlock _ T1)|].
    eapply rtc_l; [by apply (mstep_lock _ T2)|]. eapply rtc_l; [by apply (mstep_test _ T2)|].
    eapply rtc_l; [by apply (mstep_print _ T2)|]. eapply rtc_l; [by apply (mstep_inc _ T2)|].
    eapply rtc_l; [by apply (mstep_cond _ T2)|]. eapply rtc_l; [by apply (mstep_test _ T2)|].
    eapply rtc_l; [by apply (mstep_msg _ T2)|]. eapply rtc_l; [by apply (mstep_unlock _ T2)|].
    etrans; [exact Ho|]. eapply rtc_l; [by apply (mstep_cond _ T1)|]. apply rtc_once.
    by apply (mstep_cond _ T2). }
  eapply rtc_l; [by apply main_join1|]. apply rtc_once. by apply main_join2.
Qed.
