(* ===== verification/Turns.v ===== *)
(** * Taking turns

    What [alternate_print.c] and [mutex_alt_print.c] promise alike: the first
    thread and the second increment the counter in turn.  [TurnTaking] is the
    interface between the two programs and that specification; the refinement
    is proved once, from the interface. *)
From S2P Require Import Prelude Threads AlternatePrint MutexPrint.

(** ** The specification *)

(** The first [n] turns: [T1], [T2], [T1], ... *)
Definition turn_of (n : nat) : two := if Nat.even n then T1 else T2.
Definition turns (n : nat) : list two := turn_of <$> seq 0 n.

Lemma turns_succ n : turns (S n) = turns n ++ [turn_of n].
Proof. unfold turns. by rewrite seq_S, fmap_app. Qed.

(** ** The interface *)

(** A program of two threads with a counter: [rising s t] if thread [t] is at
    the statement that increments it. *)
Class TurnTaking {S : Type} (step : S → S → Prop) (s0 : S) (counter : S → Z)
    (rising : S → two → Prop) : Prop := {
  counter_start : counter s0 = 0%Z;
  counter_step s s' :
    reachable step s0 s → step s s' →
    counter s' = counter s ∨ ∃ t, rising s t ∧ ¬ rising s' t ∧ counter s' = (counter s + 1)%Z;
  rising_turn s t :
    reachable step s0 s → rising s t → turn_of (Z.to_nat (counter s)) = t;
}.

Section refinement.
Context {S : Type} (step : S → S → Prop) (s0 : S) (counter : S → Z) (rising : S → two → Prop).

(** The runs to [s] in which the threads [l] increment the counter, in this
    order. *)
Inductive history : S → list two → Prop :=
  | history_start : history s0 []
  | history_silent s s' l : history s l → step s s' → counter s' = counter s → history s' l
  | history_turn s s' t l :
      history s l → step s s' → rising s t → ¬ rising s' t → counter s' = (counter s + 1)%Z →
      history s' (l ++ [t]).

(** Every run is a run of the specification, by its increments, and the counter
    is the number of turns taken. *)
Definition refines_turns : Prop :=
  (∀ s, reachable step s0 s → ∃ l, history s l) ∧
  ∀ s l, history s l → l = turns (length l) ∧ counter s = Z.of_nat (length l).

Context `{!TurnTaking step s0 counter rising}.

Lemma history_reachable s l : history s l → reachable step s0 s.
Proof. induction 1; [apply rtc_refl|by eapply rtc_r..]. Qed.

Lemma turns_refined : refines_turns.
Proof.
  split.
  - apply rtc_ind_r; [by exists []; apply history_start|]. intros s s' Hr Hs [l Hl].
    destruct (counter_step s s' Hr Hs) as [Hc|(t & H1 & H2 & Hc)].
    + exists l. by eapply history_silent.
    + exists (l ++ [t]). by eapply history_turn.
  - induction 1 as [|s s' l Hl [Hl1 Hl2] Hs Hc|s s' t l Hl [Hl1 Hl2] Hs H1 H2 Hc].
    + by rewrite counter_start.
    + by rewrite Hc.
    + pose proof (rising_turn s t (history_reachable s l Hl) H1) as Ht.
      rewrite Hl2, Nat2Z.id in Ht. rewrite length_app, Nat.add_1_r, turns_succ, Ht, <- Hl1.
      split; [done|]. lia.
Qed.
End refinement.

(** ** The two programs *)

Lemma turn_of_parity c t : (0 <= c)%Z → AlternatePrint.turn t c → turn_of (Z.to_nat c) = t.
Proof.
  intros Hc Ht. unfold turn_of. destruct (Nat.even (Z.to_nat c)) eqn:E.
  - apply Nat.even_spec in E as [n Hn]. destruct t; [done|]. unfold turn in Ht. exfalso. dm_lia.
  - assert (Ho : Nat.odd (Z.to_nat c)) by (by rewrite <- Nat.negb_even, E).
    apply Is_true_true, Nat.odd_spec in Ho as [n Hn]. destruct t; [|done]. unfold turn in Ht.
    exfalso. dm_lia.
Qed.

(** [odd_thread] and [even_thread], with or without spurious wake-ups. *)
Definition rises (s : state) (t : two) : Prop := sel (pcs s) t = PInc.

#[export] Instance alternate_turns sp : TurnTaking (step sp) start global_count rises.
Proof.
  split; [done| |].
  - intros s s' _ Hs. destruct Hs; try (by left); right.
    exists t. split; [done|]. split; [|done]. unfold rises. by destruct t.
  - intros s t Hr Ht. apply reachable_invariant in Hr. destruct s as [c l m o].
    destruct Hr as (Hc & _ & H1 & H2 & _). apply turn_of_parity; [cbn; lia|].
    unfold rises in Ht. destruct t, m as [p q]; cbn in Ht; subst; [apply H1|apply H2].
Qed.

(** [func1] and [func2], whatever an unlock without the lock does. *)
Definition mrises (s : mstate) (t : two) : Prop := sel (mpcs s) t = MInc.

Lemma mine_turn t c : mine t c = true → AlternatePrint.turn t c.
Proof.
  unfold mine, turn. destruct t; [by intros ?%Z.eqb_eq|intros ?%negb_true_iff%Z.eqb_neq; dm_lia].
Qed.

#[export] Instance mutex_turns lax : TurnTaking (mrun lax) mfirst cnt_g mrises.
Proof.
  split; [done| |].
  - intros s s' _ Hs. unfold mrun in Hs. remember (Run s) as f eqn:Ef. remember (Run s') as f' eqn:Ef'.
    destruct Hs; simplify_eq; try (by left); right.
    exists t. split; [done|]. split; [|done]. unfold mrises. by destruct t.
  - intros s t Hr Ht. apply mrun_reachable, vinv_reachable in Hr. destruct s as [c l m o].
    destruct Hr as (Hc & H1 & H2 & _). apply turn_of_parity; [done|]. apply mine_turn.
    unfold mrises in Ht. destruct t, m as [p q]; cbn in Ht; subst; [by apply H1|by apply H2].
Qed.

(** A run of the first program that cannot go on has taken all its turns. *)
Lemma alternate_complete s :
  reachable (step false) start s → nf (step false) s → global_count s = 102%Z.
Proof.
  intros Hr Hn. pose proof (reachable_invariant _ s Hr) as Hi.
  destruct (decide (pcs s = (PDone, PDone))) as [Hd|Hd]; [by apply done_state|].
  destruct (progress s Hi Hd) as [s' Hs]. destruct Hn. by exists s'.
Qed.

(** ** Property *)

(** C17 (refinement): by its increments of the counter, every run of either
    program, in every interleaving, is a run of the specification in which the
    two threads take turns beginning with the first, and the counter is the
    number of turns taken; for [alternate_print.c] spurious wake-ups included,
    and a run without them that has ended is the run of exactly 102 turns; for
    [mutex_alt_print.c] as long as its behaviour is defined, and beyond that where
    unlocking a mutex that is not held leaves it free. *)
Theorem turns_refinement :
  (∀ sp, refines_turns (step sp) start global_count rises) ∧
  (∀ lax, refines_turns (mrun lax) mfirst cnt_g mrises) ∧
  ∀ s l, history (step false) start global_count rises s l → nf (step false) s → l = turns 102.
Proof.
  split_and!; [intros sp|intros lax|]; [apply turns_refined; apply _..|].
  intros s l Hl Hn. pose proof (turns_refined (step false) start global_count rises) as [_ Ht].
  destruct (Ht s l Hl) as [El Hc].
  rewrite alternate_complete in Hc by (done || by eapply history_reachable).
  rewrite El. f_equal. lia.
Qed.
