(* ===== verification/ProdConsumer.v ===== *)
(** * Producers and consumers with semaphores

    [src/mutex_sempaphores/prod_consumer.c]: five producers and five consumers
    share a buffer of five integers under two semaphores and a mutex, created
    one after the other by [main] while those that exist already run, until a
    call of [pthread_create] fails and [main] returns; [item] is the value of
    [tnum[i]], which both loops of [main] set to the same number. *)
From S2P Require Import Prelude Heap Threads.

(** ** The model *)

Definition BUF_LEN : nat := 5.
Definition NITERS : Z := 5.
Definition NCP : nat := 5.

(** [produce] counts up, [consume] counts down. *)
Inductive role := Produce | Consume.

#[export] Instance role_eq_dec : EqDecision role.
Proof. solve_decision. Defined.

(** The statement of the loop body a thread is about to execute. *)
Inductive wpc :=
  | WWait     (* sem_wait *)
  | WLock     (* pthread_mutex_lock *)
  | WStore    (* shared_data.buffer[i] = i and the printf *)
  | WUnlock   (* pthread_mutex_unlock *)
  | WPost     (* sem_post, i++ or i-- and the loop condition *)
  | WDone.

(** A thread: what it runs, its number [item], where it is, its [i]. *)
Record worker := Worker { wrole : role; witem : nat; wat : wpc; wi : Z }.

(** [printf("P[%d] buffer:%d\n")] and [printf("C[%d] buffer:%d\n")]. *)
Inductive line := Line (r : role) (item : nat) (v : Z).

(** [shared_data], the threads that have been created, what has been printed,
    and where [main] is: at the creation of a thread (0 to 9), at one of the two
    joins (10 and 11), or in [pthread_exit] (12). *)
Record shared := Shared {
  buffer : list Z;
  my_mutex : option nat;
  buf_full : nat;
  buf_empty : nat;
  workers : list worker;
  output : list line;
  main_at : nat;
}.

(** [Exited]: [main] has printed that it failed to create the thread number
    [main_at] and has returned -1, which ends the process. *)
Inductive outcome := Going (s : shared) | Exited (s : shared) | Fault.

Definition at_pc (w : worker) (p : wpc) : worker := Worker (wrole w) (witem w) p (wi w).

(** The step of [i] and the loop condition. *)
Definition next (w : worker) : worker :=
  match wrole w with
  | Produce => let i := (wi w + 1)%Z in
      Worker Produce (witem w) (if (i <=? NITERS)%Z then WWait else WDone) i
  | Consume => let i := (wi w - 1)%Z in
      Worker Consume (witem w) (if (i >=? 0)%Z then WWait else WDone) i
  end.

(** The [k]-th thread that [main] creates: five producers, then five consumers. *)
Definition created (k : nat) : worker :=
  if decide (k < NCP) then Worker Produce k WWait 0 else Worker Consume (k - NCP) WWait NITERS.

(** After the initialisation of the semaphores. *)
Definition begin : outcome :=
  Going (Shared (replicate BUF_LEN 0%Z) None 1 BUF_LEN [] [] 0).

(** [fails]: whether [pthread_create] may fail. *)
Inductive wstep (fails : bool) : outcome → outcome → Prop :=
  | wstep_wait_empty k w b l full empty ws o m :
      ws !! k = Some w → wat w = WWait → wrole w = Produce →
      wstep fails (Going (Shared b l full (S empty) ws o m))
        (Going (Shared b l full empty (<[k := at_pc w WLock]> ws) o m))
  | wstep_wait_full k w b l full empty ws o m :
      ws !! k = Some w → wat w = WWait → wrole w = Consume →
      wstep fails (Going (Shared b l (S full) empty ws o m))
        (Going (Shared b l full empty (<[k := at_pc w WLock]> ws) o m))
  | wstep_lock k w b full empty ws o m :
      ws !! k = Some w → wat w = WLock →
      wstep fails (Going (Shared b None full empty ws o m))
        (Going (Shared b (Some k) full empty (<[k := at_pc w WStore]> ws) o m))
  | wstep_store k w b b' l full empty ws o m :
      ws !! k = Some w → wat w = WStore → arr_set b (wi w) (wi w) = Ok b' →
      wstep fails (Going (Shared b l full empty ws o m))
        (Going (Shared b' l full empty (<[k := at_pc w WUnlock]> ws)
           (o ++ [Line (wrole w) (witem w) (wi w)]) m))
  | wstep_store_bad k w b l full empty ws o m :
      ws !! k = Some w → wat w = WStore → arr_set b (wi w) (wi w) = UB OutOfBounds →
      wstep fails (Going (Shared b l full empty ws o m)) Fault
  | wstep_unlock k w b full empty ws o m :
      ws !! k = Some w → wat w = WUnlock →
      wstep fails (Going (Shared b (Some k) full empty ws o m))
        (Going (Shared b None full empty (<[k := at_pc w WPost]> ws) o m))
  | wstep_post_full k w b l full empty ws o m :
      ws !! k = Some w → wat w = WPost → wrole w = Produce →
      wstep fails (Going (Shared b l full empty ws o m))
        (Going (Shared b l (S full) empty (<[k := next w]> ws) o m))
  | wstep_post_empty k w b l full empty ws o m :
      ws !! k = Some w → wat w = WPost → wrole w = Consume →
      wstep fails (Going (Shared b l full empty ws o m))
        (Going (Shared b l full (S empty) (<[k := next w]> ws) o m))
  | wstep_create b l full empty ws o m :
      m < NCP + NCP →
      wstep fails (Going (Shared b l full empty ws o m))
        (Going (Shared b l full empty (ws ++ [created m]) o (S m)))
  | wstep_create_fails b l full empty ws o m :
      fails = true → m < NCP + NCP →
      wstep fails (Going (Shared b l full empty ws o m)) (Exited (Shared b l full empty ws o m))
  | wstep_join_producer w b l full empty ws o :
      ws !! 4 = Some w → wat w = WDone →
      wstep fails (Going (Shared b l full empty ws o 10)) (Going (Shared b l full empty ws o 11))
  | wstep_join_consumer w b l full empty ws o :
      ws !! 9 = Some w → wat w = WDone →
      wstep fails (Going (Shared b l full empty ws o 11)) (Going (Shared b l full empty ws o 12)).

(** ** The invariant *)

(** Between [sem_wait] and [sem_post], and between lock and unlock. *)
Definition token (w : worker) : nat := match wat w with WWait | WDone => 0 | _ => 1 end.
Definition holds (w : worker) : bool := match wat w with WStore | WUnlock => true | _ => false end.

(** No thread has got past an element that does not exist: consumers start
    with it, producers end with it. *)
Definition worker_inv (w : worker) : Prop :=
  match wrole w, wat w with
  | Produce, WUnlock | Produce, WPost => 0 <= wi w < 5
  | Produce, WDone => False
  | Produce, _ => 0 <= wi w <= 5
  | Consume, WWait | Consume, WLock | Consume, WStore => wi w = 5
  | Consume, _ => False
  end%Z.

Record shared_inv (s : shared) : Prop := {
  inv_buffer : length (buffer s) = BUF_LEN;
  inv_workers : Forall worker_inv (workers s);
  inv_roles : wrole <$> workers s = take (main_at s) (replicate NCP Produce ++ replicate NCP Consume);
  inv_main : main_at s <= 10;
  inv_tokens : buf_full s + buf_empty s + sum_list_with token (workers s) = BUF_LEN + 1;
  inv_mutex k w : workers s !! k = Some w → holds w = true ↔ my_mutex s = Some k;
  inv_holder k : my_mutex s = Some k → k < length (workers s);
  inv_output : Forall (λ '(Line r _ v), r = Produce ∧ 0 <= v < 5)%Z (output s);
}.

Definition outcome_inv (f : outcome) : Prop :=
  match f with Going s => shared_inv s | Exited s => shared_inv s | Fault => True end.

Lemma begin_inv : outcome_inv begin.
Proof. split; try done; cbn; try constructor; lia. Qed.

(** One worker [k] moves from [w] to [w']. *)
Lemma move_inv b b' l l' full full' empty empty' ws o o' m k w w' :
  shared_inv (Shared b l full empty ws o m) →
  ws !! k = Some w → worker_inv w' → wrole w' = wrole w → length b' = length b →
  full' + empty' + token w' = full + empty + token w →
  (holds w' = true ↔ l' = Some k) → (∀ j, j ≠ k → l = Some j ↔ l' = Some j) →
  Forall (λ '(Line r _ v), r = Produce ∧ 0 <= v < 5)%Z o' →
  shared_inv (Shared b' l' full' empty' (<[k := w']> ws) o' m).
Proof.
  intros [Hb Hw Hr Hma Ht Hm Hh _] Hk Hw' Hrole Hb' Htok Hmk Hmj Ho'. cbn in *.
  pose proof (sum_move token ws k w w' Hk) as Hs.
  split; cbn; try done.
  - by rewrite Hb'.
  - by apply Forall_move.
  - rewrite list_fmap_insert, Hrole, list_insert_id; [done|]. by rewrite list_lookup_fmap, Hk.
  - lia.
  - intros j v Hj. destruct (decide (j = k)) as [->|Hjk].
    + rewrite list_lookup_insert_eq in Hj by (by eapply lookup_lt_Some). by injection Hj as <-.
    + rewrite list_lookup_insert_ne in Hj by done. by rewrite (Hm j v Hj), Hmj.
  - intros j Hj. rewrite length_insert. destruct (decide (j = k)) as [->|Hjk].
    + by eapply lookup_lt_Some.
    + apply Hh. by apply Hmj.
Qed.

(** No thread ever leaves its loop, so [main] waits in its first join. *)
Lemma joined_not_done s k w : shared_inv s → workers s !! k = Some w → wat w ≠ WDone.
Proof.
  intros Hi Hk Hp. pose proof (Forall_lookup_1 _ _ _ _ (inv_workers s Hi) Hk) as Hw.
  unfold worker_inv in Hw. rewrite Hp in Hw. by destruct (wrole w).
Qed.

Lemma created_roles k : k < NCP + NCP →
  (replicate NCP Produce ++ replicate NCP Consume) !! k = Some (wrole (created k)).
Proof. unfold NCP. intros Hk. do 10 (destruct k as [|k]; [done|]). lia. Qed.

Lemma workers_length s : shared_inv s → length (workers s) = main_at s.
Proof.
  intros Hi. rewrite <- (length_fmap wrole), (inv_roles s Hi), length_take, length_app, !length_replicate.
  pose proof (inv_main s Hi). unfold NCP. lia.
Qed.

Lemma created_wait k : wat (created k) = WWait.
Proof. unfold created. by case_decide. Qed.

Lemma created_token k : token (created k) = 0.
Proof. unfold token. by rewrite created_wait. Qed.

(** [main] creates the next thread. *)
Lemma create_inv b l full empty ws o m :
  shared_inv (Shared b l full empty ws o m) → m < NCP + NCP →
  shared_inv (Shared b l full empty (ws ++ [created m]) o (S m)).
Proof.
  intros Hi Hlt. pose proof (workers_length _ Hi) as Hlen. pose proof Hi as [Hb Hw Hr _ Ht Hm Hh Ho].
  cbn in *. split; cbn [buffer my_mutex buf_full buf_empty workers output main_at]; try done.
  - apply Forall_app. split; [done|]. constructor; [|done].
    unfold worker_inv, created. case_decide; cbn; unfold NITERS; lia.
  - rewrite fmap_app, Hr. cbn [fmap list_fmap]. by rewrite (take_S_r _ _ _ (created_roles m Hlt)).
  - rewrite sum_snoc, created_token. unfold BUF_LEN. lia.
  - intros k w. rewrite lookup_app_Some. intros [Hk|[Hge Hk]]; [by apply Hm|].
    apply list_lookup_singleton_Some in Hk as [Hk <-]. unfold holds. rewrite created_wait.
    split; [done|]. intros Hl. apply Hh in Hl. lia.
  - intros k Hk. rewrite length_app. apply Hh in Hk. cbn. lia.
Qed.

Lemma wstep_inv fails f f' : outcome_inv f → wstep fails f f' → outcome_inv f'.
Proof.
  intros Hi Hs. destruct Hs as [k w b l full empty ws o m Hk Hp Hr|k w b l full empty ws o m Hk Hp Hr
    |k w b full empty ws o m Hk Hp|k w b b' l full empty ws o m Hk Hp Hb
    |k w b l full empty ws o m Hk Hp Hb|k w b full empty ws o m Hk Hp
    |k w b l full empty ws o m Hk Hp Hr|k w b l full empty ws o m Hk Hp Hr
    |b l full empty ws o m Hlt|b l full empty ws o m Hf Hlt|w b l full empty ws o Hk Hp|w b l full empty ws o Hk Hp]; try done; cbn in *;
    pose proof Hi as [_ Hwi _ _ _ Hm _ Ho]; cbn in *.
  all: try (by apply create_inv); try by destruct (joined_not_done _ _ _ Hi Hk Hp).
  all: specialize (Hm k w Hk);
    pose proof (Forall_lookup_1 _ _ _ _ Hwi Hk) as Hw; destruct w as [r it p i]; cbn in *; subst p;
    try subst r; unfold holds in Hm; cbn in Hm.
  - apply (move_inv b b l l full full (S empty) empty ws o o m k _ _ Hi Hk); done || cbn.
    lia.
  - apply (move_inv b b l l (S full) full empty empty ws o o m k _ _ Hi Hk); done || cbn.
    lia.
  - apply (move_inv b b None (Some k) full full empty empty ws o o m k _ _ Hi Hk); done || cbn.
    intros j Hj. naive_solver.
  - unfold arr_set in Hb. destruct (_ || _)%bool eqn:E; [done|]. injection Hb as <-.
    apply orb_false_iff in E as [E1%Z.ltb_ge E2%Z.leb_gt].
    pose proof (inv_buffer _ Hi) as Hlen. cbn in Hlen. unfold BUF_LEN in Hlen.
    assert (Hw' : worker_inv (Worker r it WUnlock i) ∧ r = Produce).
    { unfold worker_inv in *. destruct r; cbn in *; [|lia]. split; [lia|done]. }
    apply (move_inv b _ l l full full empty empty ws o _ m k _ _ Hi Hk); done || cbn.
    + apply Hw'.
    + apply length_insert.
    + apply Forall_app. split; [done|]. constructor; [|done]. split; [apply Hw'|lia].
  - apply (move_inv b b (Some k) None full full empty empty ws o o m k _ _ Hi Hk); done || cbn.
    intros j Hj. naive_solver.
  - apply (move_inv b b l l full (S full) empty empty ws o o m k _ _ Hi Hk); unfold next; cbn;
      rewrite ?(proj2 (Z.leb_le _ _)) by (unfold worker_inv, NITERS in *; cbn in *; lia);
      done || cbn; unfold worker_inv in *; cbn in *; lia.
  - done.
Qed.

(** ** Ending *)

(** What is left of the body of the loop, and the turns of the loop left. *)
Definition rest (p : wpc) : nat :=
  match p with
  | WWait => 5 | WLock => 4 | WStore => 3 | WUnlock => 2 | WPost => 1 | WDone => 0
  end.
Definition left_of (w : worker) : nat :=
  (match wrole w with Produce => Z.to_nat (NITERS - wi w) | Consume => Z.to_nat (wi w) end * 5
   + rest (wat w))%nat.
Definition left_over (f : outcome) : nat :=
  match f with
  | Going s => S (sum_list_with left_of (workers s) + (NCP + NCP - main_at s) * 31)
  | Exited _ | Fault => 0
  end.

Lemma created_left k : left_of (created k) = 30.
Proof. unfold created. by case_decide. Qed.

Lemma left_over_step fails f f' : outcome_inv f → wstep fails f f' → left_over f' < left_over f.
Proof.
  intros Hi Hs. destruct Hs as [k w b l full empty ws o m Hk Hp Hr|k w b l full empty ws o m Hk Hp Hr
    |k w b full empty ws o m Hk Hp|k w b b' l full empty ws o m Hk Hp Hb
    |k w b l full empty ws o m Hk Hp Hb|k w b full empty ws o m Hk Hp
    |k w b l full empty ws o m Hk Hp Hr|k w b l full empty ws o m Hk Hp Hr
    |b l full empty ws o m Hlt|b l full empty ws o m Hf Hlt|w b l full empty ws o Hk Hp|w b l full empty ws o Hk Hp]; cbn [left_over workers main_at outcome_inv] in *; try lia.
  all: try by destruct (joined_not_done _ _ _ Hi Hk Hp).
  all: try by (rewrite sum_snoc, created_left; unfold NCP in *; lia).
  all: pose proof (Forall_lookup_1 _ _ _ _ (inv_workers _ Hi) Hk) as Hw; cbn in *;
    destruct w as [r it p i]; cbn in *; subst;
    match goal with |- context [<[?j := ?w']> ?l] =>
      pose proof (sum_move left_of l j _ w' Hk) as Hsum end;
    unfold left_of in *; cbn in *; try lia.
  destruct (i + 1 <=? NITERS)%Z; cbn in Hsum; unfold NITERS in *; lia.
Qed.

(** A worker that is neither waiting on a semaphore nor on the mutex can go on. *)
Lemma worker_steps fails s k w :
  workers s !! k = Some w → worker_inv w →
  match wat w with
  | WWait => match wrole w with Produce => buf_empty s ≠ 0 | Consume => buf_full s ≠ 0 end
  | WLock => my_mutex s = None
  | WStore => length (buffer s) = BUF_LEN
  | WUnlock => my_mutex s = Some k
  | _ => True
  end → ∃ f, wstep fails (Going s) f.
Proof.
  destruct s as [b l full empty ws o], w as [r it p i]; cbn. intros Hk Hw Hc.
  unfold worker_inv in Hw. cbn in Hw. destruct p.
  - destruct r; [destruct empty as [|n]; [done|]|destruct full as [|n]; [done|]];
      eexists; [by eapply wstep_wait_empty|by eapply wstep_wait_full].
  - subst l. eexists. by eapply wstep_lock.
  - destruct (arr_set b i i) as [b'|e|] eqn:Hb; unfold arr_set in Hb;
      destruct (_ || _)%bool eqn:E in Hb; simplify_eq.
    + eexists. eapply wstep_store; [exact Hk|done|]. cbn. unfold arr_set. by rewrite E.
    + eexists. eapply wstep_store_bad; [exact Hk|done|]. cbn. unfold arr_set. by rewrite E.
  - subst l. eexists. by eapply wstep_unlock.
  - destruct r; [|done]. eexists. by eapply wstep_post_full.
  - by destruct r.
Qed.

(** The program cannot stop without a fault. *)
Lemma wprogress fails s : shared_inv s → ∃ f, wstep fails (Going s) f.
Proof.
  intros Hi. destruct (decide (main_at s < NCP + NCP)) as [Hlt|Hge].
  { destruct s. eexists. by apply wstep_create. }
  pose proof Hi as [Hb Hw Hr Hma Ht Hm Hh _].
  replace (main_at s) with 10 in Hr by (unfold NCP in *; lia).
  change (take 10 _) with (replicate NCP Produce ++ replicate NCP Consume) in Hr.
  assert (Hlook : ∀ k w, workers s !! k = Some w → worker_inv w).
  { intros k w Hk. by apply (Forall_lookup_1 _ _ _ _ Hw Hk). }
  destruct (my_mutex s) as [k|] eqn:El.
  { destruct (lookup_lt_is_Some_2 (workers s) k (Hh k eq_refl)) as [w Hk].
    apply (worker_steps fails s k w Hk (Hlook k w Hk)). pose proof (proj2 (Hm k w Hk) eq_refl) as Hin.
    unfold holds in Hin. by destruct (wat w). }
  destruct (decide (Exists (λ w, token w ≠ 0) (workers s))) as [Hex|Hno].
  - apply Exists_exists in Hex as (w & [k Hk]%list_elem_of_lookup_1 & Htk).
    apply (worker_steps fails s k w Hk (Hlook k w Hk)).
    pose proof (Hm k w Hk) as Hmk. unfold token, holds in *. destruct (wat w); try done; naive_solver.
  - assert (Hz : sum_list_with token (workers s) = 0).
    { clear -Hno. induction (workers s) as [|w ws IH]; [done|]. simpl.
      rewrite IH by (intros H; apply Hno; by right).
      destruct (decide (token w = 0)) as [->|Hn]; [done|]. destruct Hno. by left. }
    assert (Hwait : ∀ k r, (replicate NCP Produce ++ replicate NCP Consume) !! k = Some r →
      ∃ w, workers s !! k = Some w ∧ wrole w = r ∧ wat w = WWait).
    { intros k r Hk. rewrite <- Hr, list_lookup_fmap in Hk.
      destruct (workers s !! k) as [w|] eqn:E; [|done]. injection Hk as <-. exists w.
      split_and!; try done. pose proof (Hlook k w E) as Hwi.
      pose proof (Forall_lookup_1 _ _ _ _ (sum_zero token _ Hz) E) as Htz. cbn in Htz.
      unfold token in Htz. unfold worker_inv in Hwi. by destruct (wat w), (wrole w). }
    destruct (decide (buf_full s = 0)) as [Hf|Hf].
    + destruct (Hwait 0 Produce eq_refl) as (w & Hk & Hro & Hp).
      apply (worker_steps fails s 0 w Hk (Hlook 0 w Hk)). rewrite Hp, Hro. lia.
    + destruct (Hwait 5 Consume eq_refl) as (w & Hk & Hro & Hp).
      apply (worker_steps fails s 5 w Hk (Hlook 5 w Hk)). by rewrite Hp, Hro.
Qed.

Lemma outcome_reachable fails f : reachable (wstep fails) begin f → outcome_inv f.
Proof. apply reachable_inv; [apply begin_inv|apply wstep_inv]. Qed.

(** Where [main] can return -1. *)
Lemma exited_incomplete fails s :
  reachable (wstep fails) begin (Exited s) → fails = true ∧ ∃ s', Exited s = Exited s' ∧ main_at s' < NCP + NCP.
Proof.
  intros Hr. apply rtc_inv_r in Hr as [|(f & _ & Hs)]; [done|].
  inversion Hs; subst. split; [done|]. by eexists.
Qed.

(** ** Properties *)

(** C28 (error): under every scheduling the program ends, and if the threads can
    be created it ends in no other way than by a store to the sixth element of
    the buffer of five; a failed creation ends it, if nothing else has, before
    the threads are complete. *)
Theorem prod_consumer_faults fails :
  sn (wstep fails) begin ∧
  ∀ f, reachable (wstep fails) begin f → nf (wstep fails) f →
    f = Fault ∨ fails = true ∧ ∃ s, f = Exited s ∧ main_at s < NCP + NCP.
Proof.
  split.
  - apply (sn_measure _ outcome_inv left_over); [|apply begin_inv].
    intros f f' Hi Hs. split; [by eapply wstep_inv|by eapply left_over_step].
  - intros [s|s|] Hr Hn; [| |by left].
    + destruct (wprogress fails s) as [f Hf]; [by apply outcome_reachable in Hr|].
      destruct Hn. by exists f.
    + right. by apply exited_incomplete in Hr.
Qed.

(** C35 (invariant): as long as there has been no fault, the two semaphores and
    the threads between [sem_wait] and [sem_post] account for six units, one
    more than the buffer has elements, since [buf_full] starts at 1 with an
    empty buffer; at most one thread is between lock and unlock; no
    consumer has ever stored or printed anything; and [main] has not got past its
    first join. *)
Theorem prod_consumer_safety fails s :
  reachable (wstep fails) begin (Going s) ∨ reachable (wstep fails) begin (Exited s) →
  buf_full s + buf_empty s + sum_list_with token (workers s) = BUF_LEN + 1 ∧
  (∀ j k v w, workers s !! j = Some v → workers s !! k = Some w →
     holds v = true → holds w = true → j = k) ∧
  Forall (λ '(Line r _ v), r = Produce ∧ 0 <= v < 5)%Z (output s) ∧
  main_at s <= NCP + NCP.
Proof.
  intros Hr. assert (Hi : shared_inv s) by (by destruct Hr as [Hr|Hr]; apply outcome_reachable in Hr).
  destruct Hi as [_ _ _ Hma Ht Hm _ Ho]. split_and!; try done.
  intros j k v w Hj Hk Hv Hw. apply (Hm j v Hj) in Hv. apply (Hm k w Hk) in Hw. congruence.
Qed.

(** [main] has created the first producer. *)
Definition one_step : shared :=
  Shared (replicate 5 0%Z) None 1 5 [Worker Produce 0 WWait 0] [] 1.

Lemma prod_consumer_safety_witness :
  buf_full one_step + buf_empty one_step + sum_list_with token (workers one_step) = 6 ∧
  (∀ j k v w, workers one_step !! j = Some v → workers one_step !! k = Some w →
     holds v = true → holds w = true → j = k) ∧
  Forall (λ '(Line r _ v), r = Produce ∧ 0 <= v < 5)%Z (output one_step) ∧
  main_at one_step <= NCP + NCP.
Proof.
  apply (prod_consumer_safety false one_step). left. apply rtc_once. apply (wstep_create _ _ _ _ _ []). cbn. lia.
Defined.
