(* ===== verification/Barrier.v ===== *)
(** * Six producers meeting before one consumer

    [src/mutex_sempaphores/sem_problem.c]: the producers count themselves under
    a mutex and wait on a condition variable, the sixth one posts a semaphore,
    and the consumer resets the count and wakes everybody ([bstep]).  [main]
    creates the producers one after the other while they run already, and then
    the consumer ([bprogram]); it stores the identifiers in an array of five.
    [producer_thread] waits without a loop: what holds without spurious wake-ups
    fails with them.  It goes on when [sem_post] fails, and [consumer_thread]
    returns when [sem_wait] fails: either stops the meetings for good. *)
From S2P Require Import Prelude Heap Threads.

(** ** The model *)

Definition N : nat := 6.

(** The statement a producer is about to execute. *)
Inductive ppc :=
  | BLock     (* pthread_mutex_lock *)
  | BInc      (* count++ and the printf of the count *)
  | BPost     (* if (count == 6), the printf and sem_post *)
  | BCall     (* the printf and the call of pthread_cond_wait *)
  | BWaiting  (* blocked in pthread_cond_wait *)
  | BWoken    (* woken, the mutex not yet taken again *)
  | BUnlock.  (* pthread_mutex_unlock *)

#[export] Instance ppc_eq_dec : EqDecision ppc.
Proof. solve_decision. Defined.

Inductive cpc :=
  | CNew        (* not created yet *)
  | CSem        (* sem_wait *)
  | CSay        (* the printf before pthread_mutex_lock *)
  | CLock       (* pthread_mutex_lock *)
  | CReset      (* the printfs around count = 0 *)
  | CBroadcast  (* pthread_cond_broadcast *)
  | CUnlock     (* pthread_mutex_unlock *)
  | CGone.      (* return(NULL) *)

(** The holder of the mutex. *)
Inductive owner := Producer (k : nat) | Consumer.

(** The lines that are printed; [k] is the producer that prints it, by the order
    of creation. *)
Inductive said :=
  | Count (k : nat) (n : Z)
  | SignallingConsumer
  | SignallingFailed
  | WaitingOnCond (k : nat)
  | WaitFailed
  | InConsumer
  | Reinit
  | SignallingCond.

#[export] Instance said_eq_dec : EqDecision said.
Proof. solve_decision. Defined.

Record meeting := Meeting {
  count : Z;
  mutex1 : option owner;
  c_sem : nat;
  producers : list ppc;
  consumer : cpc;
  log : list said;
}.

(** At the start of [main], after [sem_init]. *)
Definition opening : meeting := Meeting 0 None 0 [] CNew [].

(** [pthread_cond_broadcast]. *)
Definition wake (p : ppc) : ppc := match p with BWaiting => BWoken | _ => p end.

(** What the library may do: return from [pthread_cond_wait] with no broadcast,
    fail in [sem_post], fail in [sem_wait], fail in [pthread_create]. *)
Record hazards := Hazards {
  spurious : bool; post_fails : bool; wait_fails : bool; create_fails : bool
}.

Inductive bstep (hz : hazards) : meeting → meeting → Prop :=
  | bstep_lock k c s ps q o :
      ps !! k = Some BLock →
      bstep hz (Meeting c None s ps q o) (Meeting c (Some (Producer k)) s (<[k := BInc]> ps) q o)
  | bstep_inc k c s ps q o :
      ps !! k = Some BInc →
      bstep hz (Meeting c (Some (Producer k)) s ps q o)
        (Meeting (c + 1) (Some (Producer k)) s (<[k := BPost]> ps) q (o ++ [Count k (c + 1)]))
  | bstep_post k c s ps q o :
      ps !! k = Some BPost → c = 6%Z →
      bstep hz (Meeting c (Some (Producer k)) s ps q o)
        (Meeting c (Some (Producer k)) (S s) (<[k := BCall]> ps) q (o ++ [SignallingConsumer]))
  | bstep_post_fails k c s ps q o :
      post_fails hz = true → ps !! k = Some BPost → c = 6%Z →
      bstep hz (Meeting c (Some (Producer k)) s ps q o)
        (Meeting c (Some (Producer k)) s (<[k := BCall]> ps) q
           (o ++ [SignallingConsumer; SignallingFailed]))
  | bstep_no_post k c s ps q o :
      ps !! k = Some BPost → c ≠ 6%Z →
      bstep hz (Meeting c (Some (Producer k)) s ps q o)
        (Meeting c (Some (Producer k)) s (<[k := BCall]> ps) q o)
  | bstep_call k c s ps q o :
      ps !! k = Some BCall →
      bstep hz (Meeting c (Some (Producer k)) s ps q o)
        (Meeting c None s (<[k := BWaiting]> ps) q (o ++ [WaitingOnCond k]))
  | bstep_spurious k c l s ps q o :
      spurious hz = true → ps !! k = Some BWaiting →
      bstep hz (Meeting c l s ps q o) (Meeting c l s (<[k := BWoken]> ps) q o)
  | bstep_relock k c s ps q o :
      ps !! k = Some BWoken →
      bstep hz (Meeting c None s ps q o) (Meeting c (Some (Producer k)) s (<[k := BUnlock]> ps) q o)
  | bstep_unlock k c s ps q o :
      ps !! k = Some BUnlock →
      bstep hz (Meeting c (Some (Producer k)) s ps q o) (Meeting c None s (<[k := BLock]> ps) q o)
  | bstep_sem c l s ps o :
      bstep hz (Meeting c l (S s) ps CSem o) (Meeting c l s ps CSay o)
  | bstep_sem_fails c l s ps o :
      wait_fails hz = true →
      bstep hz (Meeting c l s ps CSem o) (Meeting c l s ps CGone (o ++ [WaitFailed]))
  | bstep_say c l s ps o :
      bstep hz (Meeting c l s ps CSay o) (Meeting c l s ps CLock (o ++ [InConsumer]))
  | bstep_clock c s ps o :
      bstep hz (Meeting c None s ps CLock o) (Meeting c (Some Consumer) s ps CReset o)
  | bstep_reset c s ps o :
      bstep hz (Meeting c (Some Consumer) s ps CReset o)
        (Meeting 0 (Some Consumer) s ps CBroadcast (o ++ [Reinit; SignallingCond]))
  | bstep_broadcast c s ps o :
      bstep hz (Meeting c (Some Consumer) s ps CBroadcast o)
        (Meeting c (Some Consumer) s (wake <$> ps) CUnlock o)
  | bstep_cunlock c s ps o :
      bstep hz (Meeting c (Some Consumer) s ps CUnlock o) (Meeting c None s ps CSem o).

(** A thread that has been created. *)
Definition add_producer (m : meeting) : meeting :=
  Meeting (count m) (mutex1 m) (c_sem m) (producers m ++ [BLock]) (consumer m) (log m).
Definition add_consumer (m : meeting) : meeting :=
  Meeting (count m) (mutex1 m) (c_sem m) (producers m) CSem (log m).

(** Where [main] is: at the creation of producer [i] (of the consumer, if [i] is
    [N]); at the join of the consumer; or past its defined behaviour. *)
Inductive maker := Making (i : nat) | Made | Undefined.

#[export] Instance maker_eq_dec : EqDecision maker.
Proof. solve_decision. Defined.

(** [main] and the threads it has created.  [slots] is the number of identifiers
    there is room for: five in the program, six if what lies behind the array
    may be overwritten. *)
Inductive bprogram (slots : nat) (hz : hazards) : maker * meeting → maker * meeting → Prop :=
  | bprogram_thread b m m' :
      b ≠ Undefined → bstep hz m m' → bprogram slots hz (b, m) (b, m')
  | bprogram_create i m :
      i < N → i < slots → bprogram slots hz (Making i, m) (Making (S i), add_producer m)
  | bprogram_overrun i m :
      i < N → slots ≤ i → bprogram slots hz (Making i, m) (Undefined, m)
  | bprogram_refused i m :
      create_fails hz = true → i < N → bprogram slots hz (Making i, m) (Making (S i), m)
  | bprogram_consumer m : bprogram slots hz (Making N, m) (Made, add_consumer m)
  | bprogram_no_consumer m :
      create_fails hz = true → bprogram slots hz (Making N, m) (Undefined, m).

(** *** [main] as a sequence of calls *)

(** What the thread library answers: to [sem_init], to each [pthread_create]
    (with the identifier it would store) and to [pthread_join]. *)
Record answers := Answers {
  sem_init : Z;
  pthread_create : nat → Z * Z;
  pthread_join : Z → Z;
}.

Inductive notice := InitFailed | ProducersFailed | ConsumerFailed | JoinFailed.

(** [if (-1 == r) { printf(...); ret_val = -1; }] *)
Definition checked (r : Z) (e : notice) (ret_val : Z) : prog (list notice) Z :=
  if (r =? -1)%Z then emit e;; mret (-1)%Z else mret ret_val.

(** The loops from [i], with [n] turns to go; an identifier is stored if the
    thread is created. *)
Fixpoint create_producers (a : answers) (n i : nat) (prod_thread : list (option Z)) (ret_val : Z) :
    prog (list notice) (list (option Z) * Z) :=
  match n with
  | O => mret (prod_thread, ret_val)
  | S n' =>
      let '(r, t) := pthread_create a i in
      prod_thread ← (if (r =? 0)%Z then lift (arr_set prod_thread (Z.of_nat i) (Some t))
                     else mret prod_thread);
      ret_val ← checked r ProducersFailed ret_val;
      create_producers a n' (S i) prod_thread ret_val
  end.

Fixpoint join_producers (a : answers) (n i : nat) (prod_thread : list (option Z)) (ret_val : Z) :
    prog (list notice) Z :=
  match n with
  | O => mret ret_val
  | S n' =>
      t ← lift (arr_get prod_thread (Z.of_nat i));
      t ← (match t with Some t => mret t | None => fail Uninit end);
      ret_val ← checked (pthread_join a t) JoinFailed ret_val;
      join_producers a n' (S i) prod_thread ret_val
  end.

Definition main (a : answers) : prog (list notice) Z :=
  ret_val ← checked (sem_init a) InitFailed 0%Z;
  '(prod_thread, ret_val) ← create_producers a N 0 (replicate 5 None) ret_val;
  let '(r, cons_thread) := pthread_create a N in
  ret_val ← checked r ConsumerFailed ret_val;
  cons_thread ← (if (r =? 0)%Z then mret cons_thread else fail Uninit);
  ret_val ← checked (pthread_join a cons_thread) JoinFailed ret_val;
  join_producers a N 0 prod_thread ret_val.

Lemma checked_returns r e v t : ∃ v' t', checked r e v t = Ok (v', t').
Proof. unfold checked. destruct (r =? -1)%Z; eauto. Qed.

Section main_lemmas.
Context (a : answers).

(** The creation of the sixth producer leaves the array, or the thread is not
    created and the array keeps its five elements. *)
Lemma create_producers_cases n : ∀ i l v t,
  create_producers a n i l v t = UB OutOfBounds ∨
  ∃ l' v' t', create_producers a n i l v t = Ok ((l', v'), t') ∧ length l' = length l.
Proof.
  induction n as [|n IH]; intros i l v t; [right; by eexists _, _, _|]. cbn [create_producers].
  destruct (pthread_create a i) as [r u].
  assert (Hl : (if (r =? 0)%Z then lift (arr_set l (Z.of_nat i) (Some u)) else mret l) t = UB OutOfBounds ∨
    ∃ l', (if (r =? 0)%Z then lift (arr_set l (Z.of_nat i) (Some u)) else mret l) t = Ok (l', t) ∧
      length l' = length l).
  { destruct (r =? 0)%Z; [|right; by exists l]. unfold lift, arr_set. destruct (_ || _); [by left|right].
    eexists. split; [done|]. apply length_insert. }
  destruct Hl as [Hl|(l' & Hl & Hlen)]; [left; unfold mbind, prog_bind; by rewrite Hl|].
  rewrite (run_bind _ _ _ _ _ Hl).
  destruct (checked_returns r ProducersFailed v t) as (v' & t' & Hc). rewrite (run_bind _ _ _ _ _ Hc).
  rewrite <- Hlen. apply IH.
Qed.

(** The joins read one element more than there are. *)
Lemma join_producers_undefined n : ∀ i l v t,
  length l < i + n → i <= length l →
  join_producers a n i l v t = UB OutOfBounds ∨ join_producers a n i l v t = UB Uninit.
Proof.
  induction n as [|n IH]; intros i l v t Hn Hi; [lia|]. cbn [join_producers].
  destruct (decide (i = length l)) as [->|Hne].
  { left. unfold mbind, prog_bind, lift. by rewrite arr_get_oob by lia. }
  destruct (lookup_lt_is_Some_2 l i) as [x Hx]; [lia|].
  assert (Hg : arr_get l (Z.of_nat i) = Ok x).
  { unfold arr_get. bdestr. by rewrite Nat2Z.id, Hx. }
  rewrite (run_bind _ _ _ _ _ (run_lift _ _ _ Hg)). destruct x as [x|]; [|by right].
  rewrite (run_bind _ _ t x t) by done.
  destruct (checked_returns (pthread_join a x) JoinFailed v t) as (v' & t' & Hc).
  rewrite (run_bind _ _ _ _ _ Hc). apply IH; lia.
Qed.

(** Whatever the library answers, [main] has no defined behaviour if the join
    of the consumer returns: it keeps six threads in an array of five. *)
Lemma main_undefined t : main a t = UB OutOfBounds ∨ main a t = UB Uninit.
Proof.
  unfold main. destruct (checked_returns (sem_init a) InitFailed 0 t) as (v & t1 & H1).
  rewrite (run_bind _ _ _ _ _ H1).
  destruct (create_producers_cases N 0 (replicate 5 None) v t1) as [H2|(l & v2 & t2 & H2 & Hl)].
  { left. unfold mbind, prog_bind. by rewrite H2. }
  rewrite (run_bind _ _ _ _ _ H2). destruct (pthread_create a N) as [r u].
  destruct (checked_returns r ConsumerFailed v2 t2) as (v3 & t3 & H3). rewrite (run_bind _ _ _ _ _ H3).
  destruct (r =? 0)%Z; [|by right]. rewrite (run_bind _ _ t3 u t3) by done.
  destruct (checked_returns (pthread_join a u) JoinFailed v3 t3) as (v4 & t4 & H4).
  rewrite (run_bind _ _ _ _ _ H4). rewrite length_replicate in Hl.
  apply join_producers_undefined; rewrite Hl; unfold N; lia.
Qed.
End main_lemmas.

(** When all the threads are created the sixth identifier is stored past the
    array. *)
Lemma main_overflow a t : (∀ i, (pthread_create a i).1 = 0%Z) → main a t = UB OutOfBounds.
Proof.
  intros Ha. unfold main. destruct (checked_returns (sem_init a) InitFailed 0 t) as (v & t1 & H1).
  rewrite (run_bind _ _ _ _ _ H1). clear H1.
  assert (H : create_producers a N 0 (replicate 5 None) v t1 = UB OutOfBounds);
    [|unfold mbind, prog_bind; by rewrite H].
  unfold N. do 6 (cbn [create_producers]; match goal with |- context [pthread_create a ?i] =>
    let r := fresh in let u := fresh in pose proof (Ha i) as r; destruct (pthread_create a i) as [? u];
    cbn in r; subst end; cbv beta iota; reflexivity ||
    (erewrite run_bind by (unfold lift; cbn; reflexivity); erewrite run_bind by reflexivity)).
Qed.

(** ** What is printed at a meeting *)

(** The lines of producer [k], the [n]-th to be counted, and of several in
    their order. *)
Definition signal (n : nat) : list said := if decide (n = N) then [SignallingConsumer] else [].
Definition said_by (k n : nat) : list said :=
  Count k (Z.of_nat n) :: signal n ++ [WaitingOnCond k].
Definition turns (ks : list nat) : list said := concat (imap (λ i k, said_by k (S i)) ks).

(** The lines of the sixth producer after the signal, and that of the consumer,
    which holds no mutex and may be [early]. *)
Definition crossing (k : nat) (early : bool) : list said :=
  if early then [InConsumer; WaitingOnCond k] else [WaitingOnCond k; InConsumer].

(** A whole meeting. *)
Record held := Held { firsts : list nat; sixth : nat; early : bool }.

Definition held_lines (h : held) : list said :=
  turns (firsts h) ++ [Count (sixth h) 6; SignallingConsumer] ++ crossing (sixth h) (early h) ++
  [Reinit; SignallingCond].

(** All six take part. *)
Definition held_ok (h : held) : Prop := firsts h ++ [sixth h] ≡ₚ seq 0 N.

Definition meetings_lines (hs : list held) : list said := concat (held_lines <$> hs).

(** The lines of a meeting that is not over: the producers [ks] have been
    counted in this order, [p] of them is at the post, [q] at the post or at the
    call, and the consumer has printed that it is there, or not. *)
Inductive minutes : list nat → nat → nat → bool → list said → Prop :=
  | minutes_rest ks : minutes ks 0 0 false (turns ks)
  | minutes_counted ks k :
      minutes (ks ++ [k]) 1 1 false (turns ks ++ [Count k (Z.of_nat (S (length ks)))])
  | minutes_posted ks k :
      minutes (ks ++ [k]) 0 1 false
        (turns ks ++ Count k (Z.of_nat (S (length ks))) :: signal (S (length ks)))
  | minutes_entered ks k :
      length ks = 5 →
      minutes (ks ++ [k]) 0 1 true (turns ks ++ [Count k 6; SignallingConsumer; InConsumer])
  | minutes_crossed ks k e :
      length ks = 5 →
      minutes (ks ++ [k]) 0 0 true (turns ks ++ [Count k 6; SignallingConsumer] ++ crossing k e).

Lemma turns_snoc ks k : turns (ks ++ [k]) = turns ks ++ said_by k (S (length ks)).
Proof.
  unfold turns. rewrite imap_app, concat_app. cbn. by rewrite app_nil_r, Nat.add_0_r.
Qed.

Lemma signal_none n : n ≠ N → signal n = [].
Proof. intros H. unfold signal. by rewrite decide_False. Qed.

Lemma signal_six : signal 6 = [SignallingConsumer].
Proof. done. Qed.

Lemma minutes_inc ks k l :
  minutes ks 0 0 false l →
  minutes (ks ++ [k]) 1 1 false (l ++ [Count k (Z.of_nat (S (length ks)))]).
Proof. inversion 1; subst. apply minutes_counted. Qed.

Lemma minutes_post ks b l :
  minutes ks 1 1 b l → minutes ks 0 1 b (l ++ signal (length ks)).
Proof.
  inversion 1; subst. rewrite <- app_assoc, length_app, Nat.add_1_r. apply minutes_posted.
Qed.

Lemma minutes_call ks k b l :
  minutes ks 0 1 b l → last ks = Some k → minutes ks 0 0 b (l ++ [WaitingOnCond k]).
Proof.
  inversion 1; subst; rewrite last_snoc; intros [= ->].
  - pose proof (minutes_rest (ks0 ++ [k])) as Hm. rewrite turns_snoc in Hm.
    unfold said_by in Hm. by rewrite <- app_assoc.
  - rewrite <- app_assoc. by apply (minutes_crossed ks0 k true).
Qed.

Lemma minutes_say ks q l :
  minutes ks 0 q false l → length ks = N → minutes ks 0 q true (l ++ [InConsumer]).
Proof.
  intros Hm Hl. inversion Hm; subst.
  - destruct ks as [|k ks _] using rev_ind; [done|]. rewrite length_app, Nat.add_1_r in Hl.
    injection Hl as Hl. rewrite turns_snoc, Hl, <- app_assoc. by apply (minutes_crossed ks k false).
  - rewrite length_app, Nat.add_1_r in Hl. injection Hl as Hl. rewrite Hl, <- app_assoc.
    by apply minutes_entered.
Qed.

Lemma minutes_over ks l :
  minutes ks 0 0 true l →
  ∃ h, firsts h ++ [sixth h] = ks ∧ l ++ [Reinit; SignallingCond] = held_lines h.
Proof.
  inversion 1; subst. exists (Held ks0 k e). split; [done|]. unfold held_lines. by lnorm.
Qed.

(** Different producers, none of them a seventh. *)
Definition attending (ks : list nat) : Prop := NoDup ks ∧ ∀ k, k ∈ ks → k < N.

(** The others can still come. *)
Lemma attending_extend ks : attending ks → ∃ rest, ks ++ rest ≡ₚ seq 0 N.
Proof.
  intros [Hnd Hlt]. exists (filter (λ k, k ∉ ks) (seq 0 N)).
  apply NoDup_Permutation.
  - apply NoDup_app. split_and!; [done| |apply NoDup_filter, NoDup_seq].
    intros k Hk [? _]%list_elem_of_filter. done.
  - apply NoDup_seq.
  - intros k. rewrite elem_of_app, list_elem_of_filter, elem_of_seq. split.
    + intros [Hk%Hlt|[_ ?]]; lia.
    + intros Hk. destruct (decide (k ∈ ks)); [by left|right]. split; [done|lia].
Qed.

Lemma attending_six ks : attending ks → length ks = N → ks ≡ₚ seq 0 N.
Proof.
  intros Ha Hl. destruct (attending_extend ks Ha) as [rest Hr].
  pose proof (Permutation_length Hr) as Hlen. rewrite length_app, Hl, length_seq in Hlen.
  destruct rest as [|x rest]; [by rewrite app_nil_r in Hr|cbn [length] in Hlen; lia].
Qed.

(** A meeting of all six starts with the turns of those who have been counted. *)
Lemma turns_prefix ks :
  attending ks → ∃ h, held_ok h ∧ turns ks `prefix_of` held_lines h.
Proof.
  intros Ha. destruct (attending_extend ks Ha) as [rest Hr].
  pose proof (Permutation_length Hr) as Hlen. rewrite length_app, length_seq in Hlen.
  destruct rest as [|x rest _] using rev_ind.
  - destruct ks as [|k ks _] using rev_ind; [done|]. rewrite app_nil_r in Hr.
    rewrite length_app in Hlen. cbn [length] in Hlen. unfold N in Hlen.
    exists (Held ks k false). split; [done|]. rewrite turns_snoc.
    replace (S (length ks)) with 6 by lia. unfold held_lines. apply prefix_app.
    exists [InConsumer; Reinit; SignallingCond]. done.
  - exists (Held (ks ++ rest) x false). split; [unfold held_ok; cbn [firsts sixth]; by rewrite <- app_assoc|].
    unfold held_lines, turns. cbn [firsts]. rewrite imap_app, concat_app, <- app_assoc.
    by eexists.
Qed.

Lemma minutes_prefix ks p q b l :
  minutes ks p q b l → attending ks → ∃ h, held_ok h ∧ l `prefix_of` held_lines h.
Proof.
  assert (Ht : ∀ l', attending ks → l' `prefix_of` turns ks →
    ∃ h, held_ok h ∧ l' `prefix_of` held_lines h).
  { intros l' Ha Hl'. destruct (turns_prefix ks Ha) as (h & Hh & Hp). exists h.
    split; [done|by etrans]. }
  intros Hm Ha. destruct Hm as [ks|ks k|ks k|ks k Hl|ks k e Hl].
  - by apply Ht.
  - apply Ht; [done|]. rewrite turns_snoc. apply prefix_app. by eexists.
  - apply Ht; [done|]. rewrite turns_snoc. apply prefix_app. by eexists.
  - exists (Held ks k true). split; [apply attending_six; [done|]|].
    + rewrite length_app. cbn [length firsts sixth]. unfold N. lia.
    + unfold held_lines. apply prefix_app. by eexists.
  - exists (Held ks k e). split; [apply attending_six; [done|]|].
    + rewrite length_app. cbn [length firsts sixth]. unfold N. lia.
    + unfold held_lines. do 2 apply prefix_app. by eexists.
Qed.

(** Before the sixth producer is there, only counts and waits are printed. *)
Definition producer_line (x : said) : Prop :=
  match x with Count _ _ | WaitingOnCond _ => True | _ => False end.

Lemma turns_producers ks : length ks < N → Forall producer_line (turns ks).
Proof.
  induction ks as [|k ks IH] using rev_ind; intros Hl; [constructor|].
  rewrite length_app in Hl. cbn [length] in Hl.
  rewrite turns_snoc. apply Forall_app. split; [apply IH; lia|].
  unfold said_by. rewrite signal_none by lia. by repeat constructor.
Qed.

Lemma minutes_producers ks p q b l :
  minutes ks p q b l → length ks < N → Forall producer_line l.
Proof.
  intros Hm Hl. destruct Hm as [ks|ks k|ks k|ks k H5|ks k e H5];
    try rewrite length_app in Hl; cbn [length] in Hl; [by apply turns_producers|..];
    try (exfalso; unfold N in Hl; lia);
    (apply Forall_app; split; [apply turns_producers; lia|]).
  - by repeat constructor.
  - rewrite signal_none by lia. by repeat constructor.
Qed.

(** ** The invariant *)

(** Between lock and unlock; counted; at the post. *)
Definition binside (p : ppc) : bool :=
  match p with BInc | BPost | BCall | BUnlock => true | _ => false end.
Definition cinside (q : cpc) : bool :=
  match q with CReset | CBroadcast | CUnlock => true | _ => false end.
Definition counted (p : ppc) : nat := match p with BPost | BCall | BWaiting => 1 | _ => 0 end.
Definition posting (p : ppc) : nat := match p with BPost => 1 | _ => 0 end.
Definition speaking (p : ppc) : nat := match p with BPost | BCall => 1 | _ => 0 end.
Definition pending (q : cpc) : nat := match q with CSay | CLock | CReset => 1 | _ => 0 end.

(** The consumer has printed that it is there. *)
Definition entered (q : cpc) : bool := match q with CLock | CReset => true | _ => false end.

Record binv (m : meeting) : Prop := {
  inv_len : length (producers m) ≤ N;
  inv_there : consumer m ≠ CGone;
  inv_phase : match consumer m with
    | CBroadcast => count m = 0%Z ∧ producers m = replicate N BWaiting
    | _ => count m = Z.of_nat (sum_list_with counted (producers m)) end;
  inv_sem : c_sem m + pending (consumer m) =
    if decide (count m = 6%Z ∧ sum_list_with posting (producers m) = 0) then 1 else 0;
  inv_inside k p : producers m !! k = Some p → binside p = true ↔ mutex1 m = Some (Producer k);
  inv_consumer : cinside (consumer m) = true ↔ mutex1 m = Some Consumer;
  inv_owner k : mutex1 m = Some (Producer k) → k < length (producers m);
}.

Lemma opening_inv : binv opening.
Proof. split; try done. cbn. unfold N. lia. Qed.

Lemma counted_bound ps : sum_list_with counted ps ≤ length ps.
Proof. induction ps as [|p ps IH]; [done|]. simpl. destruct p; simpl; lia. Qed.

(** Everybody is counted only if everybody is past the increment. *)
Lemma counted_all ps : sum_list_with counted ps = length ps → Forall (λ p, counted p = 1) ps.
Proof.
  induction ps as [|p ps IH]; intros H; constructor; simpl in H; pose proof (counted_bound ps);
    [destruct p; simpl in *; lia|]. apply IH. destruct p; simpl in *; lia.
Qed.

Lemma posting_inside q : binside q = false → posting q = 0.
Proof. by destruct q. Qed.
Lemma speaking_inside q : binside q = false → speaking q = 0.
Proof. by destruct q. Qed.

Section invariant.
Context (m : meeting) (Hi : binv m).

(** The counts of threads at the post and at the call. *)
Lemma sums_held k p :
  mutex1 m = Some (Producer k) → producers m !! k = Some p →
  sum_list_with posting (producers m) = posting p ∧
  sum_list_with speaking (producers m) = speaking p.
Proof.
  intros Hm Hk. assert (H : ∀ j q, producers m !! j = Some q → binside q = true → j = k).
  { intros j q Hj Hq. apply (inv_inside m Hi j q Hj) in Hq. congruence. }
  split; (eapply (sum_inside binside); [|exact Hk|exact H]).
  - apply posting_inside.
  - apply speaking_inside.
Qed.

Lemma sums_free :
  (∀ k, mutex1 m ≠ Some (Producer k)) →
  sum_list_with posting (producers m) = 0 ∧ sum_list_with speaking (producers m) = 0.
Proof.
  intros Hm. assert (H : ∀ j q, producers m !! j = Some q → binside q = false).
  { intros j q Hj. destruct (binside q) eqn:E; [|done].
    apply (inv_inside m Hi j q Hj) in E. by destruct (Hm j). }
  split; apply (sum_outside binside); try done; [apply posting_inside|apply speaking_inside].
Qed.

(** All have been counted and none is inside: all wait. *)
Lemma all_waiting :
  (∀ k, mutex1 m ≠ Some (Producer k)) → sum_list_with counted (producers m) = N →
  producers m = replicate N BWaiting.
Proof.
  intros Hm Hs. pose proof (counted_bound (producers m)) as Hb. pose proof (inv_len m Hi) as Hlen.
  assert (Hl : length (producers m) = N) by lia.
  rewrite <- Hl in Hs. apply counted_all in Hs. rewrite <- Hl. symmetry.
  apply replicate_as_elem_of. split; [done|]. intros p [k Hk]%list_elem_of_lookup_1.
  pose proof (Forall_lookup_1 _ _ _ _ Hs Hk) as Hc.
  assert (Hp : binside p = false).
  { destruct (binside p) eqn:E; [|done]. apply (inv_inside m Hi k p Hk) in E. by destruct (Hm k). }
  by destruct p.
Qed.

(** The one the consumer has been signalled by: six are counted, none is at the
    post. *)
Lemma signalled :
  0 < c_sem m + pending (consumer m) →
  count m = 6%Z ∧ sum_list_with posting (producers m) = 0 ∧ sum_list_with counted (producers m) = N.
Proof.
  intros Hp. pose proof (inv_sem m Hi) as Hs. destruct (decide _) as [[Hc Hz]|]; [|lia].
  split_and!; [done..|]. pose proof (inv_phase m Hi) as Hph.
  destruct (consumer m); unfold N; lia || (destruct Hph; lia).
Qed.
End invariant.

(** ** One producer moves *)

(** The mutex is free or with producer [k]. *)
Definition free_or (k : nat) (l : option owner) : Prop := l = None ∨ l = Some (Producer k).

Lemma binv_at c l s ps q o k p :
  binv (Meeting c l s ps q o) → ps !! k = Some p → free_or k l →
  q ≠ CBroadcast ∧ c = Z.of_nat (sum_list_with counted ps) ∧
  sum_list_with posting ps = posting p ∧ sum_list_with speaking ps = speaking p ∧
  s + pending q = (if decide (c = 6%Z ∧ posting p = 0) then 1 else 0) ∧
  (∀ j r, ps !! j = Some r → j ≠ k → speaking r = 0).
Proof.
  intros Hi Hk Hl. pose proof Hi as [_ _ Hp Hs Hin Hc _]. cbn in *.
  assert (Hq : q ≠ CBroadcast).
  { intros ->. pose proof (proj1 Hc eq_refl) as E. destruct Hl; congruence. }
  assert (Hsum : sum_list_with posting ps = posting p ∧ sum_list_with speaking ps = speaking p).
  { destruct Hl as [->| ->].
    - destruct (sums_free _ Hi) as [E1 E2]; [done|]. cbn in E1, E2. rewrite E1, E2.
      assert (Hb : binside p = false).
      { destruct (binside p) eqn:E; [|done]. by apply (Hin k p Hk) in E. }
      by rewrite posting_inside, speaking_inside.
    - by apply (sums_held _ Hi k p). }
  destruct Hsum as [H1 H2]. rewrite H1, H2 in *. split_and!; try done; [by destruct q|].
  intros j r Hj Hjk. apply speaking_inside. destruct (binside r) eqn:E; [|done].
  apply (Hin j r Hj) in E. destruct Hl as [->| ->]; naive_solver.
Qed.

Lemma binv_move c c' l l' s s' ps q o o' k p p' :
  binv (Meeting c l s ps q o) → ps !! k = Some p → free_or k l → free_or k l' →
  (binside p' = true ↔ l' = Some (Producer k)) →
  (c' + Z.of_nat (counted p) = c + Z.of_nat (counted p'))%Z →
  s' + pending q = (if decide (c' = 6%Z ∧ posting p' = 0) then 1 else 0) →
  binv (Meeting c' l' s' (<[k := p']> ps) q o').
Proof.
  intros Hi Hk Hl Hl' Hin' Hc Hs. destruct (binv_at _ _ _ _ _ _ _ _ Hi Hk Hl)
    as (Hq & Hc0 & Hpo & Hsp & _). pose proof Hi as [Hlen Hth _ _ Hin Hcon _]. cbn in *.
  pose proof (sum_move counted ps k p p' Hk). pose proof (sum_move posting ps k p p' Hk).
  assert (E1 : sum_list_with posting (<[k := p']> ps) = posting p') by lia.
  split; cbn [count mutex1 c_sem producers consumer log]; rewrite ?E1, ?length_insert; try done.
  - destruct q; try done; lia.
  - intros j r Hj. destruct (decide (j = k)) as [->|Hjk].
    + rewrite list_lookup_insert_eq in Hj by (by eapply lookup_lt_Some). by injection Hj as <-.
    + rewrite list_lookup_insert_ne in Hj by done. rewrite (Hin j r Hj).
      destruct Hl as [->| ->], Hl' as [->| ->]; naive_solver.
  - rewrite Hcon. destruct Hl as [->| ->], Hl' as [->| ->]; done.
  - intros j Hj. destruct Hl' as [->| ->]; [done|]. injection Hj as <-. by eapply lookup_lt_Some.
Qed.

(** A producer that is not counted leaves room for one more. *)
Lemma count_room ps k p : ps !! k = Some p → counted p = 0 → sum_list_with counted ps < length ps.
Proof.
  intros Hk Hp. pose proof (sum_move counted ps k p BWaiting Hk).
  pose proof (counted_bound (<[k := BWaiting]> ps)) as Hb. rewrite length_insert in Hb.
  cbn in *. lia.
Qed.

(** The library keeps its word; threads may be refused. *)
Definition no_hazards (refuse : bool) : hazards := Hazards false false false refuse.

Lemma binv_step refuse m m' : binv m → bstep (no_hazards refuse) m m' → binv m'.
Proof.
  intros Hi Hs. destruct Hs as [k c s ps q o Hk|k c s ps q o Hk|k c s ps q o Hk Hc
    |k c s ps q o Hpf _ _|k c s ps q o Hk Hc|k c s ps q o Hk|k c l s ps q o Hsp _|k c s ps q o Hk
    |k c s ps q o Hk|c l s ps o|c l s ps o Hwf|c l s ps o|c s ps o
    |c s ps o|c s ps o|c s ps o]; try done.
  1-7: destruct (binv_at _ _ _ _ _ _ _ _ Hi Hk) as (Hq & Hcs & Hpo & Hsp & Hsem & _);
    [first [by left|by right]|]; pose proof (inv_len _ Hi) as Hlen; cbn in Hlen, Hsem;
    pose proof (counted_bound ps) as Hb.
  - eapply binv_move; [exact Hi|exact Hk|by left|by right|done..].
  - pose proof (count_room _ _ _ Hk eq_refl) as Hroom. unfold N in *.
    eapply binv_move; [exact Hi|exact Hk|by right|by right|done|cbn; lia|].
    cbn. rewrite decide_False by lia. rewrite decide_False in Hsem by lia. done.
  - subst c. eapply binv_move; [exact Hi|exact Hk|by right|by right|done|done|].
    rewrite decide_False in Hsem by lia. rewrite decide_True by done. lia.
  - eapply binv_move; [exact Hi|exact Hk|by right|by right|done|done|].
    cbn in *. rewrite decide_False in Hsem by lia. by rewrite decide_False by naive_solver.
  - eapply binv_move; [exact Hi|exact Hk|by right|by left|done..].
  - eapply binv_move; [exact Hi|exact Hk|by left|by right|done..].
  - eapply binv_move; [exact Hi|exact Hk|by right|by left|done..].
  - pose proof Hi as [Hlen Hth Hp Hs Hin Hcon How]. cbn in *. split; cbn; try done. rewrite <- Hs. lia.
  - pose proof Hi as [Hlen Hth Hp Hs Hin Hcon How]. cbn in *. by split.
  - pose proof Hi as [Hlen Hth Hp Hs Hin Hcon How]. cbn in *. split; cbn; try done.
    intros k p Hk. rewrite (Hin k p Hk). done.
  - destruct (signalled _ Hi) as (Hc & Hz & Hall); [cbn; lia|]. cbn in Hc, Hz, Hall.
    pose proof Hi as [Hlen Hth Hp Hs Hin Hcon How]. cbn in *.
    split; cbn; try done.
    + split; [done|]. by apply (all_waiting _ Hi).
    + rewrite decide_True in Hs by done. rewrite decide_False by lia. lia.
  - pose proof Hi as [Hlen Hth [Hc Hall] Hs Hin Hcon How]. cbn in *. subst c ps.
    split; try done. intros k p Hk. change (replicate N BWoken !! k = Some p) in Hk.
    by apply lookup_replicate in Hk as [-> _].
  - pose proof Hi as [Hlen Hth Hp Hs Hin Hcon How]. cbn in *. split; cbn; try done.
    intros k p Hk. rewrite (Hin k p Hk). done.
Qed.

(** ** The output *)

(** The meetings [hs] are over; in the present one the producers [ks] have been
    counted, and [now] has been printed. *)
Record linv (m : meeting) (hs : list held) (ks : list nat) (now : list said) : Prop := {
  log_held : Forall held_ok hs;
  log_full : hs ≠ [] → length (producers m) = N;
  log_lines : log m = meetings_lines hs ++ now;
  log_now : minutes ks (sum_list_with posting (producers m)) (sum_list_with speaking (producers m))
    (entered (consumer m)) now;
  log_nodup : NoDup ks;
  log_count : length ks = Z.to_nat (count m);
  log_there k : k ∈ ks → k < length (producers m);
  log_counted : consumer m ≠ CBroadcast → ∀ k p, producers m !! k = Some p →
    (k ∈ ks ↔ counted p = 1) ∧ (speaking p = 1 → last ks = Some k);
}.

Lemma opening_linv : linv opening [] [] [].
Proof. split; try done; [constructor..|]. intros k Hk. by apply not_elem_of_nil in Hk. Qed.

Lemma linv_attending m hs ks now : binv m → linv m hs ks now → attending ks.
Proof.
  intros Hi Hl. split; [apply (log_nodup _ _ _ _ Hl)|]. intros k Hk.
  pose proof (log_there _ _ _ _ Hl k Hk). pose proof (inv_len m Hi). lia.
Qed.

(** One producer moves: what it prints, and whether it is counted. *)
Lemma linv_move c c' l l' s s' ps q o k p p' hs ks ks' now new :
  binv (Meeting c l s ps q o) → linv (Meeting c l s ps q o) hs ks now →
  ps !! k = Some p → free_or k l →
  minutes ks' (posting p') (speaking p') (entered q) (now ++ new) →
  ks' = ks ∧ counted p' = counted p ∨ ks' = ks ++ [k] ∧ counted p = 0 ∧ counted p' = 1 →
  length ks' = Z.to_nat c' → (speaking p' = 1 → last ks' = Some k) →
  linv (Meeting c' l' s' (<[k := p']> ps) q (o ++ new)) hs ks' (now ++ new).
Proof.
  intros Hi [Hh Hf Ho Hm Hnd Hc Ht Hr] Hk Hl Hm' Hks Hlen Hlast.
  destruct (binv_at _ _ _ _ _ _ _ _ Hi Hk Hl) as (Hq & _ & Hpo & Hsp & _ & Hother). cbn in *.
  pose proof (sum_move posting ps k p p' Hk). pose proof (sum_move speaking ps k p p' Hk).
  specialize (Hr Hq). destruct (Hr k p Hk) as [Hkin _].
  assert (Hnk : counted p = 0 → k ∉ ks) by (intros Hz Hin%Hkin; lia).
  split; cbn; rewrite ?length_insert; try done.
  - by rewrite Ho, <- app_assoc.
  - by replace (sum_list_with posting _) with (posting p') by lia;
      replace (sum_list_with speaking _) with (speaking p') by lia.
  - destruct Hks as [[-> _]|(-> & Hz & _)]; [done|]. apply NoDup_app. split_and!; [done| |apply NoDup_singleton].
    intros x Hx ->%list_elem_of_singleton. by apply Hnk.
  - intros x Hx. destruct Hks as [[-> _]|(-> & _)]; [by apply Ht|].
    apply elem_of_app in Hx as [Hx| ->%list_elem_of_singleton]; [by apply Ht|by eapply lookup_lt_Some].
  - intros _ j r Hj. destruct (decide (j = k)) as [->|Hjk].
    + rewrite list_lookup_insert_eq in Hj by (by eapply lookup_lt_Some). injection Hj as <-.
      split; [|done]. destruct Hks as [[-> ->]|(-> & _ & ->)]; [done|]. split; [done|]. set_solver.
    + rewrite list_lookup_insert_ne in Hj by done. destruct (Hr j r Hj) as [Hjin _].
      rewrite (Hother j r Hj Hjk). split; [|done]. rewrite <- Hjin.
      destruct Hks as [[-> _]|(-> & _)]; [done|]. rewrite elem_of_app, list_elem_of_singleton. naive_solver.
Qed.

(** Nothing is printed and nobody counted. *)
Lemma linv_quiet c l l' s s' ps q o k p p' hs ks now :
  binv (Meeting c l s ps q o) → linv (Meeting c l s ps q o) hs ks now →
  ps !! k = Some p → free_or k l → posting p' = posting p → speaking p = 0 → speaking p' = 0 →
  counted p' = counted p → linv (Meeting c l' s' (<[k := p']> ps) q o) hs ks now.
Proof.
  intros Hi Hl Hk Hf Hp Hs Hs' Hc.
  destruct (binv_at _ _ _ _ _ _ _ _ Hi Hk Hf) as (_ & _ & Hpo & Hsp & _).
  pose proof (log_now _ _ _ _ Hl) as Hm. pose proof (log_count _ _ _ _ Hl) as Hlen. cbn in *.
  rewrite <- (app_nil_r o), <- (app_nil_r now).
  eapply linv_move; [exact Hi|exact Hl|exact Hk|exact Hf| |by left|done|lia].
  by rewrite app_nil_r, Hs', Hp, <- Hpo, <- Hs, <- Hsp.
Qed.

(** The meeting is over: the consumer starts the count again. *)
Lemma linv_reset c s ps o hs ks now :
  binv (Meeting c (Some Consumer) s ps CReset o) →
  linv (Meeting c (Some Consumer) s ps CReset o) hs ks now →
  ∃ hs' ks' now',
    linv (Meeting 0 (Some Consumer) s ps CBroadcast (o ++ [Reinit; SignallingCond])) hs' ks' now'.
Proof.
  intros Hi Hl.
  destruct (signalled _ Hi) as (Hc & Hz & Hall); [cbn; lia|]. cbn in Hc, Hz, Hall.
  destruct (sums_free _ Hi) as [Hpo Hsp]; [done|]. cbn in Hpo, Hsp.
  pose proof (linv_attending _ _ _ _ Hi Hl) as Ha.
  pose proof (all_waiting _ Hi ltac:(done) Hall) as Hw. cbn in Hw.
  destruct Hl as [Hh Hf Ho Hm Hnd Hlen Ht Hr]. cbn in *. rewrite Hpo, Hsp in *.
  destruct (minutes_over ks now Hm) as (h & Hks & Hh').
  exists (hs ++ [h]), [], []. split; cbn; try done.
  - apply Forall_app. split; [done|]. constructor; [|done]. unfold held_ok. rewrite Hks.
    apply attending_six; [done|]. by rewrite Hlen, Hc.
  - intros _. by rewrite Hw.
  - unfold meetings_lines. rewrite fmap_app, concat_app. cbn. by rewrite !app_nil_r, Ho, <- Hh', app_assoc.
  - rewrite Hpo, Hsp. apply minutes_rest.
  - constructor.
  - intros k Hk. by apply not_elem_of_nil in Hk.
Qed.

(** All are woken, and none is counted. *)
Lemma linv_broadcast c s ps o hs ks now :
  binv (Meeting c (Some Consumer) s ps CBroadcast o) →
  linv (Meeting c (Some Consumer) s ps CBroadcast o) hs ks now →
  ∃ hs' ks' now', linv (Meeting c (Some Consumer) s (wake <$> ps) CUnlock o) hs' ks' now'.
Proof.
  intros Hi Hl.
  destruct (inv_phase _ Hi) as [Hc Hw]. cbn in Hc, Hw.
  destruct Hl as [Hh Hf Ho Hm Hnd Hlen Ht Hr]. cbn in *. subst c ps.
  apply length_zero_iff_nil in Hlen as ->.
  exists hs, [], now. split; cbn; try done. intros _ k p Hk.
  change (replicate N BWoken !! k = Some p) in Hk. apply lookup_replicate in Hk as [-> _].
  split; [|done]. split; [by intros ?%not_elem_of_nil|done].
Qed.

Lemma linv_step refuse m m' hs ks now :
  binv m → linv m hs ks now → bstep (no_hazards refuse) m m' →
  ∃ hs' ks' now', linv m' hs' ks' now'.
Proof.
  intros Hi Hl Hs. destruct Hs as [k c s ps q o Hk|k c s ps q o Hk|k c s ps q o Hk Hc
    |k c s ps q o Hpf _ _|k c s ps q o Hk Hc|k c s ps q o Hk|k c l s ps q o Hsp _|k c s ps q o Hk
    |k c s ps q o Hk|c l s ps o|c l s ps o Hwf|c l s ps o|c s ps o
    |c s ps o|c s ps o|c s ps o]; try done.
  1-7: destruct (binv_at _ _ _ _ _ _ _ _ Hi Hk) as (Hq & Hcs & Hpo & Hsp & Hsem & _);
    [first [by left|by right]|];
    pose proof (log_now _ _ _ _ Hl) as Hm; pose proof (log_count _ _ _ _ Hl) as Hlen;
    cbn in Hm, Hlen, Hsem; rewrite Hpo, Hsp in Hm; cbn in Hm.
  - exists hs, ks, now. eapply linv_quiet; [exact Hi|exact Hl|exact Hk|by left|done..].
  - assert (He : entered q = false).
    { pose proof (count_room _ _ _ Hk eq_refl). pose proof (inv_len _ Hi). unfold N in *. cbn in *.
      rewrite decide_False in Hsem by lia. destruct q; cbn in *; done || lia. }
    exists hs, (ks ++ [k]), (now ++ [Count k (c + 1)]).
    eapply linv_move; [exact Hi|exact Hl|exact Hk|by right| |by right|len|by rewrite last_snoc].
    rewrite He in *. replace (c + 1)%Z with (Z.of_nat (S (length ks))) by lia. by apply minutes_inc.
  - exists hs, ks, (now ++ [SignallingConsumer]).
    eapply linv_move; [exact Hi|exact Hl|exact Hk|by right| |by left|done|].
    + subst c. apply minutes_post in Hm. by rewrite Hlen in Hm.
    + intros _. by apply (log_counted _ _ _ _ Hl Hq k BPost).
  - exists hs, ks, (now ++ []). rewrite <- (app_nil_r o).
    eapply linv_move; [exact Hi|exact Hl|exact Hk|by right| |by left|done|].
    + apply minutes_post in Hm. rewrite signal_none in Hm by (rewrite Hlen; unfold N; lia). done.
    + intros _. by apply (log_counted _ _ _ _ Hl Hq k BPost).
  - exists hs, ks, (now ++ [WaitingOnCond k]).
    eapply linv_move; [exact Hi|exact Hl|exact Hk|by right| |by left|done|done].
    apply minutes_call; [done|]. by apply (log_counted _ _ _ _ Hl Hq k BCall).
  - exists hs, ks, now. eapply linv_quiet; [exact Hi|exact Hl|exact Hk|by left|done..].
  - exists hs, ks, now. eapply linv_quiet; [exact Hi|exact Hl|exact Hk|by right|done..].
  - exists hs, ks, now. destruct Hl as [Hh Hf Ho Hm Hnd Hlen Ht Hr]. split; try done. intros _. by apply Hr.
  - destruct (signalled _ Hi) as (Hc & Hz & _); [cbn; lia|]. cbn in Hc, Hz.
    exists hs, ks, (now ++ [InConsumer]). destruct Hl as [Hh Hf Ho Hm Hnd Hlen Ht Hr]. cbn in *.
    split; cbn; try done; [by rewrite Ho, app_assoc| |intros _; by apply Hr]. rewrite Hz in *.
    apply minutes_say; [done|]. by rewrite Hlen, Hc.
  - exists hs, ks, now. destruct Hl as [Hh Hf Ho Hm Hnd Hlen Ht Hr]. split; try done. intros _. by apply Hr.
  - by eapply linv_reset.
  - by eapply linv_broadcast.
  - exists hs, ks, now. destruct Hl as [Hh Hf Ho Hm Hnd Hlen Ht Hr]. split; try done.
    intros _. by apply Hr.
Qed.

(** ** The program *)

Lemma bstep_frame hz m m' :
  bstep hz m m' →
  length (producers m') = length (producers m) ∧ (consumer m' = CNew ↔ consumer m = CNew).
Proof. destruct 1; cbn; rewrite ?length_insert, ?length_fmap; by split. Qed.

(** A new producer is at its first lock. *)
Lemma add_producer_inv m : binv m → length (producers m) < N → binv (add_producer m).
Proof.
  intros [Hlen Hth Hp Hs Hin Hcon How] Hlt. destruct m as [c l s ps q o]. cbn in *.
  split; cbn; rewrite ?sum_snoc, ?length_app; cbn; rewrite ?Nat.add_0_r; try done; [lia|..].
  - destruct q; try done. destruct Hp as [_ ->]. unfold N in Hlt. cbn in Hlt. lia.
  - intros k p Hk. apply lookup_snoc_Some in Hk as [[_ Hk]|[-> <-]]; [by apply Hin|].
    split; [done|]. intros Hm. apply How in Hm. lia.
  - intros k Hk. apply How in Hk. lia.
Qed.

Lemma add_producer_linv m hs ks now :
  linv m hs ks now → length (producers m) < N → linv (add_producer m) hs ks now.
Proof.
  intros [Hh Hf Ho Hm Hnd Hlen Ht Hr] Hlt. destruct m as [c l s ps q o]. cbn in *.
  split; cbn; rewrite ?sum_snoc, ?length_app; cbn; rewrite ?Nat.add_0_r; try done.
  - intros Hne. specialize (Hf Hne). lia.
  - intros k Hk. specialize (Ht k Hk). lia.
  - intros Hq k p Hk. apply lookup_snoc_Some in Hk as [[_ Hk]|[-> <-]]; [by apply Hr|].
    split; [|done]. split; [|done]. intros Hin%Ht. lia.
Qed.

Lemma add_consumer_inv m : binv m → consumer m = CNew → binv (add_consumer m).
Proof. intros [Hlen Hth Hp Hs Hin Hcon How] Hq. rewrite Hq in *. by split. Qed.

Lemma add_consumer_linv m hs ks now :
  linv m hs ks now → consumer m = CNew → linv (add_consumer m) hs ks now.
Proof.
  intros [Hh Hf Ho Hm Hnd Hlen Ht Hr] Hq. rewrite Hq in *. split; try done. intros _. by apply Hr.
Qed.

(** The threads and [main]: there are never more producers than identifiers that
    fit. *)
Definition pinv (slots : nat) (refuse : bool) (p : maker * meeting) : Prop :=
  let '(b, m) := p in
  binv m ∧ (∃ hs ks now, linv m hs ks now) ∧ length (producers m) ≤ slots ∧
  match b with
  | Making i =>
      i ≤ N ∧ length (producers m) ≤ i ∧ consumer m = CNew ∧
      (refuse = false → length (producers m) = i)
  | Made => consumer m ≠ CNew ∧ (refuse = false → length (producers m) = N)
  | Undefined => True
  end.

Lemma pinv_reachable slots refuse p :
  reachable (bprogram slots (no_hazards refuse)) (Making 0, opening) p → pinv slots refuse p.
Proof.
  apply reachable_inv.
  { split_and!; [apply opening_inv|do 3 eexists; apply opening_linv|cbn; lia|lia|done..]. }
  intros q q' Hq Hs. destruct Hs as [b m m' Hb Hs|i m Hi Hslot|i m Hi Hslot|i m Hr Hi|m|m Hr];
    destruct Hq as (Hbi & (hs & ks & now & Hl) & Hle & Hq).
  - destruct (bstep_frame _ _ _ Hs) as [Hlen Hnew]. unfold pinv. rewrite Hlen.
    split; [by eapply binv_step|]. split; [by eapply linv_step|]. split; [done|].
    destruct b; [by rewrite Hnew|by rewrite Hnew|done].
  - destruct Hq as (_ & Hn & Hc & Hall).
    assert (Hlen : length (producers (add_producer m)) = S (length (producers m)))
      by (cbn; rewrite length_app; cbn; lia).
    unfold pinv. rewrite Hlen. split_and!; try done; try lia.
    + apply add_producer_inv; [done|lia].
    + do 3 eexists. apply add_producer_linv; [done|lia].
    + intros Hr. by rewrite Hall.
  - by split_and!; [|do 3 eexists| |].
  - destruct Hq as (_ & Hn & Hc & Hall). split_and!; try done; [by do 3 eexists|lia|].
    intros ->. done.
  - destruct Hq as (_ & Hn & Hc & Hall).
    split_and!; [by apply add_consumer_inv|do 3 eexists; by apply add_consumer_linv|done..].
  - by split_and!; [|do 3 eexists| |].
Qed.

(** Somebody can always go on, once there are all the producers. *)
Lemma bprogress hz m :
  binv m → length (producers m) = N → consumer m ≠ CNew → ∃ m', bstep hz m m'.
Proof.
  intros Hi Hlen Hnew. pose proof Hi as [_ Hth Hp Hs Hin Hcon How].
  destruct m as [c l s ps q o]. cbn in *. destruct l as [[k|]|].
  - destruct (lookup_lt_is_Some_2 ps k) as [p Hk]; [by apply How|].
    pose proof (proj2 (Hin k p Hk) eq_refl) as Hb. destruct p; try done.
    + eexists. by apply bstep_inc.
    + destruct (decide (c = 6%Z)); eexists; [by apply bstep_post|by apply bstep_no_post].
    + eexists. by apply bstep_call.
    + eexists. by apply bstep_unlock.
  - destruct q; try (by destruct Hcon as [_ Hcon]; specialize (Hcon eq_refl));
      eexists; first [apply bstep_reset|apply bstep_broadcast|apply bstep_cunlock].
  - destruct (decide (Exists (λ p, p = BLock ∨ p = BWoken) ps)) as [Hex|Hno].
    { apply Exists_exists in Hex as (p & [k Hk]%list_elem_of_lookup_1 & [->| ->]);
        eexists; [by apply bstep_lock|by apply bstep_relock]. }
    assert (Hall : Forall (λ p, p = BWaiting) ps).
    { apply Forall_lookup. intros k p Hk. destruct p; try done;
        try (by pose proof (proj1 (Hin k _ Hk) eq_refl));
        destruct Hno; apply Exists_exists; eexists; (split; [by eapply list_elem_of_lookup_2|]); auto. }
    assert (Hc : ∀ f : ppc → nat, sum_list_with f ps = length ps * f BWaiting).
    { intros f. clear -Hall. induction Hall as [|p ps -> _ IH]; [done|]. simpl. lia. }
    rewrite (Hc posting) in Hs. rewrite (Hc counted) in Hp. unfold N in Hlen. rewrite Hlen in *.
    destruct q; try done; try (by pose proof (proj1 Hcon eq_refl));
      [|eexists; apply bstep_say|eexists; apply bstep_clock].
    cbn in Hp, Hs. rewrite decide_True in Hs by done.
    destruct s as [|s]; [lia|]. eexists. apply bstep_sem.
Qed.

(** ** Runs *)

(** The threads run while [main] waits. *)
Lemma threads_run slots hz b m m' :
  b ≠ Undefined → rtc (bstep hz) m m' → rtc (bprogram slots hz) (b, m) (b, m').
Proof.
  intros Hb. induction 1 as [|m m1 m2 Hs _ IH]; [done|].
  eapply rtc_l; [by apply bprogram_thread|done].
Qed.

(** All the threads have been created, if there is room for six identifiers. *)
Definition assembled : meeting := Meeting 0 None 0 (replicate N BLock) CSem [].

Lemma assembled_reachable slots hz :
  N ≤ slots → reachable (bprogram slots hz) (Making 0, opening) (Made, assembled).
Proof.
  intros Hs. unfold N in Hs.
  do 6 (eapply rtc_l; [apply bprogram_create; unfold N; lia|]).
  apply rtc_once. apply bprogram_consumer.
Qed.

Lemma counted_one hz k c ps q o :
  ps !! k = Some BLock → (c + 1 ≠ 6)%Z →
  rtc (bstep hz) (Meeting c None 0 ps q o)
    (Meeting (c + 1) None 0 (<[k := BWaiting]> ps) q (o ++ [Count k (c + 1); WaitingOnCond k])).
Proof.
  intros Hk Hc. assert (Hl : k < length ps) by (by eapply lookup_lt_Some).
  eapply rtc_l; [by apply (bstep_lock _ k)|].
  eapply rtc_l; [apply (bstep_inc _ k); by rewrite list_lookup_insert_eq|].
  eapply rtc_l; [apply (bstep_no_post _ k); [|done]; by rewrite list_insert_insert_eq, list_lookup_insert_eq|].
  rewrite !list_insert_insert_eq. eapply rtc_l; [apply (bstep_call _ k); by rewrite list_lookup_insert_eq|].
  rewrite list_insert_insert_eq, <- app_assoc. done.
Qed.

(** Five producers wait, and nobody holds the mutex. *)
Definition five_waiting : meeting :=
  Meeting 5 None 0 [BWaiting; BWaiting; BWaiting; BWaiting; BWaiting; BLock] CSem
    (turns [0; 1; 2; 3; 4]).

Lemma five_meet hz : rtc (bstep hz) assembled five_waiting.
Proof.
  etrans; [by apply (counted_one hz 0)|]. etrans; [by apply (counted_one hz 1)|].
  etrans; [by apply (counted_one hz 2)|]. etrans; [by apply (counted_one hz 3)|].
  by apply (counted_one hz 4).
Qed.

(** The sixth has signalled the consumer, which has come in before that one
    waits. *)
Definition gathered : meeting :=
  Meeting 6 (Some Consumer) 0 (replicate N BWaiting) CReset
    (turns [0; 1; 2; 3; 4] ++ [Count 5 6; SignallingConsumer; InConsumer; WaitingOnCond 5]).

Lemma six_gather hz : rtc (bstep hz) five_waiting gathered.
Proof.
  eapply rtc_l; [by apply (bstep_lock _ 5)|]. eapply rtc_l; [by apply (bstep_inc _ 5)|].
  eapply rtc_l; [by apply (bstep_post _ 5)|]. eapply rtc_l; [apply bstep_sem|].
  eapply rtc_l; [apply bstep_say|]. eapply rtc_l; [by apply (bstep_call _ 5)|].
  apply rtc_once. apply bstep_clock.
Qed.

(** After the first producer has been counted, alone. *)
Definition first_counted : meeting :=
  Meeting 1 (Some (Producer 0)) 0 [BPost] CNew [Count 0 1].

Lemma first_counted_reachable slots hz :
  0 < slots → reachable (bprogram slots hz) (Making 0, opening) (Making 1, first_counted).
Proof.
  intros Hs. eapply rtc_l; [apply bprogram_create; [unfold N; lia|done]|].
  apply threads_run; [done|]. eapply rtc_l; [by apply (bstep_lock _ 0)|].
  apply rtc_once. by apply (bstep_inc _ 0).
Qed.

(** ** Property *)

(** C29 (safety): without spurious wake-ups and failures of the semaphore, in
    every interleaving of [main] and the threads it has created: the consumer
    broadcasts only when all six producers wait, and it is never woken twice for
    one meeting.  What is printed is a beginning of a sequence of meetings as in
    the sample output: six producers in any order are counted and wait, the
    sixth signals the consumer, which starts over; the line with which the
    consumer comes in stands before or after the one with which the sixth
    producer waits.  No meeting is held while [main] has defined behaviour: with
    an array for fewer than six identifiers, such as that of the program, which
    has five, the consumer is never signalled and only the producers print.
    Somebody can always go on unless [main] has left the array or a thread
    could not be created. *)
Theorem barrier_safety slots refuse b m :
  reachable (bprogram slots (no_hazards refuse)) (Making 0, opening) (b, m) →
  (consumer m = CReset ∨ consumer m = CBroadcast → producers m = replicate N BWaiting) ∧
  c_sem m + pending (consumer m) ≤ 1 ∧
  (∃ hs, Forall held_ok hs ∧ log m `prefix_of` meetings_lines hs) ∧
  (slots < N → c_sem m + pending (consumer m) = 0 ∧ Forall producer_line (log m)) ∧
  (refuse = false → b ≠ Undefined →
   ∃ q, bprogram slots (no_hazards refuse) (b, m) q).
Proof.
  intros Hr. destruct (pinv_reachable _ _ _ Hr) as (Hi & (hs & ks & now & Hl) & Hle & Hb).
  pose proof (inv_sem m Hi) as Hs. split_and!.
  - intros [E|E]; [|pose proof (inv_phase m Hi) as Hp; rewrite E in Hp; apply Hp].
    destruct (signalled m Hi) as (_ & _ & Hc); [rewrite E; cbn; lia|].
    apply (all_waiting m Hi); [|done]. intros k Hk.
    pose proof (proj1 (inv_consumer m Hi)) as Hcon. rewrite E in Hcon. specialize (Hcon eq_refl). congruence.
  - destruct (decide _); lia.
  - destruct (minutes_prefix _ _ _ _ _ (log_now _ _ _ _ Hl) (linv_attending _ _ _ _ Hi Hl)) as (h & Hh & Hp).
    exists (hs ++ [h]). split; [apply Forall_app; split; [apply (log_held _ _ _ _ Hl)|by constructor]|].
    rewrite (log_lines _ _ _ _ Hl). unfold meetings_lines. rewrite fmap_app, concat_app.
    apply prefix_app. cbn. by rewrite app_nil_r.
  - intros Hslots.
    destruct (decide (0 < c_sem m + pending (consumer m))) as [Hpos|Hpos].
    { destruct (signalled m Hi Hpos) as (_ & _ & Hc). pose proof (counted_bound (producers m)). lia. }
    split; [lia|]. rewrite (log_lines _ _ _ _ Hl).
    assert (Hnil : hs = []).
    { destruct hs as [|h hs]; [done|]. pose proof (log_full _ _ _ _ Hl ltac:(done)). lia. }
    subst hs. eapply minutes_producers; [apply (log_now _ _ _ _ Hl)|].
    rewrite (log_count _ _ _ _ Hl). pose proof (counted_bound (producers m)).
    pose proof (inv_phase m Hi) as Hp. destruct (consumer m); lia.
  - intros Hn Hb'. destruct b as [i| |]; [| |done].
    + destruct Hb as (Hi' & _). destruct (decide (i = N)) as [->|]; [eexists; apply bprogram_consumer|].
      destruct (decide (i < slots)); eexists; [apply bprogram_create|apply bprogram_overrun]; lia.
    + destruct Hb as [Hc Hlen]. destruct (bprogress (no_hazards refuse) m Hi (Hlen Hn) Hc) as [m' Hm'].
      eexists. by apply bprogram_thread.
Qed.

(** All six before the consumer; and the first one in the program as it is. *)
Lemma barrier_safety_witness :
  ((consumer gathered = CReset ∨ consumer gathered = CBroadcast →
      producers gathered = replicate N BWaiting) ∧
   c_sem gathered + pending (consumer gathered) ≤ 1 ∧
   (∃ hs, Forall held_ok hs ∧ log gathered `prefix_of` meetings_lines hs) ∧
   (6 < N → c_sem gathered + pending (consumer gathered) = 0 ∧
      Forall producer_line (log gathered)) ∧
   (false = false → Made ≠ Undefined →
    ∃ q, bprogram 6 (no_hazards false) (Made, gathered) q)) ∧
  ((consumer first_counted = CReset ∨ consumer first_counted = CBroadcast →
      producers first_counted = replicate N BWaiting) ∧
   c_sem first_counted + pending (consumer first_counted) ≤ 1 ∧
   (∃ hs, Forall held_ok hs ∧ log first_counted `prefix_of` meetings_lines hs) ∧
   (5 < N → c_sem first_counted + pending (consumer first_counted) = 0 ∧
      Forall producer_line (log first_counted)) ∧
   (false = false → Making 1 ≠ Undefined →
    ∃ q, bprogram 5 (no_hazards false) (Making 1, first_counted) q)).
Proof.
  split.
  - apply (barrier_safety 6 false Made gathered).
    etrans; [by apply assembled_reachable|]. apply threads_run; [done|].
    etrans; [apply five_meet|apply six_gather].
  - apply (barrier_safety 5 false (Making 1) first_counted). apply first_counted_reachable. lia.
Defined.

(** ** Spurious wake-ups *)

(** The first producer alone: the others have not started. *)
Definition alone (p : ppc) : list ppc := p :: replicate 5 BLock.

(** Woken with no broadcast, it counts itself once more. *)
Lemma spurious_round c o :
  c ≠ 5%Z →
  rtc (bstep (Hazards true false false false)) (Meeting c None 0 (alone BLock) CSem o)
    (Meeting (c + 1) None 0 (alone BLock) CSem (o ++ [Count 0 (c + 1); WaitingOnCond 0])).
Proof.
  intros Hc. eapply rtc_l; [by apply (bstep_lock _ 0)|]. eapply rtc_l; [by apply (bstep_inc _ 0)|].
  eapply rtc_l; [apply (bstep_no_post _ 0); [done|lia]|]. eapply rtc_l; [by apply (bstep_call _ 0)|].
  eapply rtc_l; [by apply (bstep_spurious _ 0)|]. eapply rtc_l; [by apply (bstep_relock _ 0)|].
  rewrite <- app_assoc. apply rtc_once. by apply (bstep_unlock _ 0).
Qed.

(** One producer, woken five times by nobody, is counted six times, and the
    consumer starts over while five producers have not been counted at all. *)
Lemma barrier_breaks :
  ∃ m, reachable (bprogram N (Hazards true false false false)) (Making 0, opening) (Made, m) ∧
    consumer m = CReset ∧ producers m = alone BWaiting.
Proof.
  eexists. split; [|split].
  - etrans; [by apply assembled_reachable|]. apply threads_run; [done|]. do 5 (etrans; [apply spurious_round; done|]).
    eapply rtc_l; [by apply (bstep_lock _ 0)|]. eapply rtc_l; [by apply (bstep_inc _ 0)|].
    eapply rtc_l; [by apply (bstep_post _ 0)|]. eapply rtc_l; [by apply (bstep_call _ 0)|].
    eapply rtc_l; [apply bstep_sem|].
    eapply rtc_l; [apply bstep_say|]. apply rtc_once. apply bstep_clock.
  - done.
  - done.
Qed.

(** ** Failures of the semaphore *)

(** All six wait, and the consumer is gone or waits too. *)
Lemma all_stuck hz c s q o m' :
  spurious hz = false → q = CGone ∨ (q = CSem ∧ s = 0 ∧ wait_fails hz = false) →
  ¬ bstep hz (Meeting c None s (replicate N BWaiting) q o) m'.
Proof.
  intros Hsp Hq Hs. set (ps := replicate N BWaiting) in Hs.
  assert (Hall : ∀ k p, ps !! k = Some p → p = BWaiting).
  { intros k p Hk. by apply lookup_replicate in Hk as [? _]. }
  clearbody ps. inversion Hs; subst; try congruence;
    match goal with
    | H : _ !! _ = Some _ |- _ => by apply Hall in H
    | _ => destruct Hq as [?|(? & ? & ?)]; congruence
    end.
Qed.

(** The program, when the threads cannot go on. *)
Lemma program_stuck slots hz m q :
  (∀ m', ¬ bstep hz m m') → ¬ bprogram slots hz (Made, m) q.
Proof. intros Hm Hs. inversion Hs; subst. by eapply Hm. Qed.

(** If [sem_post] fails the message is printed and the meeting is never held:
    all six producers wait, and so does the consumer. *)
Lemma post_failure_deadlock :
  let hz := Hazards false true false false in
  ∃ m, reachable (bprogram N hz) (Making 0, opening) (Made, m) ∧ SignallingFailed ∈ log m ∧
    ∀ q, ¬ bprogram N hz (Made, m) q.
Proof.
  intros hz. eexists. split_and!.
  - etrans; [by apply assembled_reachable|]. apply threads_run; [done|].
    etrans; [apply five_meet|]. eapply rtc_l; [by apply (bstep_lock _ 5)|].
    eapply rtc_l; [by apply (bstep_inc _ 5)|]. eapply rtc_l; [by apply (bstep_post_fails _ 5)|].
    apply rtc_once. by apply (bstep_call _ 5).
  - cbn [log]. set_solver.
  - intros q. apply program_stuck. intros m'. apply all_stuck; [done|]. by right.
Qed.

(** Once the consumer has returned, nobody resets the count and no producer
    passes its wait. *)
Lemma gone_step hz m m' :
  spurious hz = false → consumer m = CGone → bstep hz m m' →
  consumer m' = CGone ∧ (count m <= count m')%Z ∧
  ∀ k, producers m !! k = Some BWaiting → producers m' !! k = Some BWaiting.
Proof.
  intros Hsp Hc Hs.
  assert (Hother : ∀ (ps : list ppc) j p p' k, ps !! j = Some p → p ≠ BWaiting →
    ps !! k = Some BWaiting → <[j := p']> ps !! k = Some BWaiting).
  { intros ps j p p' k Hj Hp Hk. rewrite list_lookup_insert_ne; [done|]. intros ->. congruence. }
  destruct Hs; cbn in *; try congruence; (split_and!; [done|lia|]); intros; by eapply Hother.
Qed.

Lemma wait_failure_lasts hz m m' :
  spurious hz = false → consumer m = CGone → rtc (bstep hz) m m' →
  consumer m' = CGone ∧ (count m <= count m')%Z ∧
  ∀ k, producers m !! k = Some BWaiting → producers m' !! k = Some BWaiting.
Proof.
  intros Hsp Hc Hr. induction Hr as [m|m m1 m' Hs _ IH]; [done|].
  destruct (gone_step hz m m1 Hsp Hc Hs) as (H1 & H2 & H3).
  destruct (IH H1) as (H4 & H5 & H6). split_and!; [done|lia|]. intros k Hk. by apply H6, H3.
Qed.

(** If [sem_wait] fails once, the six producers are counted and then wait for
    ever. *)
Lemma wait_failure_deadlock :
  let hz := Hazards false false true false in
  ∃ m, reachable (bprogram N hz) (Making 0, opening) (Made, m) ∧ consumer m = CGone ∧
    count m = 6%Z ∧ ∀ m', ¬ bstep hz m m'.
Proof.
  intros hz. eexists. split_and!.
  - etrans; [by apply assembled_reachable|]. apply threads_run; [done|].
    etrans; [apply five_meet|]. eapply rtc_l; [by apply (bstep_lock _ 5)|].
    eapply rtc_l; [by apply (bstep_inc _ 5)|]. eapply rtc_l; [by apply (bstep_post _ 5)|].
    eapply rtc_l; [by apply (bstep_call _ 5)|]. apply rtc_once. by apply bstep_sem_fails.
  - done.
  - done.
  - intros m'. apply all_stuck; [done|]. by left.
Qed.
