(* ===== verification/SemUsage.v ===== *)
(** * Threads woken by broadcast

    [src/mutex_sempaphores/sem_usage.c]: five [func_thread]s wait on a condition
    variable and count their wake-ups under a mutex; one [cons_thread]
    broadcasts for ever.  [main] creates them while those that exist run; any of
    them may fail to be created. *)
From S2P Require Import Prelude Threads.

(** ** The model *)

(** The number of [func_thread]s. *)
Definition FUNCS : nat := 5.

(** The statement a [func_thread] is about to execute. *)
Inductive fpc :=
  | ULock     (* pthread_mutex_lock *)
  | UCall     (* the call of pthread_cond_wait *)
  | UWaiting  (* blocked in pthread_cond_wait *)
  | UWoken    (* woken, the mutex not yet taken again *)
  | UInc      (* count++ *)
  | UPrint    (* the printf of the count *)
  | UUnlock   (* pthread_mutex_unlock *)
  | UFailed.  (* the thread could not be created *)

(** The statement [cons_thread] is about to execute. *)
Inductive kpc :=
  | KLock | KPrint | KBroadcast | KUnlock
  | KFailed.  (* the thread could not be created *)

#[export] Instance fpc_eq_dec : EqDecision fpc.
Proof. solve_decision. Defined.

(** The holder of the mutex. *)
Inductive holder := Func (k : nat) | Cons.

(** ["From thread[%ld]: count: %d"], ["From cons thread[%ld]: count:%d"] and
    ["Failed to create thread[%d]"]. *)
Inductive uline := FromThread (k : nat) (n : Z) | FromCons (n : Z) | FailedToCreate (k : nat).

(** [count], [my_mutex], the [func_thread]s and the [cons_thread] created so
    far, and what has been printed. *)
Record usage := Usage {
  count : Z;
  my_mutex : option holder;
  funcs : list fpc;
  cons : option kpc;
  said : list uline;
}.

(** [Overflowed]: [count++] at the greatest [int]; [BadJoin]: [pthread_join] with
    an identifier that has not been stored. *)
Inductive ustate := Using (s : usage) | Overflowed | BadJoin.

Definition ustart : ustate := Using (Usage 0 None [] None []).

(** [pthread_cond_broadcast]. *)
Definition uwake (p : fpc) : fpc := match p with UWaiting => UWoken | _ => p end.

(** [spurious]: whether [pthread_cond_wait] may return with no broadcast;
    [fails] and [cfails]: whether a [func_thread], or [cons_thread], may fail to
    be created.  Past the creations [main] is at the join of the first thread,
    which never returns. *)
Inductive ustep (spurious fails cfails : bool) : ustate → ustate → Prop :=
  | ustep_create_func c l fs q o :
      length fs < FUNCS →
      ustep spurious fails cfails (Using (Usage c l fs q o)) (Using (Usage c l (fs ++ [ULock]) q o))
  | ustep_create_fails c l fs q o :
      fails = true → length fs < FUNCS →
      ustep spurious fails cfails (Using (Usage c l fs q o))
        (Using (Usage c l (fs ++ [UFailed]) q (o ++ [FailedToCreate (length fs)])))
  | ustep_join_bad c l fs q o :
      fs !! 0 = Some UFailed →
      ustep spurious fails cfails (Using (Usage c l fs (Some q) o)) BadJoin
  | ustep_create_cons c l fs o :
      length fs = FUNCS →
      ustep spurious fails cfails (Using (Usage c l fs None o)) (Using (Usage c l fs (Some KLock) o))
  | ustep_cons_fails c l fs o :
      cfails = true → length fs = FUNCS →
      ustep spurious fails cfails (Using (Usage c l fs None o)) (Using (Usage c l fs (Some KFailed) o))
  | ustep_lock k c fs q o :
      fs !! k = Some ULock →
      ustep spurious fails cfails (Using (Usage c None fs q o))
        (Using (Usage c (Some (Func k)) (<[k := UCall]> fs) q o))
  | ustep_wait k c fs q o :
      fs !! k = Some UCall →
      ustep spurious fails cfails (Using (Usage c (Some (Func k)) fs q o))
        (Using (Usage c None (<[k := UWaiting]> fs) q o))
  | ustep_spurious k c l fs q o :
      spurious = true → fs !! k = Some UWaiting →
      ustep spurious fails cfails (Using (Usage c l fs q o)) (Using (Usage c l (<[k := UWoken]> fs) q o))
  | ustep_relock k c fs q o :
      fs !! k = Some UWoken →
      ustep spurious fails cfails (Using (Usage c None fs q o))
        (Using (Usage c (Some (Func k)) (<[k := UInc]> fs) q o))
  | ustep_inc k c c' fs q o :
      fs !! k = Some UInc → add_int c 1 = Ok c' →
      ustep spurious fails cfails (Using (Usage c (Some (Func k)) fs q o))
        (Using (Usage c' (Some (Func k)) (<[k := UPrint]> fs) q o))
  | ustep_overflow k c fs q o :
      fs !! k = Some UInc → add_int c 1 = UB SignedOverflow →
      ustep spurious fails cfails (Using (Usage c (Some (Func k)) fs q o)) Overflowed
  | ustep_print k c fs q o :
      fs !! k = Some UPrint →
      ustep spurious fails cfails (Using (Usage c (Some (Func k)) fs q o))
        (Using (Usage c (Some (Func k)) (<[k := UUnlock]> fs) q (o ++ [FromThread k c])))
  | ustep_unlock k c fs q o :
      fs !! k = Some UUnlock →
      ustep spurious fails cfails (Using (Usage c (Some (Func k)) fs q o))
        (Using (Usage c None (<[k := ULock]> fs) q o))
  | ustep_klock c fs o :
      ustep spurious fails cfails (Using (Usage c None fs (Some KLock) o))
        (Using (Usage c (Some Cons) fs (Some KPrint) o))
  | ustep_kprint c fs o :
      ustep spurious fails cfails (Using (Usage c (Some Cons) fs (Some KPrint) o))
        (Using (Usage c (Some Cons) fs (Some KBroadcast) (o ++ [FromCons c])))
  | ustep_kbroadcast c fs o :
      ustep spurious fails cfails (Using (Usage c (Some Cons) fs (Some KBroadcast) o))
        (Using (Usage c (Some Cons) (uwake <$> fs) (Some KUnlock) o))
  | ustep_kunlock c fs o :
      ustep spurious fails cfails (Using (Usage c (Some Cons) fs (Some KUnlock) o))
        (Using (Usage c None fs (Some KLock) o)).

(** ** The invariant *)

(** Between lock and unlock; counted but not yet printed. *)
Definition uinside (p : fpc) : bool :=
  match p with UCall | UInc | UPrint | UUnlock => true | _ => false end.
Definition kinside (q : option kpc) : bool :=
  match q with Some KPrint | Some KBroadcast | Some KUnlock => true | _ => false end.
Definition unprinted (p : fpc) : nat := match p with UPrint => 1 | _ => 0 end.

(** Reads the lines from the count [n] on: each line of a [func_thread] is one
    more, each line of [cons_thread] repeats the last one. *)
Fixpoint recount (n : Z) (o : list uline) : option Z :=
  match o with
  | [] => Some n
  | FromThread _ v :: o' => if (v =? n + 1)%Z then recount v o' else None
  | FromCons v :: o' => if (v =? n)%Z then recount n o' else None
  | FailedToCreate _ :: o' => recount n o'
  end.

Record uinv (s : usage) : Prop := {
  inv_len : length (funcs s) ≤ FUNCS;
  inv_inside k p : funcs s !! k = Some p → uinside p = true ↔ my_mutex s = Some (Func k);
  inv_cons : kinside (cons s) = true ↔ my_mutex s = Some Cons;
  inv_owner k : my_mutex s = Some (Func k) → k < length (funcs s);
  inv_count : (0 <= count s <= INT_MAX)%Z;
  inv_said : recount 0 (said s) = Some (count s - Z.of_nat (sum_list_with unprinted (funcs s)))%Z;
}.

Definition ustate_inv (f : ustate) : Prop :=
  match f with Using s => uinv s | _ => True end.

Lemma recount_app o o' : ∀ n, recount n (o ++ o') = (recount n o ≫= λ m, recount m o').
Proof.
  induction o as [|[k v|v|k] o IH]; intros n; cbn; [done|..|apply IH]; destruct (_ =? _)%Z; cbn; done || by apply IH.
Qed.

Lemma unprinted_inside p : uinside p = false → unprinted p = 0.
Proof. by destruct p. Qed.

(** Who holds the mutex decides what is counted and not yet printed. *)
Lemma unprinted_held s k p :
  uinv s → my_mutex s = Some (Func k) → funcs s !! k = Some p →
  sum_list_with unprinted (funcs s) = unprinted p.
Proof.
  intros Hi Hm Hk. apply (sum_inside uinside _ _ k p unprinted_inside Hk). intros j r Hj Hr.
  apply (inv_inside s Hi j r Hj) in Hr. congruence.
Qed.

Lemma unprinted_free s :
  uinv s → (∀ k, my_mutex s ≠ Some (Func k)) → sum_list_with unprinted (funcs s) = 0.
Proof.
  intros Hi Hm. apply (sum_outside uinside _ _ unprinted_inside). intros j r Hj.
  destruct (uinside r) eqn:E; [|done]. apply (inv_inside s Hi j r Hj) in E. by destruct (Hm j).
Qed.

(** The lock is free or with thread [k] before and after, or it does not
    change. *)
Definition passes (k : nat) (l l' : option holder) : Prop :=
  (l = None ∨ l = Some (Func k)) ∧ (l' = None ∨ l' = Some (Func k)) ∨ l = l'.

Lemma uinv_move c c' l l' fs q o o' k p p' :
  uinv (Usage c l fs q o) → fs !! k = Some p → passes k l l' →
  (uinside p' = true ↔ l' = Some (Func k)) → (0 <= c' <= INT_MAX)%Z →
  (∀ u, u + unprinted p = sum_list_with unprinted fs →
     recount 0 o = Some (c - Z.of_nat (u + unprinted p))%Z →
     recount 0 o' = Some (c' - Z.of_nat (u + unprinted p'))%Z) →
  uinv (Usage c' l' (<[k := p']> fs) q o').
Proof.
  intros [Hlen Hin Hcon Hown Hc Ho] Hk Hl Hin' Hc' Ho'. cbn in *.
  pose proof (sum_move unprinted fs k p p' Hk) as Hsum. pose proof (sum_le_lookup unprinted fs k p Hk) as Hle.
  split; cbn; try done.
  - by rewrite length_insert.
  - intros j r Hj. destruct (decide (j = k)) as [->|Hjk].
    + rewrite list_lookup_insert_eq in Hj by (by eapply lookup_lt_Some). by injection Hj as <-.
    + rewrite list_lookup_insert_ne in Hj by done. rewrite (Hin j r Hj).
      destruct Hl as [[[->| ->] [->| ->]]| ->]; naive_solver.
  - rewrite Hcon. destruct Hl as [[[->| ->] [->| ->]]| ->]; naive_solver.
  - intros j Hj. rewrite length_insert. destruct (decide (j = k)) as [->|Hjk].
    + by eapply lookup_lt_Some.
    + apply Hown. destruct Hl as [[[->| ->] [->| ->]]| ->]; naive_solver.
  - replace (sum_list_with unprinted (<[k := p']> fs)) with
      (sum_list_with unprinted fs - unprinted p + unprinted p') by lia.
    apply Ho'; [lia|]. rewrite Ho. do 2 f_equal. lia.
Qed.

Lemma ucreate_inv c l fs q o o' p :
  uinv (Usage c l fs q o) → length fs < FUNCS → uinside p = false →
  (∀ m, recount 0 o = Some m → recount 0 o' = Some m) →
  uinv (Usage c l (fs ++ [p]) q o').
Proof.
  intros [Hlen Hin Hcon Hown Hc Ho] Hlt Hp Ho'. cbn in *. split; cbn; try done.
  - rewrite length_app. simpl. lia.
  - intros k r. rewrite lookup_app_Some. intros [Hk|[Hge Hk]]; [by apply Hin|].
    apply list_lookup_singleton_Some in Hk as [Hk <-]. rewrite Hp. split; [done|]. intros Hl.
    apply Hown in Hl. lia.
  - intros k Hk. rewrite length_app. apply Hown in Hk. lia.
  - rewrite sum_snoc, unprinted_inside, Nat.add_0_r by done. by apply Ho'.
Qed.

(** Only the lock, the place of [cons_thread] and the lines change. *)
Lemma ucons_inv c l l' fs q q' o o' :
  uinv (Usage c l fs q o) → (∀ k, l ≠ Some (Func k) ∧ l' ≠ Some (Func k)) →
  (kinside q' = true ↔ l' = Some Cons) → (recount 0 o = Some c → recount 0 o' = Some c) →
  uinv (Usage c l' fs q' o').
Proof.
  intros Hi Hl Hq Ho'. pose proof (unprinted_free _ Hi) as Hz.
  destruct Hi as [Hlen Hin Hcon Hown Hc Ho]. cbn in *.
  rewrite Hz, Z.sub_0_r in Ho by (intros k; apply Hl). split; cbn; try done.
  - intros k p Hk. rewrite (Hin k p Hk). split; intros E; [by destruct (proj1 (Hl k))|by destruct (proj2 (Hl k))].
  - intros k Hk. by destruct (proj2 (Hl k)).
  - rewrite Hz, Z.sub_0_r by (intros k; apply Hl). auto.
Qed.

Lemma ubroadcast_inv c l fs q o :
  uinv (Usage c l fs q o) → uinv (Usage c l (uwake <$> fs) q o).
Proof.
  intros [Hlen Hin Hcon Hown Hc Ho]. cbn in *. split; cbn; try done.
  - by rewrite length_fmap.
  - intros k p Hk. rewrite list_lookup_fmap in Hk. destruct (fs !! k) as [r|] eqn:E; [|done].
    injection Hk as <-. rewrite <- (Hin k r E). by destruct r.
  - intros k Hk. rewrite length_fmap. by apply Hown.
  - assert (Hw : sum_list_with unprinted (uwake <$> fs) = sum_list_with unprinted fs); [|by rewrite Hw].
    clear. induction fs as [|p fs IH]; [done|]. rewrite fmap_cons. simpl. rewrite IH. by destruct p.
Qed.

Lemma add_int_inv a b c : add_int a b = Ok c → c = (a + b)%Z ∧ (INT_MIN <= c <= INT_MAX)%Z.
Proof.
  unfold add_int, int_ok. destruct (_ && _) eqn:E; [|done]. intros [= <-]. bhyps. by split.
Qed.

Lemma ustep_inv sp fl kf f f' : ustate_inv f → ustep sp fl kf f f' → ustate_inv f'.
Proof.
  intros Hi Hs. destruct Hs as [c l fs q o Hlt|c l fs q o _ Hlt|c l fs q o _|c l fs o Hlen|c l fs o _ Hlen|k c fs q o Hk|k c fs q o Hk
    |k c l fs q o _ Hk|k c fs q o Hk|k c c' fs q o Hk Hc|k c fs q o Hk Hc|k c fs q o Hk|k c fs q o Hk
    |c fs o|c fs o|c fs o|c fs o]; try done; cbn in Hi |- *.
  - by eapply ucreate_inv.
  - eapply ucreate_inv; [done..|]. intros m Hm. by rewrite recount_app, Hm.
  - destruct Hi as [Hl Hin Hcon Hown Hc Ho]. cbn in *. by split.
  - destruct Hi as [Hl Hin Hcon Hown Hc Ho]. cbn in *. by split.
  - apply (uinv_move c c None _ fs q o o k _ UCall Hi Hk); try done; [by left; auto|apply Hi].
  - apply (uinv_move c c _ None fs q o o k _ UWaiting Hi Hk); try done; [by left; auto|apply Hi].
  - apply (uinv_move c c l l fs q o o k _ UWoken Hi Hk); try done; [by right| |apply Hi].
    rewrite <- (inv_inside _ Hi k _ Hk). done.
  - apply (uinv_move c c None _ fs q o o k _ UInc Hi Hk); try done; [by left; auto|apply Hi].
  - apply add_int_inv in Hc as [-> Hc]. pose proof (inv_count _ Hi) as Hc0. cbn in Hc0.
    apply (uinv_move c (c + 1) _ _ fs q o o k _ UPrint Hi Hk); try done; [by right|lia|].
    intros u _ ->. f_equal. cbn. lia.
  - apply (uinv_move c c _ _ fs q o _ k _ UUnlock Hi Hk); try done; [by right|apply Hi|].
    intros u Hu Ho. pose proof (unprinted_held _ k _ Hi eq_refl Hk) as Hh. cbn in Hh, Hu.
    rewrite recount_app, Ho. cbn. bdestr. f_equal. lia.
  - apply (uinv_move c c _ None fs q o o k _ ULock Hi Hk); try done; [by left; auto|apply Hi].
  - by apply (ucons_inv c None _ fs (Some KLock) _ o).
  - apply (ucons_inv c (Some Cons) _ fs (Some KPrint) _ o _ Hi); try done.
    intros Ho. rewrite recount_app, Ho. cbn. by bdestr.
  - apply ubroadcast_inv. by apply (ucons_inv c (Some Cons) _ fs (Some KBroadcast) _ o _ Hi).
  - by apply (ucons_inv c (Some Cons) _ fs (Some KUnlock) _ o).
Qed.

Lemma ustart_inv : ustate_inv ustart.
Proof. split; try done; cbn; unfold FUNCS, INT_MAX; lia. Qed.

Lemma ureachable_inv sp fl kf f : reachable (ustep sp fl kf) ustart f → ustate_inv f.
Proof. apply reachable_inv; [apply ustart_inv|apply ustep_inv]. Qed.

(** Somebody can always go on, without a spurious wake-up. *)
Lemma uprogress s : uinv s → cons s ≠ Some KFailed → ∃ f, ustep false false false (Using s) f.
Proof.
  intros Hi Hf. pose proof Hi as [Hlen Hin Hcon Hown Hc _]. destruct s as [c l fs q o]. cbn in *.
  destruct (decide (length fs < FUNCS)) as [Hlt|Hge]; [eexists; by apply ustep_create_func|].
  destruct q as [q|]; [|eexists; apply ustep_create_cons; lia].
  destruct l as [[k|]|].
  - destruct (lookup_lt_is_Some_2 fs k (Hown k eq_refl)) as [p Hk].
    pose proof (proj2 (Hin k p Hk) eq_refl) as Hp. destruct p; try done.
    + eexists. by apply ustep_wait.
    + destruct (add_int c 1) as [c'|e|] eqn:E.
      * eexists. by apply (ustep_inc _ _ _ k c c').
      * eexists. apply ustep_overflow; [exact Hk|]. unfold add_int in *. by destruct (int_ok _).
      * unfold add_int in E. by destruct (int_ok _).
    + eexists. by apply ustep_print.
    + eexists. by apply ustep_unlock.
  - pose proof (proj2 Hcon eq_refl) as Hq. destruct q; try done; eexists;
      first [apply ustep_kprint|apply ustep_kbroadcast|apply ustep_kunlock].
  - destruct q; try done; try (by pose proof (proj1 Hcon eq_refl)). eexists. apply ustep_klock.
Qed.

(** If its creation does not fail [cons_thread] is there. *)
Lemma ucons_there sp fl s : reachable (ustep sp fl false) ustart (Using s) → cons s ≠ Some KFailed.
Proof.
  intros Hr. change ((λ f, match f with Using s => cons s ≠ Some KFailed | _ => True end) (Using s)).
  revert Hr. generalize (Using s). apply reachable_inv; [done|]. intros f f' Hf Hs.
  by destruct Hs; cbn in *.
Qed.

(** ** The rounds of the program *)

(** [cons_thread] goes round once, waking all that wait; nothing keeps it from
    going round again before any of them has the mutex. *)
Lemma cons_round sp fl kf c fs o :
  rtc (ustep sp fl kf) (Using (Usage c None fs (Some KLock) o))
    (Using (Usage c None (uwake <$> fs) (Some KLock) (o ++ [FromCons c]))).
Proof.
  eapply rtc_l; [apply ustep_klock|]. eapply rtc_l; [apply ustep_kprint|].
  eapply rtc_l; [apply ustep_kbroadcast|]. apply rtc_once. apply ustep_kunlock.
Qed.

Lemma cons_rounds sp fl kf c fs o n :
  rtc (ustep sp fl kf) (Using (Usage c None fs (Some KLock) o))
    (Using (Usage c None (Nat.iter n (fmap uwake) fs) (Some KLock)
       (o ++ replicate n (FromCons c)))).
Proof.
  induction n as [|n IH]; [cbn; rewrite app_nil_r; apply rtc_refl|].
  etrans; [exact IH|]. etrans; [apply cons_round|].
  by rewrite replicate_S_end, <- app_assoc.
Qed.

(** A woken thread counts once and waits again. *)
Lemma func_round sp fl kf c fs o k :
  fs !! k = Some UWoken → (0 <= c < INT_MAX)%Z →
  rtc (ustep sp fl kf) (Using (Usage c None fs (Some KLock) o))
    (Using (Usage (c + 1) None (<[k := UWaiting]> fs) (Some KLock) (o ++ [FromThread k (c + 1)]))).
Proof.
  intros Hk Hc. assert (Hlt : k < length fs) by (by eapply lookup_lt_Some).
  eapply rtc_l; [by apply (ustep_relock _ _ _ k)|].
  eapply rtc_l; [apply (ustep_inc _ _ _ k c (c + 1)); [by apply list_lookup_insert_eq|]|].
  { apply add_int_ok. unfold INT_MIN. lia. }
  rewrite list_insert_insert_eq.
  eapply rtc_l; [apply (ustep_print _ _ _ k); by apply list_lookup_insert_eq|]. rewrite list_insert_insert_eq.
  eapply rtc_l; [apply (ustep_unlock _ _ _ k); by apply list_lookup_insert_eq|]. rewrite list_insert_insert_eq.
  eapply rtc_l; [apply (ustep_lock _ _ _ k); by apply list_lookup_insert_eq|]. rewrite list_insert_insert_eq.
  eapply rtc_l; [apply (ustep_wait _ _ _ k); by apply list_lookup_insert_eq|]. rewrite list_insert_insert_eq.
  apply rtc_refl.
Qed.

(** The first thread waits, the others have not started. *)
Definition first_waits : list fpc := UWaiting :: replicate 4 ULock.

Lemma counts_to sp fl kf n : (Z.of_nat n <= INT_MAX)%Z →
  ∃ o, rtc (ustep sp fl kf) ustart (Using (Usage (Z.of_nat n) None first_waits (Some KLock) o)).
Proof.
  induction n as [|n IH]; intros Hn.
  - exists []. do 5 (eapply rtc_l; [apply ustep_create_func; unfold FUNCS; cbn; lia|]).
    eapply rtc_l; [by apply ustep_create_cons|]. eapply rtc_l; [by apply (ustep_lock _ _ _ 0)|].
    apply rtc_once. by apply (ustep_wait _ _ _ 0).
  - destruct IH as [o IH]; [lia|]. eexists. etrans; [exact IH|]. etrans; [apply cons_round|].
    replace (Z.of_nat (S n)) with (Z.of_nat n + 1)%Z by lia.
    assert (Hk : (uwake <$> first_waits) !! 0 = Some UWoken) by done.
    apply (func_round sp fl kf _ _ _ _ Hk). lia.
Qed.

(** ** Properties *)

(** C31 (invariant): in every interleaving, spurious wake-ups and failed
    creations of threads included, the mutex excludes; the lines of the [func_thread]s count 1, 2, 3, ... without
    gap or repetition and every line of [cons_thread] repeats the count of the
    lines before it; the count is that of the lines, or one more while its line
    is about to be printed; and the program can always go on, by a step or into
    the overflow of the count, unless [cons_thread] could not be created. *)
Theorem sem_usage_counts sp fl kf s :
  reachable (ustep sp fl kf) ustart (Using s) →
  (∀ j k p r, funcs s !! j = Some p → funcs s !! k = Some r →
     uinside p = true → uinside r = true → j = k ∧ kinside (cons s) = false) ∧
  (∃ m, recount 0 (said s) = Some m ∧
     (count s = m ∨ count s = m + 1 ∧ ∃ k, funcs s !! k = Some UPrint)%Z) ∧
  (kf = false ∨ cons s ≠ Some KFailed → ∃ f, ustep false false false (Using s) f).
Proof.
  intros Hreach. pose proof (ureachable_inv _ _ _ _ Hreach) as Hr. cbn in Hr. split_and!.
  3: { intros Hc. apply uprogress; [done|]. destruct Hc as [->|Hc]; [by eapply ucons_there|done]. }
  - intros j k p r Hj Hk Hp Hq. apply (inv_inside s Hr j p Hj) in Hp.
    apply (inv_inside s Hr k r Hk) in Hq. split; [congruence|].
    destruct (kinside (cons s)) eqn:E; [|done]. apply (inv_cons s Hr) in E. congruence.
  - eexists. split; [apply (inv_said s Hr)|].
    destruct (my_mutex s) as [[k|]|] eqn:El.
    + destruct (lookup_lt_is_Some_2 (funcs s) k (inv_owner s Hr k El)) as [p Hk].
      rewrite (unprinted_held s k p Hr El Hk).
      destruct p; cbn; try (left; lia). right. split; [lia|by exists k].
    + rewrite (unprinted_free s Hr) by congruence. left. lia.
    + rewrite (unprinted_free s Hr) by congruence. left. lia.
Qed.

(** The first thread has been created. *)
Lemma sem_usage_counts_witness :
  let s := Usage 0 None [ULock] None [] in
  (∀ j k p r, funcs s !! j = Some p → funcs s !! k = Some r →
     uinside p = true → uinside r = true → j = k ∧ kinside (cons s) = false) ∧
  (∃ m, recount 0 (said s) = Some m ∧
     (count s = m ∨ count s = m + 1 ∧ ∃ k, funcs s !! k = Some UPrint)%Z) ∧
  (false = false ∨ cons s ≠ Some KFailed → ∃ f, ustep false false false (Using s) f).
Proof.
  apply (sem_usage_counts true false false). apply rtc_once. apply (ustep_create_func _ _ _ 0 None []).
  unfold FUNCS. cbn. lia.
Defined.

(** The loops have no end but the overflow of [count]. *)
Lemma sem_usage_overflows : reachable (ustep false false false) ustart Overflowed.
Proof.
  destruct (counts_to false false false (Z.to_nat INT_MAX)) as [o Hr]; [rewrite Z2Nat.id; unfold INT_MAX; lia|].
  rewrite Z2Nat.id in Hr by (unfold INT_MAX; lia).
  etrans; [exact Hr|]. etrans; [apply cons_round|].
  eapply rtc_l; [by apply (ustep_relock _ _ _ 0)|]. apply rtc_once. by apply (ustep_overflow _ _ _ 0).
Qed.

(** A first thread that cannot be created is reported, and joined all the same. *)
Lemma sem_usage_bad_join : reachable (ustep false true false) ustart BadJoin.
Proof.
  eapply rtc_l; [apply ustep_create_fails; [done|unfold FUNCS; cbn; lia]|].
  do 4 (eapply rtc_l; [apply ustep_create_func; unfold FUNCS; cbn; lia|]).
  eapply rtc_l; [by apply ustep_create_cons|]. apply rtc_once. by apply ustep_join_bad.
Qed.

(** The result of the creation of [cons_thread] is not tested: if it fails, the
    five threads wait and nobody is there to wake them. *)
Lemma sem_usage_no_cons :
  ∃ s, reachable (ustep false false true) ustart (Using s) ∧ funcs s = replicate FUNCS UWaiting ∧
    ∀ f, ¬ ustep false false true (Using s) f.
Proof.
  exists (Usage 0 None (replicate FUNCS UWaiting) (Some KFailed) []). split_and!; [|done|].
  - do 5 (eapply rtc_l; [apply ustep_create_func; unfold FUNCS; cbn; lia|]).
    eapply rtc_l; [by apply ustep_cons_fails|].
    eapply rtc_l; [by apply (ustep_lock _ _ _ 0)|]. eapply rtc_l; [by apply (ustep_wait _ _ _ 0)|].
    eapply rtc_l; [by apply (ustep_lock _ _ _ 1)|]. eapply rtc_l; [by apply (ustep_wait _ _ _ 1)|].
    eapply rtc_l; [by apply (ustep_lock _ _ _ 2)|]. eapply rtc_l; [by apply (ustep_wait _ _ _ 2)|].
    eapply rtc_l; [by apply (ustep_lock _ _ _ 3)|]. eapply rtc_l; [by apply (ustep_wait _ _ _ 3)|].
    eapply rtc_l; [by apply (ustep_lock _ _ _ 4)|]. apply rtc_once. by apply (ustep_wait _ _ _ 4).
  - intros f Hs. set (fs := replicate FUNCS UWaiting) in Hs.
    assert (Hall : ∀ k p, fs !! k = Some p → p = UWaiting).
    { intros k p Hk. by apply lookup_replicate in Hk as [? _]. }
    assert (Hl : length fs = FUNCS) by done. clearbody fs.
    inversion Hs; subst; try congruence; try lia;
      match goal with H : _ !! _ = Some _ |- _ => by apply Hall in H end.
Qed.
