(* ===== verification/Strings.v ===== *)
(** * Two programs on strings

    [src/reverse_string.c] (module [Reverse]): the reversal of a line in place
    by exchanges of characters with exclusive or, after [gets] has stored it.
    [src/Interview_Questions/MS/last_ten_lines.c] (module [LastLines]): the
    walk from the end of a text back over its last lines. *)
From Stdlib Require String Ascii.
From S2P Require Import Prelude CMem.

Local Open Scope Z_scope.

Module Reverse.

(** ** Operations *)

Definition STR_LEN : Z := 256.

(** The three exclusive ors on two characters of one string, each of which is
    read again for every use. *)
Definition swap (b : bytes) (s c : Z) : res bytes :=
  x ← rd b s; y ← rd b c; b ← wr b s (Z.lxor x y);
  x ← rd b s; y ← rd b c; b ← wr b c (Z.lxor x y);
  x ← rd b s; y ← rd b c; wr b s (Z.lxor x y).

(** [for (i = 0; i < len/2; i++)]. *)
Fixpoint reverse_loop (fuel : nat) (str : bytes) (i len : Z) : res bytes :=
  match fuel with
  | O => NoFuel
  | S f =>
      if i <? Z.quot len 2 then
        str ← swap str i (len - i - 1); reverse_loop f str (i + 1) len
      else Ok str
  end.

(** [gets] stores the whole line and the terminator. *)
Definition gets (str line : bytes) : res bytes := wr_bytes str 0 (line ++ [0]).

Section main.
Context `{Allocator}.

(** [main]: what is printed of the string typed in. *)
Definition reverse_main (fuel : nat) (line : bytes) : res bytes :=
  str ← memset (malloc 0 STR_LEN) 0 (Z.to_nat STR_LEN);
  str ← gets str line;
  len ← strlen str 0;
  str ← reverse_loop fuel str 0 len;
  cstring str 0.
End main.

Example reverse_abc : reverse_main (H := exact_allocator) 9 [97; 98; 99] = Ok [99; 98; 97].
Proof. vm_compute. reflexivity. Qed.

(** ** Laws *)

Lemma lxor_back x y : Z.lxor (Z.lxor x y) y = x.
Proof. by rewrite Z.lxor_assoc, Z.lxor_nilpotent, Z.lxor_0_r. Qed.

Lemma lxor_front x y : Z.lxor (Z.lxor x y) x = y.
Proof. by rewrite Z.lxor_comm, <- Z.lxor_assoc, Z.lxor_nilpotent, Z.lxor_0_l. Qed.

Lemma swap_app l x m y r i j :
  i = Z.of_nat (length l) → j = Z.of_nat (length l + 1 + length m) →
  swap (l ++ x :: m ++ y :: r) i j = Ok (l ++ y :: m ++ x :: r).
Proof.
  intros Hi Hj.
  assert (Rd1 : ∀ x y, rd (l ++ x :: m ++ y :: r) i = Ok x) by (intros; by apply rd_app).
  assert (Rd2 : ∀ x y, rd (l ++ x :: m ++ y :: r) j = Ok y).
  { intros x' y'. replace (l ++ x' :: m ++ y' :: r) with ((l ++ x' :: m) ++ y' :: r) by (by lnorm).
    apply rd_app. len. }
  assert (Wr1 : ∀ x y v, wr (l ++ x :: m ++ y :: r) i v = Ok (l ++ v :: m ++ y :: r))
    by (intros; by apply wr_app).
  assert (Wr2 : ∀ x y v, wr (l ++ x :: m ++ y :: r) j v = Ok (l ++ x :: m ++ v :: r)).
  { intros x' y' v. replace (l ++ x' :: m ++ y' :: r) with ((l ++ x' :: m) ++ y' :: r) by (by lnorm).
    rewrite wr_app by len. by lnorm. }
  unfold swap. rewrite Rd1, Rd2. cbn [mbind res_bind]. rewrite Wr1. cbn [mbind res_bind].
  rewrite Rd1, Rd2. cbn [mbind res_bind]. rewrite Wr2, lxor_back. cbn [mbind res_bind].
  rewrite Rd1, Rd2. cbn [mbind res_bind]. by rewrite Wr1, lxor_front.
Qed.

(** The loop on what is left of the string between two finished parts. *)
Lemma reverse_run n : ∀ m l r rest fuel,
  length m = n → length l = length r → (n < fuel)%nat →
  reverse_loop fuel (l ++ m ++ r ++ rest) (Z.of_nat (length l))
    (Z.of_nat (length l + length m + length r)) = Ok (l ++ rev m ++ r ++ rest).
Proof.
  induction n as [n IH] using lt_wf_ind. intros m l r rest [|f] Hm Hlr Hf; [lia|].
  cbn [reverse_loop]. set (len := Z.of_nat (length l + length m + length r)).
  assert (Hq : Z.quot len 2 = len / 2) by (apply Z.quot_div_nonneg; unfold len; lia).
  rewrite Hq. clear Hq. destruct m as [|x m].
  { assert (Hc : len / 2 <= Z.of_nat (length l)) by (unfold len; cbn [length]; dm_lia).
    by rewrite (proj2 (Z.ltb_ge _ _) Hc). }
  destruct m as [|y m _] using rev_ind.
  { assert (Hc : len / 2 <= Z.of_nat (length l)) by (unfold len; cbn [length]; dm_lia).
    by rewrite (proj2 (Z.ltb_ge _ _) Hc). }
  assert (Hc : Z.of_nat (length l) < len / 2).
  { unfold len. cbn [length]. rewrite length_app. cbn [length]. dm_lia. }
  rewrite (proj2 (Z.ltb_lt _ _) Hc).
  assert (Hs : swap (l ++ (x :: m ++ [y]) ++ r ++ rest) (Z.of_nat (length l))
    (len - Z.of_nat (length l) - 1) = Ok ((l ++ [y]) ++ m ++ (x :: r) ++ rest)).
  { replace (l ++ (x :: m ++ [y]) ++ r ++ rest) with (l ++ x :: m ++ y :: r ++ rest) by (by lnorm).
    rewrite swap_app; [by lnorm|done|].
    unfold len. cbn [length]. rewrite length_app. cbn [length]. lia. }
  step Hs. cbn [length] in Hm. rewrite length_app in Hm. cbn [length] in Hm.
  pose proof (IH (length m) ltac:(lia) m (l ++ [y]) (x :: r) rest f eq_refl) as Hi.
  rewrite length_app in Hi. cbn [length] in Hi.
  replace (Z.of_nat (length l) + 1) with (Z.of_nat (length l + 1)) by lia.
  replace len with (Z.of_nat (length l + 1 + length m + S (length r)))
    by (unfold len; cbn [length]; rewrite length_app; cbn [length]; lia).
  rewrite Hi by lia. cbn [rev]. rewrite rev_app_distr. cbn [rev app]. by lnorm.
Qed.

(** ** Property *)

(** C36 (functional): a line of at most 255 characters is printed reversed,
    whatever block [malloc] returned; a line that does not fit the block is
    stored past its end by [gets]. *)
Theorem reverse_spec `{Allocator} line fuel :
  nonzero line → (length line < fuel)%nat →
  ((length line <= 255)%nat → reverse_main fuel line = Ok (rev line)) ∧
  ((length (malloc 0 STR_LEN) <= length line)%nat → reverse_main fuel line = UB OutOfBounds).
Proof.
  intros Hnz Hf. pose proof (malloc_size 0 STR_LEN) as Hsz. unfold STR_LEN in Hsz.
  unfold reverse_main. pose proof (wr_bytes_head (replicate 256 0) (malloc 0 STR_LEN)) as Hms.
  rewrite length_replicate in Hms. specialize (Hms ltac:(unfold STR_LEN; lia)).
  change (memset (malloc 0 STR_LEN) 0 (Z.to_nat STR_LEN))
    with (wr_bytes (malloc 0 STR_LEN) 0 (replicate 256 0)).
  pose proof (wr_bytes_length _ _ _ _ Hms) as Hlen. step Hms.
  set (b := replicate 256 0 ++ drop 256 (malloc 0 STR_LEN)) in *. clearbody b.
  unfold gets. split; intros Hl.
  - rewrite wr_bytes_head by (rewrite length_app; unfold STR_LEN in *; cbn; lia).
    cbn [mbind res_bind]. rewrite <- app_assoc. cbn [app].
    step (strlen_head line (drop (length (line ++ [0])) b) Hnz).
    pose proof (reverse_run (length line) line [] [] (0 :: drop (length (line ++ [0])) b) fuel
      eq_refl eq_refl Hf) as Hr.
    cbn [app length] in Hr. rewrite Nat.add_0_l, Nat.add_0_r in Hr. step Hr.
    apply cstring_head. by apply Forall_rev.
  - rewrite wr_bytes_oob; [done|done| |lia]. rewrite length_app. cbn. lia.
Qed.

Lemma reverse_spec_witness :
  ((length [97; 98; 99] <= 255)%nat →
     reverse_main (H := glibc_allocator) 9 [97; 98; 99] = Ok [99; 98; 97]) ∧
  ((length (malloc (Allocator := glibc_allocator) 0 STR_LEN) <= length [97; 98; 99])%nat →
     reverse_main (H := glibc_allocator) 9 [97; 98; 99] = UB OutOfBounds).
Proof.
  apply (reverse_spec (H := glibc_allocator) [97; 98; 99] 9); [|simpl; lia].
  repeat constructor; done.
Defined.
End Reverse.

Module LastLines.
Import Stdlib.Strings.String Stdlib.Strings.Ascii.

(** ** Operations *)

Definition DELIM : Z := 10.

(** The characters of a line of the text, and its end. *)
Definition line_of (s : string) : bytes :=
  ((λ a, Z.of_N (N_of_ascii a)) <$> list_ascii_of_string s) ++ [DELIM].

Definition text : list bytes := line_of <$>
  ["This is a new line"; "This is a part of docs that are of no use"; "And then blah blah";
   "And then blah blah 2"; "And then blah blah 3"; "And then blah blah 4";
   "And then blah blah 5"]%string.

(** The string literal, with its terminator. *)
Definition str : bytes := List.concat text ++ [0].

(** [strrchr]: the last place of a character before the terminator. *)
Fixpoint strrchr (b : bytes) (c i : Z) (found : option Z) : res (option Z) :=
  match b with
  | [] => UB OutOfBounds
  | x :: b' =>
      let found := if x =? c then Some i else found in
      if x =? 0 then Ok found else strrchr b' c (i + 1) found
  end.

(** [while (n >= 0)]: the place at which the walk stops. *)
Fixpoint walk (fuel : nat) (last_ptr n : Z) : res Z :=
  match fuel with
  | O => NoFuel
  | S f =>
      if n >=? 0 then
        c ← rd str last_ptr;
        if c =? DELIM then walk f (last_ptr - 1 - 1) (n - 1) else walk f (last_ptr - 1) n
      else Ok last_ptr
  end.

(** [main], given the number read by [scanf]: what follows the title. *)
Definition last_main (fuel : nat) (n : Z) : res bytes :=
  p ← strrchr str DELIM 0 None;
  match p with
  | None => UB NullDeref
  | Some last_ptr => last_ptr ← walk fuel last_ptr n; cstring str (last_ptr + 2)
  end.

(** ** Laws *)

(** A walk that leaves the text for some number leaves it for every larger one. *)
Lemma walk_more fuel : ∀ p n n',
  n <= n' → walk fuel p n = UB OutOfBounds → walk fuel p n' = UB OutOfBounds.
Proof.
  induction fuel as [|f IH]; intros p n n' Hn H; [done|]. cbn [walk] in *.
  rewrite Z.geb_leb in *. destruct (Z.leb_spec 0 n); [|done].
  rewrite (proj2 (Z.leb_le 0 n')) by lia.
  destruct (rd str p) as [c|e|]; [|by injection H as ->|done]. cbn [mbind res_bind] in *.
  destruct (c =? DELIM); [apply (IH _ (n - 1))|apply (IH _ n)]; done || lia.
Qed.

Lemma walk_fuel fuel : ∀ m p n r, (fuel <= m)%nat → walk fuel p n = r → r ≠ NoFuel → walk m p n = r.
Proof.
  induction fuel as [|f IH]; intros [|m] p n r Hm <- Hr; try done; [lia|].
  cbn [walk] in *. destruct (n >=? 0); [|done].
  destruct (rd str p) as [c|e|]; [|done|done]. cbn [mbind res_bind] in *.
  destruct (c =? DELIM); (apply IH; [lia|done|done]).
Qed.

Lemma last_start : strrchr str DELIM 0 None = Ok (Some 163).
Proof. vm_compute. reflexivity. Qed.

(** ** Property *)

(** C37 (bounds): asked for [n] of the seven lines, the program prints the end
    of the line before them and then the last [n] lines; asked for all seven or
    for more it reads before the text, and asked for a negative number it reads
    past the terminator. *)
Theorem last_lines_spec n fuel :
  (200 <= fuel)%nat →
  (0 <= n <= 6 → last_main fuel n = Ok (DELIM :: List.concat (drop (7 - Z.to_nat n) text))) ∧
  (7 <= n ∨ n < 0 → last_main fuel n = UB OutOfBounds).
Proof.
  intros Hf. unfold last_main. rewrite last_start. cbn [mbind res_bind].
  assert (Hw : ∀ k r, walk 200 163 k = r → r ≠ NoFuel → walk fuel 163 k = r).
  { intros k r Hr. by apply walk_fuel with 200%nat. }
  split.
  - intros Hn. assert (Hc : n = 0 ∨ n = 1 ∨ n = 2 ∨ n = 3 ∨ n = 4 ∨ n = 5 ∨ n = 6) by lia.
    decompose [or] Hc; subst n; (erewrite Hw; [|vm_compute; reflexivity|done]);
      vm_compute; reflexivity.
  - intros [Hn|Hn].
    + erewrite walk_more; [done|exact Hn|]. apply Hw; [|done]. vm_compute. reflexivity.
    + destruct fuel as [|f]; [lia|]. cbn [walk]. rewrite Z.geb_leb, (proj2 (Z.leb_gt _ _) Hn).
      vm_compute. reflexivity.
Qed.

Lemma last_lines_spec_witness :
  (0 <= 2 <= 6 → last_main 300 2 = Ok (DELIM :: List.concat (drop (7 - Z.to_nat 2) text))) ∧
  (7 <= 2 ∨ 2 < 0 → last_main 300 2 = UB OutOfBounds).
Proof. apply (last_lines_spec 2 300). lia. Defined.
End LastLines.
