(* ===== verification/Small.v ===== *)
(** * Three demonstrations

    [src/data_struct/helloworld.c] prints a line; [src/endianchk.c] looks at the
    first byte of an [unsigned int]; [src/void_ptr_usage.c] keeps the address of
    a function and then that of an [int] in one [void *]. *)
From S2P Require Import Prelude CMem.

Local Open Scope Z_scope.

Module Greeting.

(** The line, and the value of [main] at its closing brace. *)
Definition main : prog (list bytes) Z :=
  _ ← emit [72; 101; 108; 108; 111; 32; 119; 111; 114; 108; 100; 10];
  mret 0.

End Greeting.

Module Endian.

(** The byte order and the size of [int] are those of the machine. *)
Inductive order := LittleEndian | BigEndian.

Definition store_uint (ord : order) (sizeof_int : nat) (v : Z) : bytes :=
  match ord with
  | LittleEndian => le_bytes sizeof_int v
  | BigEndian => rev (le_bytes sizeof_int v)
  end.

(** The lines of the program. *)
Inductive line := SizeofInt (n : nat) | Little | Big | OnlyGodKnows.

Definition main (ord : order) (sizeof_int : nat) : res (list line) :=
  let i := store_uint ord sizeof_int 258 in
  c ← rd i 0;
  mret [SizeofInt sizeof_int;
        if s8 c =? 2 then Little else if s8 c =? 1 then Big else OnlyGodKnows].

Lemma le_bytes_zero n : le_bytes n 0 = replicate n 0.
Proof. induction n as [|n IH]; [done|]. cbn. by rewrite <- IH. Qed.

Lemma le_bytes_258 n : (2 <= n)%nat → le_bytes n 258 = 2 :: 1 :: replicate (n - 2) 0.
Proof.
  intros Hn. destruct n as [|[|n]]; [lia..|]. replace (S (S n) - 2)%nat with n by lia.
  rewrite <- le_bytes_zero. done.
Qed.

(** On a little-endian machine the program says so for every
    size of [int]; on a big-endian one it recognises the order only if an [int]
    has two bytes, because the byte it looks at is the highest one, which is 0
    for every greater size. *)
Theorem endianchk_spec n :
  (2 <= n)%nat →
  main LittleEndian n = Ok [SizeofInt n; Little] ∧
  main BigEndian n = Ok [SizeofInt n; if decide (n = 2%nat) then Big else OnlyGodKnows].
Proof.
  intros Hn. unfold main, store_uint. rewrite le_bytes_258 by done. split; [done|].
  destruct (decide (n = 2%nat)) as [->|Hne]; [done|].
  replace (n - 2)%nat with (S (n - 3)) by lia.
  rewrite replicate_S_end. cbn [rev]. rewrite rev_app_distr. done.
Qed.

(** The machines the repository is built on. *)
Lemma endianchk_spec_witness :
  main LittleEndian 4 = Ok [SizeofInt 4; Little] ∧
  main BigEndian 4 = Ok [SizeofInt 4; OnlyGodKnows].
Proof. apply (endianchk_spec 4). lia. Defined.

End Endian.

Module VoidPtr.

(** What [ptr] may point to: a function of two [int]s or an [int] object. *)
Inductive object := Function (f : Z → Z → res Z) | Int (v : Z).

Definition sum (a b : Z) : res Z := add_int a b.

(** The call through the cast, and the read through the other cast; an object
    of the wrong kind is no valid address for either. *)
Definition call (ptr : object) (a b : Z) : res Z :=
  match ptr with Function f => f a b | Int _ => UB OutOfBounds end.
Definition deref (ptr : object) : res Z :=
  match ptr with Int v => Ok v | Function _ => UB OutOfBounds end.

(** The two lines printed. *)
Definition main : res (list Z) :=
  let ptr := Function sum in
  a ← call ptr 2 3;
  let b := 10 in
  let ptr := Int b in
  v ← deref ptr;
  mret [a; v].

Lemma main_prints : main = Ok [5; 10].
Proof. reflexivity. Qed.

(** [sum] is the sum of any two [int]s where that is an [int]. *)
Lemma sum_cases a b :
  sum a b = if decide (INT_MIN <= a + b <= INT_MAX) then Ok (a + b) else UB SignedOverflow.
Proof.
  unfold sum. case_decide as H; [by apply add_int_ok|]. unfold add_int, int_ok.
  destruct (_ && _) eqn:E; [|done]. bhyps. by destruct H.
Qed.

End VoidPtr.
